(** * Manifold: the resumable provisioning orchestrator

    A shallow embedding of the TypeScript sources of Manifold
    (auth.ts, state.ts, provision.ts, deploy.ts, manifold.ts) and the
    properties of its design document that can be settled on them.

    Conventions of the embedding.
    - A JavaScript string is a [string]: a sequence of code units below 256.
      Case mapping and the whitespace class are those of JavaScript on
      that range.
    - A regular expression literal is a term of [Regex.regex], run by a
      backtracking matcher with JavaScript's priorities (leftmost start,
      first alternative first, greedy quantifiers).
    - [async] functions are run to completion one after the other, as the
      sources await every call; an effect (child process, HTTP request,
      input box, file write) is answered by an environment that sees the
      whole history of effects, and is appended to that history.
    - A JavaScript object with a fixed set of scalar keys that is merged by
      spreading ([resources], [credentials]) is a finite map from key to
      value. *)

From Stdlib Require Import String Ascii List ZArith Bool Lia DecimalString Sorted.
From stdpp Require Import base option list gmap strings.
Import ListNotations.
Local Open Scope string_scope.

(* ===================================================================== *)
(** ** JavaScript strings *)
(* ===================================================================== *)

Module Js.

Definition code (a : ascii) : nat := nat_of_ascii a.

Definition between (lo hi : nat) (a : ascii) : bool :=
  (lo <=? code a)%nat && (code a <=? hi)%nat.

(** WhiteSpace and LineTerminator code units below 256:
    TAB, LF, VT, FF, CR, SP, NBSP. *)
Definition is_space (a : ascii) : bool :=
  between 9 13 a || (code a =? 32)%nat || (code a =? 160)%nat.

Definition is_line_terminator (a : ascii) : bool :=
  (code a =? 10)%nat || (code a =? 13)%nat.

(** [String.prototype.toLowerCase] on one code unit: A-Z, and the
    Latin-1 capitals except the multiplication sign. *)
Definition lower (a : ascii) : ascii :=
  if between 65 90 a then ascii_of_nat (code a + 32)
  else if between 192 222 a && negb (code a =? 215)%nat
       then ascii_of_nat (code a + 32)
  else a.

(** The inverse mapping on ASCII letters, used by case-insensitive
    matching of ASCII patterns. *)
Definition upper (a : ascii) : ascii :=
  if between 97 122 a then ascii_of_nat (code a - 32) else a.

Fixpoint toLowerCase (s : string) : string :=
  match s with
  | EmptyString => EmptyString
  | String a s' => String (lower a) (toLowerCase s')
  end.

Fixpoint trimStart (s : string) : string :=
  match s with
  | String a s' => if is_space a then trimStart s' else s
  | EmptyString => EmptyString
  end.

Fixpoint rev_string (s acc : string) : string :=
  match s with
  | EmptyString => acc
  | String a s' => rev_string s' (String a acc)
  end.

Definition trimEnd (s : string) : string :=
  rev_string (trimStart (rev_string s EmptyString)) EmptyString.

(** [String.prototype.trim] *)
Definition trim (s : string) : string := trimEnd (trimStart s).

(** [Array.prototype.join] *)
Fixpoint join (sep : string) (l : list string) : string :=
  match l with
  | [] => EmptyString
  | [x] => x
  | x :: rest => x ++ sep ++ join sep rest
  end.

(** [String.prototype.startsWith] *)
Fixpoint startsWith (p s : string) : bool :=
  match p, s with
  | EmptyString, _ => true
  | String a p', String b s' => Ascii.eqb a b && startsWith p' s'
  | String _ _, EmptyString => false
  end.

(** Every code unit of the string satisfies [p]. *)
Fixpoint all_chars (p : ascii -> bool) (s : string) : bool :=
  match s with
  | EmptyString => true
  | String a s' => p a && all_chars p s'
  end.

(** The text of some lines, each followed by a line feed, and of some
    lines, each preceded by one: what [join] puts before and after a
    line. *)
Fixpoint lines_before (l : list string) : string :=
  match l with
  | [] => ""
  | x :: rest => x ++ String "010" (lines_before rest)
  end.

Fixpoint lines_after (l : list string) : string :=
  match l with
  | [] => ""
  | x :: rest => String "010" (x ++ lines_after rest)
  end.

(** [hay.includes(needle)], as a proposition. *)
Definition includes (needle hay : string) : Prop :=
  exists pre post, hay = pre ++ needle ++ post.

(** Truthiness of a string: the empty string is falsy. *)
Definition truthy (s : string) : bool :=
  match s with EmptyString => false | String _ _ => true end.

(** Truthiness of [string | null | undefined]. *)
Definition truthy_opt (o : option string) : bool :=
  match o with Some s => truthy s | None => false end.

(** [s.split(/\r?\n/)]: the pieces between line breaks, a line break
    being LF or CR LF. [cur] is the piece being read, reversed. *)
Fixpoint split_lines_from (cur : string) (s : string) : list string :=
  match s with
  | EmptyString => [rev_string cur EmptyString]
  | String a s' =>
      if (code a =? 10)%nat then rev_string cur EmptyString :: split_lines_from EmptyString s'
      else if (code a =? 13)%nat then
        match s' with
        | String b s'' =>
            if (code b =? 10)%nat
            then rev_string cur EmptyString :: split_lines_from EmptyString s''
            else split_lines_from (String a cur) s'
        | EmptyString => split_lines_from (String a cur) s'
        end
      else split_lines_from (String a cur) s'
  end.

Definition split_lines (s : string) : list string :=
  split_lines_from EmptyString s.

(** The first [n] code units: [s.slice(0, n)]. *)
Fixpoint take (n : nat) (s : string) : string :=
  match n, s with
  | S n', String a s' => String a (take n' s')
  | _, _ => EmptyString
  end.

(** [Array.prototype.pop] on an array kept in push order. *)
Definition pop {A} (l : list A) : option (A * list A) :=
  match rev l with
  | [] => None
  | x :: r => Some (x, rev r)
  end.

End Js.

(* ===================================================================== *)
(** ** Regular expressions *)
(* ===================================================================== *)

Module Regex.

(** A character class: a set of code units, possibly negated. *)
Record cls := Cls { negated : bool; member : ascii -> bool }.

Definition space : cls := Cls false Js.is_space.            (* \s *)
Definition nonspace : cls := Cls true Js.is_space.          (* [^\s] *)

(** The patterns of the sources: at most one capturing group, and
    starred or plussed sub-patterns are character classes. *)
Inductive regex :=
| Eps
| Chr (c : cls)
| Lit (s : string)
| Seq (r1 r2 : regex)
| Alt (r1 r2 : regex)
| Opt (r : regex)
| Star (c : cls)
| Plus (c : cls)
| Group (r : regex)
| Bol
| Eol.

Record flags := Flags { ignoreCase : bool; multiline : bool }.
Definition no_flags := Flags false false.
Definition flag_i := Flags true false.
Definition flag_im := Flags true true.

(** With the [i] flag a code unit matches a class when its canonical
    form is that of a member. *)
Definition in_cls (fl : flags) (c : cls) (a : ascii) : bool :=
  xorb (negated c)
       (member c a
        || (ignoreCase fl && (member c (Js.upper a) || member c (Js.lower a)))).

Definition chr_eq (fl : flags) (a b : ascii) : bool :=
  Ascii.eqb a b
  || (ignoreCase fl && Ascii.eqb (Js.upper a) (Js.upper b)).

Section Matcher.
Context {R : Type}.

(** A continuation receives the code unit before the position reached,
    the number of code units consumed since the start of the attempt,
    and the text that remains. *)

(** Greedy iteration of a class: the longest run first, then shorter. *)
Fixpoint star (p : ascii -> bool) (prev : option ascii) (n : nat) (s : string)
         (k : option ascii -> nat -> string -> option R) : option R :=
  match s with
  | String a s' =>
      if p a then
        match star p (Some a) (S n) s' k with
        | Some r => Some r
        | None => k prev n s
        end
      else k prev n s
  | EmptyString => k prev n s
  end.

Fixpoint lit (fl : flags) (l : string) (prev : option ascii) (n : nat) (s : string)
         (k : option ascii -> nat -> string -> option R) : option R :=
  match l with
  | EmptyString => k prev n s
  | String a l' =>
      match s with
      | String b s' => if chr_eq fl a b then lit fl l' (Some b) (S n) s' k else None
      | EmptyString => None
      end
  end.

(** [run fl r prev n s cap k]: match [r] at the front of [s], [prev]
    being the code unit before it and [n] the number of code units
    already consumed; [cap] is the text of group 1. *)
Fixpoint run (fl : flags) (r : regex) (prev : option ascii) (n : nat) (s : string)
         (cap : option string)
         (k : option ascii -> nat -> string -> option string -> option R) : option R :=
  match r with
  | Eps => k prev n s cap
  | Chr c =>
      match s with
      | String a s' => if in_cls fl c a then k (Some a) (S n) s' cap else None
      | EmptyString => None
      end
  | Lit l => lit fl l prev n s (fun prev' n' s' => k prev' n' s' cap)
  | Seq r1 r2 =>
      run fl r1 prev n s cap (fun prev' n' s' cap' => run fl r2 prev' n' s' cap' k)
  | Alt r1 r2 =>
      match run fl r1 prev n s cap k with
      | Some x => Some x
      | None => run fl r2 prev n s cap k
      end
  | Opt r1 =>
      match run fl r1 prev n s cap k with
      | Some x => Some x
      | None => k prev n s cap
      end
  | Star c => star (in_cls fl c) prev n s (fun prev' n' s' => k prev' n' s' cap)
  | Plus c =>
      match s with
      | String a s' =>
          if in_cls fl c a
          then star (in_cls fl c) (Some a) (S n) s'
                    (fun prev' n' s' => k prev' n' s' cap)
          else None
      | EmptyString => None
      end
  | Group r1 =>
      run fl r1 prev n s cap
          (fun prev' n' s' _ => k prev' n' s' (Some (Js.take (n' - n) s)))
  | Bol =>
      match prev with
      | None => k prev n s cap
      | Some a =>
          if multiline fl && Js.is_line_terminator a then k prev n s cap else None
      end
  | Eol =>
      match s with
      | EmptyString => k prev n s cap
      | String a _ =>
          if multiline fl && Js.is_line_terminator a then k prev n s cap else None
      end
  end.
End Matcher.

(** The result of [String.prototype.match] without the [g] flag:
    the matched text and the text of group 1. *)
Record found := Found { whole : string; group1 : option string }.

Definition at_front (fl : flags) (r : regex) (prev : option ascii) (s : string)
  : option found :=
  run fl r prev 0 s None (fun _ n _ cap => Some (Found (Js.take n s) cap)).

(** Leftmost match: try every start position in turn. *)
Fixpoint search_from (fl : flags) (r : regex) (prev : option ascii) (s : string)
  : option found :=
  match at_front fl r prev s with
  | Some f => Some f
  | None =>
      match s with
      | String a s' => search_from fl r (Some a) s'
      | EmptyString => None
      end
  end.

Definition exec (fl : flags) (r : regex) (s : string) : option found :=
  search_from fl r None s.

(** No code unit of the literal matches a line feed. *)
Definition newline_free (fl : flags) (l : string) : bool :=
  Js.all_chars (fun c => negb (chr_eq fl c "010"%char)) l.

(** [RegExp.prototype.test] *)
Definition test (fl : flags) (r : regex) (s : string) : bool :=
  match exec fl r s with Some _ => true | None => false end.

(** [a|b|c|...] *)
Fixpoint alts (l : list regex) : regex :=
  match l with
  | [] => Eps
  | [r] => r
  | r :: rest => Alt r (alts rest)
  end.

Fixpoint seqs (l : list regex) : regex :=
  match l with
  | [] => Eps
  | [r] => r
  | r :: rest => Seq r (seqs rest)
  end.

End Regex.

(* ===================================================================== *)
(** ** The command runner: argument quoting (auth.ts, provision.ts,
       deploy.ts, start.ts all carry the same copy) *)
(* ===================================================================== *)

Module Runner.
Import Regex.

(** [[a-zA-Z0-9._:/\\-]]: the class of the source also holds the
    backslash. *)
Definition safe_char (a : ascii) : bool :=
  Js.between 97 122 a || Js.between 65 90 a || Js.between 48 57 a
  || Ascii.eqb a "." || Ascii.eqb a "_" || Ascii.eqb a ":" || Ascii.eqb a "/"
  || Ascii.eqb a "092" || Ascii.eqb a "-".

(** The class as the design document writes it, [[A-Za-z0-9._:/-]]:
    used only to compare with [safe_char]. *)
Definition spec_safe_char (a : ascii) : bool :=
  Js.between 65 90 a || Js.between 97 122 a || Js.between 48 57 a
  || Ascii.eqb a "." || Ascii.eqb a "_" || Ascii.eqb a ":" || Ascii.eqb a "/"
  || Ascii.eqb a "-".

(** [/^[a-zA-Z0-9._:/\\-]+$/] *)
Definition re_safe_arg : regex :=
  seqs [Bol; Plus (Cls false safe_char); Eol].

(** The double quote, code unit 34. *)
Definition dquote : ascii := "034"%char.
Definition backslash : ascii := "092"%char.

(** The global replace of the quoting: every double quote becomes
    backslash, double quote. *)
Fixpoint escape_quotes (s : string) : string :=
  match s with
  | EmptyString => EmptyString
  | String a s' =>
      if Ascii.eqb a dquote
      then String backslash (String dquote (escape_quotes s'))
      else String a (escape_quotes s')
  end.

Definition dq : string := String dquote EmptyString.

Definition quoteArg (arg : string) : string :=
  if test no_flags re_safe_arg arg then arg
  else dq ++ escape_quotes arg ++ dq.

End Runner.

(* ===================================================================== *)
(** ** The run state and its store (state.ts) *)
(* ===================================================================== *)

Module State.

Inductive RunStatus := in_progress | complete | failed | paused_at_auth.
Inductive BackendStack := flask | fastapi | django.
Inductive FrontendStack := react_vite.

Record Stack := { frontend : FrontendStack; backend : BackendStack }.
Record Config := { project_name : string; stack : Stack }.

(** [string | null] fields of an object merged by spreading: the key
    may be absent, hold null ([None]) or hold a string. *)
Abbreviation Fields := (gmap string (option string)).

Record ManifoldState := {
  status : RunStatus;
  state_version : Z;
  run_id : string;
  current_phase : string;
  config : Config;
  resources : Fields;
  credentials : Fields;
  rollback_stack : list string
}.

(** [obj.key]: an absent key reads as undefined, which like null is
    [None]. *)
Definition field (m : Fields) (k : string) : option string :=
  match m !! k with
  | Some v => v
  | None => None
  end.

Record StackPatch := {
  p_frontend : option FrontendStack;
  p_backend : option BackendStack
}.

Record ConfigPatch := {
  p_project_name : option string;
  p_stack : option StackPatch
}.

Record ManifoldStatePatch := {
  p_status : option RunStatus;
  p_state_version : option Z;
  p_run_id : option string;
  p_current_phase : option string;
  p_config : option ConfigPatch;
  p_resources : option Fields;
  p_credentials : option Fields;
  p_rollback_stack : option (list string)
}.

(** [{ ...a, ...b }] on objects with scalar values: the keys of [b]
    win. *)
Definition spread (a b : Fields) : Fields := b ∪ a.

(** [x ?? y] *)
Definition nullish {A} (x : option A) (y : A) : A :=
  match x with Some v => v | None => y end.

Definition createDefaultState (now projectName : string) (backend : BackendStack)
  : ManifoldState :=
  {| status := in_progress;
     state_version := 1;
     run_id := now;
     current_phase := "0_env_check";
     config := {| project_name := projectName;
                  stack := {| frontend := react_vite; backend := backend |} |};
     resources := {[ "github_repo" := None;
                     "vercel_project_id" := None;
                     "supabase_ref" := None ]};
     credentials := {[ "vercel_token" := None;
                       "supabase_access_token" := None;
                       "supabase_url" := None;
                       "supabase_publishable_key" := None ]};
     rollback_stack := [] |}.

(** The object built by [StateManager.patch] from the state read and
    the patch. *)
Definition merge (current : ManifoldState) (patch : ManifoldStatePatch)
  : ManifoldState :=
  let pc := patch.(p_config) in
  let ps := match pc with Some c => c.(p_stack) | None => None end in
  {| status := nullish patch.(p_status) current.(status);
     state_version := nullish patch.(p_state_version) current.(state_version);
     run_id := nullish patch.(p_run_id) current.(run_id);
     current_phase := nullish patch.(p_current_phase) current.(current_phase);
     config :=
       {| project_name :=
            nullish (match pc with Some c => c.(p_project_name) | None => None end)
                    current.(config).(project_name);
          stack :=
            {| frontend :=
                 nullish (match ps with Some s => s.(p_frontend) | None => None end)
                         current.(config).(stack).(frontend);
               backend :=
                 nullish (match ps with Some s => s.(p_backend) | None => None end)
                         current.(config).(stack).(backend) |} |};
     resources :=
       spread current.(resources) (nullish patch.(p_resources) ∅);
     credentials :=
       spread current.(credentials) (nullish patch.(p_credentials) ∅);
     rollback_stack := nullish patch.(p_rollback_stack) current.(rollback_stack) |}.

End State.

(* ===================================================================== *)
(** ** Effects: the environment, the history, exceptions *)
(* ===================================================================== *)

Module World.
Import State.

(** [child_process.exec(line, { cwd, timeout, env })] *)
Record ExecRequest := {
  line : string;
  cwd : option string;
  timeout : N;
  extraEnv : list (string * string)
}.

(** What the callback of [exec] receives: whether [error] is set, and
    stdout followed by stderr. *)
Record ExecReply := { error : bool; out : string }.

Record HttpRequest := {
  protocol : string;
  hostname : string;
  path : string;
  headers : list (string * string)
}.

(** A response reaches its end with a status code (possibly undefined)
    and a body, or the request emits an error with a message. *)
Inductive HttpReply :=
| HttpResponse (statusCode : option nat) (body : string)
| HttpError (message : string).

Record ToolCheckResult := { tool : string; tool_ok : bool; tool_output : string }.
Record EnvCheckReport := { platform : string; tools : list ToolCheckResult }.

Record InstallStep := { step : string; step_ok : bool }.
Record ScaffoldResult := {
  root : string;
  created : list string;
  installs : list InstallStep
}.

(** The part of a parsed [URL] the sources read. *)
Record Url := { url_protocol : string; url_hostname : string }.

Inductive Event :=
| EvExec (req : ExecRequest) (reply : ExecReply)
| EvHttp (req : HttpRequest) (reply : HttpReply)
| EvInputBox (title : string) (answer : option string)
| EvEnvironmentChecks
| EvInstallTool (tool : string)
| EvScaffold (workspaceRoot projectName : string)
| EvWireEnvironment (projectRoot supabaseUrl supabasePublishableKey
                     githubRepo vercelProjectId : string)
| EvSecretDelete (key : string)
| EvPersist (state : ManifoldState)
| EvRemoveStateFile.

(** The collaborators outside the core. Each answer may depend on
    everything that happened before. [parseUrl] is the platform's
    [new URL(text)], [None] when it throws. [on_installTool] tells how
    an attempt to install a tool ends for the orchestrator: [None] when
    [installMissingTool] resolves, with whatever attempt, the message
    when it rejects (it does when the directory of the local
    installation cannot be made). *)
Record Env := {
  parseUrl : string -> option Url;
  on_exec : list Event -> ExecRequest -> ExecReply;
  on_http : list Event -> HttpRequest -> HttpReply;
  on_inputBox : list Event -> string -> option string;
  on_environmentChecks : list Event -> EnvCheckReport;
  on_scaffold : list Event -> string -> string -> ScaffoldResult;
  on_now : list Event -> string;
  on_installTool : list Event -> string -> option string
}.

(** The workspace: what has happened, and the state file: [Some s]
    when it holds the state object [s] with all its fields, as the
    state manager writes it; [None] when it is absent or does not
    parse. A file that parses to another value (such as [{}], which
    [read] hands on unchecked) is not a workspace of this model. *)
Record Sys := { history : list Event; file : option ManifoldState }.

Definition log (e : Event) (w : Sys) : Sys :=
  {| history := w.(history) ++ [e]; file := w.(file) |}.

(** The command lines handed to [exec] in a history, in order. *)
Definition executed (h : list Event) : list string :=
  flat_map (fun e => match e with
                     | EvExec req _ => [req.(line)]
                     | _ => []
                     end) h.

(** The command lines whose process exited without error. *)
Definition succeeded (h : list Event) : list string :=
  flat_map (fun e => match e with
                     | EvExec req reply => if reply.(error) then [] else [req.(line)]
                     | _ => []
                     end) h.

(** The writes of environment files in a history, in order. *)
Definition wirings (h : list Event) : list Event :=
  List.filter (fun e => match e with
                        | EvWireEnvironment _ _ _ _ _ => true
                        | _ => false
                        end) h.

(** The states written to the state file in a history, in order. *)
Definition persisted (h : list Event) : list ManifoldState :=
  flat_map (fun e => match e with
                     | EvPersist s => [s]
                     | _ => []
                     end) h.

(** How an awaited computation ends: it returns, it throws, or it
    never settles (a promise that is neither resolved nor rejected:
    whatever awaits it waits for ever). *)
Inductive Res (A : Type) :=
| Ok (a : A)
| Throw (message : string)
| Never.
Arguments Ok {A} a.
Arguments Throw {A} message.
Arguments Never {A}.

(** A computation over a state [St] that returns, throws or never
    settles. *)
Definition M (St A : Type) := St -> Res A * St.

Definition ret {St A} (a : A) : M St A := fun s => (Ok a, s).
Definition throw {St A} (msg : string) : M St A := fun s => (Throw msg, s).
Definition bind {St A B} (m : M St A) (f : A -> M St B) : M St B :=
  fun s =>
    match m s with
    | (Ok a, s') => f a s'
    | (Throw msg, s') => (Throw msg, s')
    | (Never, s') => (Never, s')
    end.
Definition try_catch {St A} (m : M St A) (handler : string -> M St A) : M St A :=
  fun s =>
    match m s with
    | (Ok a, s') => (Ok a, s')
    | (Throw msg, s') => handler msg s'
    | (Never, s') => (Never, s')
    end.
(** An async block that nobody awaits, inside the executor of a
    promise: when the block throws, [resolve] is never called, and the
    promise never settles. *)
Definition detached {St A} (m : M St A) : M St A :=
  fun s =>
    match m s with
    | (Throw _, s') => (Never, s')
    | settled => settled
    end.
Definition get {St} : M St St := fun s => (Ok s, s).
Definition modify {St} (f : St -> St) : M St unit := fun s => (Ok tt, f s).

Declare Scope monad_scope.
Delimit Scope monad_scope with monad.
Notation "x <- c1 ;; c2" := (bind c1 (fun x => c2))
  (at level 100, c1 at next level, right associativity) : monad_scope.
Notation "c1 ;;; c2" := (bind c1 (fun _ => c2))
  (at level 100, right associativity) : monad_scope.

End World.

(* ===================================================================== *)
(** ** The state manager (state.ts, class StateManager) *)
(* ===================================================================== *)

Module StateManager.
Import State World.
Local Open Scope monad_scope.

(** [read]: throws when the file is missing or does not parse. *)
Definition read : M Sys ManifoldState :=
  fun w =>
    match w.(file) with
    | Some s => (Ok s, w)
    | None => (Throw "state file missing or corrupt", w)
    end.

(** [writeAtomic]: temporary file, then rename over the state file. *)
Definition writeAtomic (state : ManifoldState) : M Sys unit :=
  fun w => (Ok tt, {| history := w.(history) ++ [EvPersist state];
                      file := Some state |}).

Definition ensureInitialized (env : Env) (projectName : option string)
           (backend : BackendStack) : M Sys ManifoldState :=
  try_catch read
    (fun _ =>
       w <- get ;;
       let fresh := createDefaultState (env.(on_now) w.(history))
                                       (nullish projectName "my-app") backend in
       writeAtomic fresh ;;;
       ret fresh).

Definition patch (p : ManifoldStatePatch) : M Sys ManifoldState :=
  current <- read ;;
  let next := merge current p in
  writeAtomic next ;;;
  ret next.

Definition reset : M Sys unit :=
  fun w => (Ok tt, {| history := w.(history) ++ [EvRemoveStateFile];
                      file := None |}).

End StateManager.

(* ===================================================================== *)
(** ** Running a command (the [run] helper of auth.ts and provision.ts) *)
(* ===================================================================== *)

Module Shell.
Import World.
Local Open Scope monad_scope.

Record CommandResult := { ok : bool; output : string }.

Definition exec (env : Env) (req : ExecRequest) : M Sys ExecReply :=
  fun w =>
    let reply := env.(on_exec) w.(history) req in
    (Ok reply, log (EvExec req reply) w).

(** [`${command} ${args.map(quoteArg).join(" ")}`.trim()] *)
Definition commandLine (command : string) (args : list string) : string :=
  Js.trim (command ++ " " ++ Js.join " " (map Runner.quoteArg args)).

Definition run (env : Env) (command : string) (args : list string)
           (cwd : option string) (timeoutMs : N) : M Sys CommandResult :=
  reply <- exec env {| line := commandLine command args; cwd := cwd;
                       timeout := timeoutMs; extraEnv := [] |} ;;
  ret {| ok := negb reply.(error); output := Js.trim reply.(out) |}.

End Shell.

(* ===================================================================== *)
(** ** The credential verifier (auth.ts) *)
(* ===================================================================== *)

Module Auth.
Import World.
Local Open Scope monad_scope.

Record AuthCheckResult := { ok : bool; output : string }.

Definition run (env : Env) (command : string) (args : list string)
  : M Sys AuthCheckResult :=
  r <- Shell.run env command args None 15000 ;;
  ret {| ok := r.(Shell.ok); output := r.(Shell.output) |}.

Definition checkGhAuthStatus (env : Env) := run env "gh" ["auth"; "status"].
Definition checkVercelWhoAmI (env : Env) := run env "vercel" ["whoami"].

Definition endsWith (suffix s : string) : bool :=
  Js.startsWith (Js.rev_string suffix EmptyString) (Js.rev_string s EmptyString).

(** [/^[a-z0-9]{20,}$/]: at least twenty code units, all of them
    lower-case letters or digits. *)
Definition is_project_ref (ref : string) : bool :=
  (20 <=? String.length ref)%nat
  && Js.all_chars (fun a => Js.between 97 122 a || Js.between 48 57 a) ref.

Definition parseSupabaseProjectRef (env : Env) (projectUrl : string)
  : option string :=
  match env.(parseUrl) projectUrl with
  | None => None
  | Some parsed =>
      if negb (String.eqb parsed.(url_protocol) "https:") then None
      else
        let host := Js.toLowerCase parsed.(url_hostname) in
        let suffix := ".supabase.co" in
        if negb (endsWith suffix host) then None
        else
          let ref :=
            Js.trim (Js.take (String.length host - String.length suffix) host) in
          if negb (is_project_ref ref) then None else Some ref
  end.

(** What [requestOnce] resolves to. [error] is the optional property:
    absent on a response, the error's message otherwise. *)
Record Probe := { status : nat; snippet : string; error : option string }.

(** The options [requestOnce] hands to [https.request]. *)
Definition probe_request (parsedUrl : Url) (publishableKey : string)
           (path : string) (withAuthorization : bool) : HttpRequest :=
  {| protocol := parsedUrl.(url_protocol);
     hostname := parsedUrl.(url_hostname);
     path := path;
     headers :=
       app [("apikey", publishableKey); ("Accept", "application/json")]
           (if withAuthorization
            then [("Authorization", "Bearer " ++ publishableKey)] else []) |}.

(** What [requestOnce] resolves to on a reply. *)
Definition probe_of (reply : HttpReply) : Probe :=
  match reply with
  | HttpResponse statusCode body =>
      {| status := State.nullish statusCode 0;
         snippet := Js.take 300 (Js.trim body);
         error := None |}
  | HttpError message =>
      {| status := 0; snippet := ""; error := Some message |}
  end.

(** [https.request] throws when the protocol it is handed is not
    [https:], before any request is made: the promise of [requestOnce]
    rejects. *)
Definition requestOnce (env : Env) (parsedUrl : Url) (publishableKey : string)
           (path : string) (withAuthorization : bool) : M Sys Probe :=
  fun w =>
    if negb (String.eqb parsedUrl.(url_protocol) "https:") then
      (Throw ("Protocol " ++ Runner.dq ++ parsedUrl.(url_protocol) ++ Runner.dq
              ++ " not supported. Expected " ++ Runner.dq ++ "https:" ++ Runner.dq),
       w)
    else
      let req := probe_request parsedUrl publishableKey path withAuthorization in
      let reply := env.(on_http) w.(history) req in
      (Ok (probe_of reply), log (EvHttp req reply) w).

Definition is_2xx (n : nat) : bool := (200 <=? n)%nat && (n <? 300)%nat.
Definition is_401_403 (n : nat) : bool := (n =? 401)%nat || (n =? 403)%nat.

Definition show_nat (n : nat) : string := NilZero.string_of_uint (Nat.to_uint n).

Definition msg_verified := "Supabase Project URL and Publishable API Key verified.".
Definition msg_reachable :=
  "Supabase project endpoint reachable and key accepted for gateway access.".

Definition verifySupabaseProjectApi (env : Env) (projectUrl publishableKey : string)
  : M Sys AuthCheckResult :=
  match env.(parseUrl) projectUrl with
  | None => ret {| ok := false; output := "Invalid Supabase Project URL." |}
  | Some parsedUrl =>
      detached (
      primary <- requestOnce env parsedUrl publishableKey "/auth/v1/settings" false ;;
      if Js.truthy_opt primary.(error) then
        ret {| ok := false;
               output := "Supabase Project API request failed: "
                         ++ State.nullish primary.(error) "" |}
      else if is_2xx primary.(status) then
        ret {| ok := true; output := msg_verified |}
      else if negb (is_401_403 primary.(status)) then
        ret {| ok := true; output := msg_reachable |}
      else
        fallback <- requestOnce env parsedUrl publishableKey "/rest/v1/" true ;;
        if Js.truthy_opt fallback.(error) then
          ret {| ok := false;
                 output := "Supabase Project API request failed: "
                           ++ State.nullish fallback.(error) "" |}
        else if is_2xx fallback.(status) then
          ret {| ok := true; output := msg_verified |}
        else if negb (is_401_403 fallback.(status)) then
          ret {| ok := true; output := msg_reachable |}
        else
          let reason :=
            if (0 <? String.length fallback.(snippet))%nat then fallback.(snippet)
            else if (0 <? String.length primary.(snippet))%nat then primary.(snippet)
            else "HTTP " ++ show_nat (if (fallback.(status) =? 0)%nat
                                      then primary.(status) else fallback.(status)) in
          ret {| ok := false;
                 output := "Supabase Project API verification failed: " ++ reason |})
  end.

End Auth.

(* ===================================================================== *)
(** ** The rollback manager and the resource provisioner (provision.ts) *)
(* ===================================================================== *)

Module Provision.
Import World.
Local Open Scope monad_scope.

Record ProvisionResult := {
  ok : bool;
  githubRepo : option string;
  vercelProjectId : option string;
  rollbackStack : list string;
  output : list string
}.

(** The two arrays that [runProvisioning] allocates and hands, by
    reference, to every helper: a helper's pushes are visible to the
    caller even when the helper throws. *)
Record Locals := {
  sys : Sys;
  outputArr : list string;
  rollbackArr : list string
}.

Definition lift {A} (m : M Sys A) : M Locals A :=
  fun l =>
    let '(r, w') := m l.(sys) in
    (r, {| sys := w'; outputArr := l.(outputArr); rollbackArr := l.(rollbackArr) |}).

(** [output.push(text)] *)
Definition push_output (text : string) : M Locals unit :=
  modify (fun l => {| sys := l.(sys);
                      outputArr := app l.(outputArr) [text];
                      rollbackArr := l.(rollbackArr) |}).

(** [rollbackStack.push(command)] *)
Definition push_rollback (command : string) : M Locals unit :=
  modify (fun l => {| sys := l.(sys);
                      outputArr := l.(outputArr);
                      rollbackArr := app l.(rollbackArr) [command] |}).

Definition set_rollback (stack : list string) : M Locals unit :=
  modify (fun l => {| sys := l.(sys);
                      outputArr := l.(outputArr);
                      rollbackArr := stack |}).

Definition run (env : Env) (command : string) (args : list string)
           (cwd : string) (timeoutMs : N) : M Locals Shell.CommandResult :=
  lift (Shell.run env command args (Some cwd) timeoutMs).

Definition default_timeout : N := 90000.

(** The loop of [runRollback]; each turn pops one command, so
    [length rollbackStack] turns empty the stack. *)
Fixpoint rollback_loop (env : Env) (cwd : string) (turns : nat) : M Locals unit :=
  match turns with
  | O => ret tt
  | S turns' =>
      l <- get ;;
      match Js.pop l.(rollbackArr) with
      | None => ret tt
      | Some (command, rest) =>
          set_rollback rest ;;;
          if negb (Js.truthy command) then rollback_loop env cwd turns'
          else
            reply <- lift (Shell.exec env {| line := command; cwd := Some cwd;
                                             timeout := 90000; extraEnv := [] |}) ;;
            let result := {| Shell.ok := negb reply.(error);
                             Shell.output := Js.trim reply.(out) |} in
            push_output ("rollback "
                         ++ (if result.(Shell.ok) then "✅" else "⚠️")
                         ++ ": " ++ command) ;;;
            (if Js.truthy result.(Shell.output)
             then push_output result.(Shell.output) else ret tt) ;;;
            rollback_loop env cwd turns'
      end
  end.

Definition runRollback (env : Env) (cwd : string) : M Locals unit :=
  l <- get ;;
  rollback_loop env cwd (length l.(rollbackArr)).

Definition ensureGitRepository (env : Env) (projectRoot : string) : M Locals unit :=
  check <- run env "git" ["rev-parse"; "--is-inside-work-tree"] projectRoot default_timeout ;;
  if check.(Shell.ok) then ret tt
  else
    init <- run env "git" ["init"] projectRoot default_timeout ;;
    if negb init.(Shell.ok)
    then throw ("Git initialization failed: " ++ init.(Shell.output))
    else
      setMain <- run env "git" ["branch"; "-M"; "main"] projectRoot default_timeout ;;
      (if negb setMain.(Shell.ok)
       then push_output ("warning: could not set default branch to main: "
                         ++ setMain.(Shell.output))
       else ret tt) ;;;
      push_output "git repository initialized for scaffolded project".

Definition ensureInitialCommit (env : Env) (projectRoot : string) : M Locals bool :=
  hasHead <- run env "git" ["rev-parse"; "--verify"; "HEAD"] projectRoot default_timeout ;;
  if hasHead.(Shell.ok) then ret true
  else
    addAll <- run env "git" ["add"; "."] projectRoot default_timeout ;;
    if negb addAll.(Shell.ok) then
      push_output ("warning: could not stage files for initial commit: "
                   ++ addAll.(Shell.output)) ;;;
      ret false
    else
      addBackend <- run env "git"
                        ["add"; "-f"; "supabase/functions/"; "supabase/config.toml";
                         "vercel.json"; "frontend/src/"; "frontend/package.json"]
                        projectRoot default_timeout ;;
      (if negb addBackend.(Shell.ok)
       then push_output ("warning: could not force-add source files: "
                         ++ addBackend.(Shell.output))
       else ret tt) ;;;
      commit <- run env "git" ["commit"; "-m"; "Initial scaffold"] projectRoot
                    default_timeout ;;
      if negb commit.(Shell.ok) then
        push_output ("warning: initial commit skipped: " ++ commit.(Shell.output)) ;;;
        ret false
      else
        push_output "initial git commit created" ;;;
        ret true.

(** [output.split(/\r?\n/).map((line) => line.trim()).find(Boolean) ?? ""] *)
Definition first_line (text : string) : string :=
  State.nullish
    (List.find Js.truthy (map Js.trim (Js.split_lines text)))
    "".

Definition gh_delete (fullRepo : string) : string :=
  "gh repo delete " ++ fullRepo ++ " --yes".

Definition vercel_rm (projectName : string) : string :=
  "vercel project rm " ++ projectName ++ " --yes".

Definition ensureGitHubRepo (env : Env) (projectName projectRoot : string)
  : M Locals string :=
  ensureGitRepository env projectRoot ;;;
  ownerResult <- run env "gh" ["api"; "user"; "--jq"; ".login"] projectRoot
                     default_timeout ;;
  if negb ownerResult.(Shell.ok)
     || (String.length ownerResult.(Shell.output) =? 0)%nat
  then throw ("Unable to resolve GitHub login: "
              ++ (if Js.truthy ownerResult.(Shell.output)
                  then ownerResult.(Shell.output) else "unknown error"))
  else
    let owner := first_line ownerResult.(Shell.output) in
    if negb (Js.truthy owner) then throw "Unable to resolve GitHub login."
    else
      let fullRepo := owner ++ "/" ++ projectName in
      repoExists <- run env "gh" ["repo"; "view"; fullRepo; "--json"; "name"]
                        projectRoot default_timeout ;;
      if repoExists.(Shell.ok) then
        push_output ("github repo exists: " ++ fullRepo) ;;;
        ret fullRepo
      else
        createRepo <- run env "gh"
                          ["repo"; "create"; projectName; "--private"; "--source";
                           "."; "--remote"; "origin"]
                          projectRoot 180000 ;;
        if negb createRepo.(Shell.ok)
        then throw ("GitHub repo creation failed: " ++ createRepo.(Shell.output))
        else
          push_output ("github repo created: " ++ fullRepo) ;;;
          push_rollback (gh_delete fullRepo) ;;;
          canPush <- ensureInitialCommit env projectRoot ;;
          (if canPush : bool then
             push <- run env "git" ["push"; "-u"; "origin"; "HEAD"] projectRoot 180000 ;;
             if negb push.(Shell.ok)
             then push_output ("warning: git push failed: " ++ push.(Shell.output))
             else push_output "git remote push completed"
           else ret tt) ;;;
          ret fullRepo.

(** [/already exists/i] and [/already linked|linked to/i] *)
Definition re_already_exists : Regex.regex := Regex.Lit "already exists".
Definition re_already_linked : Regex.regex :=
  Regex.Alt (Regex.Lit "already linked") (Regex.Lit "linked to").

Definition ensureVercelProject (env : Env) (projectName projectRoot : string)
  : M Locals string :=
  inspect <- run env "vercel" ["project"; "inspect"; projectName] projectRoot
                 default_timeout ;;
  created <-
    (if negb inspect.(Shell.ok) then
       add <- run env "vercel" ["project"; "add"; projectName] projectRoot 180000 ;;
       if negb add.(Shell.ok)
          && negb (Regex.test Regex.flag_i re_already_exists add.(Shell.output))
       then throw ("Vercel project creation failed: " ++ add.(Shell.output))
       else
         let created :=
           negb (Regex.test Regex.flag_i re_already_exists add.(Shell.output)) in
         push_output (if created
                      then "vercel project created: " ++ projectName
                      else "vercel project exists: " ++ projectName) ;;;
         ret created
     else
       push_output ("vercel project exists: " ++ projectName) ;;;
       ret false) ;;
  link <- run env "vercel" ["link"; "--yes"; "--project"; projectName] projectRoot
              180000 ;;
  if negb link.(Shell.ok)
     && negb (Regex.test Regex.flag_i re_already_linked link.(Shell.output))
  then throw ("Vercel link failed: " ++ link.(Shell.output))
  else
    push_output ("vercel project linked to " ++ projectRoot) ;;;
    (if created : bool then push_rollback (vercel_rm projectName) else ret tt) ;;;
    ret projectName.

Definition runProvisioning (env : Env) (projectRoot projectName : string)
  : M Sys ProvisionResult :=
  fun w =>
    let fresh := {| sys := w; outputArr := []; rollbackArr := [] |} in
    match (githubRepo <- ensureGitHubRepo env projectName projectRoot ;;
           vercelProjectId <- ensureVercelProject env projectName projectRoot ;;
           ret (githubRepo, vercelProjectId)) fresh with
    | (Ok (githubRepo, vercelProjectId), l) =>
        (Ok {| ok := true;
               githubRepo := Some githubRepo;
               vercelProjectId := Some vercelProjectId;
               rollbackStack := l.(rollbackArr);
               output := l.(outputArr) |}, l.(sys))
    | (Throw message, l) =>
        let l' := snd ((push_output message ;;; runRollback env projectRoot) l) in
        (Ok {| ok := false;
               githubRepo := None;
               vercelProjectId := None;
               rollbackStack := l'.(rollbackArr);
               output := l'.(outputArr) |}, l'.(sys))
    | (Never, l) => (Never, l.(sys))
    end.

End Provision.

(* ===================================================================== *)
(** ** The deployment log analyzer and the deployment (deploy.ts) *)
(* ===================================================================== *)

Module Deploy.
Import World Regex.
Local Open Scope monad_scope.

Inductive ErrorType := build | env_error | config_error | network | unknown.

Record DeploymentError := {
  err_line : string;
  type : ErrorType;
  suggestion : string
}.

Record DeploymentResult := {
  ok : bool;
  frontendUrl : option string;
  publicUrl : option string;
  backendUrl : option string;
  logs : list string;
  errors : list DeploymentError
}.

Definition lits (l : list string) : regex := alts (map Lit l).

(** [/error|failed|cannot find|not found|enoent/] *)
Definition re_failure : regex :=
  lits ["error"; "failed"; "cannot find"; "not found"; "enoent"].

(** [/error|failed|cannot find|not found|enoent|missing|undefined|null/] *)
Definition re_failure_line : regex :=
  lits ["error"; "failed"; "cannot find"; "not found"; "enoent";
        "missing"; "undefined"; "null"].

(** [/env|environment|secret|api[_-]key/] *)
Definition re_env : regex :=
  alts [Lit "env"; Lit "environment"; Lit "secret";
        seqs [Lit "api";
              Chr (Cls false (fun a => Ascii.eqb a "_" || Ascii.eqb a "-"));
              Lit "key"]].

(** [/build|compile|syntax|npm|python|module|package/] *)
Definition re_build : regex :=
  lits ["build"; "compile"; "syntax"; "npm"; "python"; "module"; "package"].

(** [/config|vercel\.json|next\.config/] *)
Definition re_config : regex := lits ["config"; "vercel.json"; "next.config"].

(** [/timeout|econnrefused|network|dns|connection/] *)
Definition re_network : regex :=
  lits ["timeout"; "econnrefused"; "network"; "dns"; "connection"].

Definition classify (line : string) : ErrorType * string :=
  let lower := Js.toLowerCase line in
  if test no_flags re_env lower then
    (env_error,
     "Check that all required environment variables are set in Vercel project settings.")
  else if test no_flags re_build lower then
    (build, "Run `npm run build` or `pip install` locally to debug build issues.")
  else if test no_flags re_config lower then
    (config_error,
     "Check your project configuration files (vercel.json, package.json, etc.).")
  else if test no_flags re_network lower then
    (network, "Check network connectivity and firewall rules for external API calls.")
  else (unknown, "Review the logs above and fix the issue, then redeploy.").

Definition LF : string := String "010" EmptyString.

Definition parseDeploymentLog (logs : list string) : list DeploymentError :=
  let text := Js.toLowerCase (Js.join LF logs) in
  if test no_flags re_failure text then
    let lines :=
      List.filter (fun line => test no_flags re_failure_line (Js.toLowerCase line))
                  logs in
    map (fun line =>
           let '(ty, hint) := classify line in
           {| err_line := line; type := ty; suggestion := hint |})
        (firstn 5 lines)
  else [].

(** [[a-z0-9-]] *)
Definition host_label : cls :=
  Cls false (fun a => Js.between 97 122 a || Js.between 48 57 a || Ascii.eqb a "-").

(** [https?:\/\/] *)
Definition re_scheme : regex := seqs [Lit "http"; Opt (Lit "s"); Lit "://"].

(** [/(?:https?:\/\/)?([a-z0-9-]+\.vercel\.app)/i] *)
Definition re_vercel_app : regex :=
  Seq (Opt re_scheme) (Group (Seq (Plus host_label) (Lit ".vercel.app"))).

(** [/(?:https?:\/\/)?([a-z0-9-]+\.web\.app)/i] *)
Definition re_web_app : regex :=
  Seq (Opt re_scheme) (Group (Seq (Plus host_label) (Lit ".web.app"))).

(** [/(?:production\s+)?url:?\s+(https?:\/\/[^\s]+)/i] *)
Definition re_url_label : regex :=
  seqs [Opt (Seq (Lit "production") (Plus space));
        Lit "url"; Opt (Lit ":"); Plus space;
        Group (Seq re_scheme (Plus nonspace))].

(** [/vercel\.app|web\.app/] *)
Definition re_known_host : regex := Alt (Lit "vercel.app") (Lit "web.app").

Definition urlPatterns : list regex := [re_vercel_app; re_web_app; re_url_label].

(** The loop of [extractDeploymentUrl] over the patterns. *)
Fixpoint first_candidate (text : string) (patterns : list regex) : option string :=
  match patterns with
  | [] => None
  | pattern :: rest =>
      match exec flag_i pattern text with
      | Some {| group1 := Some g |} =>
          if Js.truthy g then
            let candidate := if Js.startsWith "http" g then g else "https://" ++ g in
            if test no_flags re_known_host candidate then Some candidate
            else first_candidate text rest
          else first_candidate text rest
      | _ => first_candidate text rest
      end
  end.

Definition extractDeploymentUrl (logs : list string) : option string :=
  first_candidate (Js.join LF logs) urlPatterns.

(** [/Aliased:\s*(https?:\/\/[^\s]+)/i] *)
Definition re_aliased : regex :=
  seqs [Lit "Aliased:"; Star space; Group (Seq re_scheme (Plus nonspace))].

(** [/(?:^|\n)\s*https?:\/\/[^\s]*\.vercel\.app\s*$/im] *)
Definition re_ready : regex :=
  seqs [Alt Bol (Lit LF); Star space; re_scheme; Star nonspace;
        Lit ".vercel.app"; Star space; Eol].

Definition extractVercelPublicUrl (logs : list string) : option string :=
  let text := Js.join LF logs in
  let ready :=
    match exec flag_im re_ready text with
    | Some m => if Js.truthy m.(whole) then Some (Js.trim m.(whole)) else None
    | None => None
    end in
  match exec flag_i re_aliased text with
  | Some {| group1 := Some g |} => if Js.truthy g then Some g else ready
  | _ => ready
  end.

(** [combined.split(/\r?\n/).filter(Boolean)] *)
Definition output_lines (combined : string) : list string :=
  List.filter Js.truthy (Js.split_lines combined).

(** [path.join(projectRoot, "frontend")] *)
Definition frontend_dir (projectRoot : string) : string := projectRoot ++ "/frontend".

Record FrontendResult := {
  fe_ok : bool;
  fe_url : option string;
  fe_publicUrl : option string
}.

(** [x ?? y] on two nullable values *)
Definition orElse {A} (x y : option A) : option A :=
  match x with Some _ => x | None => y end.

(** The frontend deployment: [vercel deploy --prod --yes], with the
    token when there is one, run in the frontend directory. *)
Definition frontend_request (projectRoot : string) (vercelToken : option string)
  : ExecRequest :=
  let args :=
    app ["deploy"; "--prod"; "--yes"]
        (match vercelToken with
         | Some t => if Js.truthy t then ["--token=" ++ Runner.quoteArg t] else []
         | None => []
         end) in
  {| line := "vercel " ++ Js.join " " args;
     cwd := Some (frontend_dir projectRoot);
     timeout := 600000; extraEnv := [] |}.

(** The backend deployment, with the project reference and the access
    token (in the environment of the child process) when there are. *)
Definition backend_request (projectRoot : string)
           (supabaseAccessToken supabaseProjectRef : option string) : ExecRequest :=
  {| line := "npx supabase functions deploy api"
             ++ (match supabaseProjectRef with
                 | Some ref => if Js.truthy ref then " --project-ref " ++ ref else ""
                 | None => ""
                 end);
     cwd := Some projectRoot;
     timeout := 600000;
     extraEnv := match supabaseAccessToken with
                 | Some t => if Js.truthy t then [("SUPABASE_ACCESS_TOKEN", t)] else []
                 | None => []
                 end |}.

(** What the callback of the frontend deployment resolves to. *)
Definition frontend_result (reply : ExecReply) : FrontendResult :=
  let lines := output_lines reply.(out) in
  if reply.(error) then
    {| fe_ok := false;
       fe_url := extractDeploymentUrl lines;
       fe_publicUrl := extractVercelPublicUrl lines |}
  else
    let url := extractDeploymentUrl lines in
    let publicUrl := orElse (extractVercelPublicUrl lines) url in
    {| fe_ok := Js.truthy_opt url; fe_url := url; fe_publicUrl := publicUrl |}.

Definition runDeployment (env : Env) (projectRoot : string)
           (vercelToken supabaseAccessToken supabaseProjectRef : option string)
  : M Sys DeploymentResult :=
  let req := frontend_request projectRoot vercelToken in
  reply <- Shell.exec env req ;;
  let lines := output_lines reply.(out) in
  let errors1 := if reply.(error) then parseDeploymentLog lines else [] in
  let frontendResult := frontend_result reply in
  let req2 := backend_request projectRoot supabaseAccessToken supabaseProjectRef in
  reply2 <- Shell.exec env req2 ;;
  let lines2 := output_lines reply2.(out) in
  let errors2 := if reply2.(error) then parseDeploymentLog lines2 else [] in
  let backend_ok := negb reply2.(error) in
  ret {| ok := frontendResult.(fe_ok) && backend_ok;
         frontendUrl := frontendResult.(fe_url);
         publicUrl := frontendResult.(fe_publicUrl);
         backendUrl := None;
         logs := app (app (app ["=== Deploying frontend to Vercel ===" ++ LF;
                                "$ " ++ req.(line); ""] lines)
                           [LF ++ "=== Deploying backend to Supabase Edge Functions ==="
                               ++ LF;
                            "$ " ++ req2.(line); ""]) lines2;
         errors := app errors1 errors2 |}.

(** The host of a URL: what follows the scheme, up to the first slash. *)
Fixpoint until_slash (s : string) : string :=
  match s with
  | EmptyString => EmptyString
  | String a s' => if Ascii.eqb a "/" then EmptyString else String a (until_slash s')
  end.

Definition host_of (url : string) : string :=
  if Js.startsWith "https://" url
  then until_slash (String.substring 8 (String.length url - 8) url)
  else if Js.startsWith "http://" url
  then until_slash (String.substring 7 (String.length url - 7) url)
  else until_slash url.

(** A URL on one of the two hosting domains, in the words of the design
    document: the host is the domain or one of its subdomains. Used
    only to compare with the filter of the source, [re_known_host]. *)
Definition on_hosting_domain (url : string) : bool :=
  let host := Js.toLowerCase (host_of url) in
  String.eqb host "vercel.app" || String.eqb host "web.app"
  || Auth.endsWith ".vercel.app" host || Auth.endsWith ".web.app" host.

End Deploy.

(* ===================================================================== *)
(** ** The phase orchestrator (manifold.ts, class Manifold)

    Text written to the operator channel ([stream.markdown]) is left out:
    nothing is read back from it. Every phase handler ends by awaiting
    the next handler and returning, which is modelled as a tail call. *)
(* ===================================================================== *)

Module Manifold.
Import State World.
Local Open Scope monad_scope.

Definition supabasePatSecretKey := "manifold.supabase.pat".
Definition supabaseProjectUrlSecretKey := "manifold.supabase.projectUrl".
Definition supabasePublishableKeySecretKey := "manifold.supabase.publishableKey".
Definition supabaseAccessTokenSecretKey := "manifold.supabase.accessToken".
Definition vercelTokenSecretKey := "manifold.vercel.token".

Inductive Call :=
| Bootstrap
| AuthHandshake
| LocalScaffolding
| ProvisioningPhase (projectRoot projectName : string)
| EnvWiringPhase (projectRoot : string)
| DeploymentPhase (projectRoot : string).

Inductive Next :=
| Return
| TailCall (c : Call).

(** A patch that sets [current_phase] and [status], and possibly
    [resources], [credentials] and [rollback_stack]. *)
Definition phase_patch (phase : string) (st : RunStatus)
           (res cred : option Fields) (stack : option (list string))
  : ManifoldStatePatch :=
  {| p_status := Some st; p_state_version := None; p_run_id := None;
     p_current_phase := Some phase; p_config := None;
     p_resources := res; p_credentials := cred; p_rollback_stack := stack |}.

Definition resources_patch (res : Fields) : ManifoldStatePatch :=
  {| p_status := None; p_state_version := None; p_run_id := None;
     p_current_phase := None; p_config := None;
     p_resources := Some res; p_credentials := None; p_rollback_stack := None |}.

Definition credentials_patch (res : option Fields) (cred : Fields)
  : ManifoldStatePatch :=
  {| p_status := None; p_state_version := None; p_run_id := None;
     p_current_phase := None; p_config := None;
     p_resources := res; p_credentials := Some cred; p_rollback_stack := None |}.

Definition showInputBox (env : Env) (title : string) : M Sys (option string) :=
  fun w =>
    let answer := env.(on_inputBox) w.(history) title in
    (Ok answer, log (EvInputBox title answer) w).

Definition runEnvironmentChecks (env : Env) : M Sys EnvCheckReport :=
  fun w => (Ok (env.(on_environmentChecks) w.(history)), log EvEnvironmentChecks w).

(** [await installMissingTool(tool, report.platform, ...)]: the
    attempt is made, and the promise resolves or rejects. *)
Definition installMissingTool (env : Env) (t : string) : M Sys unit :=
  fun w =>
    match env.(on_installTool) w.(history) t with
    | None => (Ok tt, log (EvInstallTool t) w)
    | Some message => (Throw message, log (EvInstallTool t) w)
    end.

Definition secrets_delete (key : string) : M Sys unit :=
  modify (log (EvSecretDelete key)).

Definition installOrder : list string :=
  ["git"; "node"; "python"; "gh"; "vercel"; "supabase"].

(** [installOrder.indexOf(t)], -1 when absent *)
Fixpoint indexOf (l : list string) (t : string) (i : Z) : Z :=
  match l with
  | [] => (-1)%Z
  | x :: rest => if String.eqb x t then i else indexOf rest t (i + 1)%Z
  end.

(** The stable sort of the missing tools by their place in
    [installOrder]. *)
Fixpoint insert_by_order (t : string) (sorted : list string) : list string :=
  match sorted with
  | [] => [t]
  | x :: rest =>
      if (indexOf installOrder t 0 <? indexOf installOrder x 0)%Z
      then t :: sorted
      else x :: insert_by_order t rest
  end.

Definition sort_by_order (l : list string) : list string :=
  fold_left (fun acc t => insert_by_order t acc) l [].

Fixpoint for_each {A} (f : A -> M Sys unit) (l : list A) : M Sys unit :=
  match l with
  | [] => ret tt
  | x :: rest => f x ;;; for_each f rest
  end.

Definition missing_tools (report : EnvCheckReport) : list ToolCheckResult :=
  List.filter (fun item => negb item.(tool_ok)) report.(tools).

Definition bootstrap (env : Env) : M Sys Next :=
  report <- runEnvironmentChecks env ;;
  let missing := missing_tools report in
  if (length missing =? 0)%nat then
    StateManager.patch (phase_patch "1_auth" in_progress None None None) ;;;
    ret (TailCall AuthHandshake)
  else
    let missingOrder := sort_by_order (map tool missing) in
    for_each (installMissingTool env) missingOrder ;;;
    report <- runEnvironmentChecks env ;;
    let missing := missing_tools report in
    if (length missing =? 0)%nat then
      StateManager.patch (phase_patch "1_auth" in_progress None None None) ;;;
      ret (TailCall AuthHandshake)
    else
      StateManager.patch (phase_patch "0_env_check" paused_at_auth None None None) ;;;
      ret Return.

(** [!value || value.trim().length === 0] *)
Definition blank (value : option string) : bool :=
  match value with
  | None => true
  | Some v => negb (Js.truthy v) || (String.length (Js.trim v) =? 0)%nat
  end.

(** [text.replace(/\/+$/, "")]: drop the slashes at the end. *)
Fixpoint drop_leading_slashes (s : string) : string :=
  match s with
  | String a s' => if Ascii.eqb a "/" then drop_leading_slashes s' else s
  | EmptyString => EmptyString
  end.

Definition strip_trailing_slashes (s : string) : string :=
  Js.rev_string (drop_leading_slashes (Js.rev_string s EmptyString)) EmptyString.

(** The interactive collection of the three Supabase values; the
    result is the new value of [supabaseOk]. *)
Definition collectSupabase (env : Env) : M Sys bool :=
  accessToken <- showInputBox env "Manifold Auth Handshake - Supabase Access Token" ;;
  if blank accessToken then ret false
  else
    projectUrl <- showInputBox env "Manifold Auth Handshake - Project URL" ;;
    if blank projectUrl then ret false
    else
      publishableKey <-
        showInputBox env "Manifold Auth Handshake - Publishable API Key" ;;
      if blank publishableKey then ret false
      else
        let accessToken := nullish accessToken "" in
        let projectUrl := nullish projectUrl "" in
        let publishableKey := nullish publishableKey "" in
        verification <- Auth.verifySupabaseProjectApi env (Js.trim projectUrl)
                                                      (Js.trim publishableKey) ;;
        if verification.(Auth.ok) then
          let normalizedUrl := strip_trailing_slashes (Js.trim projectUrl) in
          let ref := Auth.parseSupabaseProjectRef env normalizedUrl in
          StateManager.patch
            (credentials_patch
               (Some {[ "supabase_ref" := ref ]})
               {[ "supabase_url" := Some normalizedUrl;
                  "supabase_publishable_key" := Some (Js.trim publishableKey);
                  "supabase_access_token" := Some (Js.trim accessToken) ]}) ;;;
          ret true
        else ret false.

Definition runAuthHandshake (env : Env) : M Sys Next :=
  gh <- Auth.checkGhAuthStatus env ;;
  vercel <- Auth.checkVercelWhoAmI env ;;
  state <- StateManager.read ;;
  let existingAccessToken := field state.(credentials) "supabase_access_token" in
  let existingProjectUrl := field state.(credentials) "supabase_url" in
  let existingPublishableKey := field state.(credentials) "supabase_publishable_key" in
  supabaseOk <-
    (if Js.truthy_opt existingAccessToken && Js.truthy_opt existingProjectUrl
        && Js.truthy_opt existingPublishableKey
     then
       let existingProjectUrl := nullish existingProjectUrl "" in
       let existingPublishableKey := nullish existingPublishableKey "" in
       v <- Auth.verifySupabaseProjectApi env existingProjectUrl existingPublishableKey ;;
       if v.(Auth.ok) then
         let ref := Auth.parseSupabaseProjectRef env existingProjectUrl in
         (if Js.truthy_opt ref
          then StateManager.patch (resources_patch {[ "supabase_ref" := ref ]}) ;;; ret tt
          else ret tt) ;;;
         ret true
       else
         StateManager.patch
           (credentials_patch None
              {[ "supabase_access_token" := None;
                 "supabase_url" := None;
                 "supabase_publishable_key" := None ]}) ;;;
         ret false
     else ret false) ;;
  supabaseOk <- (if negb supabaseOk then collectSupabase env else ret supabaseOk) ;;
  if gh.(Auth.ok) && vercel.(Auth.ok) && supabaseOk then
    vercelToken <- showInputBox env "Manifold Auth Handshake" ;;
    (if negb (blank vercelToken)
     then StateManager.patch
            (credentials_patch None
               {[ "vercel_token" := Some (Js.trim (nullish vercelToken "")) ]}) ;;;
          ret tt
     else ret tt) ;;;
    StateManager.patch (phase_patch "2_scaffold" in_progress None None None) ;;;
    ret (TailCall LocalScaffolding)
  else
    StateManager.patch (phase_patch "1_auth" paused_at_auth None None None) ;;;
    ret Return.

Definition scaffoldReactSupabaseProject (env : Env) (workspaceRoot projectName : string)
  : M Sys ScaffoldResult :=
  fun w => (Ok (env.(on_scaffold) w.(history) workspaceRoot projectName),
            log (EvScaffold workspaceRoot projectName) w).

Definition runLocalScaffolding (env : Env) (workspaceRoot : string) : M Sys Next :=
  state <- StateManager.read ;;
  let projectName := state.(config).(project_name) in
  result <- scaffoldReactSupabaseProject env workspaceRoot projectName ;;
  let failed := List.filter (fun item => negb item.(step_ok)) result.(installs) in
  if (0 <? length failed)%nat then
    StateManager.patch (phase_patch "2_scaffold" paused_at_auth None None None) ;;;
    ret Return
  else
    StateManager.patch (phase_patch "3_provision" in_progress None None None) ;;;
    ret (TailCall (ProvisioningPhase result.(root) projectName)).

Definition runProvisioningPhase (env : Env) (projectRoot projectName : string)
  : M Sys Next :=
  result <- Provision.runProvisioning env projectRoot projectName ;;
  if negb result.(Provision.ok) then
    StateManager.patch (phase_patch "3_provision" failed None None (Some [])) ;;;
    ret Return
  else
    StateManager.patch
      (phase_patch "4_env_wiring" in_progress
         (Some {[ "github_repo" := result.(Provision.githubRepo);
                  "vercel_project_id" := result.(Provision.vercelProjectId) ]})
         None
         (Some result.(Provision.rollbackStack))) ;;;
    ret (TailCall (EnvWiringPhase projectRoot)).

(** The list [missing] of phase 4. *)
Definition missing_values (state : ManifoldState) : list string :=
  app (if negb (Js.truthy_opt (field state.(resources) "github_repo"))
       then ["GitHub repo"] else [])
 (app (if negb (Js.truthy_opt (field state.(resources) "vercel_project_id"))
       then ["Vercel project ID"] else [])
 (app (if negb (Js.truthy_opt (field state.(credentials) "supabase_url"))
       then ["Supabase URL"] else [])
      (if negb (Js.truthy_opt (field state.(credentials) "supabase_publishable_key"))
       then ["Supabase publishable key"] else []))).

Definition wireProjectEnvironment
           (projectRoot supabaseUrl supabasePublishableKey githubRepo
            vercelProjectId : string) : M Sys unit :=
  modify (log (EvWireEnvironment projectRoot supabaseUrl supabasePublishableKey
                                 githubRepo vercelProjectId)).

(** The patch of the reset branch of phase 4. *)
Definition reset_patch : ManifoldStatePatch :=
  phase_patch "1_auth" in_progress
    (Some {[ "github_repo" := None;
             "vercel_project_id" := None;
             "supabase_ref" := None ]})
    (Some {[ "vercel_token" := None;
             "supabase_access_token" := None;
             "supabase_url" := None;
             "supabase_publishable_key" := None ]})
    None.

Definition runEnvWiringPhase (env : Env) (projectRoot : string) : M Sys Next :=
  state <- StateManager.read ;;
  let githubRepo := field state.(resources) "github_repo" in
  let vercelProjectId := field state.(resources) "vercel_project_id" in
  let supabaseUrl := field state.(credentials) "supabase_url" in
  let supabasePublishableKey := field state.(credentials) "supabase_publishable_key" in
  if (0 <? length (missing_values state))%nat then
    secrets_delete supabasePatSecretKey ;;;
    secrets_delete supabaseProjectUrlSecretKey ;;;
    secrets_delete supabasePublishableKeySecretKey ;;;
    secrets_delete supabaseAccessTokenSecretKey ;;;
    StateManager.patch reset_patch ;;;
    ret (TailCall AuthHandshake)
  else
    wireProjectEnvironment projectRoot
                           (nullish supabaseUrl "")
                           (nullish supabasePublishableKey "")
                           (nullish githubRepo "")
                           (nullish vercelProjectId "") ;;;
    StateManager.patch (phase_patch "5_deploy" in_progress None None None) ;;;
    ret (TailCall (DeploymentPhase projectRoot)).

Definition runDeploymentPhase (env : Env) (projectRoot : string) : M Sys Next :=
  state <- StateManager.read ;;
  let vercelToken := field state.(credentials) "vercel_token" in
  let supabaseAccessToken := field state.(credentials) "supabase_access_token" in
  let supabaseRef := field state.(resources) "supabase_ref" in
  deployResult <- Deploy.runDeployment env projectRoot vercelToken
                                       supabaseAccessToken supabaseRef ;;
  if deployResult.(Deploy.ok) then
    StateManager.patch (phase_patch "5_deploy" complete None None None) ;;;
    ret Return
  else
    StateManager.patch (phase_patch "5_deploy" paused_at_auth None None None) ;;;
    ret Return.

Definition handler (env : Env) (workspaceRoot : string) (c : Call) : M Sys Next :=
  match c with
  | Bootstrap => bootstrap env
  | AuthHandshake => runAuthHandshake env
  | LocalScaffolding => runLocalScaffolding env workspaceRoot
  | ProvisioningPhase projectRoot projectName =>
      runProvisioningPhase env projectRoot projectName
  | EnvWiringPhase projectRoot => runEnvWiringPhase env projectRoot
  | DeploymentPhase projectRoot => runDeploymentPhase env projectRoot
  end.

(** The chain of tail calls from a handler on. [Ok true]: the chain
    returned; [Ok false]: it is still running after [steps] handlers. *)
Fixpoint run_from (env : Env) (workspaceRoot : string) (steps : nat) (c : Call)
  : M Sys bool :=
  match steps with
  | O => ret false
  | S steps' =>
      next <- handler env workspaceRoot c ;;
      match next with
      | Return => ret true
      | TailCall c' => run_from env workspaceRoot steps' c'
      end
  end.

(** [projectName?.trim() || "my-app"] *)
Definition selected_name (projectName : option string) : string :=
  match projectName with
  | Some n => if Js.truthy (Js.trim n) then Js.trim n else "my-app"
  | None => "my-app"
  end.

Definition setup_patch (selectedName : string) : ManifoldStatePatch :=
  {| p_status := Some in_progress; p_state_version := None; p_run_id := None;
     p_current_phase := Some "0_env_check";
     p_config := Some {| p_project_name := Some selectedName;
                         p_stack := Some {| p_frontend := Some react_vite;
                                            p_backend := Some flask |} |};
     p_resources := None; p_credentials := None; p_rollback_stack := None |}.

Definition handleSetup (env : Env) (workspaceRoot : string) (steps : nat)
           (projectName : option string) : M Sys bool :=
  let selectedName := selected_name projectName in
  StateManager.ensureInitialized env (Some selectedName) flask ;;;
  StateManager.patch (setup_patch selectedName) ;;;
  run_from env workspaceRoot steps Bootstrap.

Definition resetState : M Sys unit :=
  StateManager.reset ;;;
  secrets_delete supabasePatSecretKey ;;;
  secrets_delete supabaseProjectUrlSecretKey ;;;
  secrets_delete supabasePublishableKeySecretKey ;;;
  secrets_delete supabaseAccessTokenSecretKey ;;;
  secrets_delete vercelTokenSecretKey.

End Manifold.

(* ===================================================================== *)
(** ** The environment files (env.ts)

    [Object.entries(values)] is the list of the entries of the object,
    in the order of enumeration; the keys of an object are distinct.
    The file system is a finite map from path to text: reading an
    absent file throws, a write replaces the text of one path. Paths
    are POSIX paths and the project root is normalised, so that
    [path.join] puts one slash between its parts. *)
(* ===================================================================== *)

Module EnvFile.
Import World.
Local Open Scope monad_scope.

(** [s.indexOf(c)] for one code unit; [None] is -1. *)
Fixpoint indexOf (c : ascii) (s : string) : option nat :=
  match s with
  | EmptyString => None
  | String a s' => if Ascii.eqb a c then Some 0%nat else option_map S (indexOf c s')
  end.

(** The key that a line defines, as the callback of [lines.forEach]
    finds it: none for a blank line, a comment, a line without [=] and a
    line whose text before the first [=] is blank. *)
Definition key_of (line : string) : option string :=
  let trimmed := Js.trim line in
  if (String.length trimmed =? 0)%nat || Js.startsWith "#" trimmed then None
  else
    match indexOf "=" trimmed with
    | None => None
    | Some i =>
        let key := Js.trim (Js.take i trimmed) in
        if (0 <? String.length key)%nat then Some key else None
    end.

(** The map [indexByKey] after [lines.forEach], started at [index]:
    a later line of the same key replaces the index of an earlier one. *)
Fixpoint index_keys (lines : list string) (index : nat) (indexByKey : gmap string nat)
  : gmap string nat :=
  match lines with
  | [] => indexByKey
  | line :: rest =>
      index_keys rest (S index)
                 (match key_of line with
                  | Some key => <[key := index]> indexByKey
                  | None => indexByKey
                  end)
  end.

(** One turn of the loop over the entries. The index comes from
    [indexByKey], so it is within the array and the assignment replaces
    a line. *)
Definition upsert_entry (indexByKey : gmap string nat) (lines : list string)
           (entry : string * string) : list string :=
  let nextLine := fst entry ++ "=" ++ snd entry in
  match indexByKey !! fst entry with
  | Some existingIndex => <[existingIndex := nextLine]> lines
  | None => app lines [nextLine]
  end.

Fixpoint drop_leading_newlines (s : string) : string :=
  match s with
  | String a s' => if Ascii.eqb a "010" then drop_leading_newlines s' else s
  | EmptyString => EmptyString
  end.

(** [text.replace(/\n+$/g, "")]: drop the line feeds at the end. *)
Definition strip_trailing_newlines (s : string) : string :=
  Js.rev_string (drop_leading_newlines (Js.rev_string s EmptyString)) EmptyString.

(** [content.length > 0 ? content.split(/\r?\n/) : []] *)
Definition lines_of (content : string) : list string :=
  if (0 <? String.length content)%nat then Js.split_lines content else [].

Definition upsertEnvContent (content : string) (values : list (string * string))
  : string :=
  let lines := lines_of content in
  let indexByKey := index_keys lines 0 ∅ in
  let lines := fold_left (upsert_entry indexByKey) values lines in
  strip_trailing_newlines (Js.join Deploy.LF lines) ++ Deploy.LF.

Record Disk := {
  files : gmap string string;
  made : list string
}.

Definition readFile (filePath : string) : M Disk string :=
  fun d =>
    match d.(files) !! filePath with
    | Some text => (Ok text, d)
    | None => (Throw "ENOENT: no such file or directory", d)
    end.

(** [fs.mkdir(dir, { recursive: true })] *)
Definition mkdir (dir : string) : M Disk unit :=
  modify (fun d => {| files := d.(files); made := app d.(made) [dir] |}).

Definition writeFile (filePath text : string) : M Disk unit :=
  modify (fun d => {| files := <[filePath := text]> d.(files); made := d.(made) |}).

(** The index of the last slash of a path. *)
Fixpoint last_slash (s : string) (index : nat) (found : option nat) : option nat :=
  match s with
  | EmptyString => found
  | String a s' =>
      last_slash s' (S index) (if Ascii.eqb a "/" then Some index else found)
  end.

(** [path.dirname] on a path that does not end with a slash. *)
Definition dirname (p : string) : string :=
  match last_slash p 0 None with
  | None => "."
  | Some O => "/"
  | Some i => Js.take i p
  end.

Record EnvWriteResult := { filePath : string; keys : list string }.

Definition writeEnvFile (filePath : string) (values : list (string * string))
  : M Disk EnvWriteResult :=
  content <- try_catch (readFile filePath)
                       (fun _ => mkdir (dirname filePath) ;;; ret "") ;;
  let next := upsertEnvContent content values in
  writeFile filePath next ;;;
  ret {| filePath := filePath; keys := map fst values |}.

Definition root_env_path (projectRoot : string) : string := projectRoot ++ "/.env".
Definition frontend_env_path (projectRoot : string) : string :=
  Deploy.frontend_dir projectRoot ++ "/.env".

Definition root_values (supabaseUrl supabasePublishableKey githubRepo
                        vercelProjectId : string) : list (string * string) :=
  [("SUPABASE_URL", supabaseUrl);
   ("SUPABASE_PUBLISHABLE_KEY", supabasePublishableKey);
   ("GITHUB_REPO", githubRepo);
   ("VERCEL_PROJECT_ID", vercelProjectId)].

Definition frontend_values (supabaseUrl supabasePublishableKey : string)
  : list (string * string) :=
  [("VITE_SUPABASE_URL", supabaseUrl);
   ("VITE_SUPABASE_PUBLISHABLE_KEY", supabasePublishableKey)].

Definition wireProjectEnvironment
           (projectRoot supabaseUrl supabasePublishableKey githubRepo
            vercelProjectId : string) : M Disk (list EnvWriteResult) :=
  rootEnv <- writeEnvFile (root_env_path projectRoot)
                          (root_values supabaseUrl supabasePublishableKey
                                       githubRepo vercelProjectId) ;;
  frontendEnv <- writeEnvFile (frontend_env_path projectRoot)
                              (frontend_values supabaseUrl supabasePublishableKey) ;;
  ret [rootEnv; frontendEnv].

(** No line break in the text: neither LF nor CR. *)
Definition break_free (s : string) : bool :=
  Js.all_chars (fun a => negb (Js.is_line_terminator a)) s.

(** Every CR of the text is followed by LF: the line breaks are LF or
    CR LF. *)
Fixpoint crlf_only (s : string) : bool :=
  match s with
  | EmptyString => true
  | String a s' =>
      (if (Js.code a =? 13)%nat
       then match s' with
            | String b _ => (Js.code b =? 10)%nat
            | EmptyString => false
            end
       else true) && crlf_only s'
  end.

(** A key that reads back as itself from the line [key=value]: not
    empty, no white space at either end, no [=], no line break, not a
    comment. *)
Definition plain_key (key : string) : bool :=
  match key with
  | String a _ => negb (Js.is_space a)
  | EmptyString => false
  end
  && match Js.rev_string key EmptyString with
     | String a _ => negb (Js.is_space a)
     | EmptyString => false
     end
  && negb (Js.startsWith "#" key)
  && match indexOf "=" key with None => true | Some _ => false end
  && break_free key.

(** Entries of plain keys and values without line break. *)
Definition plain_entries (values : list (string * string)) : Prop :=
  Forall (fun entry => plain_key (fst entry) = true
                       /\ break_free (snd entry) = true) values.

(** The entries that [upsertEnvContent] writes and reads back: the
    entries of an object (distinct keys), plain. *)
Definition writable (values : list (string * string)) : Prop :=
  NoDup (map fst values) /\ plain_entries values.

(** The index of the last line that defines [key]. *)
Fixpoint last_def (key : string) (lines : list string) : option nat :=
  match lines with
  | [] => None
  | line :: rest =>
      match last_def key rest with
      | Some i => Some (S i)
      | None => if bool_decide (key_of line = Some key) then Some 0%nat else None
      end
  end.

(** The line that decides the value of [key] for a reader that lets
    the last definition win. *)
Definition defining_line (key : string) (lines : list string) : option string :=
  match last_def key lines with
  | Some i => lines !! i
  | None => None
  end.

(** The number of lines that define [key]. *)
Definition definitions (key : string) (lines : list string) : nat :=
  length (List.filter (fun line => bool_decide (key_of line = Some key)) lines).

(** The line that an entry writes. *)
Definition line_of (entry : string * string) : string :=
  fst entry ++ "=" ++ snd entry.

(** The loop over the entries, with the index map of the lines read. *)
Definition pass (lines0 : list string) (values : list (string * string))
           (lines : list string) : list string :=
  fold_left (upsert_entry (index_keys lines0 0 ∅)) values lines.

(** The lines [lines0] are those of the file read and [lines] those
    reached after some turns of the loop: the last definition of a key
    of the file is where it was. *)
Definition in_place (lines0 lines : list string) : Prop :=
  forall key i, last_def key lines0 = Some i -> last_def key lines = Some i.

(** The text of a file for [writeEnvFile]: empty when the file is
    absent. *)
Definition text_at (d : Disk) (path : string) : string :=
  default "" (d.(files) !! path).

End EnvFile.

(* ===================================================================== *)
(** ** The chat participant (extension.ts): which command a prompt
       runs, and for which project *)
(* ===================================================================== *)

Module Extension.
Import Regex World.
Local Open Scope monad_scope.

(** [[a-zA-Z0-9-_]] *)
Definition name_char (a : ascii) : bool :=
  Js.between 97 122 a || Js.between 65 90 a || Js.between 48 57 a
  || Ascii.eqb a "-" || Ascii.eqb a "_".

(** [/^setup(?:\s+([a-zA-Z0-9-_]+))?/i], and the same for [deploy] *)
Definition re_command (word : string) : regex :=
  seqs [Bol; Lit word;
        Opt (Seq (Plus space) (Group (Plus (Cls false name_char))))].

(** [prompt.trim().match(pattern)?.[1]] *)
Definition project_name_after (word prompt : string) : option string :=
  match exec flag_i (re_command word) (Js.trim prompt) with
  | Some m => m.(group1)
  | None => None
  end.

Definition parseSetupProjectName (prompt : string) : option string :=
  project_name_after "setup" prompt.

Definition parseDeployProjectName (prompt : string) : option string :=
  project_name_after "deploy" prompt.

Definition no_folder_text : string :=
  "Open a workspace folder before running Manifold.".

Definition usage_text : string :=
  "Manifold is active. Try: `@manifold setup my-cool-app` or `@manifold deploy`.".

(** [manifold.handleDeploy(projectName, stream)]: the class [Manifold]
    declares [handleSetup], [bootstrap], [resetState], [fromWorkspace],
    [getWorkspaceRoot], [setBackend] and the private phase handlers,
    and no [handleDeploy]: the property is undefined, and calling it
    throws. *)
Definition handleDeploy (projectName : option string) : M Sys unit :=
  throw "TypeError: manifold.handleDeploy is not a function".

(** The handler of the chat participant. [folder] is the path of the
    first workspace folder, if one is open; [prompt] is
    [request?.prompt], [None] when it is null or undefined, so that
    [nullish prompt ""] is [String(request?.prompt ?? "")] (for a
    prompt that is a string). It returns the text that the handler
    itself writes to the stream, if any. [steps] bounds the chain of
    phase handlers, as in [Manifold.handleSetup]. *)
Definition chat_handler (env : Env) (steps : nat)
           (folder : option string) (prompt : option string)
  : M Sys (option string) :=
  match folder with
  | None => ret (Some no_folder_text)
  | Some workspaceRoot =>
      let prompt := State.nullish prompt "" in
      let projectName := parseSetupProjectName prompt in
      let deployProjectName := parseDeployProjectName prompt in
      if test flag_i (Seq Bol (Lit "setup")) (Js.trim prompt) then
        Manifold.handleSetup env workspaceRoot steps projectName ;;;
        ret None
      else if test flag_i (Seq Bol (Lit "deploy")) (Js.trim prompt) then
        handleDeploy deployProjectName ;;;
        ret None
      else ret (Some usage_text)
  end.

(** The text is empty or starts with a code unit outside the class. *)
Definition stops (p : ascii -> bool) (s : string) : Prop :=
  match s with
  | EmptyString => True
  | String a _ => p a = false
  end.

End Extension.

(* ===================================================================== *)
(** ** Checking and installing the tools (start.ts): the search path,
       the checks with several probes and [installMissingTool]

    A check is modelled as it runs by itself, one command after the
    other; the answers of the machine may depend on everything done
    before, the assignments to [process.env.PATH] included. *)
(* ===================================================================== *)

Module Start.
Import World Regex.
Local Open Scope monad_scope.

Inductive ToolKey := git | node | python | gh | vercel | supabase.
Inductive Method := method_primary | method_fallback | method_manual.

Record InstallAttempt := {
  tool : ToolKey;
  attempted : bool;
  ok : bool;
  method : Method;
  output : string;
  pathAddition : option string
}.

(** [s.split(d)] for a separator of one code unit. *)
Fixpoint split (d : ascii) (s : string) : list string :=
  match s with
  | EmptyString => [""]
  | String a s' =>
      if Ascii.eqb a d then "" :: split d s'
      else match split d s' with
           | entry :: rest => String a entry :: rest
           | [] => [String a ""]
           end
  end.

(** [current.split(path.delimiter).filter(Boolean)] *)
Definition entries (d : ascii) (current : string) : list string :=
  List.filter Js.truthy (split d current).

(** The assignment of [appendToPathIfMissing] to [process.env.PATH]
    ([PATH] is its value, [None] when it is not set, [d] is
    [path.delimiter]): [None] when it assigns nothing. *)
Definition path_assignment (d : ascii) (candidatePath : string)
           (PATH : option string) : option string :=
  if negb (Js.truthy candidatePath) then None
  else
    let current := match PATH with Some p => p | None => "" end in
    let exists_ :=
      existsb (fun entry =>
                 String.eqb (Js.toLowerCase entry) (Js.toLowerCase candidatePath))
              (entries d current) in
    if negb exists_
    then Some (candidatePath ++ String d "" ++ current)
    else None.

(** [appendToPathIfMissing]: the value of [process.env.PATH] after
    the call. *)
Definition appendToPathIfMissing (d : ascii) (candidatePath : string)
           (PATH : option string) : option string :=
  match path_assignment d candidatePath PATH with
  | Some value => Some value
  | None => PATH
  end.

Definition getInstallHint (tool : ToolKey) (platform : string) : string :=
  if String.eqb platform "win32" then
    match tool with
    | git => "winget install git.git"
    | node => "winget install OpenJS.NodeJS.LTS"
    | python => "winget install Python.Python.3.11"
    | gh => "winget install GitHub.cli"
    | vercel => "npm install -g vercel"
    | supabase => "npm i supabase --save-dev"
    end
  else if String.eqb platform "darwin" then
    match tool with
    | git => "xcode-select --install"
    | node => "brew install node"
    | python => "brew install python"
    | gh => "brew install gh"
    | vercel => "npm install -g vercel"
    | supabase => "npm i supabase --save-dev"
    end
  else
    match tool with
    | git => "Install via your distro package manager (apt/dnf/pacman)"
    | node => "Install Node.js LTS via your distro package manager or nvm"
    | python => "Install Python 3.11+ via your distro package manager"
    | gh => "Install GitHub CLI via your distro package manager"
    | vercel => "npm install -g vercel"
    | supabase => "npm i supabase --save-dev"
    end.

Definition getInstallCommand (tool : ToolKey) (platform : string) : option string :=
  if String.eqb platform "win32" then
    Some match tool with
         | git => "winget install --id Git.Git -e --accept-package-agreements --accept-source-agreements"
         | node => "winget install --id OpenJS.NodeJS.LTS -e --accept-package-agreements --accept-source-agreements"
         | python => "winget install --id Python.Python.3.11 -e --accept-package-agreements --accept-source-agreements"
         | gh => "winget install --id GitHub.cli -e --accept-package-agreements --accept-source-agreements"
         | vercel => "npm install -g vercel"
         | supabase => "npm i supabase --save-dev"
         end
  else if String.eqb platform "darwin" then
    Some match tool with
         | git => "xcode-select --install"
         | node => "brew install node"
         | python => "brew install python"
         | gh => "brew install gh"
         | vercel => "npm install -g vercel"
         | supabase => "npm i supabase --save-dev"
         end
  else
    match tool with
    | vercel => Some "npm install -g vercel"
    | supabase => Some "npm i supabase --save-dev"
    | _ => None
    end.

(** What the checks and the installer do to the machine, in order: a
    command line handed to [exec] with its time limit and what came
    back, a directory made (or the message of the failure), a command
    handed to the callback [onCommand], an assignment to
    [process.env.PATH]. *)
Inductive Did :=
| DidShell (command : string) (timeoutMs : N) (reply : ExecReply)
| DidMkdir (dir : string) (failure : option string)
| DidCallback (command : string)
| DidSetPath (value : string).

(** The machine: [os.platform()], [path.delimiter], [path.join], the
    search path at the start, and the answers of [exec] and of
    [fs.mkdir], which may depend on everything done before. *)
Record Os := {
  os_platform : string;
  delimiter : ascii;
  join : list string -> string;
  initial_path : option string;
  on_shell : list Did -> string -> N -> ExecReply;
  on_mkdir : list Did -> string -> option string
}.

(** [process.env.PATH] after what has been done. *)
Definition path_after (os : Os) (h : list Did) : option string :=
  fold_left (fun PATH e => match e with
                           | DidSetPath value => Some value
                           | _ => PATH
                           end) h os.(initial_path).

(** [run(command, args)]: the command line with its arguments quoted,
    twelve seconds. *)
Definition run (os : Os) (command : string) (args : list string)
  : M (list Did) Shell.CommandResult :=
  fun h =>
    let commandLine := Shell.commandLine command args in
    let reply := os.(on_shell) h commandLine 12000%N in
    (Ok {| Shell.ok := negb reply.(error); Shell.output := Js.trim reply.(out) |},
     app h [DidShell commandLine 12000%N reply]).

(** [appendToPathIfMissing] on the machine. *)
Definition appendToPath (os : Os) (candidatePath : string) : M (list Did) unit :=
  fun h =>
    match path_assignment os.(delimiter) candidatePath (path_after os h) with
    | Some value => (Ok tt, app h [DidSetPath value])
    | None => (Ok tt, h)
    end.

(** [output.split(/\r?\n/).map((line) => line.trim()).filter(Boolean).at(-1)] *)
Definition last_line (output : string) : option string :=
  last (List.filter Js.truthy (map Js.trim (Js.split_lines output))).

Definition refreshNodeGlobalBinPath (os : Os) : M (list Did) unit :=
  npmPrefix <- run os "npm" ["config"; "get"; "prefix"] ;;
  if negb npmPrefix.(Shell.ok) then ret tt
  else
    match last_line npmPrefix.(Shell.output) with
    | None => ret tt
    | Some prefix =>
        if String.eqb os.(os_platform) "win32" then
          appendToPath os prefix ;;;
          appendToPath os (os.(join) [prefix; "node_modules"; ".bin"])
        else
          appendToPath os (os.(join) [prefix; "bin"])
    end.

Definition checkPython (os : Os) : M (list Did) Shell.CommandResult :=
  direct <- run os "python" ["--version"] ;;
  if direct.(Shell.ok) then ret direct
  else if String.eqb os.(os_platform) "win32" then
    py <- run os "py" ["-V"] ;;
    if py.(Shell.ok) then ret py else ret direct
  else ret direct.

Definition checkVercel (os : Os) : M (list Did) Shell.CommandResult :=
  direct <- run os "vercel" ["--version"] ;;
  if direct.(Shell.ok) then ret direct
  else
    let after_refresh :=
      refreshNodeGlobalBinPath os ;;;
      retry <- run os "vercel" ["--version"] ;;
      if retry.(Shell.ok) then ret retry
      else if String.eqb os.(os_platform) "win32"
           then run os "vercel.cmd" ["--version"]
           else ret retry in
    if String.eqb os.(os_platform) "win32" then
      cmdDirect <- run os "vercel.cmd" ["--version"] ;;
      if cmdDirect.(Shell.ok) then ret cmdDirect else after_refresh
    else after_refresh.

Definition checkSupabase (os : Os) : M (list Did) Shell.CommandResult :=
  direct <- run os "supabase" ["--version"] ;;
  if direct.(Shell.ok) then ret direct
  else
    let after_refresh :=
      refreshNodeGlobalBinPath os ;;;
      retry <- run os "supabase" ["--version"] ;;
      if retry.(Shell.ok) then ret retry
      else
        let final := run os "npx" ["supabase"; "--version"] in
        if String.eqb os.(os_platform) "win32" then
          cmdRetry <- run os "supabase.cmd" ["--version"] ;;
          if cmdRetry.(Shell.ok) then ret cmdRetry else final
        else final in
    let with_npx :=
      npx <- run os "npx" ["supabase"; "--version"] ;;
      if npx.(Shell.ok) then ret npx else after_refresh in
    if String.eqb os.(os_platform) "win32" then
      cmdDirect <- run os "supabase.cmd" ["--version"] ;;
      if cmdDirect.(Shell.ok) then ret cmdDirect else with_npx
    else with_npx.

(** [runShell(command)], with its default time limit *)
Definition runShell (os : Os) (command : string) : M (list Did) Shell.CommandResult :=
  fun h =>
    let reply := os.(on_shell) h command 180000%N in
    (Ok {| Shell.ok := negb reply.(error); Shell.output := Js.trim reply.(out) |},
     app h [DidShell command 180000%N reply]).

(** [fs.mkdir(dir, { recursive: true })] *)
Definition mkdir (os : Os) (dir : string) : M (list Did) unit :=
  fun h =>
    match os.(on_mkdir) h dir with
    | None => (Ok tt, app h [DidMkdir dir None])
    | Some message => (Throw message, app h [DidMkdir dir (Some message)])
    end.

(** The third argument of [installMissingTool]: the storage path, and
    whether a callback [onCommand] is given. *)
Record Options := {
  globalStoragePath : option string;
  onCommand : bool
}.

Definition has_callback (options : option Options) : bool :=
  match options with
  | Some o => o.(onCommand)
  | None => false
  end.

(** [options?.onCommand?.(command)] *)
Definition tell (options : option Options) (command : string) : M (list Did) unit :=
  if has_callback options
  then modify (fun h => app h [DidCallback command])
  else ret tt.

(** [/eacces|eperm|permission denied|access is denied/i] *)
Definition re_permission : regex :=
  Deploy.lits ["eacces"; "eperm"; "permission denied"; "access is denied"].

Definition installMissingTool (os : Os) (tool : ToolKey) (platform : string)
           (options : option Options) : M (list Did) InstallAttempt :=
  let primary := getInstallCommand tool platform in
  match primary with
  | None =>
      ret {| tool := tool; attempted := false; ok := false; method := method_manual;
             output := "Manual install required. Suggested: "
                       ++ getInstallHint tool platform;
             pathAddition := None |}
  | Some primary =>
      if negb (Js.truthy primary) then
        ret {| tool := tool; attempted := false; ok := false; method := method_manual;
               output := "Manual install required. Suggested: "
                         ++ getInstallHint tool platform;
               pathAddition := None |}
      else
        tell options primary ;;;
        primaryResult <- runShell os primary ;;
        if primaryResult.(Shell.ok) then
          ret {| tool := tool; attempted := true; ok := true; method := method_primary;
                 output := primaryResult.(Shell.output); pathAddition := None |}
        else
          let failed :=
            ret {| tool := tool; attempted := true; ok := false; method := method_primary;
                   output := primaryResult.(Shell.output); pathAddition := None |} in
          match tool, options ≫= globalStoragePath with
          | vercel, Some storagePath =>
              if Js.truthy storagePath then
                let permissionIssue :=
                  test flag_i re_permission primaryResult.(Shell.output) in
                if permissionIssue then
                  let localRoot := os.(join) [storagePath; "tools"; "vercel-local"] in
                  mkdir os localRoot ;;;
                  let fallback :=
                    "npm install vercel --prefix "
                    ++ Runner.dq ++ localRoot ++ Runner.dq in
                  tell options fallback ;;;
                  fallbackResult <- runShell os fallback ;;
                  if fallbackResult.(Shell.ok) then
                    let binDir := os.(join) [localRoot; "node_modules"; ".bin"] in
                    ret {| tool := tool; attempted := true; ok := true;
                           method := method_fallback;
                           output := fallbackResult.(Shell.output);
                           pathAddition := Some binDir |}
                  else
                    ret {| tool := tool; attempted := true; ok := false;
                           method := method_fallback;
                           output := fallbackResult.(Shell.output);
                           pathAddition := None |}
                else failed
              else failed
          | _, _ => failed
          end
  end.

(** The command lines handed to [exec], with what came back, and the
    commands handed to the callback, in order. *)
Definition shells (h : list Did) : list (string * ExecReply) :=
  flat_map (fun e => match e with
                     | DidShell command _ reply => [(command, reply)]
                     | _ => []
                     end) h.

Definition callbacks (h : list Did) : list string :=
  flat_map (fun e => match e with
                     | DidCallback command => [command]
                     | _ => []
                     end) h.

(** The commands handed to [exec] and to the callback. *)
Definition commands_of (h : list Did) : list Did :=
  List.filter (fun e => match e with
                        | DidShell _ _ _ | DidCallback _ => true
                        | _ => false
                        end) h.

(** The probes of a check: the commands it ran, apart from the
    question to npm about its prefix. *)
Definition probes (h : list Did) : list (string * ExecReply) :=
  List.filter (fun probe => negb (String.eqb probe.1 "npm config get prefix"))
              (shells h).

(** What a check may do: commands of twelve seconds and assignments
    to the search path. *)
Definition check_event (e : Did) : Prop :=
  match e with
  | DidShell _ timeoutMs _ => timeoutMs = 12000%N
  | DidSetPath _ => True
  | _ => False
  end.

(** From the trace [h0] to the trace [h] every probe failed, and the
    search path only grew at its front. *)
Definition all_failed (os : Os) (h0 h : list Did) : Prop :=
  exists (new : list Did) (added : string),
    h = app h0 new
    /\ Forall (fun probe => probe.2.(error) = true) (probes new)
    /\ Forall check_event new
    /\ default "" (path_after os h) = added ++ default "" (path_after os h0).

(** The outcome of a check started at the trace [h0]: it returned;
    every probe but the last one failed; it reports ok exactly when
    the last probe exited without error, and then with the trimmed
    output of that probe; every command had twelve seconds; the search
    path only grew at its front. *)
Definition first_success (os : Os) (h0 : list Did)
           (outcome : Res Shell.CommandResult * list Did) : Prop :=
  exists (r : Shell.CommandResult) (new : list Did)
         (before : list (string * ExecReply)) (command : string) (reply : ExecReply)
         (added : string),
    outcome = (Ok r, app h0 new)
    /\ probes new = app before [(command, reply)]
    /\ Forall (fun probe => probe.2.(error) = true) before
    /\ r.(Shell.ok) = negb reply.(error)
    /\ (r.(Shell.ok) = true -> r.(Shell.output) = Js.trim reply.(out))
    /\ Forall check_event new
    /\ default "" (path_after os (app h0 new))
       = added ++ default "" (path_after os h0).

(** The entries of the search path. *)
Definition path_entries (d : ascii) (PATH : option string) : list string :=
  entries d (match PATH with Some p => p | None => "" end).

(** No code unit of the text is the separator. *)
Definition free_of (d : ascii) (s : string) : bool :=
  Js.all_chars (fun a => negb (Ascii.eqb a d)) s.

End Start.

(* ===================================================================== *)
(** ** The environment variables of the hosting project (deploy.ts,
       [runVercelEnvUpdate])

    [values] is the list of [Object.entries(values)]. The log is
    written to the file system of the environment files, which here
    may refuse a path: [accepts] tells which paths it lets the process
    make or write. [now] is the value of [Date.now()] when the log is
    written. *)
(* ===================================================================== *)

Module VercelEnv.
Import World.
Local Open Scope monad_scope.

Record EnvUpdateResult := { ok : bool; logFilePath : option string }.

(** The workspace and the file system. *)
Record Host := { sys : Sys; disk : EnvFile.Disk }.

Definition in_sys {A} (m : M Sys A) : M Host A :=
  fun s => let '(r, w) := m s.(sys) in (r, {| sys := w; disk := s.(disk) |}).

Definition in_disk {A} (m : M EnvFile.Disk A) : M Host A :=
  fun s => let '(r, d) := m s.(disk) in (r, {| sys := s.(sys); disk := d |}).

Definition show_N (n : N) : string := NilZero.string_of_uint (N.to_uint n).

Definition log_dir (projectRoot : string) : string := projectRoot ++ "/.manifold-logs".

Definition log_file (now : N) (projectRoot name : string) : string :=
  log_dir projectRoot ++ "/" ++ name ++ "-" ++ show_N now ++ ".log".

(** An operation on a path that the file system may refuse. *)
Definition guarded {A} (accepts : string -> bool) (target : string)
           (m : M EnvFile.Disk A) : M Host A :=
  if accepts target then in_disk m
  else throw ("EACCES: permission denied, " ++ target).

Definition writeLog (accepts : string -> bool) (now : N) (projectRoot name : string)
           (lines : list string) : M Host string :=
  let logDir := log_dir projectRoot in
  let logFile := log_file now projectRoot name in
  try_catch
    (guarded accepts logDir (EnvFile.mkdir logDir) ;;;
     guarded accepts logFile
             (EnvFile.writeFile logFile (Js.join Deploy.LF lines ++ Deploy.LF)) ;;;
     ret logFile)
    (fun _ => ret logFile).

(** [exec(commandLine, { cwd: projectRoot, timeout: 120_000, ... })] *)
Definition env_request (projectRoot commandLine : string) : ExecRequest :=
  {| line := commandLine; cwd := Some projectRoot;
     timeout := 120000; extraEnv := [] |}.

(** What one command adds to the log. *)
Definition logged (commandLine : string) (reply : ExecReply) : list string :=
  ("$ " ++ commandLine) :: Deploy.output_lines reply.(out).

(** [runEnvCommand]: the result, and the log after the pushes. *)
Definition runEnvCommand (env : Env) (projectRoot commandLine : string)
           (logs : list string) : M Host (bool * list string) :=
  reply <- in_sys (Shell.exec env (env_request projectRoot commandLine)) ;;
  ret (negb reply.(error), app logs (logged commandLine reply)).

Definition token_arg (vercelToken : option string) : string :=
  match vercelToken with
  | Some t => if Js.truthy t then " --token=" ++ Runner.quoteArg t else ""
  | None => ""
  end.

Definition remove_command (tokenArg key : string) : string :=
  "vercel env rm " ++ key ++ " production --yes" ++ tokenArg.

Definition add_command (tokenArg key value : string) : string :=
  "vercel env add " ++ key ++ " production --value " ++ Runner.quoteArg value
  ++ tokenArg.

(** The loop over the entries, from the values of [ok] and [logs]. *)
Fixpoint update_loop (env : Env) (projectRoot tokenArg : string)
         (entries : list (string * string)) (ok : bool) (logs : list string)
  : M Host (bool * list string) :=
  match entries with
  | [] => ret (ok, logs)
  | (key, value) :: rest =>
      if negb (Js.truthy value) then update_loop env projectRoot tokenArg rest ok logs
      else
        let removeCommand := remove_command tokenArg key in
        removed <- runEnvCommand env projectRoot removeCommand logs ;;
        let addCommand := add_command tokenArg key value in
        added <- runEnvCommand env projectRoot addCommand removed.2 ;;
        let addOk := added.1 in
        update_loop env projectRoot tokenArg rest
                    (if negb addOk then false else ok) added.2
  end.

Definition runVercelEnvUpdate (env : Env) (accepts : string -> bool) (now : N)
           (projectRoot : string) (values : list (string * string))
           (vercelToken : option string) : M Host EnvUpdateResult :=
  let tokenArg := token_arg vercelToken in
  done <- update_loop env projectRoot tokenArg values true [] ;;
  logFilePath <- writeLog accepts now projectRoot "env" done.2 ;;
  ret {| ok := done.1; logFilePath := Some logFilePath |}.

(** The entries with a value. *)
Definition with_value (values : list (string * string)) : list (string * string) :=
  List.filter (fun entry => Js.truthy entry.2) values.

(** The two commands of an entry with what came back, as events and as
    lines of the log. *)
Definition update_events (projectRoot tokenArg : string)
           (entry : string * string) (replies : ExecReply * ExecReply) : list Event :=
  [EvExec (env_request projectRoot (remove_command tokenArg entry.1)) replies.1;
   EvExec (env_request projectRoot (add_command tokenArg entry.1 entry.2)) replies.2].

Definition update_lines (tokenArg : string)
           (entry : string * string) (replies : ExecReply * ExecReply) : list string :=
  app (logged (remove_command tokenArg entry.1) replies.1)
      (logged (add_command tokenArg entry.1 entry.2) replies.2).

(** The file system after the attempt to write the log. *)
Definition log_written (accepts : string -> bool) (logDir logFile text : string)
           (d : EnvFile.Disk) : EnvFile.Disk :=
  if accepts logDir then
    {| EnvFile.files := if accepts logFile
                        then <[logFile := text]> d.(EnvFile.files)
                        else d.(EnvFile.files);
       EnvFile.made := app d.(EnvFile.made) [logDir] |}
  else d.

Fixpoint pair_up {A B C} (f : A -> B -> list C) (l : list A) (r : list B) : list C :=
  match l, r with
  | a :: l', b :: r' => app (f a b) (pair_up f l' r')
  | _, _ => []
  end.

End VercelEnv.

(* ===================================================================== *)
(** ** Concrete environments for the worked examples *)
(* ===================================================================== *)

Module Examples.
Import State World.

(** A stand-in for the platform's URL parser on the inputs of the
    examples: it accepts [https://host] followed by nothing or by a
    path, and nothing else. *)
Fixpoint until_slash (s : string) : string :=
  match s with
  | EmptyString => EmptyString
  | String a s' => if Ascii.eqb a "/" then EmptyString else String a (until_slash s')
  end.

Definition drop (n : nat) (s : string) : string :=
  String.substring n (String.length s - n) s.

Definition https_only (text : string) : option Url :=
  if Js.startsWith "https://" text && (8 <? String.length text)%nat
  then Some {| url_protocol := "https:"; url_hostname := until_slash (drop 8 text) |}
  else None.

Definition all_tools_present : EnvCheckReport :=
  {| platform := "linux";
     tools := map (fun t => {| tool := t; tool_ok := true; tool_output := t ++ " 1.0" |})
                  ["git"; "node"; "python"; "gh"; "vercel"; "supabase"] |}.

Definition answers (title : string) : option string :=
  if String.eqb title "Manifold Auth Handshake - Supabase Access Token"
  then Some "sbp_0123456789"
  else if String.eqb title "Manifold Auth Handshake - Project URL"
  then Some "https://abcdefghijklmnopqrst.supabase.co"
  else if String.eqb title "Manifold Auth Handshake - Publishable API Key"
  then Some "sb_publishable_0123"
  else None.

Definition succeed (text : string) : ExecReply := {| error := false; out := text |}.
Definition fail (text : string) : ExecReply := {| error := true; out := text |}.

(** A shell described by a table from command line to reply; a command
    outside the table succeeds silently. *)
Fixpoint lookup_reply (table : list (string * ExecReply)) (l : string) : ExecReply :=
  match table with
  | [] => succeed ""
  | (l', r) :: rest => if String.eqb l' l then r else lookup_reply rest l
  end.

Definition env_of (table : list (string * ExecReply)) (reply : HttpReply) : Env :=
  {| parseUrl := https_only;
     on_exec := fun _ req => lookup_reply table req.(line);
     on_http := fun _ _ => reply;
     on_inputBox := fun _ title => answers title;
     on_environmentChecks := fun _ => all_tools_present;
     on_scaffold := fun _ workspaceRoot projectName =>
                      {| root := workspaceRoot ++ "/" ++ projectName;
                         created := []; installs := [] |};
     on_now := fun _ => "1700000000000";
     on_installTool := fun _ _ => None |}.

(** Nothing exists yet: the repository and the hosting project are
    created, and the deployment prints its URL. *)
Definition fresh_cloud : Env :=
  env_of [("gh api user --jq .login", succeed "octocat");
          ("gh repo view octocat/my-app --json name", fail "not found");
          ("vercel project inspect my-app", fail "not found");
          ("vercel project add my-app", succeed "Success! Project my-app added");
          ("vercel deploy --prod --yes",
           succeed "Production: https://my-app-abc123.vercel.app [2s]")]
         (HttpResponse (Some 200) "{}").


(** The hosting project is created, then linking it fails. *)
Definition link_fails : Env :=
  env_of [("gh api user --jq .login", succeed "octocat");
          ("gh repo view octocat/my-app --json name", fail "not found");
          ("vercel project inspect my-app", fail "not found");
          ("vercel project add my-app", succeed "Success! Project my-app added");
          ("vercel link --yes --project my-app", fail "Error: network unreachable")]
         (HttpResponse (Some 200) "{}").

(** Every connection is refused with an error whose message is the
    empty string, as Node reports a connection refused on all the
    addresses of a host (an AggregateError, whose message is empty). *)
Definition refused_silently : Env :=
  env_of [] (HttpError "").

(** The deployment succeeds and prints a URL after a [url:] label. *)
Definition deploy_prints (text : string) : Env :=
  env_of [("gh api user --jq .login", succeed "octocat");
          ("gh repo view octocat/my-app --json name", succeed "{}");
          ("vercel project inspect my-app", succeed "my-app");
          ("vercel deploy --prod --yes", succeed text)]
         (HttpResponse (Some 200) "{}").

Definition empty_workspace : Sys := {| history := []; file := None |}.

(** The line of the alias in the example, and its URL. *)
Definition alias_line := "Aliased: https://app-demo.example-host.app".
Definition alias_url := "https://app-demo.example-host.app".

(** The deployment output of the example: the raw deployment URL on one
    line, the alias on the next. *)
Definition example_output : list string :=
  ["Production: https://app-demo-abc123.vercel.app [2s]";
   "Aliased: https://app-demo.example-host.app [2s]"].

(** The command lines run so far, in order, with their outcome. *)
Definition commands (w : Sys) : list (string * bool) :=
  omap (fun e => match e with
                 | EvExec req reply => Some (req.(line), negb reply.(error))
                 | _ => None
                 end) w.(history).

End Examples.

(* ===================================================================== *)
(** ** Specification vocabulary *)
(* ===================================================================== *)

Module Spec.
Import State World.

(** [hoare P m Q]: started in a state that satisfies [P], the
    computation [m] ends (returning, throwing, or stuck for ever on a
    promise that never settles) in a state and with a result that
    satisfy [Q]. *)
Definition hoare {St A} (P : St -> Prop) (m : M St A)
           (Q : Res A -> St -> Prop) : Prop :=
  forall s, P s -> Q (fst (m s)) (snd (m s)).

(** [keeps I m]: [m] maintains [I], however it ends. *)
Definition keeps {St A} (I : St -> Prop) (m : M St A) : Prop :=
  hoare I m (fun _ s => I s).

(** [settles m]: [m] returns or throws. *)
Definition settles {St A} (m : M St A) : Prop :=
  forall s, fst (m s) <> Never.

(** The stacks that provisioning can leave: the deletion of the
    repository it created, the removal of the hosting project it
    created, both in that order, or nothing. *)
Definition compensations_only (stack : list string) : Prop :=
  exists fullRepo projectName,
    stack = []
    \/ stack = [Provision.gh_delete fullRepo]
    \/ stack = [Provision.vercel_rm projectName]
    \/ stack = [Provision.gh_delete fullRepo; Provision.vercel_rm projectName].

(** During provisioning: the rollback stack is [stack], and the state
    file and the record of its writes are those of [w0]. *)
Definition frame (w0 : Sys) (stack : list string) (l : Provision.Locals) : Prop :=
  l.(Provision.rollbackArr) = stack
  /\ l.(Provision.sys).(file) = w0.(file)
  /\ persisted l.(Provision.sys).(history) = persisted w0.(history).


(** A provisioning helper keeps what holds of the workspace. *)
Definition on_sys (I : Sys -> Prop) (l : Provision.Locals) : Prop :=
  I l.(Provision.sys).

(** The command lines by which provisioning learns the login, creates
    the repository and creates the hosting project. *)
Definition login_command : string :=
  Shell.commandLine "gh" ["api"; "user"; "--jq"; ".login"].

Definition create_repository (name : string) : string :=
  Shell.commandLine "gh" ["repo"; "create"; name; "--private"; "--source"; ".";
                          "--remote"; "origin"].

Definition add_project (name : string) : string :=
  Shell.commandLine "vercel" ["project"; "add"; name].

(** In the history [h] the command [commandLine] has exited without
    error and printed [text] (trimmed). *)
Definition printed (h : list Event) (commandLine text : string) : Prop :=
  exists req reply,
    In (EvExec req reply) h
    /\ req.(line) = commandLine
    /\ reply.(error) = false
    /\ Js.trim reply.(out) = text.

(** In the history [h] the repository [name] has been created, under
    the login that [gh api user] printed. *)
Definition repository_created (h : list Event) (login name : string) : Prop :=
  printed h login_command login /\ In (create_repository name) (succeeded h).

(** In the history [h] the hosting project [name] has been created. *)
Definition project_created (h : list Event) (name : string) : Prop :=
  In (add_project name) (succeeded h).

(** Every command of [stack] deletes a resource that provisioning has
    created in the history [h]: the stack is empty, or it is the
    deletion of the repository [login/name] that [gh repo create name]
    created, or the removal of the hosting project [name] that
    [vercel project add name] created, or both in that order. *)
Definition undoes_creations (h : list Event) (stack : list string) : Prop :=
  exists login name,
    let repository :=
      Provision.gh_delete (Provision.first_line login ++ "/" ++ name)%string in
    let project := Provision.vercel_rm name in
    stack = []
    \/ (stack = [repository] /\ repository_created h login name)
    \/ (stack = [project] /\ project_created h name)
    \/ (stack = [repository; project]
        /\ repository_created h login name /\ project_created h name).

(** During provisioning: every command on the rollback stack deletes
    a resource that has been created, the repository of [name] under
    the login that [gh api user] printed or the hosting project
    [name]. *)
Definition backed (name : string) (l : Provision.Locals) : Prop :=
  forall c,
    In c l.(Provision.rollbackArr) ->
    (exists login,
        c = Provision.gh_delete (Provision.first_line login ++ "/" ++ name)%string
        /\ repository_created l.(Provision.sys).(history) login name)
    \/ (c = Provision.vercel_rm name
        /\ project_created l.(Provision.sys).(history) name).

(** [backed], together with a fact about the history so far. *)
Definition known (name : string) (fact : list Event -> Prop)
           (l : Provision.Locals) : Prop :=
  backed name l /\ fact l.(Provision.sys).(history).

(** [stack] is what phase 3 stored: in the history [h] a provisioning
    succeeded and returned [stack], and the state written next is in
    phase 4_env_wiring, in progress, with [stack] as its rollback
    stack. *)
Definition stored_by_phase_3 (h : list Event) (stack : list string) : Prop :=
  exists env projectRoot projectName w0 result s3 later,
    let out := Provision.runProvisioning env projectRoot projectName w0 in
    fst out = Ok result
    /\ result.(Provision.ok) = true
    /\ result.(Provision.rollbackStack) = stack
    /\ h = app (snd out).(history) (EvPersist s3 :: later)
    /\ s3.(current_phase) = "4_env_wiring"
    /\ s3.(status) = in_progress
    /\ s3.(rollback_stack) = stack.

(** A patch that neither replaces the rollback stack nor ends the
    run as failed or complete. *)
Definition quiet_patch (p : ManifoldStatePatch) : Prop :=
  p.(p_rollback_stack) = None
  /\ p.(p_status) <> Some failed
  /\ p.(p_status) <> Some complete.

(** What the rollback stack of a state is, by the status, given the
    history: empty when the run failed; commands that delete what
    provisioning created, whatever the status; what phase 3 stored when
    the run is complete. *)
Definition stack_by_status (h : list Event) (s : ManifoldState) : Prop :=
  (s.(status) = failed -> s.(rollback_stack) = [])
  /\ undoes_creations h s.(rollback_stack)
  /\ (s.(status) = complete -> stored_by_phase_3 h s.(rollback_stack)).

(** Every state written so far, and the state on disk, has the stack
    that goes with its status. *)
Definition stacks_by_status (w : Sys) : Prop :=
  forall s,
    In s (persisted w.(history)) \/ w.(file) = Some s ->
    stack_by_status w.(history) s.

(** The stack of the state on disk is what phase 3 stored. *)
Definition provisioned (w : Sys) : Prop :=
  forall s, w.(file) = Some s -> stored_by_phase_3 w.(history) s.(rollback_stack).

(** What holds from the end of phase 3 on. *)
Definition after_phase_3 (w : Sys) : Prop :=
  stacks_by_status w /\ provisioned w.

(** The handlers that run after phase 3. *)
Definition follows_phase_3 (c : Manifold.Call) : Prop :=
  match c with
  | Manifold.EnvWiringPhase _ | Manifold.DeploymentPhase _ => True
  | _ => False
  end.

(** What holds when the handler [c] is entered. *)
Definition entry (c : Manifold.Call) (w : Sys) : Prop :=
  stacks_by_status w /\ (follows_phase_3 c -> provisioned w).

(** A handler that hands over, hands over to a handler of the phases
    1 to 3. *)
Definition before_phase_4 (next : Manifold.Next) : Prop :=
  forall c, next = Manifold.TailCall c -> ~ follows_phase_3 c.

(** The values that a computation may return are in [V]. *)
Definition returns_only {St A} (V : A -> Prop) (m : M St A) : Prop :=
  forall s a, fst (m s) = Ok a -> V a.

(** A fact about a history that still holds when more happens. *)
Definition grows (fact : list Event -> Prop) : Prop :=
  forall h later, fact h -> fact (app h later).

(** A workspace reached from an empty one by runs of the setup command
    (each in any environment, stopped after any number of handlers)
    and resets. *)
Inductive reachable : Sys -> Prop :=
| reach_empty : reachable {| history := []; file := None |}
| reach_setup env workspaceRoot steps projectName w :
    reachable w ->
    reachable (snd (Manifold.handleSetup env workspaceRoot steps projectName w))
| reach_reset w :
    reachable w -> reachable (snd (Manifold.resetState w)).





End Spec.

(* ===================================================================== *)
(** ** Vocabulary for the runs of the orchestrator *)
(* ===================================================================== *)

Module Orchestration.
Import State World Manifold.

(** The phase and status that the phase handlers store together, when
    they store nothing else. *)
Definition transitions : list (string * RunStatus) :=
  [("1_auth", in_progress); ("0_env_check", paused_at_auth);
   ("2_scaffold", in_progress); ("1_auth", paused_at_auth);
   ("2_scaffold", paused_at_auth); ("3_provision", in_progress);
   ("5_deploy", in_progress); ("5_deploy", complete);
   ("5_deploy", paused_at_auth)].

(** The patches that the phase handlers apply. *)
Inductive applied : ManifoldStatePatch -> Prop :=
| applied_phase phase st :
    In (phase, st) transitions -> applied (phase_patch phase st None None None)
| applied_resources res : applied (resources_patch res)
| applied_credentials res cred : applied (credentials_patch res cred)
| applied_failed : applied (phase_patch "3_provision" failed None None (Some []))
| applied_provisioned res stack :
    applied (phase_patch "4_env_wiring" in_progress (Some res) None (Some stack))
| applied_reset : applied reset_patch.

(** The pairs of phase and status that a state file can hold. *)
Definition phase_of_status (st : RunStatus) : list string :=
  match st with
  | in_progress => ["0_env_check"; "1_auth"; "2_scaffold"; "3_provision";
                    "4_env_wiring"; "5_deploy"]
  | paused_at_auth => ["0_env_check"; "1_auth"; "2_scaffold"; "5_deploy"]
  | failed => ["3_provision"]
  | complete => ["5_deploy"]
  end.

Definition consistent (s : ManifoldState) : Prop :=
  In s.(current_phase) (phase_of_status s.(status)).

(** Every state written so far, and the state on disk, satisfies
    [G]. *)
Definition always (G : ManifoldState -> Prop) (w : Sys) : Prop :=
  Forall G (persisted w.(history))
  /\ (forall s, w.(file) = Some s -> G s).

(** The configuration that the setup command stores: the only stack
    there is, and a project name that is not empty. *)
Definition configured (s : ManifoldState) : Prop :=
  s.(state_version) = 1%Z
  /\ s.(config).(stack) = {| frontend := react_vite; backend := flask |}
  /\ s.(config).(project_name) <> "".

(** The workspace has a state file that reads. *)
Definition has_file (w : Sys) : Prop := exists s, w.(file) = Some s.


(** The state file tells how the run ended: its status is complete,
    failed or paused_at_auth. *)
Definition settled (w : Sys) : Prop :=
  exists s, w.(file) = Some s /\ s.(status) <> in_progress.

(** What a phase handler that comes back leaves: a state file, and a
    settled one when it returns rather than calls the next handler. *)
Definition handled (r : Res Next) (w : Sys) : Prop :=
  forall next, r = Ok next -> has_file w /\ (next = Return -> settled w).

(** The place of a tool in the order of installation, -1 for a tool
    that is not in it. *)
Definition rank (t : string) : Z := indexOf installOrder t 0.

(** The command always fails: the tool is not signed in. *)
Definition signed_out (env : Env) (commandLine : string) : Prop :=
  forall h,
    (env.(on_exec) h {| line := commandLine; cwd := None; timeout := 15000;
                        extraEnv := [] |}).(error) = true.






(** A computation that returns, returns a value that satisfies [V]. *)
Definition yields {St A} (V : A -> Prop) (r : Res A) (s : St) : Prop :=
  forall a, r = Ok a -> V a.

End Orchestration.

(* ===================================================================== *)
(** * Properties *)
(* ===================================================================== *)

(** ** Facts about the matcher *)

Section RegexFacts.
Import Regex.

Lemma in_cls_plain (p : ascii -> bool) (a : ascii) :
  in_cls no_flags (Cls false p) a = p a.
Proof.
  unfold in_cls; simpl. destruct (p a); reflexivity.
Qed.

(** A greedy run that must reach the end of the text succeeds exactly
    when every remaining code unit is in the class. *)
Lemma star_to_end {R} (p : ascii -> bool)
      (k : option ascii -> nat -> string -> option R) :
  (forall pv n a s, k pv n (String a s) = None) ->
  (forall pv n, k pv n EmptyString <> None) ->
  forall s pv n, star p pv n s k <> None <-> Js.all_chars p s = true.
Proof.
  intros Hcons Hnil s. induction s as [|a s IH]; intros pv n; simpl.
  - split; [reflexivity | intros _; apply Hnil].
  - destruct (p a) eqn:Hp; simpl.
    + specialize (IH (Some a) (S n)).
      destruct (star p (Some a) (S n) s k) eqn:Hs.
      * split; [intros _; apply IH; discriminate | discriminate].
      * rewrite Hcons. split; [congruence |].
        intros Hall. apply IH in Hall. congruence.
    + rewrite Hcons. split; [congruence | discriminate].
Qed.

(** Without the [m] flag a pattern that starts with [^] matches at the
    start of the text only. *)
Lemma anchored_only_at_start (r : regex) (s : string) (a : ascii) :
  search_from no_flags (Seq Bol r) (Some a) s = None.
Proof.
  revert a. induction s as [|b s IH]; intros a; simpl.
  - reflexivity.
  - apply IH.
Qed.

End RegexFacts.

(** ** The command runner *)

Section QuoteArg.
Import Regex Runner.

Lemma all_chars_ext (p q : ascii -> bool) (s : string) :
  (forall a, p a = q a) -> Js.all_chars p s = Js.all_chars q s.
Proof.
  intros E. induction s as [|a s IH]; simpl; [reflexivity |].
  rewrite E, IH. reflexivity.
Qed.

Lemma safe_arg_test (arg : string) :
  test no_flags re_safe_arg arg = Js.truthy arg && Js.all_chars safe_char arg.
Proof.
  unfold test, exec, re_safe_arg.
  destruct arg as [|a s]; [reflexivity |].
  cbn [search_from at_front seqs run Js.truthy Js.all_chars andb].
  rewrite in_cls_plain.
  destruct (safe_char a) eqn:Ha; cbn [andb].
  - match goal with
    | |- context [star ?p ?pv ?n s ?k] =>
        assert (star p pv n s k <> None <-> Js.all_chars p s = true) as Hstar
          by (apply star_to_end; [intros; reflexivity | intros; discriminate]);
        destruct (star p pv n s k) eqn:Hs
    end.
    + rewrite (all_chars_ext _ safe_char) in Hstar by apply in_cls_plain.
      symmetry. apply Hstar. discriminate.
    + rewrite anchored_only_at_start.
      rewrite (all_chars_ext _ safe_char) in Hstar by apply in_cls_plain.
      destruct (Js.all_chars safe_char s); [| reflexivity].
      exfalso. apply Hstar; reflexivity.
  - rewrite anchored_only_at_start. reflexivity.
Qed.

Lemma safe_char_is_spec_class_or_backslash (a : ascii) :
  safe_char a = spec_safe_char a || Ascii.eqb a backslash.
Proof.
  unfold safe_char, spec_safe_char, backslash.
  destruct (Js.between 97 122 a), (Js.between 65 90 a), (Js.between 48 57 a),
    (Ascii.eqb a "."), (Ascii.eqb a "_"), (Ascii.eqb a ":"), (Ascii.eqb a "/"),
    (Ascii.eqb a "092"), (Ascii.eqb a "-"); reflexivity.
Qed.

Lemma escape_quotes_escaped (arg : string) :
  forall i, String.get i (escape_quotes arg) = Some dquote ->
            exists j, i = S j /\ String.get j (escape_quotes arg) = Some backslash.
Proof.
  induction arg as [|a arg IH]; intros i Hi; simpl in *.
  - destruct i; discriminate.
  - destruct (Ascii.eqb a dquote) eqn:Ha.
    + destruct i as [|[|i]]; simpl in *.
      * discriminate.
      * exists 0. split; reflexivity.
      * destruct (IH i Hi) as (j & -> & Hj).
        exists (S (S j)). split; [reflexivity | exact Hj].
    + destruct i as [|i]; simpl in *.
      * injection Hi as ->. rewrite Ascii.eqb_refl in Ha. discriminate.
      * destruct (IH i Hi) as (j & -> & Hj).
        exists (S j). split; [reflexivity | exact Hj].
Qed.

(** C9, as the design document states it, fails on the code: a
    Windows-style path holds a backslash, which is outside the class
    [[A-Za-z0-9._:/-]], and is passed through unquoted; and the empty
    argument, which holds no code unit outside the class, is quoted. *)
Lemma C9_backslash_passes_unquoted :
  Js.all_chars spec_safe_char "C:\tmp" = false
  /\ quoteArg "C:\tmp" = "C:\tmp"
  /\ quoteArg "C:\tmp" <> dq ++ escape_quotes "C:\tmp" ++ dq
  /\ Js.all_chars spec_safe_char "" = true
  /\ quoteArg "" <> "".
Proof.
  repeat split; try reflexivity; vm_compute; discriminate.
Qed.

(** C9 (amended): the class that decides quoting is [[A-Za-z0-9._:/-]]
    together with the backslash. A non-empty argument made only of
    code units of that class is passed through unchanged; the empty
    argument and every argument with a code unit outside the class is
    wrapped in double quotes, each double quote inside it replaced by
    backslash and double quote, so that every double quote of the body
    follows a backslash. *)
Theorem C9_quoteArg_quotes_outside_class (arg : string) :
  (forall a, safe_char a = spec_safe_char a || Ascii.eqb a backslash)
  /\ quoteArg arg =
       (if Js.truthy arg && Js.all_chars safe_char arg
        then arg
        else dq ++ escape_quotes arg ++ dq)
  /\ (forall i, String.get i (escape_quotes arg) = Some dquote ->
                exists j, i = S j
                          /\ String.get j (escape_quotes arg) = Some backslash).
Proof.
  split; [exact safe_char_is_spec_class_or_backslash |].
  split; [| exact (escape_quotes_escaped arg)].
  unfold quoteArg. rewrite safe_arg_test. reflexivity.
Qed.

End QuoteArg.

Local Open Scope list_scope.

(** ** Rules for triples *)

Section HoareRules.
Import World Spec.
Context {St : Type}.

Lemma hoare_ret {A} (P : St -> Prop) (a : A) (Q : Res A -> St -> Prop) :
  (forall s, P s -> Q (Ok a) s) -> hoare P (ret a) Q.
Proof. intros H s Hs. apply H, Hs. Qed.

Lemma hoare_throw {A} (P : St -> Prop) (msg : string) (Q : Res A -> St -> Prop) :
  (forall s, P s -> Q (Throw msg) s) -> hoare P (throw msg) Q.
Proof. intros H s Hs. apply H, Hs. Qed.

Lemma hoare_bind {A B} (P : St -> Prop) (m : M St A) (f : A -> M St B)
      (Q1 : Res A -> St -> Prop) (Q2 : Res B -> St -> Prop) :
  hoare P m Q1 ->
  (forall a, hoare (Q1 (Ok a)) (f a) Q2) ->
  (forall msg s, Q1 (Throw msg) s -> Q2 (Throw msg) s) ->
  (forall s, Q1 Never s -> Q2 Never s) ->
  hoare P (bind m f) Q2.
Proof.
  intros Hm Hf Hthrow Hnever s Hs. unfold bind.
  specialize (Hm s Hs). destruct (m s) as [[a | msg |] s1]; simpl in *.
  - apply Hf, Hm.
  - apply Hthrow, Hm.
  - apply Hnever, Hm.
Qed.

Lemma hoare_conseq {A} (P P' : St -> Prop) (m : M St A)
      (Q Q' : Res A -> St -> Prop) :
  hoare P m Q ->
  (forall s, P' s -> P s) ->
  (forall r s, Q r s -> Q' r s) ->
  hoare P' m Q'.
Proof. intros Hm Hpre Hpost s Hs. apply Hpost, Hm, Hpre, Hs. Qed.

Lemma keeps_ret {A} (I : St -> Prop) (a : A) : keeps I (ret a).
Proof. intros s Hs. exact Hs. Qed.

Lemma keeps_throw {A} (I : St -> Prop) (msg : string) : keeps I (@throw St A msg).
Proof. intros s Hs. exact Hs. Qed.

Lemma keeps_get (I : St -> Prop) : keeps I get.
Proof. intros s Hs. exact Hs. Qed.

Lemma keeps_bind {A B} (I : St -> Prop) (m : M St A) (f : A -> M St B) :
  keeps I m -> (forall a, keeps I (f a)) -> keeps I (bind m f).
Proof.
  intros Hm Hf. eapply hoare_bind; [exact Hm | exact Hf | |].
  - intros msg s Hs. exact Hs.
  - intros s Hs. exact Hs.
Qed.

Lemma keeps_try_catch {A} (I : St -> Prop) (m : M St A) (h : string -> M St A) :
  keeps I m -> (forall msg, keeps I (h msg)) -> keeps I (try_catch m h).
Proof.
  intros Hm Hh s Hs. unfold try_catch.
  specialize (Hm s Hs). destruct (m s) as [[a | msg |] s1]; simpl in *.
  - exact Hm.
  - apply Hh, Hm.
  - exact Hm.
Qed.

(** A step whose value is known to satisfy [V], followed by a
    continuation that may rely on [V]. *)
Lemma keeps_bind_val {A B} (I : St -> Prop) (V : A -> Prop)
      (m : M St A) (f : A -> M St B) :
  hoare I m (fun r s => I s /\ forall a, r = Ok a -> V a) ->
  (forall a, V a -> keeps I (f a)) ->
  keeps I (bind m f).
Proof.
  intros Hm Hf s Hs. unfold bind.
  specialize (Hm s Hs). destruct (m s) as [[a | msg |] s1]; simpl in *.
  - destruct Hm as [HI HV]. apply Hf; [apply HV; reflexivity | exact HI].
  - apply Hm.
  - apply Hm.
Qed.

Lemma keeps_modify (I : St -> Prop) (f : St -> St) :
  (forall s, I s -> I (f s)) -> keeps I (modify f).
Proof. intros H s Hs. apply H, Hs. Qed.

Lemma settles_ret {A} (a : A) : settles (@ret St A a).
Proof. intros s. discriminate. Qed.

Lemma settles_throw {A} (msg : string) : settles (@throw St A msg).
Proof. intros s. discriminate. Qed.

Lemma settles_get : settles (@get St).
Proof. intros s. discriminate. Qed.

Lemma settles_modify (f : St -> St) : settles (modify f).
Proof. intros s. discriminate. Qed.

Lemma settles_bind {A B} (m : M St A) (f : A -> M St B) :
  settles m -> (forall a, settles (f a)) -> settles (bind m f).
Proof.
  intros Hm Hf s. unfold bind. specialize (Hm s).
  destruct (m s) as [[a | msg |] s1]; cbn [fst] in *.
  - apply Hf.
  - discriminate.
  - destruct (Hm eq_refl).
Qed.

Lemma settles_try_catch {A} (m : M St A) (h : string -> M St A) :
  settles m -> (forall msg, settles (h msg)) -> settles (try_catch m h).
Proof.
  intros Hm Hh s. unfold try_catch. specialize (Hm s).
  destruct (m s) as [[a | msg |] s1]; cbn [fst] in *.
  - discriminate.
  - apply Hh.
  - exact Hm.
Qed.

End HoareRules.

(** ** What the provisioner runs settles *)

Section ProvisionSettles.
Import World Spec Provision.
Variable env : Env.

Lemma settles_exec req : settles (Shell.exec env req).
Proof. intros w. discriminate. Qed.

Lemma settles_shell_run command args dir t : settles (Shell.run env command args dir t).
Proof. intros w. discriminate. Qed.

Lemma settles_lift {A} (m : M Sys A) : settles m -> settles (lift m).
Proof.
  intros Hm l. unfold lift. specialize (Hm l.(sys)).
  destruct (m (sys l)) as [r w']. exact Hm.
Qed.

Lemma settles_run command args dir t : settles (run env command args dir t).
Proof. apply settles_lift, settles_shell_run. Qed.

Ltac settles_auto :=
  repeat first
    [ apply settles_ret
    | apply settles_throw
    | apply settles_get
    | apply settles_modify
    | apply settles_run
    | apply settles_lift, settles_exec
    | apply settles_bind; [| intros ?]
    | match goal with
      | |- settles (if ?b then _ else _) => destruct b
      | |- settles (match ?x with _ => _ end) => destruct x
      end
    | progress cbv zeta ].

Lemma settles_ensureGitHubRepo name root : settles (ensureGitHubRepo env name root).
Proof.
  unfold ensureGitHubRepo, ensureGitRepository, ensureInitialCommit,
    push_output, push_rollback.
  settles_auto.
Qed.

Lemma settles_ensureVercelProject name root :
  settles (ensureVercelProject env name root).
Proof. unfold ensureVercelProject, push_output, push_rollback. settles_auto. Qed.

(** The two steps of provisioning return or throw. *)
Lemma settles_steps name root :
  settles (githubRepo <- ensureGitHubRepo env name root ;;
           vercelProjectId <- ensureVercelProject env name root ;;
           ret (githubRepo, vercelProjectId))%monad.
Proof.
  apply settles_bind; [apply settles_ensureGitHubRepo | intros ?].
  apply settles_bind; [apply settles_ensureVercelProject | intros ?].
  apply settles_ret.
Qed.

End ProvisionSettles.

(** ** The rollback manager *)

Section Rollback.
Import World Provision.
Variable env : Env.
Variable dir : string.

Lemma executed_app (h1 h2 : list Event) :
  executed (h1 ++ h2) = executed h1 ++ executed h2.
Proof. apply flat_map_app. Qed.

Lemma persisted_app (h1 h2 : list Event) :
  persisted (h1 ++ h2) = persisted h1 ++ persisted h2.
Proof. apply flat_map_app. Qed.

Lemma pop_snoc {A} (l : list A) (x : A) : Js.pop (l ++ [x]) = Some (x, l).
Proof.
  unfold Js.pop. rewrite rev_app_distr. simpl. rewrite rev_involutive. reflexivity.
Qed.

Lemma pop_inv {A} (l : list A) :
  match Js.pop l with
  | None => l = []
  | Some (x, rest) => l = rest ++ [x]
  end.
Proof.
  destruct l as [|y l] using rev_ind; [reflexivity |].
  rewrite pop_snoc. reflexivity.
Qed.

Lemma filter_snoc {A} (f : A -> bool) (l : list A) (x : A) :
  List.filter f (l ++ [x]) = List.filter f l ++ (if f x then [x] else []).
Proof. rewrite List.filter_app. reflexivity. Qed.

Lemma maybe_push_output (c : bool) (text : string) (l : Locals) :
  exists o',
    (if c then push_output text else ret tt) l
    = (Ok tt, {| sys := l.(sys); outputArr := o'; rollbackArr := l.(rollbackArr) |}).
Proof. destruct l, c; eexists; reflexivity. Qed.

(** The loop drains the stack from its top, whatever the commands
    answer. *)
Lemma rollback_loop_drains (turns : nat) :
  forall l : Locals,
    length l.(rollbackArr) <= turns ->
    exists l',
      rollback_loop env dir turns l = (Ok tt, l')
      /\ l'.(rollbackArr) = []
      /\ executed l'.(sys).(history)
          = executed l.(sys).(history) ++ rev (List.filter Js.truthy l.(rollbackArr))
      /\ l'.(sys).(file) = l.(sys).(file)
      /\ persisted l'.(sys).(history) = persisted l.(sys).(history).
Proof.
  induction turns as [|turns IH]; intros l Hlen.
  - destruct l as [w o st]; simpl in *.
    destruct st; [| simpl in Hlen; lia].
    eexists; split; [reflexivity |]. simpl. rewrite app_nil_r. auto.
  - destruct l as [w o st]. simpl in Hlen.
    cbn [rollback_loop]. unfold bind at 1, get at 1. cbn [rollbackArr].
    pose proof (pop_inv st) as Hpop.
    destruct (Js.pop st) as [[command rest]|].
    + subst st. rewrite length_app in Hlen. simpl in Hlen.
      rewrite filter_snoc, rev_app_distr.
      unfold bind at 1, set_rollback, modify. cbn [sys outputArr rollbackArr].
      destruct (Js.truthy command) eqn:Htruthy; cbn [negb].
      * unfold bind at 1, lift, Shell.exec. cbn [sys outputArr rollbackArr].
        unfold bind at 1, push_output at 1, modify. cbn [sys outputArr rollbackArr].
        unfold bind at 1.
        match goal with
        | |- context [(if ?c then push_output ?t else ret tt) ?l0] =>
            destruct (maybe_push_output c t l0) as [o' Ho']; rewrite Ho'
        end.
        cbn [sys rollbackArr].
        match goal with
        | |- context [rollback_loop env dir turns ?l0] =>
            destruct (IH l0) as (l' & Hrun & Hempty & Hexec & Hfile & Hpers);
            [cbn [rollbackArr]; lia |]
        end.
        exists l'. split; [exact Hrun |]. split; [exact Hempty |].
        rewrite Hexec, Hfile, Hpers. cbn [sys history file rollbackArr log].
        rewrite executed_app, persisted_app. simpl.
        rewrite <- app_assoc, app_nil_r. auto.
      * match goal with
        | |- context [rollback_loop env dir turns ?l0] =>
            destruct (IH l0) as (l' & Hrun & Hempty & Hexec & Hfile & Hpers);
            [cbn [rollbackArr]; lia |]
        end.
        exists l'. split; [exact Hrun |]. split; [exact Hempty |].
        rewrite Hexec, Hfile, Hpers. auto.
    + subst st. eexists; split; [reflexivity |]. simpl. rewrite app_nil_r. auto.
Qed.

Lemma runRollback_drains (l : Locals) :
  exists l',
    runRollback env dir l = (Ok tt, l')
    /\ l'.(rollbackArr) = []
    /\ executed l'.(sys).(history)
        = executed l.(sys).(history) ++ rev (List.filter Js.truthy l.(rollbackArr))
    /\ l'.(sys).(file) = l.(sys).(file)
    /\ persisted l'.(sys).(history) = persisted l.(sys).(history).
Proof.
  unfold runRollback, bind, get.
  apply rollback_loop_drains. apply le_n.
Qed.

(** C4: whatever stack the rollback is started with and whatever the
    compensations answer (success or failure), [runRollback] returns
    without throwing, leaves the stack empty, and has run the commands
    of the stack from the last pushed to the first pushed: the commands
    executed are the reverse of the stack (an empty string is not a
    command and is skipped). For a stack of non-empty commands, such
    as C1 then C2, that is exactly the reversed stack: C2 then C1. *)
Theorem C4_rollback_runs_in_reverse_and_drains (l : Locals) :
  exists l',
    runRollback env dir l = (Ok tt, l')
    /\ l'.(rollbackArr) = []
    /\ executed l'.(sys).(history)
        = executed l.(sys).(history) ++ rev (List.filter Js.truthy l.(rollbackArr))
    /\ (List.forallb Js.truthy l.(rollbackArr) = true ->
        executed l'.(sys).(history)
        = executed l.(sys).(history) ++ rev l.(rollbackArr)).
Proof.
  destruct (runRollback_drains l) as (l' & Hrun & Hempty & Hexec & _).
  exists l'. repeat split; try assumption.
  intros Hall. rewrite Hexec. f_equal. f_equal.
  clear -Hall. induction (rollbackArr l) as [|c st IH]; [reflexivity |].
  simpl in *. apply andb_true_iff in Hall as [-> Hall].
  rewrite IH by assumption. reflexivity.
Qed.

End Rollback.

(** The two creations C1 then C2 of the design document, the second
    compensation failing: C2's compensation runs first, C1's runs all the
    same, and the stack ends empty. *)
Lemma rollback_continues_after_failure :
  let env := Examples.env_of [("undo C2", Examples.fail "boom")]
                             (World.HttpResponse (Some 200) "") in
  let l := {| Provision.sys := Examples.empty_workspace;
              Provision.outputArr := [];
              Provision.rollbackArr := ["undo C1"; "undo C2"] |} in
  let l' := snd (Provision.runRollback env "/ws" l) in
  Examples.commands l'.(Provision.sys) = [("undo C2", false); ("undo C1", true)]
  /\ l'.(Provision.rollbackArr) = [].
Proof. vm_compute. split; reflexivity. Qed.

(** ** The resource provisioner *)

(** C3 fails on the hosting project. The project is absent, so it is
    created ([vercel project add] succeeds); linking then fails and
    throws before [vercel project rm] was pushed. The rollback therefore
    deletes the repository only: the hosting project just created is
    left behind, its compensation never registered. The repository path
    pushes its compensation right after the creation, as C3 says. *)
Lemma C3_project_created_then_link_fails :
  let '(r, w) := Provision.runProvisioning Examples.link_fails "/ws/my-app" "my-app"
                                           Examples.empty_workspace in
  Examples.commands w
  = [("git rev-parse --is-inside-work-tree", true);
     ("gh api user --jq .login", true);
     ("gh repo view octocat/my-app --json name", false);
     ("gh repo create my-app --private --source . --remote origin", true);
     ("git rev-parse --verify HEAD", true);
     ("git push -u origin HEAD", true);
     ("vercel project inspect my-app", false);
     ("vercel project add my-app", true);
     ("vercel link --yes --project my-app", false);
     ("gh repo delete octocat/my-app --yes", true)]
  /\ ~ In (Provision.vercel_rm "my-app") (World.executed w.(World.history))
  /\ option_map Provision.ok (match r with World.Ok x => Some x | _ => None end)
      = Some false.
Proof.
  vm_compute. repeat split; try reflexivity.
  intros H. repeat (destruct H as [H | H]; [discriminate H |]). exact H.
Qed.

Section ProvisionFacts.
Import World Spec Provision.
Variable env : Env.
Variable w0 : Sys.

Lemma frame_log_exec (st : list string) (w : Sys) (o : list string)
      (req : ExecRequest) (reply : ExecReply) :
  frame w0 st {| sys := w; outputArr := o; rollbackArr := st |} ->
  forall o',
    frame w0 st {| sys := log (EvExec req reply) w; outputArr := o';
                   rollbackArr := st |}.
Proof.
  intros (_ & Hfile & Hpers) o'. unfold frame; simpl in *.
  rewrite persisted_app, Hpers. simpl. rewrite app_nil_r. auto.
Qed.

Lemma keeps_run (st : list string) command args dir timeoutMs :
  keeps (frame w0 st) (run env command args dir timeoutMs).
Proof.
  intros [w o s] H. pose proof H as (Hs & _). simpl in Hs. subst s.
  unfold run, lift, Shell.run, bind, Shell.exec, ret. simpl.
  eapply frame_log_exec. exact H.
Qed.

Lemma keeps_push_output (st : list string) text :
  keeps (frame w0 st) (push_output text).
Proof. intros [w o s] H. exact H. Qed.

Lemma hoare_push_rollback (st : list string) command :
  hoare (frame w0 st) (push_rollback command)
        (fun _ l => frame w0 (st ++ [command]) l).
Proof.
  intros [w o s] (Hs & Hfile & Hpers). simpl in *. subst s.
  unfold frame; simpl. auto.
Qed.

Ltac keeps_auto :=
  repeat first
    [ apply keeps_ret
    | apply keeps_throw
    | apply keeps_run
    | apply keeps_push_output
    | apply keeps_bind; [| intros ?]
    | match goal with
      | |- keeps _ (if ?b then _ else _) => destruct b
      end
    | progress cbv zeta ].

Lemma keeps_ensureGitRepository (st : list string) projectRoot :
  keeps (frame w0 st) (ensureGitRepository env projectRoot).
Proof. unfold ensureGitRepository. keeps_auto. Qed.

Lemma keeps_ensureInitialCommit (st : list string) projectRoot :
  keeps (frame w0 st) (ensureInitialCommit env projectRoot).
Proof. unfold ensureInitialCommit. keeps_auto. Qed.

Lemma hoare_bind_keeps {A B} (I : Locals -> Prop) (m : M Locals A)
      (f : A -> M Locals B) (Q : Res B -> Locals -> Prop) :
  keeps I m ->
  (forall a, hoare I (f a) Q) ->
  (forall msg l, I l -> Q (Throw msg) l) ->
  (forall l, I l -> Q Never l) ->
  hoare I (bind m f) Q.
Proof.
  intros Hm Hf Hthrow Hnever.
  eapply hoare_bind; [exact Hm | exact Hf | exact Hthrow | exact Hnever].
Qed.

Lemma keeps_weaken {A} (I : Locals -> Prop) (m : M Locals A)
      (Q : Res A -> Locals -> Prop) :
  keeps I m -> (forall r l, I l -> Q r l) -> hoare I m Q.
Proof. intros Hm HQ l Hl. apply HQ, Hm, Hl. Qed.

(** The repository step pushes nothing, or exactly the deletion of the
    repository it created. *)
Lemma hoare_ensureGitHubRepo (st : list string) projectName projectRoot :
  hoare (frame w0 st) (ensureGitHubRepo env projectName projectRoot)
        (fun _ l => frame w0 st l
                    \/ exists fullRepo, frame w0 (st ++ [gh_delete fullRepo]) l).
Proof.
  unfold ensureGitHubRepo.
  apply hoare_bind_keeps; [apply keeps_ensureGitRepository | intros ? | auto | auto].
  apply hoare_bind_keeps; [apply keeps_run | intros ownerResult | auto | auto].
  match goal with |- hoare _ (if ?b then _ else _) _ => destruct b end;
    [apply hoare_throw; auto |].
  cbv zeta.
  match goal with |- hoare _ (if ?b then _ else _) _ => destruct b end;
    [apply hoare_throw; auto |].
  apply hoare_bind_keeps; [apply keeps_run | intros repoExists | auto | auto].
  destruct (Shell.ok repoExists).
  { apply keeps_weaken; [keeps_auto | auto]. }
  apply hoare_bind_keeps; [apply keeps_run | intros createRepo | auto | auto].
  match goal with |- hoare _ (if ?b then _ else _) _ => destruct b end;
    [apply hoare_throw; auto |].
  apply hoare_bind_keeps; [apply keeps_push_output | intros ? | auto | auto].
  eapply hoare_bind; [apply hoare_push_rollback | intros ? | |]; cbv beta.
  - apply keeps_weaken.
    + apply keeps_bind; [apply keeps_ensureInitialCommit | intros canPush].
      keeps_auto.
    + intros r l Hl. right. eexists. exact Hl.
  - intros msg l Hl. right. eexists. exact Hl.
  - intros l Hl. right. eexists. exact Hl.
Qed.

(** The hosting step pushes nothing, or exactly the removal of the
    project. *)
Lemma hoare_ensureVercelProject (st : list string) projectName projectRoot :
  hoare (frame w0 st) (ensureVercelProject env projectName projectRoot)
        (fun _ l => frame w0 st l \/ frame w0 (st ++ [vercel_rm projectName]) l).
Proof.
  unfold ensureVercelProject.
  apply hoare_bind_keeps; [apply keeps_run | intros inspect | auto | auto].
  apply hoare_bind_keeps; [keeps_auto | intros created | auto | auto].
  apply hoare_bind_keeps; [apply keeps_run | intros link | auto | auto].
  match goal with |- hoare _ (if ?b then _ else _) _ => destruct b end;
    [apply hoare_throw; auto |].
  apply hoare_bind_keeps; [apply keeps_push_output | intros ? | auto | auto].
  destruct created.
  - eapply hoare_bind; [apply hoare_push_rollback | intros ? | |]; cbv beta.
    + apply hoare_ret. auto.
    + auto.
    + auto.
  - apply keeps_weaken; [keeps_auto | auto].
Qed.

Lemma hoare_runRollback (st : list string) dir :
  hoare (frame w0 st) (runRollback env dir) (fun _ l => frame w0 [] l).
Proof.
  intros l (Hst & Hfile & Hpers).
  destruct (runRollback_drains env dir l)
    as (l' & Hrun & Hempty & _ & Hfile' & Hpers').
  rewrite Hrun. simpl. unfold frame. rewrite Hfile', Hpers'. auto.
Qed.

Lemma hoare_or {A} (P1 P2 : Locals -> Prop) (m : M Locals A)
      (Q : Res A -> Locals -> Prop) :
  hoare P1 m Q -> hoare P2 m Q -> hoare (fun l => P1 l \/ P2 l) m Q.
Proof. intros H1 H2 l [Hl | Hl]; [apply H1 | apply H2]; exact Hl. Qed.

Lemma hoare_exists {A X} (P : X -> Locals -> Prop) (m : M Locals A)
      (Q : Res A -> Locals -> Prop) :
  (forall x, hoare (P x) m Q) -> hoare (fun l => exists x, P x l) m Q.
Proof. intros H l [x Hl]. apply (H x), Hl. Qed.

Lemma compensations_nil : compensations_only [].
Proof. exists "", "". auto. Qed.

Lemma compensations_repo fullRepo : compensations_only [gh_delete fullRepo].
Proof. exists fullRepo, "". auto. Qed.

Lemma compensations_project name : compensations_only [vercel_rm name].
Proof. exists "", name. auto. Qed.

Lemma compensations_both fullRepo name :
  compensations_only [gh_delete fullRepo; vercel_rm name].
Proof. exists fullRepo, name. auto. Qed.

Lemma hoare_both_steps projectName projectRoot :
  hoare (frame w0 [])
        (githubRepo <- ensureGitHubRepo env projectName projectRoot ;;
         vercelProjectId <- ensureVercelProject env projectName projectRoot ;;
         ret (githubRepo, vercelProjectId))%monad
        (fun _ l => exists st, frame w0 st l /\ compensations_only st).
Proof.
  eapply hoare_bind; [apply hoare_ensureGitHubRepo | intros githubRepo | |]; cbv beta.
  - apply hoare_or; [| apply hoare_exists; intros fullRepo].
    + eapply hoare_bind; [apply hoare_ensureVercelProject | intros v | |]; cbv beta.
      * apply hoare_ret. intros l [H | H]; eexists; (split; [exact H |]).
        -- apply compensations_nil.
        -- apply compensations_project.
      * intros msg l [H | H]; eexists; (split; [exact H |]).
        -- apply compensations_nil.
        -- apply compensations_project.
      * intros l [H | H]; eexists; (split; [exact H |]).
        -- apply compensations_nil.
        -- apply compensations_project.
    + eapply hoare_bind; [apply hoare_ensureVercelProject | intros v | |]; cbv beta.
      * apply hoare_ret. intros l [H | H]; eexists; (split; [exact H |]).
        -- apply compensations_repo.
        -- apply compensations_both.
      * intros msg l [H | H]; eexists; (split; [exact H |]).
        -- apply compensations_repo.
        -- apply compensations_both.
      * intros l [H | H]; eexists; (split; [exact H |]).
        -- apply compensations_repo.
        -- apply compensations_both.
  - intros msg l [H | [fullRepo H]]; eexists; (split; [exact H |]).
    + apply compensations_nil.
    + apply compensations_repo.
  - intros l [H | [fullRepo H]]; eexists; (split; [exact H |]).
    + apply compensations_nil.
    + apply compensations_repo.
Qed.

(** Provisioning always returns a result; it writes no state; the stack
    it reports holds compensations only, and is empty on failure (the
    rollback drained the very array that is returned). *)
Lemma runProvisioning_result projectRoot projectName :
  exists res w',
    runProvisioning env projectRoot projectName w0 = (Ok res, w')
    /\ w'.(file) = w0.(file)
    /\ persisted w'.(history) = persisted w0.(history)
    /\ compensations_only res.(rollbackStack)
    /\ (res.(ok) = false -> res.(rollbackStack) = []).
Proof.
  unfold runProvisioning.
  pose proof (hoare_both_steps projectName projectRoot
                {| sys := w0; outputArr := []; rollbackArr := [] |}) as H.
  pose proof (settles_steps env projectName projectRoot
                {| sys := w0; outputArr := []; rollbackArr := [] |}) as Hsettles.
  match type of H with
  | _ -> _ (fst (?m ?l0)) _ => destruct (m l0) as [[[g v] | msg |] l]
  end; simpl in H; [| | destruct (Hsettles eq_refl)].
  - destruct H as (st & (Hst & Hfile & Hpers) & Hcomp); [unfold frame; auto |].
    do 2 eexists. split; [reflexivity |]. simpl.
    rewrite Hst. repeat split; auto. discriminate.
  - destruct H as (st & Hframe & _); [unfold frame; auto |].
    pose proof (hoare_runRollback st projectRoot _
                  (keeps_push_output st msg l Hframe)) as (Hst & Hfile & Hpers).
    change ((push_output msg ;;; runRollback env projectRoot)%monad l)
      with (runRollback env projectRoot (snd (push_output msg l))).
    set (l' := snd (runRollback env projectRoot (snd (push_output msg l)))) in *.
    do 2 eexists. split; [reflexivity |].
    cbn [rollbackStack ok]. rewrite Hst. repeat split; auto.
    apply compensations_nil.
Qed.

End ProvisionFacts.

Lemma run_reply env command args root t (l : Provision.Locals) :
  let req := {| World.line := Shell.commandLine command args; World.cwd := Some root;
                World.timeout := t; World.extraEnv := [] |} in
  let reply := env.(World.on_exec) l.(Provision.sys).(World.history) req in
  Provision.run env command args root t l
  = (World.Ok {| Shell.ok := negb reply.(World.error);
                 Shell.output := Js.trim reply.(World.out) |},
     {| Provision.sys := World.log (World.EvExec req reply) l.(Provision.sys);
        Provision.outputArr := l.(Provision.outputArr);
        Provision.rollbackArr := l.(Provision.rollbackArr) |}).
Proof. reflexivity. Qed.

(** ** Compensations follow creations *)

Section Justified.
Import World Spec Provision.
Variable env : Env.
Variables root name : string.

Lemma succeeded_app (h1 h2 : list Event) :
  succeeded (h1 ++ h2) = succeeded h1 ++ succeeded h2.
Proof. apply flat_map_app. Qed.












End Justified.

(** ** Effects that write no state *)

Section LogStable.
Import State World Spec Manifold.

(** An invariant of the workspace that no effect other than a write
    of the state file can break. *)
Variable I : Sys -> Prop.
Hypothesis I_stable : forall e w, persisted [e] = [] -> I w -> I (log e w).

Variable env : Env.

Lemma keeps_exec req : keeps I (Shell.exec env req).
Proof. intros w Hw. apply I_stable; auto. Qed.

Lemma keeps_requestOnce u key path auth :
  keeps I (Auth.requestOnce env u key path auth).
Proof.
  intros w Hw. unfold Auth.requestOnce.
  destruct (negb _); cbn [fst snd]; [exact Hw | apply I_stable; auto].
Qed.

Lemma keeps_detached {A} (m : M Sys A) : keeps I m -> keeps I (detached m).
Proof.
  intros Hm w Hw. unfold detached. specialize (Hm w Hw).
  destruct (m w) as [[a | msg |] w1]; exact Hm.
Qed.

Lemma keeps_showInputBox title : keeps I (showInputBox env title).
Proof. intros w Hw. apply I_stable; auto. Qed.

Lemma keeps_runEnvironmentChecks : keeps I (runEnvironmentChecks env).
Proof. intros w Hw. apply I_stable; auto. Qed.

Lemma keeps_scaffold root name :
  keeps I (scaffoldReactSupabaseProject env root name).
Proof. intros w Hw. apply I_stable; auto. Qed.

Lemma keeps_log_only (e : Event) :
  persisted [e] = [] -> keeps I (modify (log e)).
Proof. intros He w Hw. apply I_stable; auto. Qed.

Lemma keeps_installMissingTool t : keeps I (installMissingTool env t).
Proof.
  intros w Hw. unfold installMissingTool.
  destruct (on_installTool env (history w) t); apply I_stable; auto.
Qed.

Ltac sys_auto :=
  repeat first
    [ apply keeps_ret
    | apply keeps_throw
    | apply keeps_exec
    | apply keeps_requestOnce
    | apply keeps_showInputBox
    | apply keeps_runEnvironmentChecks
    | apply keeps_scaffold
    | apply keeps_log_only; reflexivity
    | apply keeps_bind; [| intros ?]
    | match goal with
      | |- keeps _ (if ?b then _ else _) => destruct b
      | |- keeps _ (match ?x with _ => _ end) => destruct x
      end
    | progress cbv zeta ].

Lemma keeps_shell_run command args dir t :
  keeps I (Shell.run env command args dir t).
Proof. unfold Shell.run. sys_auto. Qed.

Lemma keeps_auth_run command args : keeps I (Auth.run env command args).
Proof. unfold Auth.run. apply keeps_bind; [apply keeps_shell_run | intros; apply keeps_ret]. Qed.

Lemma keeps_verify url key :
  keeps I (Auth.verifySupabaseProjectApi env url key).
Proof.
  unfold Auth.verifySupabaseProjectApi.
  destruct (parseUrl env url); [apply keeps_detached |]; sys_auto.
Qed.

Lemma keeps_runDeployment root t a r :
  keeps I (Deploy.runDeployment env root t a r).
Proof. unfold Deploy.runDeployment. sys_auto. Qed.

Lemma keeps_for_each {A} (f : A -> M Sys unit) (l : list A) :
  (forall x, keeps I (f x)) -> keeps I (for_each f l).
Proof.
  intros Hf. induction l as [|x l IH]; simpl.
  - apply keeps_ret.
  - apply keeps_bind; [apply Hf | intros; apply IH].
Qed.

End LogStable.

(** ** Provisioning writes no state *)

(** What a provisioning run does to the workspace is a sequence of
    commands: an invariant that commands keep is kept. *)
Section ProvisionLog.
Import World Spec Provision.

Variable I : Sys -> Prop.
Hypothesis I_log : forall e w, persisted [e] = [] -> I w -> I (log e w).
Variable env : Env.

Lemma inv_lift {A} (m : M Sys A) : keeps I m -> keeps (on_sys I) (lift m).
Proof.
  intros Hm [w o s] Hl. unfold lift, on_sys in *. cbn [sys] in *.
  specialize (Hm w Hl). destruct (m w) as [r w']. exact Hm.
Qed.

Lemma inv_run command args dir t : keeps (on_sys I) (run env command args dir t).
Proof. apply inv_lift, keeps_shell_run, I_log. Qed.

Lemma inv_locals (f : Locals -> Locals) :
  (forall l, (f l).(sys) = l.(sys)) -> keeps (on_sys I) (modify f).
Proof. intros Hf l Hl. unfold on_sys, modify in *. cbn. rewrite Hf. exact Hl. Qed.

Ltac inv_auto :=
  repeat first
    [ apply keeps_ret
    | apply keeps_throw
    | apply keeps_get
    | apply inv_run
    | apply inv_lift, keeps_exec, I_log
    | apply inv_locals; intros ?; reflexivity
    | apply keeps_bind; [| intros ?]
    | match goal with
      | |- keeps _ (if ?b then _ else _) => destruct b
      | |- keeps _ (match ?x with _ => _ end) => destruct x
      end
    | progress cbv zeta ].

Lemma inv_rollback_loop dir turns : keeps (on_sys I) (rollback_loop env dir turns).
Proof.
  induction turns as [|turns IH]; cbn [rollback_loop]; [apply keeps_ret |].
  apply keeps_bind; [apply keeps_get | intros l].
  destruct (Js.pop (rollbackArr l)) as [[command rest]|]; [| apply keeps_ret].
  unfold set_rollback, push_output.
  apply keeps_bind; [apply inv_locals; intros ?; reflexivity | intros _].
  destruct (negb (Js.truthy command)); [exact IH |].
  apply keeps_bind; [apply inv_lift, keeps_exec, I_log | intros reply]. cbv zeta.
  apply keeps_bind; [apply inv_locals; intros ?; reflexivity | intros _].
  apply keeps_bind; [| intros _; exact IH].
  destruct (Js.truthy _); [apply inv_locals; intros ?; reflexivity | apply keeps_ret].
Qed.

Lemma inv_runRollback dir : keeps (on_sys I) (runRollback env dir).
Proof.
  unfold runRollback. apply keeps_bind; [apply keeps_get | intros l].
  apply inv_rollback_loop.
Qed.

Lemma inv_ensureGitHubRepo name root : keeps (on_sys I) (ensureGitHubRepo env name root).
Proof.
  unfold ensureGitHubRepo, ensureGitRepository, ensureInitialCommit,
    push_output, push_rollback.
  inv_auto.
Qed.

Lemma inv_ensureVercelProject name root :
  keeps (on_sys I) (ensureVercelProject env name root).
Proof. unfold ensureVercelProject, push_output, push_rollback. inv_auto. Qed.

Lemma inv_runProvisioning root name : keeps I (runProvisioning env root name).
Proof.
  intros w Hw. unfold runProvisioning.
  set (fresh := {| sys := w; outputArr := []; rollbackArr := [] |}).
  assert (Hsteps : keeps (on_sys I)
            (githubRepo <- ensureGitHubRepo env name root ;;
             vercelProjectId <- ensureVercelProject env name root ;;
             ret (githubRepo, vercelProjectId))%monad).
  { apply keeps_bind; [apply inv_ensureGitHubRepo | intros ?].
    apply keeps_bind; [apply inv_ensureVercelProject | intros ?]. apply keeps_ret. }
  specialize (Hsteps fresh Hw).
  destruct ((githubRepo <- ensureGitHubRepo env name root ;;
             vercelProjectId <- ensureVercelProject env name root ;;
             ret (githubRepo, vercelProjectId))%monad fresh) as [[[g v] | msg |] l];
    cbn [fst snd] in *; [exact Hsteps | | exact Hsteps].
  assert (Hback : keeps (on_sys I) (push_output msg ;;; runRollback env root)%monad).
  { apply keeps_bind; [apply inv_locals; intros ?; reflexivity | intros _].
    apply inv_runRollback. }
  exact (Hback l Hsteps).
Qed.

End ProvisionLog.

(** ** The rollback stack deletes what provisioning created *)

Section Backed.
Import World Spec Provision.
Variable env : Env.
Variables root name : string.

Lemma printed_app (h later : list Event) (commandLine text : string) :
  printed h commandLine text -> printed (h ++ later) commandLine text.
Proof.
  intros (req & reply & Hin & H). exists req, reply.
  split; [apply List.in_or_app; left; exact Hin | exact H].
Qed.

Lemma succeeded_grows (h later : list Event) (c : string) :
  In c (succeeded h) -> In c (succeeded (h ++ later)).
Proof. intros H. rewrite succeeded_app. apply List.in_or_app. left. exact H. Qed.

Lemma repository_created_app (h later : list Event) (login : string) :
  repository_created h login name -> repository_created (h ++ later) login name.
Proof.
  intros [Hp Hc]. split; [apply printed_app, Hp | apply succeeded_grows, Hc].
Qed.

Lemma project_created_app (h later : list Event) :
  project_created h name -> project_created (h ++ later) name.
Proof. apply succeeded_grows. Qed.

Lemma backed_grows (l l' : Locals) (later : list Event) :
  l'.(rollbackArr) = l.(rollbackArr) ->
  l'.(sys).(history) = (l.(sys).(history) ++ later)%list ->
  backed name l -> backed name l'.
Proof.
  intros Hst Hh H c Hc. rewrite Hst in Hc. rewrite Hh.
  destruct (H c Hc) as [(login & Hd & Hr) | [Hd Hp]]; [left | right].
  - exists login. split; [exact Hd | apply repository_created_app, Hr].
  - split; [exact Hd | apply project_created_app, Hp].
Qed.

Lemma grows_true : grows (fun _ => True).
Proof. intros h later _. exact I. Qed.

Lemma grows_printed commandLine text :
  grows (fun h => printed h commandLine text).
Proof. intros h later. apply printed_app. Qed.

Lemma grows_repository_created login :
  grows (fun h => repository_created h login name).
Proof. intros h later. apply repository_created_app. Qed.

Lemma grows_project_created : grows (fun h => project_created h name).
Proof. intros h later. apply project_created_app. Qed.

Section Known.
Variable fact : list Event -> Prop.
Hypothesis fact_grows : grows fact.

(** A command keeps what is known; when it returns ok it has
    succeeded, and what it printed is in the history. *)
Lemma known_run command args t :
  hoare (known name fact) (run env command args root t)
        (fun r l => known name fact l
                    /\ forall res, r = Ok res -> res.(Shell.ok) = true ->
                         In (Shell.commandLine command args)
                            (succeeded l.(sys).(history))
                         /\ printed l.(sys).(history)
                                    (Shell.commandLine command args)
                                    res.(Shell.output)).
Proof.
  intros l [Hb Hf]. rewrite run_reply. cbv zeta. cbn [fst snd].
  split; [split |].
  - eapply backed_grows; [| | exact Hb]; reflexivity.
  - apply fact_grows, Hf.
  - intros res [= <-]. cbn [Shell.ok Shell.output sys history log]. intros Hok.
    apply negb_true_iff in Hok. split.
    + rewrite succeeded_app. apply List.in_or_app. right.
      cbn [succeeded flat_map line]. rewrite Hok. left. reflexivity.
    + eexists _, _. split; [apply List.in_or_app; right; left; reflexivity |].
      split; [reflexivity |]. split; [exact Hok | reflexivity].
Qed.

Lemma known_keeps_run command args t :
  keeps (known name fact) (run env command args root t).
Proof. intros l Hl. apply (known_run command args t l Hl). Qed.

Lemma known_push_output text : keeps (known name fact) (push_output text).
Proof. intros [w o s] H. exact H. Qed.

Ltac known_auto :=
  repeat first
    [ apply keeps_ret
    | apply keeps_throw
    | apply known_keeps_run
    | apply known_push_output
    | apply keeps_bind; [| intros ?]
    | match goal with
      | |- keeps _ (if ?b then _ else _) => destruct b
      end
    | progress cbv zeta ].

Lemma known_ensureGitRepository :
  keeps (known name fact) (ensureGitRepository env root).
Proof. unfold ensureGitRepository. known_auto. Qed.

Lemma known_ensureInitialCommit :
  keeps (known name fact) (ensureInitialCommit env root).
Proof. unfold ensureInitialCommit. known_auto. Qed.

End Known.

Lemma known_weaken (fact fact' : list Event -> Prop) (l : Locals) :
  (forall h, fact h -> fact' h) -> known name fact l -> known name fact' l.
Proof. intros H [Hb Hf]. split; [exact Hb | apply H, Hf]. Qed.

(** A deletion is pushed once its resource is known to exist. *)
Lemma known_push_rollback (fact : list Event -> Prop) (c : string) :
  (forall h, fact h ->
             (exists login,
                 c = gh_delete (first_line login ++ "/" ++ name)
                 /\ repository_created h login name)
             \/ (c = vercel_rm name /\ project_created h name)) ->
  hoare (known name fact) (push_rollback c) (fun _ l => backed name l).
Proof.
  intros Hc [w o st] [Hb Hf] c' Hin. cbn in Hin. cbn [sys snd push_rollback modify].
  apply List.in_app_or in Hin as [Hin | [<- | []]].
  - apply (Hb c' Hin).
  - apply (Hc _ Hf).
Qed.

Ltac grows_auto :=
  first [ assumption
        | apply grows_true
        | apply grows_printed
        | apply grows_repository_created
        | apply grows_project_created ].

Ltac known_steps :=
  repeat first
    [ apply keeps_ret
    | apply keeps_throw
    | apply known_keeps_run; grows_auto
    | apply known_push_output
    | apply known_ensureGitRepository; grows_auto
    | apply known_ensureInitialCommit; grows_auto
    | apply keeps_bind; [| intros ?]
    | match goal with
      | |- keeps _ (if ?b then _ else _) => destruct b
      end
    | progress cbv zeta ].

Lemma backed_known (l : Locals) : backed name l <-> known name (fun _ => True) l.
Proof. split; [intros H; split; [exact H | exact I] | intros [H _]; exact H]. Qed.

(** The repository step: the deletion of [login/name] is pushed only
    once [gh api user] has printed the login and [gh repo create name]
    has succeeded. *)
Lemma backed_ensureGitHubRepo :
  keeps (known name (fun _ => True)) (ensureGitHubRepo env name root).
Proof.
  unfold ensureGitHubRepo.
  apply keeps_bind; [apply known_ensureGitRepository, grows_true | intros _].
  eapply hoare_bind; [apply known_run, grows_true | intros ownerResult | |];
    cbv beta; [| intros msg l [H _]; exact H | intros l [H _]; exact H].
  destruct (Shell.ok ownerResult) eqn:Hok; cbn [negb orb];
    [| apply hoare_throw; intros l [H _]; exact H].
  match goal with |- hoare _ (if ?b then _ else _) _ => destruct b end;
    [apply hoare_throw; intros l [H _]; exact H |].
  cbv zeta.
  match goal with |- hoare _ (if ?b then _ else _) _ => destruct b end;
    [apply hoare_throw; intros l [H _]; exact H |].
  set (login := Shell.output ownerResult).
  apply hoare_conseq
    with (P := known name (fun h => printed h login_command login))
         (Q := fun _ l => known name (fun _ => True) l);
    [| intros l [[Hb _] Hv]; split; [exact Hb | apply (Hv _ eq_refl Hok)]
     | intros r l H; exact H].
  eapply hoare_bind; [apply known_run, grows_printed | intros repoExists | |];
    cbv beta;
    [| intros msg l [H _]; revert H; apply known_weaken; auto
     | intros l [H _]; revert H; apply known_weaken; auto].
  destruct (Shell.ok repoExists).
  { apply hoare_conseq
      with (P := known name (fun h => printed h login_command login))
           (Q := fun _ l => known name (fun h => printed h login_command login) l);
      [| intros l [H _]; exact H
       | intros r l; apply known_weaken; auto].
    known_steps. }
  eapply hoare_bind;
    [eapply hoare_conseq;
       [apply known_run, grows_printed | intros l [H _]; exact H | intros r l H; exact H]
    | intros createRepo | |];
    cbv beta;
    [| intros msg l [H _]; revert H; apply known_weaken; auto
     | intros l [H _]; revert H; apply known_weaken; auto].
  destruct (Shell.ok createRepo) eqn:Hcreated; cbn [negb];
    [| apply hoare_throw; intros l [H _]; revert H; apply known_weaken; auto].
  apply hoare_conseq
    with (P := known name (fun h => repository_created h login name))
         (Q := fun _ l => known name (fun _ => True) l);
    [| intros l [[Hb Hp] Hv]; split; [exact Hb |];
       split; [exact Hp | apply (Hv _ eq_refl Hcreated)]
     | intros r l H; exact H].
  eapply hoare_bind with (Q1 := fun _ l => known name (fun h => repository_created h login name) l);
    [apply known_push_output | intros _ | |]; cbv beta;
    [| intros msg l; apply known_weaken; auto | intros l; apply known_weaken; auto].
  eapply hoare_bind with (Q1 := fun _ l => known name (fun _ => True) l);
    [| intros _ | intros msg l H; exact H | intros l H; exact H]; cbv beta.
  - eapply hoare_conseq;
      [apply known_push_rollback with (fact := fun h => repository_created h login name)
      | intros l H; exact H
      | intros r l H; apply backed_known, H].
    intros h Hh. left. exists login. split; [reflexivity | exact Hh].
  - known_steps.
Qed.

(** The hosting step: the removal of [name] is pushed only once
    [vercel project add name] has succeeded. *)
Lemma backed_ensureVercelProject :
  keeps (known name (fun _ => True)) (ensureVercelProject env name root).
Proof.
  unfold ensureVercelProject.
  apply keeps_bind; [apply known_keeps_run, grows_true | intros inspect].
  eapply hoare_bind
    with (Q1 := fun r l => known name (fun _ => True) l
                           /\ (r = Ok true ->
                               project_created l.(sys).(history) name));
    [| intros created | intros msg l [H _]; exact H | intros l [H _]; exact H];
    cbv beta.
  - destruct (Shell.ok inspect); cbn [negb].
    + eapply hoare_bind with (Q1 := fun _ l => known name (fun _ => True) l);
        [apply known_push_output | intros _ | |]; cbv beta;
        [| intros msg l H; split; [exact H | discriminate]
         | intros l H; split; [exact H | discriminate]].
      apply hoare_ret. intros l H. split; [exact H | discriminate].
    + eapply hoare_bind; [apply known_run, grows_true | intros add | |]; cbv beta;
        [| intros msg l [H _]; split; [exact H | discriminate]
         | intros l [H _]; split; [exact H | discriminate]].
      destruct (Shell.ok add) eqn:Hadded; cbn [negb andb].
      * cbv zeta.
        apply hoare_conseq
          with (P := known name (fun h => project_created h name))
               (Q := fun r l => known name (fun h => project_created h name) l);
          [| intros l [[Hb _] Hv]; split; [exact Hb | apply (Hv _ eq_refl Hadded)]
           | intros r l [Hb Hp]; split; [split; [exact Hb | exact I] | intros _; exact Hp]].
        known_steps.
      * destruct (Regex.test Regex.flag_i re_already_exists (Shell.output add));
          cbn [negb].
        -- cbv zeta.
           eapply hoare_bind with (Q1 := fun _ l => known name (fun _ => True) l);
             [eapply hoare_conseq;
                [apply known_push_output | intros l [H _]; exact H | intros r l H; exact H]
             | intros _ | |]; cbv beta;
             [| intros msg l H; split; [exact H | discriminate]
              | intros l H; split; [exact H | discriminate]].
           apply hoare_ret. intros l H. split; [exact H | discriminate].
        -- apply hoare_throw. intros l [H _]. split; [exact H | discriminate].
  - destruct created.
    + apply hoare_conseq
        with (P := known name (fun h => project_created h name))
             (Q := fun _ l => known name (fun _ => True) l);
        [| intros l [[Hb _] Hv]; split; [exact Hb | apply Hv; reflexivity]
         | intros r l H; exact H].
      eapply hoare_bind
        with (Q1 := fun _ l => known name (fun h => project_created h name) l);
        [apply known_keeps_run, grows_project_created | intros link | |]; cbv beta;
        [| intros msg l; apply known_weaken; auto | intros l; apply known_weaken; auto].
      match goal with |- hoare _ (if ?b then _ else _) _ => destruct b end;
        [apply hoare_throw; intros l; apply known_weaken; auto |].
      eapply hoare_bind
        with (Q1 := fun _ l => known name (fun h => project_created h name) l);
        [apply known_push_output | intros _ | |]; cbv beta;
        [| intros msg l; apply known_weaken; auto | intros l; apply known_weaken; auto].
      eapply hoare_bind with (Q1 := fun _ l => known name (fun _ => True) l);
        [| intros _; apply keeps_ret | intros msg l H; exact H | intros l H; exact H].
      eapply hoare_conseq;
        [apply known_push_rollback with (fact := fun h => project_created h name)
        | intros l H; exact H
        | intros r l H; apply backed_known, H].
      intros h Hh. right. split; [reflexivity | exact Hh].
    + apply hoare_conseq
        with (P := known name (fun _ => True))
             (Q := fun _ l => known name (fun _ => True) l);
        [| intros l [H _]; exact H | intros r l H; exact H].
      known_steps.
Qed.

Lemma backed_steps :
  keeps (known name (fun _ => True))
        (githubRepo <- ensureGitHubRepo env name root ;;
         vercelProjectId <- ensureVercelProject env name root ;;
         ret (githubRepo, vercelProjectId))%monad.
Proof.
  apply keeps_bind; [apply backed_ensureGitHubRepo | intros ?].
  apply keeps_bind; [apply backed_ensureVercelProject | intros ?].
  apply keeps_ret.
Qed.

Lemma gh_delete_not_vercel_rm (fullRepo project : string) :
  gh_delete fullRepo <> vercel_rm project.
Proof.
  intros H.
  apply (f_equal (fun s => match s with
                           | String a _ => a
                           | EmptyString => "000"%char
                           end)) in H.
  vm_compute in H. discriminate H.
Qed.

(** A stack of compensations, each of them backed, undoes creations. *)
Lemma undoes_of_backed (l : Locals) :
  compensations_only l.(rollbackArr) -> backed name l ->
  undoes_creations l.(sys).(history) l.(rollbackArr).
Proof.
  intros (fullRepo & project & Hshape) Hb. unfold backed in Hb.
  destruct Hshape as [Hst | [Hst | [Hst | Hst]]]; rewrite Hst in *.
  - exists "", name. left. reflexivity.
  - destruct (Hb _ (or_introl eq_refl)) as [(login & Hd & Hr) | [Hd _]];
      [| destruct (gh_delete_not_vercel_rm _ _ Hd)].
    exists login, name. right. left. rewrite Hd. split; [reflexivity | exact Hr].
  - destruct (Hb _ (or_introl eq_refl)) as [(login & Hd & _) | [Hd Hp]];
      [destruct (gh_delete_not_vercel_rm _ _ (eq_sym Hd)) |].
    exists "", name. right. right. left. rewrite Hd. split; [reflexivity | exact Hp].
  - destruct (Hb _ (or_introl eq_refl)) as [(login & Hd & Hr) | [Hd _]];
      [| destruct (gh_delete_not_vercel_rm _ _ Hd)].
    destruct (Hb _ (or_intror (or_introl eq_refl))) as [(login' & Hd' & _) | [Hd' Hp]];
      [destruct (gh_delete_not_vercel_rm _ _ (eq_sym Hd')) |].
    exists login, name. right. right. right. rewrite Hd, Hd'.
    split; [reflexivity | split; [exact Hr | exact Hp]].
Qed.

(** The stack that provisioning returns deletes what it created. *)
Lemma runProvisioning_undoes (w0 : Sys) (res : ProvisionResult) (w' : Sys) :
  runProvisioning env root name w0 = (Ok res, w') ->
  undoes_creations w'.(history) res.(rollbackStack).
Proof.
  intros Hrun.
  destruct (runProvisioning_result env w0 root name)
    as (res0 & w0' & Hrun0 & _ & _ & Hcomp & Hfailed).
  rewrite Hrun0 in Hrun. injection Hrun as -> ->.
  destruct (ok res) eqn:Hok; [| rewrite (Hfailed eq_refl); exists "", name; left; reflexivity].
  unfold runProvisioning in Hrun0.
  pose proof (backed_steps {| sys := w0; outputArr := []; rollbackArr := [] |}) as Hb.
  match type of Hrun0 with
  | match ?m ?l0 with _ => _ end = _ =>
      destruct (m l0) as [[[g v] | msg |] l]
  end; cbn [fst snd] in *.
  - injection Hrun0 as <- <-. cbn [rollbackStack] in *.
    apply undoes_of_backed; [exact Hcomp |].
    apply backed_known, Hb. split; [intros c [] | exact I].
  - injection Hrun0 as <- _. discriminate Hok.
  - discriminate Hrun0.
Qed.

End Backed.

(** ** The rollback stack of every persisted state, by its status *)

Section StackByStatus.
Import State World Spec Manifold.

Lemma undoes_creations_app (h later : list Event) (stack : list string) :
  undoes_creations h stack -> undoes_creations (h ++ later) stack.
Proof.
  intros (login & name & H). exists login, name. cbv zeta in *.
  destruct H as [H | [[H Hr] | [[H Hp] | (H & Hr & Hp)]]].
  - left. exact H.
  - right. left. split; [exact H | apply repository_created_app, Hr].
  - right. right. left. split; [exact H | apply project_created_app, Hp].
  - right. right. right.
    split; [exact H |].
    split; [apply repository_created_app, Hr | apply project_created_app, Hp].
Qed.

Lemma stored_by_phase_3_app (h later : list Event) (stack : list string) :
  stored_by_phase_3 h stack -> stored_by_phase_3 (h ++ later) stack.
Proof.
  intros (env & root & name & w0 & result & s3 & rest & H). cbv zeta in H.
  destruct H as (Hrun & Hok & Hstack & Hh & Hs3).
  exists env, root, name, w0, result, s3, (rest ++ later)%list. cbv zeta.
  split; [exact Hrun |]. split; [exact Hok |]. split; [exact Hstack |].
  split; [| exact Hs3].
  rewrite Hh, <- List.app_assoc. reflexivity.
Qed.

Lemma stack_by_status_app (h later : list Event) (s : ManifoldState) :
  stack_by_status h s -> stack_by_status (h ++ later) s.
Proof.
  intros (Hfailed & Hundoes & Hcomplete). split; [exact Hfailed |].
  split; [apply undoes_creations_app, Hundoes |].
  intros H. apply stored_by_phase_3_app, Hcomplete, H.
Qed.

Lemma stacks_log (e : Event) (w : Sys) :
  persisted [e] = [] -> stacks_by_status w -> stacks_by_status (log e w).
Proof.
  intros He Hw s Hs. cbn [log history file] in *.
  rewrite persisted_app, He, app_nil_r in Hs.
  apply stack_by_status_app, Hw, Hs.
Qed.

Lemma provisioned_log (e : Event) (w : Sys) : provisioned w -> provisioned (log e w).
Proof.
  intros Hw s Hs. cbn [log history file] in *. apply stored_by_phase_3_app, Hw, Hs.
Qed.

Lemma after_phase_3_log (e : Event) (w : Sys) :
  persisted [e] = [] -> after_phase_3 w -> after_phase_3 (log e w).
Proof.
  intros He [Hs Hp]. split; [apply stacks_log; assumption | apply provisioned_log, Hp].
Qed.

Lemma stacks_writeAtomic (s : ManifoldState) (w : Sys) :
  stacks_by_status w ->
  stack_by_status (w.(history) ++ [EvPersist s]) s ->
  stacks_by_status (snd (StateManager.writeAtomic s w)).
Proof.
  intros Hw Hs s' Hs'. cbn [StateManager.writeAtomic snd history file] in *.
  destruct Hs' as [Hin | [= <-]]; [| exact Hs].
  rewrite persisted_app in Hin. apply List.in_app_or in Hin as [Hin | [<- | []]].
  - apply stack_by_status_app, Hw. left. exact Hin.
  - exact Hs.
Qed.

Lemma bind_returned {St A B} (m : M St A) (f : A -> M St B) (s s1 : St) (a : A) :
  m s = (Ok a, s1) -> bind m f s = f a s1.
Proof. intros H. unfold bind. rewrite H. reflexivity. Qed.

Lemma bind_thrown {St A B} (m : M St A) (f : A -> M St B) (s s1 : St) message :
  m s = (Throw message, s1) -> bind m f s = (Throw message, s1).
Proof. intros H. unfold bind. rewrite H. reflexivity. Qed.

(** What a patch does when there is a state file. *)
Lemma patch_writes (p : ManifoldStatePatch) (w : Sys) (cur : ManifoldState) :
  w.(file) = Some cur ->
  StateManager.patch p w
  = (Ok (merge cur p), snd (StateManager.writeAtomic (merge cur p) w)).
Proof.
  intros Hfile. unfold StateManager.patch, bind, StateManager.read.
  rewrite Hfile. reflexivity.
Qed.

Lemma patch_without_file (p : ManifoldStatePatch) (w : Sys) :
  w.(file) = None ->
  StateManager.patch p w = (Throw "state file missing or corrupt", w).
Proof.
  intros Hfile. unfold StateManager.patch, bind, StateManager.read.
  rewrite Hfile. reflexivity.
Qed.

Lemma quiet_merge (h : list Event) (cur : ManifoldState) (p : ManifoldStatePatch) :
  quiet_patch p -> stack_by_status h cur -> stack_by_status h (merge cur p).
Proof.
  intros (Hstack & Hfailed & Hcomplete) (Hf & Hu & Hc).
  unfold stack_by_status, merge. cbn [status rollback_stack].
  rewrite Hstack. cbn [nullish].
  destruct (p_status p) as [st |]; cbn [nullish].
  - split; [intros ->; congruence |]. split; [exact Hu | intros ->; congruence].
  - split; [exact Hf |]. split; [exact Hu | exact Hc].
Qed.

Lemma finishing_merge (h : list Event) (cur : ManifoldState) (p : ManifoldStatePatch) :
  p.(p_rollback_stack) = None -> p.(p_status) <> Some failed ->
  stack_by_status h cur -> stored_by_phase_3 h cur.(rollback_stack) ->
  stack_by_status h (merge cur p)
  /\ stored_by_phase_3 h (merge cur p).(rollback_stack).
Proof.
  intros Hstack Hfailed (Hf & Hu & Hc) Hstored.
  unfold stack_by_status, merge. cbn [status rollback_stack].
  rewrite Hstack. cbn [nullish]. split; [| exact Hstored].
  destruct (p_status p) as [st |]; cbn [nullish].
  - split; [intros ->; congruence |]. split; [exact Hu | intros _; exact Hstored].
  - split; [exact Hf |]. split; [exact Hu | exact Hc].
Qed.

Lemma stacks_patch (p : ManifoldStatePatch) :
  quiet_patch p -> keeps stacks_by_status (StateManager.patch p).
Proof.
  intros Hp w Hw. destruct (file w) as [cur |] eqn:Hfile.
  - rewrite (patch_writes p w cur Hfile). cbn [snd].
    apply stacks_writeAtomic; [exact Hw |].
    apply quiet_merge; [exact Hp |]. apply stack_by_status_app, Hw. right. exact Hfile.
  - rewrite (patch_without_file p w Hfile). exact Hw.
Qed.

Lemma after_phase_3_patch (p : ManifoldStatePatch) :
  p.(p_rollback_stack) = None -> p.(p_status) <> Some failed ->
  keeps after_phase_3 (StateManager.patch p).
Proof.
  intros Hstack Hfailed w [Hw Hprov]. destruct (file w) as [cur |] eqn:Hfile.
  - rewrite (patch_writes p w cur Hfile). cbn [snd].
    destruct (finishing_merge (history w ++ [EvPersist (merge cur p)]) cur p
                Hstack Hfailed) as [Hmerged Hstored].
    { apply stack_by_status_app, Hw. right. exact Hfile. }
    { apply stored_by_phase_3_app, Hprov, Hfile. }
    split.
    + apply stacks_writeAtomic; [exact Hw | exact Hmerged].
    + intros s [= <-]. exact Hstored.
  - rewrite (patch_without_file p w Hfile). split; [exact Hw | exact Hprov].
Qed.

Lemma after_phase_3_quiet_patch (p : ManifoldStatePatch) :
  quiet_patch p -> keeps after_phase_3 (StateManager.patch p).
Proof. intros (Hstack & Hfailed & _). apply after_phase_3_patch; assumption. Qed.

Lemma keeps_read (I : Sys -> Prop) {A} (f : ManifoldState -> M Sys A) :
  (forall s, keeps I (f s)) -> keeps I (bind StateManager.read f).
Proof.
  intros Hf w Hw. unfold bind, StateManager.read.
  destruct (file w) as [s |]; [apply Hf, Hw | exact Hw].
Qed.

Lemma quiet_phase_patch phase st res cred :
  st <> failed -> st <> complete -> quiet_patch (phase_patch phase st res cred None).
Proof.
  intros Hf Hc. split; [reflexivity |]. cbn [phase_patch p_status].
  split; congruence.
Qed.

Lemma quiet_resources_patch res : quiet_patch (resources_patch res).
Proof. split; [reflexivity | split; discriminate]. Qed.

Lemma quiet_credentials_patch res cred : quiet_patch (credentials_patch res cred).
Proof. split; [reflexivity | split; discriminate]. Qed.

Lemma quiet_setup_patch name : quiet_patch (setup_patch name).
Proof. split; [reflexivity | split; discriminate]. Qed.

(** The phases that store neither a stack nor an end of the run keep
    whatever commands and quiet patches keep. *)
Section Quiet.
Variable I : Sys -> Prop.
Hypothesis I_stable : forall e w, persisted [e] = [] -> I w -> I (log e w).
Hypothesis I_patch : forall p, quiet_patch p -> keeps I (StateManager.patch p).
Variable env : Env.

Ltac quiet_auto :=
  repeat first
    [ apply keeps_ret
    | apply keeps_throw
    | apply keeps_auth_run; exact I_stable
    | apply keeps_verify; exact I_stable
    | apply keeps_showInputBox; exact I_stable
    | apply keeps_runEnvironmentChecks; exact I_stable
    | apply keeps_scaffold; exact I_stable
    | apply keeps_log_only; [exact I_stable | reflexivity]
    | apply keeps_for_each; intros ?;
      apply keeps_installMissingTool; exact I_stable
    | apply I_patch;
      first [ apply quiet_phase_patch; discriminate
            | apply quiet_resources_patch
            | apply quiet_credentials_patch
            | apply quiet_setup_patch ]
    | apply keeps_read; intros ?
    | apply keeps_bind; [| intros ?]
    | match goal with
      | |- keeps _ (if ?b then _ else _) => destruct b
      | |- keeps _ (match ?x with _ => _ end) => destruct x
      end
    | progress cbv zeta ].

Lemma quiet_bootstrap : keeps I (bootstrap env).
Proof. unfold bootstrap. quiet_auto. Qed.

Lemma quiet_collectSupabase : keeps I (collectSupabase env).
Proof. unfold collectSupabase. quiet_auto. Qed.

Lemma quiet_runAuthHandshake : keeps I (runAuthHandshake env).
Proof.
  unfold runAuthHandshake, Auth.checkGhAuthStatus, Auth.checkVercelWhoAmI.
  apply keeps_bind; [apply keeps_auth_run, I_stable | intros gh].
  apply keeps_bind; [apply keeps_auth_run, I_stable | intros vercel].
  apply keeps_read; intros state. cbv zeta.
  apply keeps_bind; [quiet_auto | intros supabaseOk].
  apply keeps_bind;
    [destruct supabaseOk; [apply keeps_ret | apply quiet_collectSupabase]
    | intros supabaseOk'].
  quiet_auto.
Qed.

Lemma quiet_runLocalScaffolding root : keeps I (runLocalScaffolding env root).
Proof. unfold runLocalScaffolding. quiet_auto. Qed.

Lemma quiet_runEnvWiringPhase root : keeps I (runEnvWiringPhase env root).
Proof.
  unfold runEnvWiringPhase, reset_patch, secrets_delete, wireProjectEnvironment.
  quiet_auto.
Qed.

Lemma quiet_ensureInitialized name backend (fresh_ok : forall now w,
    I w -> I (snd (StateManager.writeAtomic
                     (createDefaultState now (nullish name "my-app") backend) w))) :
  keeps I (StateManager.ensureInitialized env name backend).
Proof.
  unfold StateManager.ensureInitialized.
  apply keeps_try_catch.
  - intros w Hw. unfold StateManager.read. destruct (file w); exact Hw.
  - intros msg. apply keeps_bind; [apply keeps_get | intros w]. cbv zeta.
    apply keeps_bind; [| intros; apply keeps_ret].
    intros w' Hw'. apply fresh_ok, Hw'.
Qed.

End Quiet.

(** Which handler each of the phases 0 to 2 hands over to. *)
Lemma returns_only_bind {A B} (V : B -> Prop) (m : M Sys A) (f : A -> M Sys B) :
  (forall a, returns_only V (f a)) -> returns_only V (bind m f).
Proof.
  intros Hf w b. unfold bind.
  destruct (m w) as [[a | msg |] w1]; cbn [fst]; [apply Hf | discriminate | discriminate].
Qed.

Lemma returns_only_ret {A} (V : A -> Prop) (a : A) :
  V a -> returns_only V (@ret Sys A a).
Proof. intros Ha w a' [= <-]. exact Ha. Qed.

Lemma before_phase_4_return : before_phase_4 Return.
Proof. intros c H. discriminate H. Qed.

Lemma before_phase_4_call (c : Call) : ~ follows_phase_3 c -> before_phase_4 (TailCall c).
Proof. intros Hc c' [= <-]. exact Hc. Qed.

Ltac next_auto :=
  repeat first
    [ apply returns_only_ret;
      first [ apply before_phase_4_return
            | apply before_phase_4_call; intros [] ]
    | apply returns_only_bind; intros ?
    | match goal with
      | |- returns_only _ (if ?b then _ else _) => destruct b
      end
    | progress cbv zeta ].

Variable env : Env.

Lemma next_of_bootstrap : returns_only before_phase_4 (bootstrap env).
Proof. unfold bootstrap. next_auto. Qed.

Lemma next_of_runAuthHandshake : returns_only before_phase_4 (runAuthHandshake env).
Proof. unfold runAuthHandshake. next_auto. Qed.

Lemma next_of_runLocalScaffolding root :
  returns_only before_phase_4 (runLocalScaffolding env root).
Proof. unfold runLocalScaffolding. next_auto. Qed.

(** A handler of the phases 0 to 2 keeps the stacks, and hands over to
    a handler that needs nothing more. *)
Lemma enters_next (m : M Sys Next) :
  keeps stacks_by_status m -> returns_only before_phase_4 m ->
  hoare stacks_by_status m
        (fun r w => stacks_by_status w
                    /\ forall c, r = Ok (TailCall c) -> entry c w).
Proof.
  intros Hkeeps Hnext w Hw. split; [apply Hkeeps, Hw |].
  intros c Hr. split; [apply Hkeeps, Hw |].
  intros Hc. destruct (Hnext w _ Hr c eq_refl Hc).
Qed.

(** Phase 3 stores the stack that provisioning returned, which deletes
    what provisioning created; when provisioning failed it stores the
    empty stack. *)
Lemma runProvisioningPhase_stores root name :
  hoare stacks_by_status (runProvisioningPhase env root name)
        (fun r w => stacks_by_status w
                    /\ forall c, r = Ok (TailCall c) -> after_phase_3 w).
Proof.
  intros w Hw. unfold runProvisioningPhase.
  destruct (runProvisioning_result env w root name)
    as (res & w1 & Hrun & Hfile & _ & _ & Hfailed).
  pose proof (runProvisioning_undoes env root name w res w1 Hrun) as Hundoes.
  pose proof (inv_runProvisioning stacks_by_status stacks_log env root name w Hw) as Hw1.
  rewrite Hrun in Hw1. cbn [snd] in Hw1.
  rewrite (bind_returned _ _ _ _ _ Hrun).
  destruct (Provision.ok res) eqn:Hok; cbn [negb].
  - set (p := phase_patch "4_env_wiring" in_progress _ None
                          (Some (Provision.rollbackStack res))).
    destruct (file w1) as [cur |] eqn:Hcur.
    + rewrite (bind_returned _ _ _ _ _ (patch_writes p w1 cur Hcur)).
      cbn [fst snd ret].
      assert (Hstored : stored_by_phase_3 (history w1 ++ [EvPersist (merge cur p)])
                                          (Provision.rollbackStack res)).
      { exists env, root, name, w, res, (merge cur p), []. cbv zeta.
        rewrite Hrun. cbn [fst snd]. repeat split. exact Hok. }
      assert (Hmerged : stack_by_status (history w1 ++ [EvPersist (merge cur p)])
                                        (merge cur p)).
      { split; [discriminate |]. split; [| intros _; exact Hstored].
        apply undoes_creations_app, Hundoes. }
      assert (Hw2 : stacks_by_status (snd (StateManager.writeAtomic (merge cur p) w1)))
        by (apply stacks_writeAtomic; assumption).
      split; [exact Hw2 |]. intros c _. split; [exact Hw2 |].
      intros s [= <-]. exact Hstored.
    + rewrite (bind_thrown _ _ _ _ _ (patch_without_file p w1 Hcur)).
      cbn [fst snd]. split; [exact Hw1 | discriminate].
  - set (p := phase_patch "3_provision" failed None None (Some [])).
    destruct (file w1) as [cur |] eqn:Hcur.
    + rewrite (bind_returned _ _ _ _ _ (patch_writes p w1 cur Hcur)).
      cbn [fst snd ret].
      split; [| discriminate].
      apply stacks_writeAtomic; [exact Hw1 |].
      split; [reflexivity |]. split; [| discriminate].
      exists "", "". left. reflexivity.
    + rewrite (bind_thrown _ _ _ _ _ (patch_without_file p w1 Hcur)).
      cbn [fst snd]. split; [exact Hw1 | discriminate].
Qed.

(** Phase 5 keeps the stack: it ends in status complete with the stack
    that phase 3 stored. *)
Lemma runDeploymentPhase_finishes root :
  keeps after_phase_3 (runDeploymentPhase env root).
Proof.
  unfold runDeploymentPhase.
  apply keeps_read; intros state. cbv zeta.
  apply keeps_bind; [apply keeps_runDeployment, after_phase_3_log | intros result].
  destruct (Deploy.ok result);
    (apply keeps_bind; [| intros ?; apply keeps_ret]);
    apply after_phase_3_patch; (reflexivity || discriminate).
Qed.

Lemma handler_enters root (c : Call) :
  hoare (entry c) (handler env root c)
        (fun r w => stacks_by_status w
                    /\ forall c', r = Ok (TailCall c') -> entry c' w).
Proof.
  destruct c; cbn [handler].
  - eapply hoare_conseq;
      [apply enters_next;
         [apply quiet_bootstrap; [exact stacks_log | exact stacks_patch]
         | apply next_of_bootstrap]
      | intros w [Hw _]; exact Hw | intros r w H; exact H].
  - eapply hoare_conseq;
      [apply enters_next;
         [apply quiet_runAuthHandshake; [exact stacks_log | exact stacks_patch]
         | apply next_of_runAuthHandshake]
      | intros w [Hw _]; exact Hw | intros r w H; exact H].
  - eapply hoare_conseq;
      [apply enters_next;
         [apply quiet_runLocalScaffolding; [exact stacks_log | exact stacks_patch]
         | apply next_of_runLocalScaffolding]
      | intros w [Hw _]; exact Hw | intros r w H; exact H].
  - eapply hoare_conseq;
      [apply runProvisioningPhase_stores
      | intros w [Hw _]; exact Hw
      | intros r w [Hw Hnext]; split; [exact Hw |]].
    intros c' Hr. split; [exact Hw | intros _; apply (Hnext c' Hr)].
  - eapply hoare_conseq;
      [apply (quiet_runEnvWiringPhase after_phase_3 after_phase_3_log
                after_phase_3_quiet_patch env projectRoot)
      | intros w [Hw Hp]; split; [exact Hw | apply Hp; exact I]
      | intros r w [Hw Hp]; split; [exact Hw |]].
    intros c' _. split; [exact Hw | intros _; exact Hp].
  - eapply hoare_conseq;
      [apply runDeploymentPhase_finishes
      | intros w [Hw Hp]; split; [exact Hw | apply Hp; exact I]
      | intros r w [Hw Hp]; split; [exact Hw |]].
    intros c' _. split; [exact Hw | intros _; exact Hp].
Qed.

Lemma run_from_keeps_stacks root steps :
  forall c, hoare (entry c) (run_from env root steps c) (fun _ w => stacks_by_status w).
Proof.
  induction steps as [| steps IH]; intros c; cbn [run_from].
  - apply hoare_ret. intros w [Hw _]. exact Hw.
  - eapply hoare_bind; [apply handler_enters | intros next | |]; cbv beta.
    + destruct next as [| c'].
      * apply hoare_ret. intros w [Hw _]. exact Hw.
      * eapply hoare_conseq;
          [apply IH | intros w [_ Hnext]; apply Hnext; reflexivity
          | intros r w H; exact H].
    + intros msg w [Hw _]. exact Hw.
    + intros w [Hw _]. exact Hw.
Qed.

Lemma handleSetup_keeps_stacks root steps name :
  keeps stacks_by_status (handleSetup env root steps name).
Proof.
  unfold handleSetup. cbv zeta.
  apply keeps_bind; [| intros _].
  { apply quiet_ensureInitialized. intros now w Hw.
    apply stacks_writeAtomic; [exact Hw |].
    split; [discriminate |]. split; [| discriminate].
    exists "", "". left. reflexivity. }
  apply keeps_bind; [apply stacks_patch, quiet_setup_patch | intros _].
  eapply hoare_conseq;
    [apply run_from_keeps_stacks
    | intros w Hw; split; [exact Hw | intros []]
    | intros r w H; exact H].
Qed.

Lemma resetState_keeps_stacks : keeps stacks_by_status resetState.
Proof.
  unfold resetState, secrets_delete.
  apply keeps_bind;
    [| intros ?;
       repeat first [ apply keeps_log_only; [exact stacks_log | reflexivity]
                    | apply keeps_bind; [| intros ?] ]].
  intros w Hw s Hs. cbn [StateManager.reset snd history file] in *.
  destruct Hs as [Hin | Hfile]; [| discriminate Hfile].
  rewrite persisted_app in Hin. cbn [persisted flat_map] in Hin.
  rewrite app_nil_r in Hin. apply stack_by_status_app, Hw. left. exact Hin.
Qed.

(** Phase 5 hands the rollback stack through untouched, whatever the
    deployment does. *)
Lemma runDeploymentPhase_keeps_stack root (w : Sys) (s : ManifoldState) :
  w.(file) = Some s ->
  exists s',
    (snd (runDeploymentPhase env root w)).(file) = Some s'
    /\ s'.(rollback_stack) = s.(rollback_stack).
Proof.
  intros Hfile. unfold runDeploymentPhase.
  unfold bind at 1, StateManager.read. rewrite Hfile. cbv zeta.
  unfold bind at 1.
  match goal with
  | |- context [Deploy.runDeployment env root ?t ?a ?r w] =>
      pose proof (keeps_runDeployment (fun w => file w = Some s)
                    (fun e w _ H => H) env root t a r w Hfile) as Hkeep;
      destruct (Deploy.runDeployment env root t a r w) as [[res | msg |] w1]
  end; simpl in Hkeep.
  - destruct (Deploy.ok res);
      unfold bind, StateManager.patch, bind, StateManager.read;
      rewrite Hkeep; simpl; eexists; split; reflexivity.
  - simpl. eauto.
  - simpl. eauto.
Qed.

End StackByStatus.

Lemma reachable_stacks_by_status (w : World.Sys) :
  Spec.reachable w -> Spec.stacks_by_status w.
Proof.
  induction 1 as [| env root steps name w _ IH | w _ IH].
  - intros s [[] | Hfile]. discriminate Hfile.
  - apply handleSetup_keeps_stacks, IH.
  - apply resetState_keeps_stacks, IH.
Qed.

(** C2, as stated, fails on the code. A first run in a workspace where
    neither the repository nor the hosting project exists creates both,
    stores their two compensations in phase 3, and ends in status
    complete with that stack still in the state file: nothing clears it
    on completion. *)
Lemma C2_complete_with_pending_compensations :
  let w := snd (Manifold.handleSetup Examples.fresh_cloud "/ws" 10 (Some "my-app")
                                     Examples.empty_workspace) in
  Spec.reachable w
  /\ fst (Manifold.handleSetup Examples.fresh_cloud "/ws" 10 (Some "my-app")
                               Examples.empty_workspace) = World.Ok true
  /\ option_map State.status w.(World.file) = Some State.complete
  /\ option_map State.rollback_stack w.(World.file)
      = Some ["gh repo delete octocat/my-app --yes"; "vercel project rm my-app --yes"]
  /\ option_map State.rollback_stack w.(World.file) <> Some [].
Proof.
  intros w. split; [apply Spec.reach_setup, Spec.reach_empty |].
  vm_compute. repeat split; discriminate.
Qed.

(** C2 (amended): in every persisted RunState reachable through the
    orchestrator's phase sequence, the rollback stack is empty if the
    status is failed. Whatever the status, every command on it deletes
    a resource that provisioning has created: the stack is empty, or
    the deletion of the repository login/name that gh repo create name
    created, or the removal of the hosting project name that vercel
    project add name created, or both in that order. If the status is
    complete the stack is what phase 3 stored: a provisioning succeeded
    and returned it, and the state written next, in phase 4_env_wiring,
    holds it. Phase 5 hands the stack of the state file through
    unchanged: completion does not clear it. *)
Theorem C2_rollback_stack_by_status :
  (forall w s,
      Spec.reachable w ->
      In s (World.persisted w.(World.history)) \/ w.(World.file) = Some s ->
      (s.(State.status) = State.failed -> s.(State.rollback_stack) = [])
      /\ Spec.undoes_creations w.(World.history) s.(State.rollback_stack)
      /\ (s.(State.status) = State.complete ->
          Spec.stored_by_phase_3 w.(World.history) s.(State.rollback_stack)))
  /\ (forall env root w s,
         w.(World.file) = Some s ->
         exists s',
           (snd (Manifold.runDeploymentPhase env root w)).(World.file) = Some s'
           /\ s'.(State.rollback_stack) = s.(State.rollback_stack)).
Proof.
  split.
  - intros w s Hreach Hs. exact (reachable_stacks_by_status w Hreach s Hs).
  - intros env root w s. apply runDeploymentPhase_keeps_stack.
Qed.

Lemma C2_rollback_stack_by_status_witness :
  let w := snd (Manifold.handleSetup Examples.fresh_cloud "/ws" 10 (Some "my-app")
                                     Examples.empty_workspace) in
  Spec.reachable w
  /\ exists s, w.(World.file) = Some s
               /\ s.(State.status) = State.complete
               /\ s.(State.rollback_stack)
                  = ["gh repo delete octocat/my-app --yes";
                     "vercel project rm my-app --yes"]
               /\ Spec.undoes_creations w.(World.history) s.(State.rollback_stack)
               /\ Spec.stored_by_phase_3 w.(World.history) s.(State.rollback_stack).
Proof.
  intros w.
  assert (Spec.reachable w) as Hreach by apply Spec.reach_setup, Spec.reach_empty.
  split; [exact Hreach |].
  destruct (w.(World.file)) as [s |] eqn:Hfile; [| vm_compute in Hfile; discriminate Hfile].
  exists s. split; [reflexivity |].
  assert (Hstatus : s.(State.status) = State.complete)
    by (vm_compute in Hfile; injection Hfile as <-; reflexivity).
  split; [exact Hstatus |].
  split; [vm_compute in Hfile; injection Hfile as <-; reflexivity |].
  destruct (proj1 C2_rollback_stack_by_status w s Hreach (or_intror Hfile))
    as (_ & Hundoes & Hstored).
  split; [exact Hundoes | exact (Hstored Hstatus)].
Defined.


(** ** The run state store *)

Section Patch.
Import State World.

Lemma spread_lookup (cur patch : Fields) (k : string) :
  spread cur patch !! k
  = match patch !! k with
    | Some v => Some v
    | None => cur !! k
    end.
Proof.
  unfold spread. rewrite lookup_union.
  destruct (patch !! k), (cur !! k); reflexivity.
Qed.

Lemma spread_nothing (cur : Fields) : spread cur ∅ = cur.
Proof. unfold spread. apply (left_id_L ∅ (∪)). Qed.

Lemma spread_twice (cur a b : Fields) :
  a ##ₘ b -> spread (spread cur a) b = spread cur (a ∪ b).
Proof.
  intros Hdisj. unfold spread.
  rewrite (assoc_L (∪)). f_equal. symmetry. apply map_union_comm, Hdisj.
Qed.

Lemma patch_stored (w : Sys) (cur : ManifoldState) (p : ManifoldStatePatch) :
  w.(file) = Some cur ->
  StateManager.patch p w
  = (Ok (merge cur p),
     {| history := w.(history) ++ [EvPersist (merge cur p)];
        file := Some (merge cur p) |}).
Proof.
  intros Hfile. unfold StateManager.patch, bind, StateManager.read.
  rewrite Hfile. reflexivity.
Qed.

(** C5: on a stored state, [patch] persists and returns the merged
    state, in which
    - a scalar field the patch does not supply keeps its value, one it
      supplies takes the patch's value;
    - [config], [config.stack], [resources] and [credentials] are merged
      key by key: a key the patch supplies takes the patch's value, every
      other key keeps the stored value;
    - [rollback_stack] is the patch's when supplied and the stored one
      otherwise;
    and two patches of credentials on disjoint keys, one after the other,
    leave the same state file as the single patch with both. *)
Theorem C5_patch_merges_key_by_key
        (w : Sys) (cur : ManifoldState) (p : ManifoldStatePatch) :
  w.(file) = Some cur ->
  let next := merge cur p in
  fst (StateManager.patch p w) = Ok next
  /\ (snd (StateManager.patch p w)).(file) = Some next
  /\ next.(status) = nullish p.(p_status) cur.(status)
  /\ next.(state_version) = nullish p.(p_state_version) cur.(state_version)
  /\ next.(run_id) = nullish p.(p_run_id) cur.(run_id)
  /\ next.(current_phase) = nullish p.(p_current_phase) cur.(current_phase)
  /\ next.(config).(project_name)
     = nullish (c ← p.(p_config); c.(p_project_name)) cur.(config).(project_name)
  /\ next.(config).(stack).(frontend)
     = nullish (c ← p.(p_config); s ← c.(p_stack); s.(p_frontend))
               cur.(config).(stack).(frontend)
  /\ next.(config).(stack).(backend)
     = nullish (c ← p.(p_config); s ← c.(p_stack); s.(p_backend))
               cur.(config).(stack).(backend)
  /\ (forall k, next.(resources) !! k
                = match m ← p.(p_resources); m !! k with
                  | Some v => Some v
                  | None => cur.(resources) !! k
                  end)
  /\ (forall k, next.(credentials) !! k
                = match m ← p.(p_credentials); m !! k with
                  | Some v => Some v
                  | None => cur.(credentials) !! k
                  end)
  /\ next.(rollback_stack) = nullish p.(p_rollback_stack) cur.(rollback_stack)
  /\ (forall a b : Fields,
         a ##ₘ b ->
         let one_by_one :=
           snd (StateManager.patch (Manifold.credentials_patch None b)
                  (snd (StateManager.patch (Manifold.credentials_patch None a) w))) in
         let at_once :=
           snd (StateManager.patch (Manifold.credentials_patch None (a ∪ b)) w) in
         one_by_one.(file) = at_once.(file)
         /\ one_by_one.(file)
            = Some (merge cur (Manifold.credentials_patch None (a ∪ b)))).
Proof.
  intros Hfile next.
  rewrite (patch_stored w cur p Hfile). cbn [fst snd file].
  assert (forall a b : Fields,
             a ##ₘ b ->
             (snd (StateManager.patch (Manifold.credentials_patch None b)
                     (snd (StateManager.patch (Manifold.credentials_patch None a) w)))).(file)
             = Some (merge cur (Manifold.credentials_patch None (a ∪ b)))) as Htwice.
  { intros a b Hdisj.
    rewrite (patch_stored w cur _ Hfile). cbn [snd].
    erewrite patch_stored by reflexivity. cbn [snd file]. f_equal.
    unfold merge, Manifold.credentials_patch; cbn -[spread].
    rewrite !spread_nothing, spread_twice by assumption. reflexivity. }
  repeat match goal with |- _ /\ _ => split end; try reflexivity.
  - subst next. unfold merge; cbn.
    destruct (p_config p) as [c|]; [| reflexivity].
    cbn. destruct (p_stack c); reflexivity.
  - subst next. unfold merge; cbn.
    destruct (p_config p) as [c|]; [| reflexivity].
    cbn. destruct (p_stack c); reflexivity.
  - intros k. subst next. unfold merge; cbn -[spread]. rewrite spread_lookup.
    destruct (p_resources p); cbn; [reflexivity |]. rewrite lookup_empty. reflexivity.
  - intros k. subst next. unfold merge; cbn -[spread]. rewrite spread_lookup.
    destruct (p_credentials p); cbn; [reflexivity |]. rewrite lookup_empty. reflexivity.
  - intros a b Hdisj. rewrite (Htwice a b Hdisj).
    rewrite (patch_stored w cur _ Hfile). split; reflexivity.
Qed.

End Patch.

Lemma C5_patch_merges_key_by_key_witness :
  let cur := State.createDefaultState "1700000000000" "my-app" State.flask in
  let w := {| World.history := []; World.file := Some cur |} in
  let p := Manifold.credentials_patch None {[ "supabase_url" := Some "https://x" ]} in
  w.(World.file) = Some cur
  /\ (State.merge cur p).(State.credentials) !! "supabase_url" = Some (Some "https://x")
  /\ (State.merge cur p).(State.credentials) !! "vercel_token" = Some None
  /\ (State.merge cur p).(State.rollback_stack) = [].
Proof.
  intros cur w p. split; [reflexivity |].
  destruct (C5_patch_merges_key_by_key w cur p eq_refl)
    as (_ & _ & _ & _ & _ & _ & _ & _ & _ & _ & Hcred & Hstack & _).
  rewrite !Hcred, Hstack. repeat split; vm_compute; reflexivity.
Defined.

(** ** Phase 4 *)

Section EnvWiring.
Import State World Manifold.

Lemma missing_values_nil (s : ManifoldState) :
  missing_values s = []
  <-> Js.truthy_opt (field s.(resources) "github_repo") = true
      /\ Js.truthy_opt (field s.(resources) "vercel_project_id") = true
      /\ Js.truthy_opt (field s.(credentials) "supabase_url") = true
      /\ Js.truthy_opt (field s.(credentials) "supabase_publishable_key") = true.
Proof.
  unfold missing_values.
  destruct (Js.truthy_opt (field (resources s) "github_repo")),
    (Js.truthy_opt (field (resources s) "vercel_project_id")),
    (Js.truthy_opt (field (credentials s) "supabase_url")),
    (Js.truthy_opt (field (credentials s) "supabase_publishable_key"));
    simpl; split; intros H; try discriminate; try tauto;
    repeat match goal with H : _ /\ _ |- _ => destruct H end; discriminate.
Qed.

Lemma reset_clears (s : ManifoldState) :
  let s' := merge s reset_patch in
  s'.(current_phase) = "1_auth"
  /\ s'.(status) = in_progress
  /\ Forall (fun k => s'.(resources) !! k = Some None)
            ["github_repo"; "vercel_project_id"; "supabase_ref"]
  /\ Forall (fun k => s'.(credentials) !! k = Some None)
            ["vercel_token"; "supabase_access_token"; "supabase_url";
             "supabase_publishable_key"]
  /\ s'.(rollback_stack) = s.(rollback_stack)
  /\ s'.(config) = s.(config).
Proof.
  unfold merge, reset_patch, phase_patch; cbn -[spread].
  repeat split; try reflexivity.
  - repeat constructor; rewrite spread_lookup; reflexivity.
  - repeat constructor; rewrite spread_lookup; reflexivity.
  - destruct (config s) as [n [f b]]; reflexivity.
Qed.

Lemma runEnvWiringPhase_missing env root (w : Sys) (s : ManifoldState) :
  w.(file) = Some s ->
  missing_values s <> [] ->
  runEnvWiringPhase env root w
  = (Ok (TailCall AuthHandshake),
     {| history := w.(history)
                   ++ [EvSecretDelete supabasePatSecretKey;
                       EvSecretDelete supabaseProjectUrlSecretKey;
                       EvSecretDelete supabasePublishableKeySecretKey;
                       EvSecretDelete supabaseAccessTokenSecretKey;
                       EvPersist (merge s reset_patch)];
        file := Some (merge s reset_patch) |}).
Proof.
  intros Hfile Hmissing. unfold runEnvWiringPhase.
  unfold bind at 1, StateManager.read. rewrite Hfile. cbv zeta.
  destruct (missing_values s) as [|m ms]; [congruence |].
  cbn [length Nat.ltb Nat.leb].
  unfold secrets_delete, bind, modify, log, StateManager.patch, bind,
    StateManager.read, StateManager.writeAtomic, ret.
  cbn [file history]. rewrite Hfile. cbn [file history].
  repeat rewrite <- app_assoc. reflexivity.
Qed.

Lemma runEnvWiringPhase_present env root (w : Sys) (s : ManifoldState) :
  w.(file) = Some s ->
  missing_values s = [] ->
  let s' := merge s (phase_patch "5_deploy" in_progress None None None) in
  runEnvWiringPhase env root w
  = (Ok (TailCall (DeploymentPhase root)),
     {| history := w.(history)
                   ++ [EvWireEnvironment root
                         (nullish (field s.(credentials) "supabase_url") "")
                         (nullish (field s.(credentials) "supabase_publishable_key") "")
                         (nullish (field s.(resources) "github_repo") "")
                         (nullish (field s.(resources) "vercel_project_id") "");
                       EvPersist s'];
        file := Some s' |}).
Proof.
  intros Hfile Hmissing s'. unfold runEnvWiringPhase.
  unfold bind at 1, StateManager.read. rewrite Hfile. cbv zeta.
  rewrite Hmissing. cbn [length Nat.ltb Nat.leb].
  unfold wireProjectEnvironment, bind, modify, log, StateManager.patch, bind,
    StateManager.read, StateManager.writeAtomic, ret.
  cbn [file history]. rewrite Hfile. cbn [file history].
  repeat rewrite <- app_assoc. reflexivity.
Qed.

(** C6: phase 4 reads the state; a required value counts as absent when
    it is null, missing or the empty string (JavaScript falsiness, the
    test of the source). If any of the four is absent, the phase writes
    no environment file, persists the state with [current_phase] reset
    to 1_auth, status in_progress and every resource and credential
    field null, and re-enters phase 1. Otherwise it writes the
    environment files from the four stored values, persists
    [current_phase] 5_deploy and goes on with phase 5. *)
Theorem C6_phase4_resets_or_wires env root (w : Sys) (s : ManifoldState) :
  w.(file) = Some s ->
  let r := runEnvWiringPhase env root w in
  (missing_values s = []
   <-> Js.truthy_opt (field s.(resources) "github_repo") = true
       /\ Js.truthy_opt (field s.(resources) "vercel_project_id") = true
       /\ Js.truthy_opt (field s.(credentials) "supabase_url") = true
       /\ Js.truthy_opt (field s.(credentials) "supabase_publishable_key") = true)
  /\ (missing_values s <> [] ->
      fst r = Ok (TailCall AuthHandshake)
      /\ wirings (snd r).(history) = wirings w.(history)
      /\ exists s',
          (snd r).(file) = Some s'
          /\ last (persisted (snd r).(history)) = Some s'
          /\ s'.(current_phase) = "1_auth"
          /\ s'.(status) = in_progress
          /\ Forall (fun k => s'.(resources) !! k = Some None)
                    ["github_repo"; "vercel_project_id"; "supabase_ref"]
          /\ Forall (fun k => s'.(credentials) !! k = Some None)
                    ["vercel_token"; "supabase_access_token"; "supabase_url";
                     "supabase_publishable_key"])
  /\ (missing_values s = [] ->
      fst r = Ok (TailCall (DeploymentPhase root))
      /\ (exists repo project url key,
             field s.(resources) "github_repo" = Some repo
             /\ field s.(resources) "vercel_project_id" = Some project
             /\ field s.(credentials) "supabase_url" = Some url
             /\ field s.(credentials) "supabase_publishable_key" = Some key
             /\ wirings (snd r).(history)
                = wirings w.(history) ++ [EvWireEnvironment root url key repo project])
      /\ exists s',
          (snd r).(file) = Some s'
          /\ last (persisted (snd r).(history)) = Some s'
          /\ s'.(current_phase) = "5_deploy"
          /\ s'.(status) = in_progress
          /\ s'.(resources) = s.(resources)
          /\ s'.(credentials) = s.(credentials)).
Proof.
  intros Hfile r. split; [apply missing_values_nil |]. split.
  - intros Hmissing. subst r.
    rewrite (runEnvWiringPhase_missing env root w s Hfile Hmissing). cbn [fst snd].
    split; [reflexivity |]. split.
    { cbn [history]. unfold wirings. rewrite List.filter_app. simpl.
      apply app_nil_r. }
    exists (merge s reset_patch). cbn [file history].
    split; [reflexivity |]. split.
    { rewrite persisted_app. simpl. apply last_snoc. }
    destruct (reset_clears s) as (H1 & H2 & H3 & H4 & _). auto.
  - intros Hpresent. subst r.
    rewrite (runEnvWiringPhase_present env root w s Hfile Hpresent). cbn [fst snd].
    split; [reflexivity |]. split.
    { apply missing_values_nil in Hpresent as (Hr & Hp & Hu & Hk).
      destruct (field (resources s) "github_repo") as [repo|]; [| discriminate].
      destruct (field (resources s) "vercel_project_id") as [project|]; [| discriminate].
      destruct (field (credentials s) "supabase_url") as [url|]; [| discriminate].
      destruct (field (credentials s) "supabase_publishable_key") as [key|];
        [| discriminate].
      exists repo, project, url, key. repeat split.
      cbn [history]. unfold wirings. rewrite List.filter_app. reflexivity. }
    eexists. cbn [file history]. split; [reflexivity |]. split.
    { rewrite persisted_app. simpl. apply last_snoc. }
    unfold merge, phase_patch; cbn -[spread]. rewrite !spread_nothing. auto.
Qed.

End EnvWiring.

(** The scenario of the design document: phase 4 is entered with
    [resources.vercel_project_id] null. *)
Lemma C6_phase4_resets_or_wires_witness :
  let s := State.merge (State.createDefaultState "1700000000000" "my-app" State.flask)
             (Manifold.credentials_patch
                (Some {[ "github_repo" := Some "octocat/my-app" ]})
                {[ "supabase_url" := Some "https://abcdefghijklmnopqrst.supabase.co";
                   "supabase_publishable_key" := Some "sb_publishable_0123" ]}) in
  let w := {| World.history := []; World.file := Some s |} in
  let r := Manifold.runEnvWiringPhase Examples.fresh_cloud "/ws/my-app" w in
  w.(World.file) = Some s
  /\ Manifold.missing_values s = ["Vercel project ID"]
  /\ fst r = World.Ok (Manifold.TailCall Manifold.AuthHandshake)
  /\ World.wirings (snd r).(World.history) = [].
Proof.
  intros s w r. split; [reflexivity |]. split; [vm_compute; reflexivity |].
  destruct (C6_phase4_resets_or_wires Examples.fresh_cloud "/ws/my-app" w s eq_refl)
    as (_ & Hreset & _).
  destruct Hreset as (Hnext & Hwire & _); [vm_compute; discriminate |].
  split; [exact Hnext | exact Hwire].
Defined.


(** ** The credential verifier *)

Section Verify.
Import World Auth.
Variable env : Env.
Variables (projectUrl publishableKey : string) (parsedUrl : Url).
Hypothesis Hparse : env.(parseUrl) projectUrl = Some parsedUrl.
Hypothesis Hhttps : parsedUrl.(url_protocol) = "https:".
Variable w : Sys.

Let req1 := probe_request parsedUrl publishableKey "/auth/v1/settings" false.
Let req2 := probe_request parsedUrl publishableKey "/rest/v1/" true.

Lemma request_https path auth (w0 : Sys) :
  requestOnce env parsedUrl publishableKey path auth w0
  = (Ok (probe_of (env.(on_http) w0.(history)
                     (probe_request parsedUrl publishableKey path auth))),
     log (EvHttp (probe_request parsedUrl publishableKey path auth)
                 (env.(on_http) w0.(history)
                    (probe_request parsedUrl publishableKey path auth))) w0).
Proof. unfold requestOnce. rewrite Hhttps. reflexivity. Qed.

(** A network error with a message fails at once. *)
Lemma verify_primary_error message :
  env.(on_http) w.(history) req1 = HttpError message -> message <> "" ->
  verifySupabaseProjectApi env projectUrl publishableKey w
  = (Ok {| ok := false;
           output := ("Supabase Project API request failed: " ++ message)%string |},
     log (EvHttp req1 (HttpError message)) w).
Proof.
  intros Hreply Hmsg. unfold verifySupabaseProjectApi. rewrite Hparse.
  unfold detached, bind at 1. rewrite request_https. fold req1. rewrite Hreply.
  cbn [probe_of error].
  destruct message; [congruence | reflexivity].
Qed.

Lemma verify_primary_2xx st body :
  env.(on_http) w.(history) req1 = HttpResponse st body ->
  is_2xx (State.nullish st 0) = true ->
  verifySupabaseProjectApi env projectUrl publishableKey w
  = (Ok {| ok := true; output := msg_verified |},
     log (EvHttp req1 (HttpResponse st body)) w).
Proof.
  intros Hreply H2xx. unfold verifySupabaseProjectApi. rewrite Hparse.
  unfold detached, bind at 1. rewrite request_https. fold req1. rewrite Hreply.
  cbn [probe_of error status Js.truthy_opt]. rewrite H2xx. reflexivity.
Qed.

Lemma verify_primary_other st body :
  env.(on_http) w.(history) req1 = HttpResponse st body ->
  is_2xx (State.nullish st 0) = false ->
  is_401_403 (State.nullish st 0) = false ->
  verifySupabaseProjectApi env projectUrl publishableKey w
  = (Ok {| ok := true; output := msg_reachable |},
     log (EvHttp req1 (HttpResponse st body)) w).
Proof.
  intros Hreply H2xx H4xx. unfold verifySupabaseProjectApi. rewrite Hparse.
  unfold detached, bind at 1. rewrite request_https. fold req1. rewrite Hreply.
  cbn [probe_of error status Js.truthy_opt]. rewrite H2xx, H4xx. reflexivity.
Qed.

(** After a 401 or 403 there is exactly one more probe, with the bearer
    header, judged as the first. *)
Lemma verify_fallback st body reply2 :
  env.(on_http) w.(history) req1 = HttpResponse st body ->
  is_401_403 (State.nullish st 0) = true ->
  let w1 := log (EvHttp req1 (HttpResponse st body)) w in
  env.(on_http) w1.(history) req2 = reply2 ->
  exists result,
    verifySupabaseProjectApi env projectUrl publishableKey w
    = (Ok result, log (EvHttp req2 reply2) w1)
    /\ match reply2 with
       | HttpError message => message <> "" -> result.(ok) = false
       | HttpResponse st2 _ =>
           result.(ok) = is_2xx (State.nullish st2 0)
                         || negb (is_401_403 (State.nullish st2 0))
       end.
Proof.
  intros Hreply H4xx w1 Hreply2. unfold verifySupabaseProjectApi. rewrite Hparse.
  unfold detached, bind at 1. rewrite request_https. fold req1. rewrite Hreply.
  cbn [probe_of error status Js.truthy_opt].
  assert (is_2xx (State.nullish st 0) = false) as H2xx.
  { unfold is_2xx, is_401_403 in *.
    apply orb_true_iff in H4xx as [H | H]; apply Nat.eqb_eq in H; rewrite H;
      reflexivity. }
  rewrite H2xx, H4xx. cbn [negb].
  unfold bind at 1. rewrite request_https. fold req2. fold w1.
  rewrite Hreply2.
  destruct reply2 as [st2 body2 | m2]; cbn [probe_of error status snippet Js.truthy_opt].
  - destruct (is_2xx (State.nullish st2 0)); [eexists; split; reflexivity |].
    destruct (is_401_403 (State.nullish st2 0)); eexists; split; reflexivity.
  - destruct m2; eexists; (split; [reflexivity |]); [congruence | reflexivity].
Qed.

End Verify.
(** C1 fails on a network error whose message is empty. The guard of
    the source is the truthiness of the message, so such an error is
    not seen: the probe counts as a response of status 0, which is
    outside 2xx, 401 and 403, and the project is reported verified. *)
Lemma C1_error_without_message_is_verified :
  let '(r, w) := Auth.verifySupabaseProjectApi Examples.refused_silently
                   "https://abcdefghijklmnopqrst.supabase.co" "sb_publishable_0123"
                   Examples.empty_workspace in
  r = World.Ok {| Auth.ok := true; Auth.output := Auth.msg_reachable |}
  /\ w.(World.history)
     = [World.EvHttp
          {| World.protocol := "https:";
             World.hostname := "abcdefghijklmnopqrst.supabase.co";
             World.path := "/auth/v1/settings";
             World.headers := [("apikey", "sb_publishable_0123");
                               ("Accept", "application/json")] |}
          (World.HttpError "")].
Proof. vm_compute. split; reflexivity. Qed.


(** ** Provisioning against resources that exist *)

Section Reuse.
Import World Spec Provision.
Variable env : Env.
Variables root name login : string.






End Reuse.



(** ** The deployment log analyzer *)

Section LogAnalyzer.
Import World Regex Deploy.

Lemma chr_eq_plain (a b : ascii) : chr_eq no_flags a b = Ascii.eqb a b.
Proof. unfold chr_eq; simpl. apply orb_false_r. Qed.

(** A literal that matches at the front is a prefix. *)
Lemma lit_plain_prefix {R} (l : string) :
  forall prev n s (k : option ascii -> nat -> string -> option R) x,
    lit no_flags l prev n s k = Some x ->
    exists rest, s = (l ++ rest)%string.
Proof.
  induction l as [|a l IH]; intros prev n s k x H; simpl in *.
  - exists s. reflexivity.
  - destruct s as [|b s]; [discriminate |].
    rewrite chr_eq_plain in H.
    destruct (Ascii.eqb a b) eqn:E; [| discriminate].
    apply Ascii.eqb_eq in E as ->.
    destruct (IH _ _ _ _ _ H) as [rest ->]. exists rest. reflexivity.
Qed.

Lemma includes_cons needle a s : Js.includes needle s -> Js.includes needle (String a s).
Proof. intros (pre & post & ->). exists (String a pre), post. reflexivity. Qed.

(** The filter of [extractDeploymentUrl] is a substring test. *)
Lemma known_host_includes (u : string) :
  test no_flags re_known_host u = true ->
  Js.includes "vercel.app" u \/ Js.includes "web.app" u.
Proof.
  unfold test, exec. generalize (@None ascii) as prev.
  induction u as [|a u IH]; intros prev H.
  - simpl in H. discriminate.
  - cbn [search_from] in H.
    destruct (at_front no_flags re_known_host prev (String a u)) as [f|] eqn:E.
    + clear H IH. unfold at_front, re_known_host in E. cbn [run] in E.
      match type of E with
      | match ?m with _ => _ end = _ => destruct m eqn:E1
      end.
      * apply lit_plain_prefix in E1 as [rest ->]. left. exists "", rest. reflexivity.
      * apply lit_plain_prefix in E as [rest ->]. right. exists "", rest. reflexivity.
    + destruct (IH (Some a) H) as [Hi | Hi]; [left | right];
        apply includes_cons, Hi.
Qed.

Lemma first_candidate_filtered (text : string) (patterns : list regex) (u : string) :
  first_candidate text patterns = Some u -> test no_flags re_known_host u = true.
Proof.
  induction patterns as [|pattern rest IH]; intros H; simpl in H; [discriminate |].
  destruct (exec flag_i pattern text) as [[wh [g|]]|]; try (apply IH, H).
  destruct (Js.truthy g); [| apply IH, H].
  match type of H with
  | (if ?c then _ else _) = _ => destruct c eqn:E
  end; [| apply IH, H].
  injection H as <-. exact E.
Qed.

Lemma runDeployment_result env root t a r (w : Sys) :
  let reply := env.(on_exec) w.(history) (frontend_request root t) in
  let w1 := log (EvExec (frontend_request root t) reply) w in
  let reply2 := env.(on_exec) w1.(history) (backend_request root a r) in
  exists res,
    runDeployment env root t a r w
    = (Ok res, log (EvExec (backend_request root a r) reply2) w1)
    /\ res.(ok) = (frontend_result reply).(fe_ok) && negb reply2.(error)
    /\ res.(frontendUrl) = (frontend_result reply).(fe_url)
    /\ res.(publicUrl) = (frontend_result reply).(fe_publicUrl).
Proof.
  intros reply w1 reply2. subst reply w1 reply2.
  unfold runDeployment, bind, Shell.exec, ret. cbv zeta.
  eexists. split; [reflexivity |]. repeat split.
Qed.

Lemma frontend_ok_needs_url (reply : ExecReply) :
  (frontend_result reply).(fe_ok) = true ->
  reply.(error) = false
  /\ exists u, extractDeploymentUrl (output_lines reply.(out)) = Some u
               /\ (frontend_result reply).(fe_url) = Some u.
Proof.
  unfold frontend_result. destruct (error reply); cbn [fe_ok fe_url]; [discriminate |].
  destruct (extractDeploymentUrl (output_lines (out reply))) as [u|];
    [eauto | discriminate].
Qed.

Lemma frontend_without_url_not_ok (reply : ExecReply) :
  extractDeploymentUrl (output_lines reply.(out)) = None ->
  (frontend_result reply).(fe_ok) = false.
Proof.
  intros H. unfold frontend_result. destruct (error reply); cbn [fe_ok]; [reflexivity |].
  rewrite H. reflexivity.
Qed.

Lemma append_cons (x : ascii) (a b : string) :
  (String x a ++ b = String x (a ++ b))%string.
Proof. reflexivity. Qed.

Lemma append_assoc (a b c : string) : ((a ++ b) ++ c = a ++ (b ++ c))%string.
Proof.
  induction a as [|x a IH]; [reflexivity |].
  rewrite !append_cons. f_equal. exact IH.
Qed.

Lemma append_nil_r (a : string) : (a ++ "" = a)%string.
Proof.
  induction a as [|x a IH]; [reflexivity |].
  rewrite append_cons. f_equal. exact IH.
Qed.

Lemma join_first (x : string) (l : list string) :
  Js.join LF (x :: l) = (x ++ Js.lines_after l)%string.
Proof.
  revert x. induction l as [|y l IH]; intros x.
  - simpl. symmetry. apply append_nil_r.
  - change (Js.join LF (x :: y :: l)) with (x ++ LF ++ Js.join LF (y :: l))%string.
    rewrite IH. reflexivity.
Qed.

Lemma join_around (before : list string) (x : string) (after : list string) :
  Js.join LF (before ++ x :: after)
  = (Js.lines_before before ++ x ++ Js.lines_after after)%string.
Proof.
  induction before as [|b before IH].
  - apply join_first.
  - cbn [app Js.lines_before].
    change (String "010" (Js.lines_before before))
      with (LF ++ Js.lines_before before)%string.
    rewrite !append_assoc, <- IH.
    destruct (before ++ x :: after) as [|y l] eqn:E; [destruct before; discriminate |].
    reflexivity.
Qed.

(** A literal that fails on a line still fails when the line is followed
    by a line feed. *)
Lemma lit_fails_across_newline {R1 R2} fl (l : string) :
  newline_free fl l = true ->
  forall x prev n rest (k1 : option ascii -> nat -> string -> option R1)
         (k2 : option ascii -> nat -> string -> option R2),
    (forall pv m s, k1 pv m s <> None) ->
    lit fl l prev n x k1 = None ->
    lit fl l prev n (x ++ String "010" rest)%string k2 = None.
Proof.
  induction l as [|c l IH]; intros Hfree x prev n rest k1 k2 Hk H; simpl in *.
  - exfalso. eapply Hk, H.
  - apply andb_true_iff in Hfree as [Hc Hfree].
    destruct x as [|b x].
    + apply negb_true_iff in Hc.
      change ("" ++ String "010" rest)%string with (String "010" rest).
      cbn [lit]. rewrite Hc. reflexivity.
    + rewrite append_cons. cbn [lit]. simpl in H.
      destruct (chr_eq fl c b); [| reflexivity].
      eapply IH; eassumption.
Qed.

Lemma lit_prev_irrelevant {R} fl l (k : option ascii -> nat -> string -> option R) :
  (forall p q n s, k p n s = k q n s) ->
  forall p1 p2 n s, lit fl l p1 n s k = lit fl l p2 n s k.
Proof.
  intros Hk. induction l as [|c l IH]; intros p1 p2 n s; cbn [lit].
  - apply Hk.
  - destruct s as [|b s]; [reflexivity |]. destruct (chr_eq fl c b); reflexivity.
Qed.

Lemma at_front_lit_prev fl l p1 p2 s :
  at_front fl (Lit l) p1 s = at_front fl (Lit l) p2 s.
Proof.
  unfold at_front. cbn [run]. apply lit_prev_irrelevant. reflexivity.
Qed.

Lemma search_lit_prev fl l p1 s :
  search_from fl (Lit l) p1 s = None -> forall p2, search_from fl (Lit l) p2 s = None.
Proof.
  revert p1. induction s as [|a s IH]; intros p1 H p2; cbn [search_from] in *.
  - rewrite (at_front_lit_prev fl l p2 p1). exact H.
  - rewrite (at_front_lit_prev fl l p2 p1).
    destruct (at_front fl (Lit l) p1 (String a s)); [discriminate |].
    eapply IH. exact H.
Qed.

(** No match of a pattern that starts with a literal begins in a line
    where the literal does not occur. *)
Lemma search_skips_line fl (l : string) (r : regex) :
  newline_free fl l = true -> l <> "" ->
  forall x prev rest,
    search_from fl (Lit l) prev x = None ->
    search_from fl (Seq (Lit l) r) prev (x ++ String "010" rest)%string
    = search_from fl (Seq (Lit l) r) (Some "010"%char) rest.
Proof.
  intros Hfree Hne x. induction x as [|a x IH]; intros prev rest H.
  - change ("" ++ String "010" rest)%string with (String "010" rest).
    cbn [search_from].
    assert (at_front fl (Seq (Lit l) r) prev (String "010" rest) = None) as ->.
    { unfold at_front. cbn [run]. destruct l as [|c l]; [congruence |].
      cbn [lit]. cbn in Hfree. apply andb_true_iff in Hfree as [Hc _].
      apply negb_true_iff in Hc. rewrite Hc. reflexivity. }
    reflexivity.
  - rewrite append_cons. cbn [search_from] in *.
    destruct (at_front fl (Lit l) prev (String a x)) eqn:E; [discriminate |].
    assert (at_front fl (Seq (Lit l) r) prev (String a (x ++ String "010" rest)) = None)
      as ->.
    { unfold at_front in *. cbn [run] in *. rewrite <- append_cons.
      eapply lit_fails_across_newline; [exact Hfree | | exact E].
      intros; discriminate. }
    apply IH. exact H.
Qed.

Lemma search_skips_lines fl (l : string) (r : regex) (before : list string) :
  newline_free fl l = true -> l <> "" ->
  Forall (fun x => test fl (Lit l) x = false) before ->
  forall prev rest,
    exists prev',
      search_from fl (Seq (Lit l) r) prev (Js.lines_before before ++ rest)%string
      = search_from fl (Seq (Lit l) r) prev' rest.
Proof.
  intros Hfree Hne Hall. induction Hall as [|x before Hx _ IH]; intros prev rest.
  - exists prev. reflexivity.
  - cbn [Js.lines_before]. rewrite append_assoc, append_cons.
    rewrite (search_skips_line fl l r Hfree Hne).
    + apply IH.
    + unfold test, exec in Hx.
      destruct (search_from fl (Lit l) None x) eqn:E; [discriminate |].
      apply (search_lit_prev _ _ _ _ E).
Qed.

(** At the line of the alias the pattern matches and captures the URL,
    which ends at the end of the text, at a line feed or at a space. *)
Lemma aliased_at_line prev (suffix : string) :
  suffix = "" \/ (exists t, suffix = String "010" t) \/ (exists t, suffix = String " " t) ->
  at_front flag_i re_aliased prev (Examples.alias_line ++ suffix)%string
  = Some (Found Examples.alias_line (Some Examples.alias_url)).
Proof.
  intros [-> | [[t ->] | [t ->]]]; vm_compute; reflexivity.
Qed.

Lemma suffix_after_alias (tail : string) (after : list string) :
  tail = "" \/ (exists t, tail = String " " t) ->
  let suffix := (tail ++ Js.lines_after after)%string in
  suffix = "" \/ (exists t, suffix = String "010" t) \/ (exists t, suffix = String " " t).
Proof.
  intros [-> | [t ->]]; cbv zeta.
  - destruct after as [|x after]; [left; reflexivity |].
    right. left. eexists. reflexivity.
  - right. right. eexists. reflexivity.
Qed.

(** The first line that says [Aliased:] decides the public URL, whatever
    comes before and after. *)
Lemma alias_line_wins (before after : list string) (tail : string) :
  Forall (fun x => test flag_i (Lit "Aliased:") x = false) before ->
  tail = "" \/ (exists t, tail = String " " t) ->
  extractVercelPublicUrl (before ++ (Examples.alias_line ++ tail)%string :: after)
  = Some Examples.alias_url.
Proof.
  intros Hbefore Htail. unfold extractVercelPublicUrl. cbv zeta.
  rewrite join_around, append_assoc. unfold exec.
  set (suffix := (tail ++ Js.lines_after after)%string).
  destruct (search_skips_lines flag_i "Aliased:"
              (Seq (Star space) (Group (Seq re_scheme (Plus nonspace))))
              before eq_refl ltac:(discriminate) Hbefore None
              (Examples.alias_line ++ suffix)%string) as [prev' E].
  change (search_from flag_i re_aliased None) with
    (search_from flag_i (Seq (Lit "Aliased:")
        (Seq (Star space) (Group (Seq re_scheme (Plus nonspace))))) None).
  rewrite E.
  assert (search_from flag_i (Seq (Lit "Aliased:")
            (Seq (Star space) (Group (Seq re_scheme (Plus nonspace))))) prev'
            (Examples.alias_line ++ suffix)%string
          = Some (Found Examples.alias_line (Some Examples.alias_url))) as ->.
  { pose proof (aliased_at_line prev' suffix (suffix_after_alias tail after Htail)) as H.
    destruct (Examples.alias_line ++ suffix)%string eqn:Es;
      cbn [search_from]; unfold re_aliased in H; cbn [seqs] in H; rewrite H;
      reflexivity. }
  reflexivity.
Qed.

Lemma in_firstn {A} (n : nat) (l : list A) (x : A) : In x (firstn n l) -> In x l.
Proof.
  intros H. rewrite <- (firstn_skipn n l). apply List.in_or_app. left. exact H.
Qed.

Lemma reported_errors_are_classified (logs : list string) (e : DeploymentError) :
  In e (parseDeploymentLog logs) ->
  In e.(err_line) logs
  /\ test no_flags re_failure_line (Js.toLowerCase e.(err_line)) = true
  /\ e.(type) = fst (classify e.(err_line))
  /\ e.(suggestion) = snd (classify e.(err_line)).
Proof.
  unfold parseDeploymentLog.
  destruct (test no_flags re_failure (Js.toLowerCase (Js.join LF logs)));
    [| intros []].
  intros H. apply List.in_map_iff in H as (line & <- & Hin).
  apply in_firstn in Hin.
  match type of Hin with
  | In _ (List.filter ?f _) => apply (List.filter_In f) in Hin as [Hin Hf]
  end.
  destruct (classify line) as [ty hint] eqn:E. cbn [err_line type suggestion fst snd].
  rewrite E. repeat split; assumption.
Qed.

(** C8: the line of the example is selected as a failure line and
    classified build, in its own log and in every log where it is
    reported. An output with the line of the alias (by itself, or
    followed on its line by a space and more text), in which no earlier
    line says [Aliased:], yields exactly the URL of that line as the
    public URL: from [extractVercelPublicUrl], and as [publicUrl] of the
    frontend deployment whether the process failed or not, so whatever
    raw deployment URL was extracted. On the example output the raw
    URL is [frontendUrl] and the alias is [publicUrl]. *)
Theorem C8_log_analyzer_examples :
  parseDeploymentLog ["Error: ENOENT: missing module 'foo'"]
  = [{| err_line := "Error: ENOENT: missing module 'foo'";
        type := build;
        suggestion :=
          "Run `npm run build` or `pip install` locally to debug build issues." |}]
  /\ (forall logs e,
         In e (parseDeploymentLog logs) ->
         e.(err_line) = "Error: ENOENT: missing module 'foo'" ->
         e.(type) = build)
  /\ (forall before tail after,
         Forall (fun x => test flag_i (Lit "Aliased:") x = false) before ->
         tail = "" \/ (exists t, tail = String " " t) ->
         extractVercelPublicUrl
           (before ++ ("Aliased: https://app-demo.example-host.app" ++ tail)%string
                   :: after)
         = Some "https://app-demo.example-host.app")
  /\ (forall before tail after reply,
         Forall (fun x => test flag_i (Lit "Aliased:") x = false) before ->
         tail = "" \/ (exists t, tail = String " " t) ->
         output_lines reply.(out)
         = before ++ ("Aliased: https://app-demo.example-host.app" ++ tail)%string
                  :: after ->
         (frontend_result reply).(fe_publicUrl)
         = Some "https://app-demo.example-host.app")
  /\ extractDeploymentUrl Examples.example_output
     = Some "https://app-demo-abc123.vercel.app"
  /\ extractVercelPublicUrl Examples.example_output
     = Some "https://app-demo.example-host.app"
  /\ (let result :=
         fst (runDeployment
                (Examples.deploy_prints (Js.join LF Examples.example_output))
                "/ws/my-app" None None None Examples.empty_workspace) in
       exists d, result = Ok d
                 /\ d.(ok) = true
                 /\ d.(frontendUrl) = Some "https://app-demo-abc123.vercel.app"
                 /\ d.(publicUrl) = Some "https://app-demo.example-host.app").
Proof.
  split; [vm_compute; reflexivity |].
  split.
  { intros logs e Hin Hline.
    destruct (reported_errors_are_classified logs e Hin) as (_ & _ & -> & _).
    rewrite Hline. vm_compute. reflexivity. }
  split.
  { intros before tail after Hbefore Htail.
    exact (alias_line_wins before after tail Hbefore Htail). }
  split.
  { intros before tail after reply Hbefore Htail Hlines.
    unfold frontend_result. cbv zeta. rewrite Hlines.
    pose proof (alias_line_wins before after tail Hbefore Htail) as Hwin.
    unfold Examples.alias_line, Examples.alias_url in Hwin.
    destruct (error reply); cbn [fe_publicUrl]; rewrite Hwin; reflexivity. }
  split; [vm_compute; reflexivity |].
  split; [vm_compute; reflexivity |].
  eexists. split; [vm_compute; reflexivity |].
  repeat split.
Qed.

Lemma runDeploymentPhase_status env root (w : Sys) (s : State.ManifoldState) :
  w.(file) = Some s ->
  let reply :=
    env.(on_exec) w.(history)
      (frontend_request root (State.field s.(State.credentials) "vercel_token")) in
  exists s',
    (snd (Manifold.runDeploymentPhase env root w)).(file) = Some s'
    /\ s'.(State.current_phase) = "5_deploy"
    /\ (s'.(State.status) = State.complete \/ s'.(State.status) = State.paused_at_auth)
    /\ (s'.(State.status) = State.complete ->
        (frontend_result reply).(fe_ok) = true).
Proof.
  intros Hfile reply. unfold Manifold.runDeploymentPhase.
  unfold bind at 1, StateManager.read. rewrite Hfile. cbv zeta.
  match goal with
  | |- context [runDeployment env root ?t ?a ?r] =>
      destruct (runDeployment_result env root t a r w) as (res & E & Hok & _)
  end.
  unfold bind at 1. rewrite E. destruct (ok res) eqn:Hres.
  - unfold bind. erewrite patch_stored by exact Hfile. cbn [snd file].
    eexists. split; [reflexivity |]. cbn.
    split; [reflexivity |]. split; [left; reflexivity |].
    intros _. symmetry in Hok. apply andb_true_iff in Hok as [Hfe _]. exact Hfe.
  - unfold bind. erewrite patch_stored by exact Hfile. cbn [snd file].
    eexists. split; [reflexivity |]. cbn.
    split; [reflexivity |]. split; [right; reflexivity | discriminate].
Qed.

(** C10, as stated, fails on the code: the filter on the captured URL
    is a substring test. A URL after a [url:] label whose host is
    [myweb.app], or whose path merely ends in [vercel.app], is on
    neither hosting domain, yet it is kept, the deployment reports ok
    and the run is marked complete. *)
Lemma C10_label_url_on_another_domain_is_kept :
  extractDeploymentUrl ["Deployed. url: https://myweb.app"] = Some "https://myweb.app"
  /\ on_hosting_domain "https://myweb.app" = false
  /\ extractDeploymentUrl ["Production url: https://evil.example/vercel.app"]
     = Some "https://evil.example/vercel.app"
  /\ on_hosting_domain "https://evil.example/vercel.app" = false
  /\ option_map State.status
       (snd (Manifold.handleSetup
               (Examples.deploy_prints "Deployed. url: https://myweb.app")
               "/ws" 10 (Some "my-app") Examples.empty_workspace)).(file)
     = Some State.complete.
Proof. vm_compute. repeat split; reflexivity. Qed.

(** C10 (amended): the deployment result reports ok only when the
    frontend process exits zero and a URL is extracted from its output,
    and an extracted URL always contains [vercel.app] or [web.app] as a
    substring (a URL captured after the [url:] label that contains
    neither is discarded, leaving null). When no URL is extracted the
    result is not ok, and phase 5 then persists status paused_at_auth,
    not complete. *)
Theorem C10_ok_needs_extracted_url :
  (forall logs u,
      extractDeploymentUrl logs = Some u ->
      Js.includes "vercel.app" u \/ Js.includes "web.app" u)
  /\ (forall env root t a r (w : Sys) res,
         fst (runDeployment env root t a r w) = Ok res ->
         res.(ok) = true ->
         let reply := env.(on_exec) w.(history) (frontend_request root t) in
         reply.(error) = false
         /\ exists u, extractDeploymentUrl (output_lines reply.(out)) = Some u
                      /\ res.(frontendUrl) = Some u)
  /\ (forall env root (w : Sys) s,
         w.(file) = Some s ->
         let reply :=
           env.(on_exec) w.(history)
             (frontend_request root
                (State.field s.(State.credentials) "vercel_token")) in
         extractDeploymentUrl (output_lines reply.(out)) = None ->
         exists s',
           (snd (Manifold.runDeploymentPhase env root w)).(file) = Some s'
           /\ s'.(State.status) = State.paused_at_auth
           /\ s'.(State.current_phase) = "5_deploy")
  /\ extractDeploymentUrl ["Production url: https://example.com/app"] = None.
Proof.
  split; [| split; [| split]].
  - intros logs u H. apply known_host_includes.
    eapply first_candidate_filtered. exact H.
  - intros env root t a r w res Hrun Hok reply.
    destruct (runDeployment_result env root t a r w) as (res' & E & Hok' & Hurl & _).
    rewrite E in Hrun. injection Hrun as ->.
    rewrite Hok in Hok'. symmetry in Hok'. apply andb_true_iff in Hok' as [Hfe _].
    destruct (frontend_ok_needs_url _ Hfe) as (Herr & u & Hu & Hfu).
    split; [exact Herr |]. exists u. split; [exact Hu |]. rewrite Hurl. exact Hfu.
  - intros env root w s Hfile reply Hnone. subst reply.
    destruct (runDeploymentPhase_status env root w s Hfile)
      as (s' & Hs' & Hphase & [Hst | Hst] & Hcomplete).
    + apply Hcomplete in Hst.
      rewrite (frontend_without_url_not_ok _ Hnone) in Hst. discriminate.
    + eauto.
  - vm_compute. reflexivity.
Qed.

End LogAnalyzer.

Lemma C10_ok_needs_extracted_url_witness :
  let env := Examples.deploy_prints "Deployed to production" in
  let s := State.createDefaultState "1700000000000" "my-app" State.flask in
  let w := {| World.history := []; World.file := Some s |} in
  w.(World.file) = Some s
  /\ exists s',
      (snd (Manifold.runDeploymentPhase env "/ws/my-app" w)).(World.file) = Some s'
      /\ s'.(State.status) = State.paused_at_auth.
Proof.
  intros env s w. split; [reflexivity |].
  destruct (proj1 (proj2 (proj2 C10_ok_needs_extracted_url)) env "/ws/my-app" w s eq_refl)
    as (s' & Hs' & Hst & _); [vm_compute; reflexivity |].
  exists s'. split; assumption.
Defined.

(* ===================================================================== *)
(** * Further properties of the sources *)
(* ===================================================================== *)

Section EnvStrings.

Lemma rev_string_acc (s acc : string) :
  Js.rev_string s acc = (Js.rev_string s "" ++ acc)%string.
Proof.
  revert acc. induction s as [|a s IH]; intros acc; [reflexivity |].
  cbn [Js.rev_string]. rewrite (IH (String a acc)), (IH (String a "")).
  rewrite append_assoc. reflexivity.
Qed.

Lemma srev_cons (a : ascii) (s : string) :
  Js.rev_string (String a s) "" = (Js.rev_string s "" ++ String a "")%string.
Proof. cbn [Js.rev_string]. apply rev_string_acc. Qed.

Lemma srev_app (a b : string) :
  Js.rev_string (a ++ b)%string ""
  = (Js.rev_string b "" ++ Js.rev_string a "")%string.
Proof.
  induction a as [|x a IH].
  - cbn. rewrite append_nil_r. reflexivity.
  - rewrite append_cons, !srev_cons, IH, append_assoc. reflexivity.
Qed.

Lemma srev_involutive (s : string) : Js.rev_string (Js.rev_string s "") "" = s.
Proof.
  induction s as [|a s IH]; [reflexivity |].
  rewrite srev_cons, srev_app, IH. reflexivity.
Qed.

Lemma all_chars_app (p : ascii -> bool) (a b : string) :
  Js.all_chars p (a ++ b)%string = Js.all_chars p a && Js.all_chars p b.
Proof.
  induction a as [|x a IH]; [reflexivity |].
  rewrite append_cons. cbn [Js.all_chars]. rewrite IH, andb_assoc. reflexivity.
Qed.

Lemma all_chars_srev (p : ascii -> bool) (s : string) :
  Js.all_chars p (Js.rev_string s "") = Js.all_chars p s.
Proof.
  induction s as [|a s IH]; [reflexivity |].
  rewrite srev_cons, all_chars_app, IH. cbn [Js.all_chars].
  rewrite andb_true_r, andb_comm. reflexivity.
Qed.

Lemma length_append (a b : string) :
  String.length (a ++ b)%string = (String.length a + String.length b)%nat.
Proof. induction a as [|x a IH]; [reflexivity |]. rewrite append_cons. cbn. lia. Qed.

Lemma take_app_length (a b : string) : Js.take (String.length a) (a ++ b)%string = a.
Proof.
  induction a as [|x a IH]; [destruct b; reflexivity |].
  rewrite append_cons. cbn. rewrite IH. reflexivity.
Qed.

End EnvStrings.

Section EnvLines.
Import EnvFile.

Lemma break_free_char (a : ascii) :
  negb (Js.is_line_terminator a) = true ->
  (Js.code a =? 10)%nat = false /\ (Js.code a =? 13)%nat = false.
Proof.
  unfold Js.is_line_terminator. intros H.
  apply negb_true_iff, orb_false_iff in H. exact H.
Qed.

(** Splitting reads a line without line break up to the line feed that
    follows it. *)
Lemma split_line (x cur rest : string) :
  break_free x = true ->
  Js.split_lines_from cur (x ++ String "010" rest)%string
  = (Js.rev_string cur "" ++ x)%string :: Js.split_lines_from "" rest.
Proof.
  revert cur. induction x as [|a x IH]; intros cur Hx.
  - cbn. rewrite append_nil_r. reflexivity.
  - unfold break_free in Hx. cbn [Js.all_chars] in Hx.
    apply andb_true_iff in Hx as [Ha Hx].
    destruct (break_free_char a Ha) as [H10 H13].
    rewrite append_cons. cbn [Js.split_lines_from]. rewrite H10, H13.
    rewrite (IH (String a cur) Hx), srev_cons, append_assoc. reflexivity.
Qed.

Lemma split_last_line (x cur : string) :
  break_free x = true ->
  Js.split_lines_from cur x = [(Js.rev_string cur "" ++ x)%string].
Proof.
  revert cur. induction x as [|a x IH]; intros cur Hx.
  - cbn. rewrite append_nil_r. reflexivity.
  - unfold break_free in Hx. cbn [Js.all_chars] in Hx.
    apply andb_true_iff in Hx as [Ha Hx].
    destruct (break_free_char a Ha) as [H10 H13].
    cbn [Js.split_lines_from]. rewrite H10, H13.
    rewrite (IH (String a cur) Hx), srev_cons, append_assoc. reflexivity.
Qed.

(** The lines of a text made of lines without line break, each
    followed by a line feed, are these lines and an empty one. *)
Lemma split_lines_before (l : list string) :
  Forall (fun x => break_free x = true) l ->
  Js.split_lines (Js.lines_before l) = l ++ [""].
Proof.
  unfold Js.split_lines. induction 1 as [|x l Hx Hl IH]; [reflexivity |].
  cbn [Js.lines_before]. rewrite (split_line x "" _ Hx). cbn [app]. rewrite IH.
  reflexivity.
Qed.

(** The pieces of a text whose line breaks are LF or CR LF hold no line
    break. *)
Lemma crlf_only_tail (a : ascii) (s : string) :
  crlf_only (String a s) = true -> crlf_only s = true.
Proof. cbn [crlf_only]. intros H. apply andb_true_iff in H as [_ H]. exact H. Qed.

Lemma split_from_break_free_bounded (n : nat) (s cur : string) :
  (String.length s <= n)%nat ->
  crlf_only s = true ->
  break_free cur = true ->
  Forall (fun x => break_free x = true) (Js.split_lines_from cur s).
Proof.
  revert s cur. induction n as [|n IH]; intros s cur Hn Hs Hcur;
    assert (Hpiece : break_free (Js.rev_string cur "") = true)
      by (unfold break_free; rewrite all_chars_srev; exact Hcur).
  - destruct s; [| cbn in Hn; lia]. cbn. constructor; [exact Hpiece | constructor].
  - destruct s as [|a s]; [cbn; constructor; [exact Hpiece | constructor] |].
    cbn in Hn. pose proof (crlf_only_tail a s Hs) as Hs'.
    cbn [Js.split_lines_from].
    destruct (Js.code a =? 10)%nat eqn:H10.
    { constructor; [exact Hpiece | apply IH; [lia | exact Hs' | reflexivity]]. }
    destruct (Js.code a =? 13)%nat eqn:H13.
    { cbn [crlf_only] in Hs. rewrite H13 in Hs.
      destruct s as [|b s]; [discriminate Hs |].
      apply andb_true_iff in Hs as [Hb _]. rewrite Hb.
      constructor; [exact Hpiece |].
      apply IH; [cbn in Hn; lia | exact (crlf_only_tail b s Hs') | reflexivity]. }
    apply IH; [lia | exact Hs' |].
    unfold break_free. cbn [Js.all_chars]. unfold Js.is_line_terminator.
    rewrite H10, H13. exact Hcur.
Qed.

Lemma split_from_break_free (s cur : string) :
  crlf_only s = true ->
  break_free cur = true ->
  Forall (fun x => break_free x = true) (Js.split_lines_from cur s).
Proof. apply (split_from_break_free_bounded (String.length s)). lia. Qed.

Lemma lines_of_break_free (content : string) :
  crlf_only content = true ->
  Forall (fun x => break_free x = true) (lines_of content).
Proof.
  intros H. unfold lines_of. destruct (0 <? String.length content)%nat.
  - apply split_from_break_free; [exact H | reflexivity].
  - constructor.
Qed.

(** *** Dropping the line feeds at the end *)

Lemma strip_app_newline (s : string) :
  strip_trailing_newlines (s ++ Deploy.LF)%string = strip_trailing_newlines s.
Proof.
  unfold strip_trailing_newlines. rewrite srev_app. reflexivity.
Qed.

Lemma strip_empty_lines (s : string) (n : nat) :
  strip_trailing_newlines (s ++ Js.lines_after (repeat "" n))%string
  = strip_trailing_newlines s.
Proof.
  revert s. induction n as [|n IH]; intros s.
  - cbn. rewrite append_nil_r. reflexivity.
  - cbn [repeat Js.lines_after].
    change (String "010" ("" ++ Js.lines_after (repeat "" n)))%string
      with (Deploy.LF ++ Js.lines_after (repeat "" n))%string.
    rewrite <- append_assoc, IH. apply strip_app_newline.
Qed.

Lemma srev_nonempty (a : ascii) (s : string) :
  exists b t, Js.rev_string (String a s) "" = String b t.
Proof.
  destruct (Js.rev_string (String a s) "") as [|b t] eqn:E; [| eauto].
  apply (f_equal String.length) in E. rewrite srev_cons, length_append in E.
  cbn in E. lia.
Qed.

(** A text that ends with a line without line break is not stripped. *)
Lemma strip_after_line (s x : string) :
  x <> "" -> break_free x = true ->
  strip_trailing_newlines (s ++ x)%string = (s ++ x)%string.
Proof.
  intros Hne Hx. unfold strip_trailing_newlines. rewrite srev_app.
  destruct x as [|a x]; [contradiction |].
  destruct (srev_nonempty a x) as (b & t & E).
  assert (Hb : Ascii.eqb b "010" = false).
  { assert (H : break_free (Js.rev_string (String a x) "") = true)
      by (unfold break_free; rewrite all_chars_srev; exact Hx).
    rewrite E in H. unfold break_free in H. cbn [Js.all_chars] in H.
    apply andb_true_iff in H as [H _]. apply break_free_char in H as [H _].
    destruct (Ascii.eqb_spec b "010") as [-> |]; [discriminate H | reflexivity]. }
  rewrite E, append_cons. cbn [drop_leading_newlines]. rewrite Hb.
  rewrite <- append_cons, <- E, <- srev_app. apply srev_involutive.
Qed.

Lemma lines_before_snoc (l : list string) (x : string) :
  Js.lines_before (l ++ [x]) = (Js.lines_before l ++ x ++ Deploy.LF)%string.
Proof.
  induction l as [|y l IH]; cbn [app Js.lines_before].
  - reflexivity.
  - rewrite IH, append_assoc, append_cons. reflexivity.
Qed.

(** Every list of lines is a list that is empty or ends with a line
    that is not, followed by empty lines. *)
Lemma trailing_empty_lines (l : list string) :
  exists t n,
    l = t ++ repeat "" n
    /\ (t = [] \/ exists t' x, t = t' ++ [x] /\ x <> "").
Proof.
  induction l as [|x l IH] using rev_ind.
  - exists [], 0%nat. split; [reflexivity | left; reflexivity].
  - destruct (String.string_dec x "") as [-> | Hx].
    + destruct IH as (t & n & -> & Ht). exists t, (S n). split; [| exact Ht].
      rewrite <- app_assoc. f_equal.
      change [""] with (repeat "" 1). rewrite <- repeat_app.
      f_equal. lia.
    + exists (l ++ [x]), 0%nat. split; [cbn; rewrite app_nil_r; reflexivity |].
      right. eauto.
Qed.

(** The text written for the lines [t] followed by empty lines. *)
Lemma written_text (t : list string) (n : nat) :
  Forall (fun x => break_free x = true) t ->
  (t = [] \/ exists t' x, t = t' ++ [x] /\ x <> "") ->
  (strip_trailing_newlines (Js.join Deploy.LF (t ++ repeat "" n)) ++ Deploy.LF)%string
  = match t with
    | [] => Deploy.LF
    | _ => Js.lines_before t
    end.
Proof.
  intros Hfree [-> | (t' & x & -> & Hx)].
  - cbn [app]. destruct n as [|n]; [reflexivity |].
    cbn [repeat]. rewrite join_first.
    change ("" ++ Js.lines_after (repeat "" n))%string
      with ("" ++ Js.lines_after (repeat "" n))%string.
    rewrite (strip_empty_lines "" n). reflexivity.
  - rewrite <- app_assoc. cbn [app]. rewrite join_around.
    rewrite <- append_assoc, strip_empty_lines.
    apply Forall_app in Hfree as [_ Hfree].
    apply Forall_inv in Hfree.
    rewrite (strip_after_line _ x Hx Hfree).
    rewrite lines_before_snoc, append_assoc.
    destruct t'; reflexivity.
Qed.

(** The lines read back from the text written. *)
Lemma lines_read_back (t : list string) :
  Forall (fun x => break_free x = true) t ->
  exists n,
    lines_of (match t with [] => Deploy.LF | _ => Js.lines_before t end)
    = t ++ repeat "" n.
Proof.
  intros Hfree. destruct t as [|x t].
  - exists 2%nat. reflexivity.
  - exists 1%nat. unfold lines_of.
    assert (H : (0 <? String.length (Js.lines_before (x :: t)))%nat = true).
    { apply Nat.ltb_lt. cbn [Js.lines_before]. rewrite length_append.
      cbn [String.length]. lia. }
    rewrite H. apply split_lines_before. exact Hfree.
Qed.

End EnvLines.

Section EnvKeys.
Import EnvFile.

(** *** The key of the line [key=value] *)

Lemma trimStart_keeps (a : ascii) (s : string) :
  Js.is_space a = false -> Js.trimStart (String a s) = String a s.
Proof. intros H. cbn. rewrite H. reflexivity. Qed.

Lemma trimStart_before_mark (a b : string) (c : ascii) :
  Js.is_space c = false ->
  exists w, Js.trimStart (a ++ String c b)%string = (w ++ String c b)%string.
Proof.
  intros Hc. induction a as [|x a IH].
  - exists "". exact (trimStart_keeps c b Hc).
  - rewrite append_cons. cbn [Js.trimStart]. destruct (Js.is_space x).
    + exact IH.
    + exists (String x a). reflexivity.
Qed.

Lemma indexOf_after (c : ascii) (k rest : string) :
  indexOf c k = None ->
  indexOf c (k ++ String c rest)%string = Some (String.length k).
Proof.
  induction k as [|a k IH]; intros H.
  - change (indexOf c (String c rest) = Some 0%nat). cbn [indexOf].
    rewrite Ascii.eqb_refl. reflexivity.
  - rewrite append_cons. cbn [indexOf] in *. destruct (Ascii.eqb a c); [discriminate H |].
    destruct (indexOf c k); [discriminate H |]. rewrite IH; reflexivity.
Qed.

Lemma plain_key_inv (key : string) :
  plain_key key = true ->
  (exists a s, key = String a s /\ Js.is_space a = false)
  /\ (exists a s, Js.rev_string key "" = String a s /\ Js.is_space a = false)
  /\ Js.startsWith "#" key = false
  /\ indexOf "=" key = None
  /\ break_free key = true.
Proof.
  unfold plain_key. intros H.
  repeat (apply andb_true_iff in H as [H ?]).
  repeat split; try assumption.
  - destruct key as [|a s]; [discriminate H |]. exists a, s.
    split; [reflexivity | apply negb_true_iff; exact H].
  - destruct (Js.rev_string key "") as [|a s]; [discriminate |]. exists a, s.
    split; [reflexivity | apply negb_true_iff; assumption].
  - apply negb_true_iff. assumption.
  - destruct (indexOf "=" key); [discriminate | reflexivity].
Qed.

Lemma trim_plain (key : string) : plain_key key = true -> Js.trim key = key.
Proof.
  intros H. destruct (plain_key_inv key H) as ((a & s & -> & Ha) & (b & t & E & Hb) & _).
  unfold Js.trim. rewrite (trimStart_keeps a s Ha). unfold Js.trimEnd.
  rewrite E, (trimStart_keeps b t Hb), <- E. apply srev_involutive.
Qed.

(** A line [key=value] of a plain key defines this key. *)
Lemma key_of_line (key value : string) :
  plain_key key = true -> key_of (key ++ "=" ++ value)%string = Some key.
Proof.
  intros H. pose proof (trim_plain key H) as Htrim.
  destruct (plain_key_inv key H)
    as ((a & s & Hk & Ha) & _ & Hcomment & Heq & _).
  assert (Hline : exists v', Js.trim (key ++ "=" ++ value)%string
                             = (key ++ String "=" v')%string).
  { unfold Js.trim.
    assert (Hs : Js.trimStart (key ++ "=" ++ value)%string = (key ++ "=" ++ value)%string).
    { rewrite Hk, append_cons. apply trimStart_keeps. exact Ha. }
    rewrite Hs. unfold Js.trimEnd.
    rewrite srev_app, srev_app.
    change (Js.rev_string "=" "") with "=".
    rewrite append_assoc.
    destruct (trimStart_before_mark (Js.rev_string value "") (Js.rev_string key "") "="
                eq_refl) as (w & Hw).
    change ("=" ++ Js.rev_string key "")%string with (String "=" (Js.rev_string key "")).
    rewrite Hw.
    exists (Js.rev_string w "").
    change (String "=" (Js.rev_string key "")) with ("=" ++ Js.rev_string key "")%string.
    rewrite !srev_app, srev_involutive. change (Js.rev_string "=" "") with "=".
    rewrite append_assoc. reflexivity. }
  destruct Hline as (v' & Hline). unfold key_of. cbv zeta. rewrite Hline.
  assert (Hlen : (String.length (key ++ String "=" v') =? 0)%nat = false).
  { rewrite Hk, append_cons. reflexivity. }
  assert (Hstart : Js.startsWith "#" (key ++ String "=" v')%string = false).
  { rewrite Hk, append_cons. rewrite Hk in Hcomment. exact Hcomment. }
  rewrite Hlen, Hstart. cbn [orb].
  rewrite (indexOf_after "=" key v' Heq), take_app_length, Htrim.
  rewrite Hk. reflexivity.
Qed.

Lemma key_of_empty : key_of "" = None.
Proof. reflexivity. Qed.

(** *** The index map *)

Lemma index_keys_lookup (lines : list string) (n : nat) (m : gmap string nat)
      (key : string) :
  index_keys lines n m !! key
  = match last_def key lines with
    | Some i => Some (n + i)%nat
    | None => m !! key
    end.
Proof.
  revert n m. induction lines as [|line rest IH]; intros n m; [reflexivity |].
  cbn [index_keys last_def]. rewrite IH.
  destruct (last_def key rest) as [i|]; [f_equal; lia |].
  destruct (key_of line) as [k|] eqn:Ek.
  - destruct (bool_decide_reflect (Some k = Some key)) as [E | E].
    + injection E as ->. rewrite lookup_insert_eq. f_equal. lia.
    + rewrite lookup_insert_ne; [reflexivity | congruence].
  - rewrite bool_decide_eq_false_2; [reflexivity | discriminate].
Qed.

Lemma index_of_lines (lines : list string) (key : string) :
  index_keys lines 0 ∅ !! key = last_def key lines.
Proof.
  rewrite index_keys_lookup. destruct (last_def key lines); [reflexivity |].
  apply lookup_empty.
Qed.

Lemma last_def_lookup (key : string) (lines : list string) (i : nat) :
  last_def key lines = Some i ->
  exists line, lines !! i = Some line /\ key_of line = Some key.
Proof.
  revert i. induction lines as [|line rest IH]; intros i H; [discriminate H |].
  cbn [last_def] in H. destruct (last_def key rest) as [j|].
  - injection H as <-. exact (IH j eq_refl).
  - destruct (bool_decide_reflect (key_of line = Some key)) as [E |]; [| discriminate H].
    injection H as <-. exists line. split; [reflexivity | exact E].
Qed.

Lemma last_def_none (key : string) (lines : list string) :
  last_def key lines = None <->
  Forall (fun line => key_of line <> Some key) lines.
Proof.
  induction lines as [|line rest IH]; [split; [constructor | reflexivity] |].
  cbn [last_def]. split.
  - destruct (last_def key rest); [discriminate |].
    destruct (bool_decide_reflect (key_of line = Some key)); [discriminate |].
    intros _. constructor; [assumption | apply IH; reflexivity].
  - intros H. apply Forall_cons in H as [H1 H2]. apply IH in H2. rewrite H2.
    rewrite bool_decide_eq_false_2; [reflexivity | exact H1].
Qed.

Lemma last_def_app (key : string) (l1 l2 : list string) :
  last_def key (l1 ++ l2)
  = match last_def key l2 with
    | Some i => Some (length l1 + i)%nat
    | None => last_def key l1
    end.
Proof.
  induction l1 as [|x l1 IH]; cbn [app last_def length].
  - destruct (last_def key l2); reflexivity.
  - rewrite IH. destruct (last_def key l2); [reflexivity |].
    destruct (last_def key l1); reflexivity.
Qed.

(** The index of the last definition depends on the keys of the lines
    only. *)
Lemma last_def_keys (key : string) (l1 l2 : list string) :
  map key_of l1 = map key_of l2 -> last_def key l1 = last_def key l2.
Proof.
  revert l2. induction l1 as [|x l1 IH]; intros [|y l2] H; try discriminate H;
    [reflexivity |].
  cbn [map] in H. injection H as Hx Hl. cbn [last_def].
  rewrite (IH l2 Hl), Hx. reflexivity.
Qed.

Lemma last_def_empty_lines (key : string) (l : list string) (n : nat) :
  last_def key (l ++ repeat "" n) = last_def key l.
Proof.
  rewrite last_def_app.
  assert (H : last_def key (repeat "" n) = None).
  { apply last_def_none. induction n; constructor; [discriminate | assumption]. }
  rewrite H. reflexivity.
Qed.

Lemma map_key_insert (l : list string) (i : nat) (x line : string) :
  l !! i = Some line -> key_of line = key_of x ->
  map key_of (<[i := x]> l) = map key_of l.
Proof.
  intros Hi Hk. rewrite list_fmap_insert, <- Hk.
  apply list_insert_id. rewrite list_lookup_fmap, Hi. reflexivity.
Qed.

Lemma definitions_keys (key : string) (l1 l2 : list string) :
  map key_of l1 = map key_of l2 -> definitions key l1 = definitions key l2.
Proof.
  unfold definitions.
  revert l2. induction l1 as [|x l1 IH]; intros [|y l2] H; try discriminate H;
    [reflexivity |].
  cbn [map] in H. injection H as Hx Hl. cbn [List.filter].
  rewrite Hx. destruct (bool_decide (key_of y = Some key)); cbn [length];
    rewrite (IH l2 Hl); reflexivity.
Qed.

Lemma definitions_app (key : string) (l1 l2 : list string) :
  definitions key (l1 ++ l2) = (definitions key l1 + definitions key l2)%nat.
Proof. unfold definitions. rewrite List.filter_app, length_app. reflexivity. Qed.

Lemma definitions_empty_lines (key : string) (n : nat) :
  definitions key (repeat "" n) = 0%nat.
Proof. induction n as [|n IH]; [reflexivity |]. exact IH. Qed.

Lemma definitions_zero (key : string) (l : list string) :
  last_def key l = None <-> definitions key l = 0%nat.
Proof.
  rewrite last_def_none. unfold definitions.
  induction l as [|x l IH]; [split; [reflexivity | constructor] |].
  cbn [List.filter]. split.
  - intros H. apply Forall_cons in H as [H1 H2].
    rewrite bool_decide_eq_false_2; [apply IH; exact H2 | exact H1].
  - destruct (bool_decide_reflect (key_of x = Some key)); [discriminate |].
    intros H. constructor; [assumption | apply IH; exact H].
Qed.

End EnvKeys.

Section Upsert.
Import EnvFile.

Variable lines0 : list string.

Lemma step_replace (lines : list string) (entry : string * string) (i : nat) :
  in_place lines0 lines ->
  plain_key (fst entry) = true ->
  last_def (fst entry) lines0 = Some i ->
  upsert_entry (index_keys lines0 0 ∅) lines entry = <[i := line_of entry]> lines
  /\ map key_of (<[i := line_of entry]> lines) = map key_of lines.
Proof.
  intros Hin Hplain Hdef. unfold upsert_entry. rewrite index_of_lines, Hdef.
  split; [reflexivity |].
  destruct (last_def_lookup _ _ _ (Hin _ _ Hdef)) as (line & Hline & Hkey).
  apply (map_key_insert _ _ _ line Hline).
  rewrite Hkey. symmetry. apply key_of_line. exact Hplain.
Qed.

Lemma step_append (lines : list string) (entry : string * string) :
  last_def (fst entry) lines0 = None ->
  upsert_entry (index_keys lines0 0 ∅) lines entry = lines ++ [line_of entry].
Proof. intros Hdef. unfold upsert_entry. rewrite index_of_lines, Hdef. reflexivity. Qed.

Lemma last_def_snoc_other (key : string) (lines : list string) (x : string) :
  key_of x <> Some key -> last_def key (lines ++ [x]) = last_def key lines.
Proof.
  intros H. rewrite last_def_app. cbn [last_def].
  rewrite bool_decide_eq_false_2; [reflexivity | exact H].
Qed.

Lemma last_def_snoc_same (key : string) (lines : list string) (x : string) :
  key_of x = Some key -> last_def key (lines ++ [x]) = Some (length lines).
Proof.
  intros H. rewrite last_def_app. cbn [last_def].
  rewrite bool_decide_eq_true_2; [f_equal; lia | exact H].
Qed.

Lemma step_in_place (lines : list string) (entry : string * string) :
  in_place lines0 lines ->
  plain_key (fst entry) = true ->
  in_place lines0 (upsert_entry (index_keys lines0 0 ∅) lines entry).
Proof.
  intros Hin Hplain.
  destruct (last_def (fst entry) lines0) as [i|] eqn:Hdef.
  - destruct (step_replace lines entry i Hin Hplain Hdef) as [-> Hkeys].
    intros key j Hj. rewrite (last_def_keys key _ _ Hkeys). exact (Hin key j Hj).
  - rewrite (step_append lines entry Hdef). intros key j Hj.
    rewrite last_def_snoc_other; [exact (Hin key j Hj) |].
    unfold line_of. rewrite (key_of_line _ _ Hplain). intros E. injection E as E.
    rewrite E in Hdef. congruence.
Qed.

Lemma step_break_free (lines : list string) (entry : string * string) :
  Forall (fun x => break_free x = true) lines ->
  plain_key (fst entry) = true -> break_free (snd entry) = true ->
  Forall (fun x => break_free x = true)
         (upsert_entry (index_keys lines0 0 ∅) lines entry).
Proof.
  intros Hl Hk Hv.
  assert (Hline : break_free (line_of entry) = true).
  { unfold line_of, break_free. rewrite !all_chars_app.
    destruct (plain_key_inv _ Hk) as (_ & _ & _ & _ & Hfree).
    unfold break_free in Hfree, Hv. rewrite Hfree, Hv. reflexivity. }
  unfold upsert_entry. destruct (index_keys lines0 0 ∅ !! fst entry) as [i|].
  - apply Forall_insert; assumption.
  - apply Forall_app. split; [exact Hl | constructor; [exact Hline | constructor]].
Qed.

(** A turn for another key leaves the defining line of a key. *)
Lemma step_keeps_definition (lines : list string) (entry : string * string)
      (key x : string) :
  in_place lines0 lines ->
  plain_key (fst entry) = true ->
  fst entry <> key ->
  defining_line key lines = Some x ->
  defining_line key (upsert_entry (index_keys lines0 0 ∅) lines entry) = Some x.
Proof.
  intros Hin Hplain Hne Hx. unfold defining_line in *.
  destruct (last_def key lines) as [j|] eqn:Hj; [| discriminate Hx].
  destruct (last_def (fst entry) lines0) as [i|] eqn:Hdef.
  - destruct (step_replace lines entry i Hin Hplain Hdef) as [-> Hkeys].
    rewrite (last_def_keys key _ _ Hkeys), Hj.
    rewrite list_lookup_insert_ne; [exact Hx |].
    intros <-.
    destruct (last_def_lookup _ _ _ (Hin _ _ Hdef)) as (l1 & Hl1 & Hk1).
    destruct (last_def_lookup _ _ _ Hj) as (l2 & Hl2 & Hk2).
    congruence.
  - rewrite (step_append lines entry Hdef).
    rewrite last_def_snoc_other, Hj.
    + rewrite lookup_app_l; [exact Hx |]. apply lookup_lt_Some in Hx. exact Hx.
    + unfold line_of. rewrite (key_of_line _ _ Hplain). congruence.
Qed.

(** A turn makes its line the defining line of its key. *)
Lemma step_defines (lines : list string) (entry : string * string) :
  in_place lines0 lines ->
  plain_key (fst entry) = true ->
  defining_line (fst entry) (upsert_entry (index_keys lines0 0 ∅) lines entry)
  = Some (line_of entry).
Proof.
  intros Hin Hplain. unfold defining_line.
  destruct (last_def (fst entry) lines0) as [i|] eqn:Hdef.
  - destruct (step_replace lines entry i Hin Hplain Hdef) as [-> Hkeys].
    rewrite (last_def_keys _ _ _ Hkeys), (Hin _ _ Hdef).
    apply list_lookup_insert_eq.
    destruct (last_def_lookup _ _ _ (Hin _ _ Hdef)) as (l1 & Hl1 & _).
    apply lookup_lt_Some in Hl1. exact Hl1.
  - rewrite (step_append lines entry Hdef).
    rewrite last_def_snoc_same.
    + rewrite lookup_app_r, Nat.sub_diag; [reflexivity | lia].
    + unfold line_of. apply key_of_line. exact Hplain.
Qed.

(** A turn adds a definition only for a key that the file read did not
    define. *)
Lemma step_definitions (lines : list string) (entry : string * string) (key : string) :
  in_place lines0 lines ->
  plain_key (fst entry) = true ->
  definitions key (upsert_entry (index_keys lines0 0 ∅) lines entry)
  = (definitions key lines
     + (if bool_decide (fst entry = key)
        then match last_def key lines0 with Some _ => 0 | None => 1 end
        else 0))%nat.
Proof.
  intros Hin Hplain.
  destruct (last_def (fst entry) lines0) as [i|] eqn:Hdef.
  - destruct (step_replace lines entry i Hin Hplain Hdef) as [-> Hkeys].
    rewrite (definitions_keys key _ _ Hkeys).
    destruct (bool_decide_reflect (fst entry = key)) as [<- |]; [rewrite Hdef |]; lia.
  - rewrite (step_append lines entry Hdef), definitions_app.
    unfold definitions at 2. cbn [List.filter]. unfold line_of.
    rewrite (key_of_line _ _ Hplain).
    destruct (bool_decide_reflect (fst entry = key)) as [<- | Hne].
    + rewrite Hdef, bool_decide_eq_true_2; reflexivity.
    + rewrite bool_decide_eq_false_2; [reflexivity | congruence].
Qed.

Lemma pass_cons (entry : string * string) (values : list (string * string))
      (lines : list string) :
  pass lines0 (entry :: values) lines
  = pass lines0 values (upsert_entry (index_keys lines0 0 ∅) lines entry).
Proof. reflexivity. Qed.

Lemma pass_in_place (values : list (string * string)) (lines : list string) :
  plain_entries values -> in_place lines0 lines -> in_place lines0 (pass lines0 values lines).
Proof.
  intros Hv. revert lines. induction Hv as [|e es [Hk _] _ IH]; intros lines Hin;
    [exact Hin |].
  apply IH. apply step_in_place; assumption.
Qed.

Lemma pass_break_free (values : list (string * string)) (lines : list string) :
  plain_entries values ->
  Forall (fun x => break_free x = true) lines ->
  Forall (fun x => break_free x = true) (pass lines0 values lines).
Proof.
  intros Hv. revert lines. induction Hv as [|e es [Hk Hval] _ IH]; intros lines Hl;
    [exact Hl |].
  apply IH. apply step_break_free; assumption.
Qed.

Lemma pass_keeps_definition (values : list (string * string)) (lines : list string)
      (key x : string) :
  plain_entries values -> in_place lines0 lines ->
  ~ In key (map fst values) ->
  defining_line key lines = Some x ->
  defining_line key (pass lines0 values lines) = Some x.
Proof.
  intros Hv. revert lines. induction Hv as [|e es [Hk _] _ IH]; intros lines Hin Hnot Hx;
    [exact Hx |].
  cbn [map In] in Hnot. apply IH.
  - apply step_in_place; assumption.
  - tauto.
  - apply step_keeps_definition; [assumption .. | tauto | assumption].
Qed.

Lemma pass_defines (values : list (string * string)) (lines : list string)
      (entry : string * string) :
  plain_entries values -> NoDup (map fst values) -> in_place lines0 lines ->
  In entry values ->
  defining_line (fst entry) (pass lines0 values lines) = Some (line_of entry).
Proof.
  intros Hv. revert lines. induction Hv as [|e es [Hk _] Hes IH];
    intros lines Hnd Hin Hentry; [contradiction |].
  cbn [map] in Hnd. apply NoDup_cons in Hnd as [Hfresh Hnd].
  rewrite pass_cons.
  destruct Hentry as [-> | Hentry].
  - apply pass_keeps_definition; [assumption | |  | ].
    + apply step_in_place; assumption.
    + intros H. apply Hfresh. apply list_elem_of_In. exact H.
    + apply step_defines; assumption.
  - apply IH; [assumption | apply step_in_place; assumption | assumption].
Qed.

Lemma pass_definitions (values : list (string * string)) (lines : list string)
      (key : string) :
  plain_entries values -> NoDup (map fst values) -> in_place lines0 lines ->
  definitions key (pass lines0 values lines)
  = (definitions key lines
     + (if bool_decide (key ∈ map fst values)
        then match last_def key lines0 with Some _ => 0 | None => 1 end
        else 0))%nat.
Proof.
  intros Hv. revert lines. induction Hv as [|e es [Hk _] Hes IH]; intros lines Hnd Hin.
  - cbn [map pass fold_left]. rewrite bool_decide_eq_false_2; [lia |].
    apply not_elem_of_nil.
  - cbn [map] in Hnd. apply NoDup_cons in Hnd as [Hfresh Hnd].
    rewrite pass_cons.
    rewrite (IH _ Hnd (step_in_place _ _ Hin Hk)), (step_definitions _ _ key Hin Hk).
    cbn [map].
    destruct (bool_decide_reflect (fst e = key)) as [<- | Hne].
    + rewrite (bool_decide_eq_false_2 (fst e ∈ map fst es)); [| exact Hfresh].
      rewrite bool_decide_eq_true_2; [lia | apply elem_of_cons; left; reflexivity].
    + destruct (bool_decide_reflect (key ∈ map fst es)) as [Hi | Hi].
      * rewrite bool_decide_eq_true_2; [lia | apply elem_of_cons; right; exact Hi].
      * rewrite bool_decide_eq_false_2; [lia |].
        intros H. apply elem_of_cons in H as [H | H]; [congruence | contradiction].
Qed.

End Upsert.

Section UpsertResult.
Import EnvFile.

Lemma in_place_start (lines0 : list string) : in_place lines0 lines0.
Proof. intros key i H. exact H. Qed.

(** When every entry already has its line as the defining line, the
    loop changes nothing. *)
Lemma pass_nothing (values : list (string * string)) (lines : list string) :
  (forall entry, In entry values ->
                 defining_line (fst entry) lines = Some (line_of entry)) ->
  pass lines values lines = lines.
Proof.
  unfold pass. generalize (index_of_lines lines).
  generalize (index_keys lines 0 ∅). intros m Hm.
  induction values as [|e es IH]; intros H; [reflexivity |].
  cbn [fold_left].
  assert (He : upsert_entry m lines e = lines).
  { unfold upsert_entry. rewrite Hm. pose proof (H e (or_introl eq_refl)) as Hd.
    unfold defining_line in Hd. destruct (last_def (fst e) lines) as [i|]; [| discriminate Hd].
    apply list_insert_id. exact Hd. }
  rewrite He. apply IH. intros entry Hentry. apply H. right. exact Hentry.
Qed.

Lemma defining_line_empty_lines (key : string) (l : list string) (n : nat) :
  defining_line key (l ++ repeat "" n) = defining_line key l.
Proof.
  unfold defining_line. rewrite last_def_empty_lines.
  destruct (last_def key l) as [i|] eqn:E; [| reflexivity].
  destruct (last_def_lookup _ _ _ E) as (line & Hline & _).
  apply lookup_app_l. apply lookup_lt_Some in Hline. exact Hline.
Qed.

(** The text written and the lines read back from it, in terms of the
    lines after the loop without the empty lines at their end. *)
Lemma upsert_result (content : string) (values : list (string * string)) :
  crlf_only content = true ->
  plain_entries values ->
  exists t n n',
    pass (lines_of content) values (lines_of content) = t ++ repeat "" n
    /\ Forall (fun x => break_free x = true) t
    /\ (t = [] \/ exists t' x, t = t' ++ [x] /\ x <> "")
    /\ upsertEnvContent content values
       = match t with [] => Deploy.LF | _ => Js.lines_before t end
    /\ lines_of (upsertEnvContent content values) = t ++ repeat "" n'.
Proof.
  intros Hc Hv.
  pose proof (pass_break_free (lines_of content) values (lines_of content) Hv
                (lines_of_break_free content Hc)) as Hfree.
  destruct (trailing_empty_lines (pass (lines_of content) values (lines_of content)))
    as (t & n & Ht & Hlast).
  rewrite Ht in Hfree. apply Forall_app in Hfree as [Hfree _].
  assert (Htext : upsertEnvContent content values
                  = match t with [] => Deploy.LF | _ => Js.lines_before t end).
  { unfold upsertEnvContent. cbv zeta. fold (pass (lines_of content) values (lines_of content)).
    rewrite Ht. apply written_text; assumption. }
  destruct (lines_read_back t Hfree) as (n' & Hn').
  exists t, n, n'. rewrite Htext. repeat split; assumption.
Qed.

End UpsertResult.

Section UpsertTheorems.
Import EnvFile World.

Lemma writable_plain values : writable values -> plain_entries values.
Proof. intros [_ H]. exact H. Qed.

(** X1: after [upsertEnvContent], a reader that lets the last
    definition of a key win finds the line [key=value] for every entry
    written, and for every other key the line it found before. *)
Theorem upsert_read_back (content : string) (values : list (string * string)) :
  crlf_only content = true ->
  writable values ->
  (forall key value,
      In (key, value) values ->
      defining_line key (lines_of (upsertEnvContent content values))
      = Some (key ++ "=" ++ value)%string)
  /\ (forall key,
         ~ In key (map fst values) ->
         defining_line key (lines_of (upsertEnvContent content values))
         = defining_line key (lines_of content)).
Proof.
  intros Hc [Hnd Hv].
  destruct (upsert_result content values Hc Hv)
    as (t & n & n' & Hpass & _ & _ & _ & Hlines).
  rewrite Hlines. split.
  - intros key value Hin. rewrite defining_line_empty_lines.
    rewrite <- (defining_line_empty_lines key t n), <- Hpass.
    exact (pass_defines (lines_of content) values (lines_of content) (key, value)
                        Hv Hnd (in_place_start _) Hin).
  - intros key Hnot. rewrite defining_line_empty_lines.
    rewrite <- (defining_line_empty_lines key t n), <- Hpass.
    destruct (defining_line key (lines_of content)) as [x|] eqn:Hx.
    + apply pass_keeps_definition; [assumption | apply in_place_start | assumption | assumption].
    + assert (Hzero : last_def key (lines_of content) = None).
      { unfold defining_line in Hx.
        destruct (last_def key (lines_of content)) as [i|] eqn:Hi; [| reflexivity].
        destruct (last_def_lookup _ _ _ Hi) as (line & Hline & _). congruence. }
      pose proof (pass_definitions (lines_of content) values (lines_of content) key
                    Hv Hnd (in_place_start _)) as Hcount.
      rewrite bool_decide_eq_false_2 in Hcount
        by (intros H; apply Hnot, list_elem_of_In, H).
      rewrite (proj1 (definitions_zero key _) Hzero) in Hcount.
      apply definitions_zero in Hcount. unfold defining_line. rewrite Hcount.
      reflexivity.
Qed.

Lemma upsert_read_back_witness :
  let content := ("# keys" ++ Deploy.LF ++ "A = 1" ++ String "013" Deploy.LF
                  ++ "B=2" ++ Deploy.LF)%string in
  let values := [("B", "3"); ("C", "4")] in
  crlf_only content = true
  /\ writable values
  /\ defining_line "B" (lines_of (upsertEnvContent content values)) = Some "B=3"
  /\ defining_line "C" (lines_of (upsertEnvContent content values)) = Some "C=4"
  /\ defining_line "A" (lines_of (upsertEnvContent content values)) = Some "A = 1".
Proof.
  cbv zeta.
  assert (Hw : writable [("B", "3"); ("C", "4")]).
  { split; [apply (bool_decide_unpack _); vm_compute; exact I | repeat constructor]. }
  split; [reflexivity |]. split; [exact Hw |].
  destruct (upsert_read_back
              ("# keys" ++ Deploy.LF ++ "A = 1" ++ String "013" Deploy.LF
               ++ "B=2" ++ Deploy.LF)%string
              [("B", "3"); ("C", "4")] eq_refl Hw) as [Hset Hkept].
  split; [apply (Hset "B" "3"); left; reflexivity |].
  split; [apply (Hset "C" "4"); right; left; reflexivity |].
  rewrite (Hkept "A"); [vm_compute; reflexivity |].
  cbn. intros [H | [H | H]]; [discriminate H | discriminate H | exact H].
Defined.


Lemma upsert_again (content : string) (values : list (string * string)) :
  crlf_only content = true ->
  writable values ->
  upsertEnvContent (upsertEnvContent content values) values
  = upsertEnvContent content values.
Proof.
  intros Hc [Hnd Hv].
  destruct (upsert_result content values Hc Hv)
    as (t & n & n' & Hpass & Hfree & Hlast & Htext & Hlines).
  unfold upsertEnvContent at 1. cbv zeta.
  fold (pass (lines_of (upsertEnvContent content values)) values
             (lines_of (upsertEnvContent content values))).
  rewrite pass_nothing.
  - rewrite Hlines, Htext. apply written_text; assumption.
  - intros entry Hin. rewrite Hlines, defining_line_empty_lines.
    rewrite <- (defining_line_empty_lines _ t n), <- Hpass.
    exact (pass_defines (lines_of content) values (lines_of content) entry
                        Hv Hnd (in_place_start _) Hin).
Qed.

(** X2: for a text whose line breaks are LF or CR LF and entries with
    distinct plain keys (not empty, no white space at either end, no
    equals sign, no line break, not a comment) and values without line
    break: writing the same entries into the text just written changes
    nothing. *)
Theorem upsert_idempotent (content : string) (values : list (string * string)) :
  crlf_only content = true ->
  writable values ->
  upsertEnvContent (upsertEnvContent content values) values
  = upsertEnvContent content values.
Proof. apply upsert_again. Qed.

Lemma upsert_idempotent_witness :
  let content := ("A=1" ++ String "013" Deploy.LF ++ Deploy.LF)%string in
  let values := [("A", "2"); ("B", "x y")] in
  crlf_only content = true
  /\ writable values
  /\ upsertEnvContent content values
     = ("A=2" ++ Deploy.LF ++ Deploy.LF ++ Deploy.LF ++ "B=x y" ++ Deploy.LF)%string
  /\ upsertEnvContent (upsertEnvContent content values) values
     = upsertEnvContent content values.
Proof.
  cbv zeta.
  assert (Hw : writable [("A", "2"); ("B", "x y")]).
  { split; [apply (bool_decide_unpack _); vm_compute; exact I | repeat constructor]. }
  split; [reflexivity |]. split; [exact Hw |]. split; [vm_compute; reflexivity |].
  apply upsert_idempotent; [reflexivity | exact Hw].
Defined.


(** X3: for a text whose line breaks are LF or CR LF and entries with
    distinct plain keys and values without line break: a key that the
    file defines keeps the number of its definitions (its last one is
    rewritten in place, an earlier one is left as it is); a key that
    the file does not define gets exactly one; the other keys keep
    theirs. *)
Theorem upsert_definitions (content : string) (values : list (string * string))
        (key : string) :
  crlf_only content = true ->
  writable values ->
  definitions key (lines_of (upsertEnvContent content values))
  = if bool_decide (key ∈ map fst values)
    then Nat.max 1 (definitions key (lines_of content))
    else definitions key (lines_of content).
Proof.
  intros Hc [Hnd Hv].
  destruct (upsert_result content values Hc Hv)
    as (t & n & n' & Hpass & _ & _ & _ & Hlines).
  pose proof (pass_definitions (lines_of content) values (lines_of content) key
                Hv Hnd (in_place_start _)) as Hcount.
  rewrite Hpass in Hcount.
  rewrite Hlines, definitions_app, definitions_empty_lines.
  rewrite definitions_app, definitions_empty_lines in Hcount.
  rewrite !Nat.add_0_r in *. rewrite Hcount.
  destruct (bool_decide (key ∈ map fst values)); [| lia].
  destruct (last_def key (lines_of content)) as [i|] eqn:Hi.
  - assert (definitions key (lines_of content) <> 0%nat); [| lia].
    intros H. apply definitions_zero in H. congruence.
  - apply definitions_zero in Hi. rewrite Hi. reflexivity.
Qed.

Lemma upsert_definitions_witness :
  let content := ("A=1" ++ Deploy.LF ++ "A=2" ++ Deploy.LF ++ "B=0")%string in
  let values := [("A", "3"); ("C", "4")] in
  crlf_only content = true
  /\ writable values
  /\ definitions "A" (lines_of (upsertEnvContent content values)) = 2%nat
  /\ definitions "C" (lines_of (upsertEnvContent content values)) = 1%nat
  /\ definitions "B" (lines_of (upsertEnvContent content values)) = 1%nat.
Proof.
  cbv zeta.
  assert (Hw : writable [("A", "3"); ("C", "4")]).
  { split; [apply (bool_decide_unpack _); vm_compute; exact I | repeat constructor]. }
  split; [reflexivity |]. split; [exact Hw |].
  pose proof (fun key =>
                upsert_definitions
                  ("A=1" ++ Deploy.LF ++ "A=2" ++ Deploy.LF ++ "B=0")%string
                  [("A", "3"); ("C", "4")] key eq_refl Hw) as H.
  split; [| split].
  - rewrite (H "A"). vm_compute. reflexivity.
  - rewrite (H "C"). vm_compute. reflexivity.
  - rewrite (H "B"). vm_compute. reflexivity.
Defined.


(** From nothing: each entry gives one line, in the order of the
    entries. *)
Lemma pass_from_nothing (values : list (string * string)) (lines : list string) :
  pass [] values lines = lines ++ map line_of values.
Proof.
  revert lines. induction values as [|e es IH]; intros lines.
  - cbn. rewrite app_nil_r. reflexivity.
  - rewrite pass_cons, IH. unfold upsert_entry. cbn [index_keys].
    rewrite lookup_empty, <- app_assoc. reflexivity.
Qed.

(** X4: written into an empty text, entries of which there is at
    least one, with keys and values without line break, give one line
    each, in their order, each followed by a line feed. *)
Theorem upsert_new_file (values : list (string * string)) :
  values <> [] ->
  Forall (fun entry => break_free (fst entry) = true
                       /\ break_free (snd entry) = true) values ->
  upsertEnvContent "" values = Js.lines_before (map line_of values).
Proof.
  intros Hne Hv. unfold upsertEnvContent. cbv zeta.
  change (lines_of "") with (@nil string).
  fold (pass [] values []). rewrite pass_from_nothing. cbn [app].
  assert (Hfree : Forall (fun x => break_free x = true) (map line_of values)).
  { apply Forall_map. eapply Forall_impl; [exact Hv |].
    intros e [Hk Hval]. unfold line_of, break_free in *. cbn beta.
    rewrite !all_chars_app, Hk, Hval. reflexivity. }
  pose proof (written_text (map line_of values) 0 Hfree) as H.
  cbn [repeat] in H. rewrite app_nil_r in H. rewrite H.
  - destruct values; [contradiction | reflexivity].
  - right. destruct (exists_last Hne) as (es & e & ->).
    exists (map line_of es), (line_of e). rewrite map_app. split; [reflexivity |].
    unfold line_of. destruct (fst e); discriminate.
Qed.

Lemma upsert_new_file_witness :
  let values := [("VITE_SUPABASE_URL", "https://abcdefghijklmnopqrst.supabase.co");
                 ("VITE_SUPABASE_PUBLISHABLE_KEY", "sb_publishable_0123")] in
  values <> []
  /\ Forall (fun entry => break_free (fst entry) = true
                          /\ break_free (snd entry) = true) values
  /\ upsertEnvContent "" values
     = ("VITE_SUPABASE_URL=https://abcdefghijklmnopqrst.supabase.co" ++ Deploy.LF
        ++ "VITE_SUPABASE_PUBLISHABLE_KEY=sb_publishable_0123" ++ Deploy.LF)%string.
Proof.
  cbv zeta.
  assert (Hne : [("VITE_SUPABASE_URL", "https://abcdefghijklmnopqrst.supabase.co");
                 ("VITE_SUPABASE_PUBLISHABLE_KEY", "sb_publishable_0123")]
                <> @nil (string * string)) by discriminate.
  assert (Hv : Forall (fun entry => break_free (fst entry) = true
                                    /\ break_free (snd entry) = true)
                 [("VITE_SUPABASE_URL", "https://abcdefghijklmnopqrst.supabase.co");
                  ("VITE_SUPABASE_PUBLISHABLE_KEY", "sb_publishable_0123")])
    by (repeat constructor).
  split; [exact Hne |]. split; [exact Hv |].
  rewrite (upsert_new_file _ Hne Hv). reflexivity.
Defined.


End UpsertTheorems.

Section EnvDisk.
Import EnvFile World.

(** What [writeEnvFile] returns and leaves: it never throws, and
    writes one file. *)
Lemma writeEnvFile_run (path : string) (values : list (string * string)) (d : Disk) :
  writeEnvFile path values d
  = (Ok {| filePath := path; keys := map fst values |},
     {| files := <[path := upsertEnvContent (default "" (d.(files) !! path)) values]>
                   d.(files);
        made := d.(made) ++ match d.(files) !! path with
                            | Some _ => []
                            | None => [dirname path]
                            end |}).
Proof.
  unfold writeEnvFile, bind, try_catch, readFile, mkdir, writeFile, modify, ret.
  destruct (files d !! path) as [text|]; cbn; [rewrite app_nil_r |]; reflexivity.
Qed.

Lemma append_inj_l (a b c : string) : (a ++ b = a ++ c)%string -> b = c.
Proof.
  induction a as [|x a IH]; intros H; [exact H |].
  rewrite !append_cons in H. injection H as H. exact (IH H).
Qed.

Lemma env_paths_differ (projectRoot : string) :
  root_env_path projectRoot <> frontend_env_path projectRoot.
Proof.
  unfold root_env_path, frontend_env_path, Deploy.frontend_dir.
  rewrite append_assoc. intros H. apply append_inj_l in H. discriminate H.
Qed.

Lemma root_values_writable (url key repo project : string) :
  break_free url = true -> break_free key = true ->
  break_free repo = true -> break_free project = true ->
  writable (root_values url key repo project).
Proof.
  intros H1 H2 H3 H4. split.
  - apply (bool_decide_unpack _). vm_compute. exact I.
  - repeat constructor; assumption.
Qed.

Lemma frontend_values_writable (url key : string) :
  break_free url = true -> break_free key = true ->
  writable (frontend_values url key).
Proof.
  intros H1 H2. split.
  - apply (bool_decide_unpack _). vm_compute. exact I.
  - repeat constructor; assumption.
Qed.

(** X5: when the line breaks of the two files [.env] and
    [frontend/.env] of the project, as far as the files exist, are LF
    or CR LF, and none of the four values holds a line break:
    [wireProjectEnvironment] returns the two files with their keys,
    writes these two files and no other, and wiring the same values
    again leaves the result and the file system exactly as they
    are. *)
Theorem wire_twice (projectRoot url key repo project : string) (d : Disk) :
  crlf_only (text_at d (root_env_path projectRoot)) = true ->
  crlf_only (text_at d (frontend_env_path projectRoot)) = true ->
  break_free url = true -> break_free key = true ->
  break_free repo = true -> break_free project = true ->
  let once := wireProjectEnvironment projectRoot url key repo project d in
  let twice := wireProjectEnvironment projectRoot url key repo project (snd once) in
  fst once
  = Ok [ {| filePath := root_env_path projectRoot;
            keys := ["SUPABASE_URL"; "SUPABASE_PUBLISHABLE_KEY"; "GITHUB_REPO";
                     "VERCEL_PROJECT_ID"] |};
         {| filePath := frontend_env_path projectRoot;
            keys := ["VITE_SUPABASE_URL"; "VITE_SUPABASE_PUBLISHABLE_KEY"] |} ]
  /\ (forall path,
         path <> root_env_path projectRoot ->
         path <> frontend_env_path projectRoot ->
         (snd once).(files) !! path = d.(files) !! path)
  /\ (snd once).(files) !! root_env_path projectRoot
     = Some (upsertEnvContent (text_at d (root_env_path projectRoot))
                              (root_values url key repo project))
  /\ (snd once).(files) !! frontend_env_path projectRoot
     = Some (upsertEnvContent (text_at d (frontend_env_path projectRoot))
                              (frontend_values url key))
  /\ twice = once.
Proof.
  intros Hc1 Hc2 Hu Hk Hr Hp once twice.
  pose proof (env_paths_differ projectRoot) as Hne.
  pose proof (root_values_writable url key repo project Hu Hk Hr Hp) as Hw1.
  pose proof (frontend_values_writable url key Hu Hk) as Hw2.
  set (re := root_env_path projectRoot) in *.
  set (fe := frontend_env_path projectRoot) in *.
  set (u1 := upsertEnvContent (text_at d re) (root_values url key repo project)).
  set (u2 := upsertEnvContent (text_at d fe) (frontend_values url key)).
  assert (Honce : once
    = (Ok [ {| filePath := re; keys := map fst (root_values url key repo project) |};
            {| filePath := fe; keys := map fst (frontend_values url key) |} ],
       {| files := <[fe := u2]> (<[re := u1]> d.(files));
          made := (d.(made) ++ match d.(files) !! re with
                               | Some _ => [] | None => [dirname re] end)
                  ++ match d.(files) !! fe with
                     | Some _ => [] | None => [dirname fe] end |})).
  { subst once. unfold wireProjectEnvironment, bind.
    fold re fe. rewrite writeEnvFile_run. cbn [fst snd].
    rewrite writeEnvFile_run. cbn [files made ret].
    rewrite lookup_insert_ne by exact Hne. reflexivity. }
  assert (Hfiles : forall path, (snd once).(files) !! path
                    = if decide (path = fe) then Some u2
                      else if decide (path = re) then Some u1
                      else d.(files) !! path).
  { intros path. rewrite Honce. cbn [snd files].
    destruct (decide (path = fe)) as [-> |]; [apply lookup_insert_eq |].
    rewrite lookup_insert_ne by congruence.
    destruct (decide (path = re)) as [-> |]; [apply lookup_insert_eq |].
    rewrite lookup_insert_ne by congruence. reflexivity. }
  split; [rewrite Honce; reflexivity |].
  split.
  { intros path H1 H2. rewrite Hfiles.
    destruct (decide (path = fe)); [contradiction |].
    destruct (decide (path = re)); [contradiction | reflexivity]. }
  split.
  { rewrite Hfiles. destruct (decide (re = fe)); [contradiction |].
    destruct (decide (re = re)); [reflexivity | contradiction]. }
  split.
  { rewrite Hfiles. destruct (decide (fe = fe)); [reflexivity | contradiction]. }
  subst twice. unfold wireProjectEnvironment, bind. fold re fe.
  rewrite writeEnvFile_run. cbn [fst snd].
  rewrite writeEnvFile_run. cbn [files made ret].
  assert (Hre : (snd once).(files) !! re = Some u1).
  { rewrite Hfiles. destruct (decide (re = fe)); [contradiction |].
    destruct (decide (re = re)); [reflexivity | contradiction]. }
  assert (Hfe : (snd once).(files) !! fe = Some u2).
  { rewrite Hfiles. destruct (decide (fe = fe)); [reflexivity | contradiction]. }
  rewrite lookup_insert_ne by exact Hne.
  rewrite Hre, Hfe. cbn [default]. rewrite !app_nil_r.
  unfold id. unfold u1 at 1, u2 at 1.
  rewrite (upsert_again _ _ Hc1 Hw1), (upsert_again _ _ Hc2 Hw2).
  fold u1 u2.
  rewrite (insert_id _ re u1 Hre).
  rewrite (insert_id _ fe u2 Hfe).
  rewrite Honce. cbn [snd files made]. reflexivity.
Qed.

Lemma wire_twice_witness :
  let d := {| files := {[ "/ws/my-app/.env" := ("# local" ++ Deploy.LF
                                              ++ "GITHUB_REPO=old/one")%string ]};
              made := [] |} in
  let once := wireProjectEnvironment "/ws/my-app"
                "https://abcdefghijklmnopqrst.supabase.co" "sb_publishable_0123"
                "octocat/my-app" "my-app" d in
  crlf_only (text_at d (root_env_path "/ws/my-app")) = true
  /\ crlf_only (text_at d (frontend_env_path "/ws/my-app")) = true
  /\ (snd once).(files) !! "/ws/my-app/.env"
     = Some ("# local" ++ Deploy.LF
             ++ "GITHUB_REPO=octocat/my-app" ++ Deploy.LF
             ++ "SUPABASE_URL=https://abcdefghijklmnopqrst.supabase.co" ++ Deploy.LF
             ++ "SUPABASE_PUBLISHABLE_KEY=sb_publishable_0123" ++ Deploy.LF
             ++ "VERCEL_PROJECT_ID=my-app" ++ Deploy.LF)%string
  /\ wireProjectEnvironment "/ws/my-app"
       "https://abcdefghijklmnopqrst.supabase.co" "sb_publishable_0123"
       "octocat/my-app" "my-app" (snd once) = once.
Proof.
  intros d once.
  assert (H1 : crlf_only (text_at d (root_env_path "/ws/my-app")) = true)
    by (vm_compute; reflexivity).
  assert (H2 : crlf_only (text_at d (frontend_env_path "/ws/my-app")) = true)
    by (vm_compute; reflexivity).
  split; [exact H1 |]. split; [exact H2 |].
  destruct (wire_twice "/ws/my-app" "https://abcdefghijklmnopqrst.supabase.co"
              "sb_publishable_0123" "octocat/my-app" "my-app" d
              H1 H2 eq_refl eq_refl eq_refl eq_refl)
    as (_ & _ & Hroot & _ & Htwice).
  split; [| exact Htwice].
  etransitivity; [exact Hroot |]. vm_compute. reflexivity.
Defined.


End EnvDisk.

(** ** Invariants of the runs of the orchestrator *)

Section Invariant.
Import State World Spec Manifold Orchestration.

Variable I : Sys -> Prop.
Variable G : ManifoldState -> Prop.
Hypothesis I_log : forall e w, persisted [e] = [] -> I w -> I (log e w).
Hypothesis I_write :
  forall s w, G s -> I w -> I (snd (StateManager.writeAtomic s w)).
Hypothesis I_file : forall w s, I w -> w.(file) = Some s -> G s.
Hypothesis G_applied : forall cur p, G cur -> applied p -> G (merge cur p).

Variable env : Env.

Lemma inv_read_then {A} (f : ManifoldState -> M Sys A) :
  (forall s, G s -> keeps I (f s)) -> keeps I (bind StateManager.read f).
Proof.
  intros Hf w Hw. unfold bind, StateManager.read.
  destruct (file w) as [s|] eqn:E; cbn [fst snd]; [| exact Hw].
  apply Hf; [exact (I_file w s Hw E) | exact Hw].
Qed.

Lemma inv_patch (p : ManifoldStatePatch) :
  applied p -> keeps I (StateManager.patch p).
Proof.
  intros Hp. unfold StateManager.patch. apply inv_read_then. intros cur Hcur.
  cbv zeta. apply keeps_bind; [| intros; apply keeps_ret].
  intros w Hw. apply I_write; [apply G_applied; assumption | exact Hw].
Qed.

Ltac orch_auto :=
  repeat first
    [ apply keeps_ret
    | apply keeps_throw
    | apply keeps_auth_run; exact I_log
    | apply keeps_verify; exact I_log
    | apply keeps_runDeployment; exact I_log
    | apply keeps_showInputBox; exact I_log
    | apply keeps_runEnvironmentChecks; exact I_log
    | apply keeps_scaffold; exact I_log
    | apply inv_runProvisioning; exact I_log
    | apply keeps_log_only; [exact I_log | reflexivity]
    | apply keeps_for_each; intros ?;
      apply keeps_installMissingTool; exact I_log
    | apply inv_patch;
      first [ apply applied_phase; cbn; tauto
            | apply applied_resources
            | apply applied_credentials
            | apply applied_failed
            | apply applied_provisioned
            | apply applied_reset ]
    | apply inv_read_then; intros ? ?
    | apply keeps_bind; [| intros ?]
    | match goal with
      | |- keeps _ (if ?b then _ else _) => destruct b
      | |- keeps _ (match ?x with _ => _ end) => destruct x
      end
    | progress cbv zeta ].

Lemma inv_bootstrap : keeps I (bootstrap env).
Proof. unfold bootstrap. orch_auto. Qed.

Lemma inv_collectSupabase : keeps I (collectSupabase env).
Proof. unfold collectSupabase. orch_auto. Qed.

Lemma inv_runAuthHandshake : keeps I (runAuthHandshake env).
Proof.
  unfold runAuthHandshake, Auth.checkGhAuthStatus, Auth.checkVercelWhoAmI.
  apply keeps_bind; [apply keeps_auth_run, I_log | intros gh].
  apply keeps_bind; [apply keeps_auth_run, I_log | intros vercel].
  apply inv_read_then; intros state Hstate. cbv zeta.
  apply keeps_bind; [orch_auto | intros supabaseOk].
  apply keeps_bind;
    [destruct supabaseOk; [apply keeps_ret | apply inv_collectSupabase]
    | intros supabaseOk'].
  orch_auto.
Qed.

Lemma inv_runLocalScaffolding root : keeps I (runLocalScaffolding env root).
Proof. unfold runLocalScaffolding. orch_auto. Qed.

Lemma inv_runProvisioningPhase root name : keeps I (runProvisioningPhase env root name).
Proof. unfold runProvisioningPhase. orch_auto. Qed.

Lemma inv_runEnvWiringPhase root : keeps I (runEnvWiringPhase env root).
Proof.
  unfold runEnvWiringPhase, secrets_delete, wireProjectEnvironment. orch_auto.
Qed.

Lemma inv_runDeploymentPhase root : keeps I (runDeploymentPhase env root).
Proof. unfold runDeploymentPhase. orch_auto. Qed.

Lemma inv_handler root c : keeps I (handler env root c).
Proof.
  destruct c; cbn [handler].
  - apply inv_bootstrap.
  - apply inv_runAuthHandshake.
  - apply inv_runLocalScaffolding.
  - apply inv_runProvisioningPhase.
  - apply inv_runEnvWiringPhase.
  - apply inv_runDeploymentPhase.
Qed.

Lemma inv_run_from root steps : forall c, keeps I (run_from env root steps c).
Proof.
  induction steps as [|steps IH]; intros c; cbn [run_from].
  - apply keeps_ret.
  - apply keeps_bind; [apply inv_handler | intros [|c']].
    + apply keeps_ret.
    + apply IH.
Qed.

(** With the creation of the state file, the patch of the setup
    command and the reset. *)
Hypothesis G_default :
  forall now name, G (createDefaultState now (selected_name name) flask).
Hypothesis G_setup :
  forall cur name, G cur -> G (merge cur (setup_patch (selected_name name))).
Hypothesis I_reset : forall w, I w -> I (snd (StateManager.reset w)).

Lemma inv_ensureInitialized name :
  keeps I (StateManager.ensureInitialized env (Some (selected_name name)) flask).
Proof.
  unfold StateManager.ensureInitialized. apply keeps_try_catch.
  - intros w Hw. unfold StateManager.read. destruct (file w); exact Hw.
  - intros msg. apply keeps_bind; [apply keeps_get | intros w]. cbv zeta.
    apply keeps_bind; [| intros; apply keeps_ret].
    intros w' Hw'. apply I_write; [apply G_default | exact Hw'].
Qed.

Lemma inv_handleSetup root steps name : keeps I (handleSetup env root steps name).
Proof.
  unfold handleSetup. cbv zeta.
  apply keeps_bind; [apply inv_ensureInitialized | intros ?].
  apply keeps_bind; [| intros ?; apply inv_run_from].
  unfold StateManager.patch. apply inv_read_then. intros cur Hcur. cbv zeta.
  apply keeps_bind; [| intros; apply keeps_ret].
  intros w Hw. apply I_write; [apply G_setup; assumption | exact Hw].
Qed.

Lemma inv_resetState : keeps I resetState.
Proof.
  unfold resetState, secrets_delete.
  apply keeps_bind; [intros w Hw; apply I_reset, Hw | intros ?].
  orch_auto.
Qed.

End Invariant.

Section Always.
Import State World Spec Manifold Orchestration.

Variable G : ManifoldState -> Prop.
Hypothesis G_applied : forall cur p, G cur -> applied p -> G (merge cur p).
Hypothesis G_default :
  forall now name, G (createDefaultState now (selected_name name) flask).
Hypothesis G_setup :
  forall cur name, G cur -> G (merge cur (setup_patch (selected_name name))).

Lemma always_log (e : Event) (w : Sys) :
  persisted [e] = [] -> always G w -> always G (log e w).
Proof.
  intros He [Hh Hf]. unfold always, log; cbn [history file].
  rewrite persisted_app, He, app_nil_r. split; assumption.
Qed.

Lemma always_write (s : ManifoldState) (w : Sys) :
  G s -> always G w -> always G (snd (StateManager.writeAtomic s w)).
Proof.
  intros Hs [Hh Hf]. unfold always, StateManager.writeAtomic; cbn [snd history file].
  rewrite persisted_app. split.
  - apply Forall_app. split; [exact Hh | constructor; [exact Hs | constructor]].
  - intros s' [= <-]. exact Hs.
Qed.

Lemma always_file (w : Sys) (s : ManifoldState) :
  always G w -> w.(file) = Some s -> G s.
Proof. intros [_ Hf]. apply Hf. Qed.

Lemma always_reset (w : Sys) : always G w -> always G (snd (StateManager.reset w)).
Proof.
  intros [Hh _]. unfold always, StateManager.reset; cbn [snd history file].
  rewrite persisted_app. cbn. rewrite app_nil_r. split; [exact Hh | discriminate].
Qed.

(** A property of states that the creation of the state file
    establishes and every patch of the orchestrator keeps holds of
    every state that a sequence of setups and resets writes. *)
Lemma reachable_always (w : Sys) : reachable w -> always G w.
Proof.
  induction 1 as [| env root steps name w _ IH | w _ IH].
  - split; [constructor | discriminate].
  - exact (inv_handleSetup (always G) G always_log always_write always_file
                           G_applied env G_default G_setup root steps name w IH).
  - exact (inv_resetState (always G) always_log always_reset w IH).
Qed.

End Always.

Section StateFile.
Import State World Spec Manifold Orchestration.

Lemma selected_name_not_empty (name : option string) : selected_name name <> "".
Proof.
  unfold selected_name. destruct name as [n|]; [| discriminate].
  destruct (Js.truthy (Js.trim n)) eqn:E; [| discriminate].
  destruct (Js.trim n); [discriminate E | discriminate].
Qed.

Lemma applied_keeps_config (cur : ManifoldState) (p : ManifoldStatePatch) :
  applied p ->
  (merge cur p).(config) = cur.(config)
  /\ (merge cur p).(state_version) = cur.(state_version)
  /\ (merge cur p).(run_id) = cur.(run_id).
Proof.
  intros Hp. destruct cur as [st v r ph [name [fe be]] res cred stack].
  destruct Hp; repeat split; reflexivity.
Qed.

(** X6: in every state that setups and resets write, from an empty
    workspace on, status and phase go together: a run is complete
    only in phase 5, failed only in phase 3, and never paused in
    phases 3 and 4. *)
Theorem status_goes_with_phase (w : Sys) :
  reachable w ->
  Forall consistent (persisted w.(history))
  /\ (forall s, w.(file) = Some s -> consistent s).
Proof.
  apply (reachable_always consistent).
  - intros cur p Hcur Hp. unfold consistent in *.
    destruct Hp as [phase st Hin | res | res cred | | res stack |];
      cbn [merge status current_phase phase_patch resources_patch credentials_patch
           reset_patch nullish p_status p_current_phase];
      try exact Hcur; try (cbn; tauto).
    cbn [transitions In] in Hin.
    repeat (destruct Hin as [[= <- <-] | Hin]; [cbn; tauto |]). contradiction.
  - intros now name. unfold consistent. cbn. tauto.
  - intros cur name _. unfold consistent. cbn. tauto.
Qed.

Lemma status_goes_with_phase_witness :
  let w := snd (handleSetup Examples.fresh_cloud "/ws" 10 (Some "my-app")
                            Examples.empty_workspace) in
  reachable w
  /\ map (fun s => (s.(current_phase), s.(status))) (persisted w.(history))
     = [("0_env_check", in_progress); ("0_env_check", in_progress);
        ("1_auth", in_progress); ("1_auth", in_progress);
        ("2_scaffold", in_progress); ("3_provision", in_progress);
        ("4_env_wiring", in_progress); ("5_deploy", in_progress);
        ("5_deploy", complete)]
  /\ Forall consistent (persisted w.(history)).
Proof.
  cbv zeta.
  assert (Hr : reachable (snd (handleSetup Examples.fresh_cloud "/ws" 10 (Some "my-app")
                                           Examples.empty_workspace))).
  { apply reach_setup, reach_empty. }
  split; [exact Hr |]. split; [vm_compute; reflexivity |].
  exact (proj1 (status_goes_with_phase _ Hr)).
Defined.

(** X7: every state that setups and resets write has version 1, the
    stack react-vite with flask, and a project name that is not
    empty. *)
Theorem configuration_is_fixed (w : Sys) :
  reachable w ->
  Forall configured (persisted w.(history))
  /\ (forall s, w.(file) = Some s -> configured s).
Proof.
  apply (reachable_always configured).
  - intros cur p Hcur Hp. unfold configured in *.
    destruct (applied_keeps_config cur p Hp) as (-> & -> & _). exact Hcur.
  - intros now name. unfold configured. cbn.
    repeat split. apply selected_name_not_empty.
  - intros cur name (Hv & _). unfold configured. cbn.
    repeat split; [exact Hv | apply selected_name_not_empty].
Qed.

Lemma configuration_is_fixed_witness :
  let w := snd (handleSetup Examples.fresh_cloud "/ws" 10 (Some "   ")
                            Examples.empty_workspace) in
  reachable w
  /\ (exists s, w.(file) = Some s /\ s.(config).(project_name) = "my-app")
  /\ Forall configured (persisted w.(history)).
Proof.
  cbv zeta.
  assert (Hr : reachable (snd (handleSetup Examples.fresh_cloud "/ws" 10 (Some "   ")
                                           Examples.empty_workspace))).
  { apply reach_setup, reach_empty. }
  split; [exact Hr |]. split; [eexists; split; vm_compute; reflexivity |].
  exact (proj1 (configuration_is_fixed _ Hr)).
Defined.

End StateFile.

Section Settled.
Import State World Spec Manifold Orchestration.

Variable env : Env.

Lemma has_file_log (e : Event) (w : Sys) :
  persisted [e] = [] -> has_file w -> has_file (log e w).
Proof. intros _ H. exact H. Qed.

Lemma file_read : keeps has_file StateManager.read.
Proof. intros w Hw. unfold StateManager.read. destruct (file w); exact Hw. Qed.

Lemma file_patch (p : ManifoldStatePatch) : keeps has_file (StateManager.patch p).
Proof.
  intros w Hw. unfold StateManager.patch, bind, StateManager.read.
  destruct (file w) as [s|]; cbn [fst snd]; [eexists; reflexivity | exact Hw].
Qed.

Ltac file_auto :=
  repeat first
    [ apply keeps_ret
    | apply keeps_throw
    | apply file_read
    | apply file_patch
    | apply keeps_auth_run; exact has_file_log
    | apply keeps_verify; exact has_file_log
    | apply keeps_runDeployment; exact has_file_log
    | apply keeps_showInputBox; exact has_file_log
    | apply keeps_runEnvironmentChecks; exact has_file_log
    | apply keeps_scaffold; exact has_file_log
    | apply inv_runProvisioning; exact has_file_log
    | apply keeps_log_only; [exact has_file_log | reflexivity]
    | apply keeps_for_each; intros ?;
      apply keeps_installMissingTool; exact has_file_log
    | apply keeps_bind; [| intros ?]
    | match goal with
      | |- keeps _ (if ?b then _ else _) => destruct b
      | |- keeps _ (match ?x with _ => _ end) => destruct x
      end
    | progress cbv zeta ].

Lemma file_collectSupabase : keeps has_file (collectSupabase env).
Proof. unfold collectSupabase. file_auto. Qed.

(** A handler ends by storing phase and status, then returns or
    calls the next handler. *)
Lemma handled_leaf phase st res cred stack next :
  (next = Return -> st <> in_progress) ->
  hoare has_file
        (StateManager.patch (phase_patch phase st res cred stack) ;;; ret next)%monad
        handled.
Proof.
  intros Hnext w [s Hs].
  unfold StateManager.patch, bind, StateManager.read. rewrite Hs.
  cbn [fst snd StateManager.writeAtomic ret]. intros next' [= <-].
  split; [eexists; reflexivity |]. intros Hret.
  eexists. split; [reflexivity |]. cbn. exact (Hnext Hret).
Qed.

Lemma handled_step {A} (m : M Sys A) (f : A -> M Sys Next) :
  keeps has_file m -> (forall a, hoare has_file (f a) handled) ->
  hoare has_file (bind m f) handled.
Proof.
  intros Hm Hf.
  eapply hoare_bind; [exact Hm | exact Hf | |]; cbv beta.
  - intros msg w _ next Hnext. discriminate Hnext.
  - intros w _ next Hnext. discriminate Hnext.
Qed.

Ltac handled_auto :=
  repeat first
    [ apply handled_leaf; intros ?; discriminate
    | apply handled_step; [file_auto | intros ?]
    | match goal with
      | |- hoare _ (if ?b then _ else _) _ => destruct b
      | |- hoare _ (match ?x with _ => _ end) _ => destruct x
      end
    | progress cbv zeta ].

Lemma handled_bootstrap : hoare has_file (bootstrap env) handled.
Proof. unfold bootstrap. handled_auto. Qed.

Lemma handled_runAuthHandshake : hoare has_file (runAuthHandshake env) handled.
Proof.
  unfold runAuthHandshake, Auth.checkGhAuthStatus, Auth.checkVercelWhoAmI.
  apply handled_step; [file_auto | intros gh].
  apply handled_step; [file_auto | intros vercel].
  apply handled_step; [file_auto | intros state]. cbv zeta.
  apply handled_step; [file_auto | intros supabaseOk].
  apply handled_step;
    [destruct supabaseOk; [apply keeps_ret | apply file_collectSupabase]
    | intros supabaseOk'].
  handled_auto.
Qed.

Lemma handled_runLocalScaffolding root :
  hoare has_file (runLocalScaffolding env root) handled.
Proof. unfold runLocalScaffolding. handled_auto. Qed.

Lemma handled_runProvisioningPhase root name :
  hoare has_file (runProvisioningPhase env root name) handled.
Proof. unfold runProvisioningPhase. handled_auto. Qed.

Lemma handled_runEnvWiringPhase root :
  hoare has_file (runEnvWiringPhase env root) handled.
Proof.
  unfold runEnvWiringPhase, secrets_delete, wireProjectEnvironment, reset_patch.
  handled_auto.
Qed.

Lemma handled_runDeploymentPhase root :
  hoare has_file (runDeploymentPhase env root) handled.
Proof. unfold runDeploymentPhase. handled_auto. Qed.

Lemma handled_handler root c : hoare has_file (handler env root c) handled.
Proof.
  destruct c; cbn [handler].
  - apply handled_bootstrap.
  - apply handled_runAuthHandshake.
  - apply handled_runLocalScaffolding.
  - apply handled_runProvisioningPhase.
  - apply handled_runEnvWiringPhase.
  - apply handled_runDeploymentPhase.
Qed.

(** A chain of phases that has come to its end has stored a status
    that is not in_progress. *)
Lemma run_from_settles root steps :
  forall c,
    hoare has_file (run_from env root steps c)
          (fun r w => r = Ok true -> settled w).
Proof.
  induction steps as [|steps IH]; intros c w Hw; cbn [run_from].
  - cbn. discriminate.
  - unfold bind. pose proof (handled_handler root c w Hw) as H.
    destruct (handler env root c w) as [[next | msg |] w1]; cbn [fst snd] in *;
      try discriminate.
    destruct (H next eq_refl) as [Hfile Hret].
    destruct next as [|c'].
    + intros _. apply Hret. reflexivity.
    + apply IH. exact Hfile.
Qed.

(** X8: whenever the setup command returns with the chain of phases
    at its end, the status in the state file is not in_progress: it
    tells whether the run is complete, failed or paused. *)
Theorem setup_returns_settled root steps (name : option string) (w w' : Sys) :
  handleSetup env root steps name w = (Ok true, w') ->
  settled w'.
Proof.
  unfold handleSetup. cbv zeta. intros Hrun.
  assert (Hinit : has_file (snd (StateManager.ensureInitialized
                                   env (Some (selected_name name)) flask w))).
  { unfold StateManager.ensureInitialized, try_catch, StateManager.read.
    destruct (file w) as [s|] eqn:E; cbn; [exists s; exact E | eexists; reflexivity]. }
  unfold bind at 1 in Hrun.
  destruct (StateManager.ensureInitialized env (Some (selected_name name)) flask w)
    as [[s | msg |] w1]; try discriminate Hrun. cbn [snd] in Hinit.
  unfold bind at 1 in Hrun.
  pose proof (file_patch (setup_patch (selected_name name)) w1 Hinit) as Hfile.
  destruct (StateManager.patch (setup_patch (selected_name name)) w1)
    as [[s2 | msg |] w2]; try discriminate Hrun. cbn [snd] in Hfile.
  pose proof (run_from_settles root steps Bootstrap w2 Hfile) as H.
  rewrite Hrun in H. apply H. reflexivity.
Qed.

End Settled.

Lemma setup_returns_settled_witness :
  let run := Manifold.handleSetup Examples.fresh_cloud "/ws" 10 (Some "my-app")
                                  Examples.empty_workspace in
  fst run = World.Ok true
  /\ option_map State.status (snd run).(World.file) = Some State.complete
  /\ Orchestration.settled (snd run).
Proof.
  cbv zeta.
  split; [vm_compute; reflexivity |]. split; [vm_compute; reflexivity |].
  apply (setup_returns_settled Examples.fresh_cloud "/ws" 10 (Some "my-app")
           Examples.empty_workspace).
  vm_compute. reflexivity.
Defined.

Section Resume.
Import State World Spec Manifold Orchestration.

(** The phases only add to the record of the writes. *)
Lemma run_from_extends env root steps c (pre : list ManifoldState) (w : Sys) :
  (exists rest, persisted w.(history) = pre ++ rest) ->
  exists rest, persisted (snd (run_from env root steps c w)).(history) = pre ++ rest.
Proof.
  apply (inv_run_from (fun w => exists rest, persisted w.(history) = pre ++ rest)
                      (fun _ => True)).
  - intros e w0 He [rest Hrest]. exists rest. unfold log; cbn [history].
    rewrite persisted_app, He, app_nil_r. exact Hrest.
  - intros s w0 _ [rest Hrest]. exists (rest ++ [s]).
    unfold StateManager.writeAtomic; cbn [snd history].
    rewrite persisted_app, Hrest, <- app_assoc. reflexivity.
  - intros; exact I.
  - intros; exact I.
Qed.

(** X9: run on a workspace that holds a state file, the setup command
    starts from that file: its first write replaces status, phase and
    config and keeps the run id, the resources, the credentials and
    the rollback stack of the earlier run. *)
Theorem setup_resumes env root steps (name : option string) (w : Sys)
        (s : ManifoldState) :
  w.(file) = Some s ->
  exists first rest,
    persisted (snd (handleSetup env root steps name w)).(history)
    = persisted w.(history) ++ first :: rest
    /\ first.(status) = in_progress
    /\ first.(current_phase) = "0_env_check"
    /\ first.(config).(project_name) = selected_name name
    /\ first.(run_id) = s.(run_id)
    /\ first.(resources) = s.(resources)
    /\ first.(credentials) = s.(credentials)
    /\ first.(rollback_stack) = s.(rollback_stack).
Proof.
  intros Hfile. exists (merge s (setup_patch (selected_name name))).
  unfold handleSetup. cbv zeta.
  unfold bind at 1, StateManager.ensureInitialized, try_catch, StateManager.read.
  rewrite Hfile. unfold bind at 1, StateManager.patch, bind, StateManager.read.
  rewrite Hfile. cbn [StateManager.writeAtomic ret fst snd].
  match goal with
  | |- context [run_from env root steps Bootstrap ?w1] =>
      destruct (run_from_extends env root steps Bootstrap
                  (persisted w.(history) ++ [merge s (setup_patch (selected_name name))])
                  w1) as [rest Hrest]
  end.
  { exists []. cbn [history]. rewrite persisted_app, app_nil_r. reflexivity. }
  exists rest. rewrite Hrest, <- app_assoc.
  repeat split; cbn [merge resources credentials nullish setup_patch p_resources
                     p_credentials]; apply spread_nothing.
Qed.

Lemma setup_resumes_witness :
  let s := {| status := failed; state_version := 1; run_id := "run-1";
              current_phase := "3_provision";
              config := {| project_name := "old";
                           stack := {| frontend := react_vite; backend := flask |} |};
              resources := {[ "github_repo" := Some "octocat/old" ]};
              credentials := {[ "supabase_url" := Some "https://x.supabase.co" ]};
              rollback_stack := [] |} in
  let w := {| history := []; file := Some s |} in
  w.(file) = Some s
  /\ exists first rest,
      persisted (snd (handleSetup Examples.fresh_cloud "/ws" 3 (Some " my-app ") w)).(history)
      = first :: rest
      /\ first.(config).(project_name) = "my-app"
      /\ first.(run_id) = "run-1"
      /\ first.(resources) = s.(resources).
Proof.
  intros s w. split; [reflexivity |].
  destruct (setup_resumes Examples.fresh_cloud "/ws" 3 (Some " my-app ") w s eq_refl)
    as (first & rest & Hp & _ & _ & Hname & Hid & Hres & _).
  exists first, rest. repeat split; assumption.
Defined.

End Resume.

Section InstallOrder.
Import State World Spec Manifold Orchestration.

Lemma insert_by_order_perm (t : string) (l : list string) :
  Permutation (insert_by_order t l) (t :: l).
Proof.
  induction l as [|x l IH]; cbn [insert_by_order]; [reflexivity |].
  destruct (_ <? _)%Z; [reflexivity |].
  rewrite IH. apply perm_swap.
Qed.

Lemma insert_by_order_sorted (t : string) (l : list string) :
  StronglySorted (fun a b => (rank a <= rank b)%Z) l ->
  StronglySorted (fun a b => (rank a <= rank b)%Z) (insert_by_order t l).
Proof.
  induction 1 as [|x l Hl IH Hx]; cbn [insert_by_order].
  - constructor; constructor.
  - fold (rank t) (rank x). destruct (Z.ltb_spec (rank t) (rank x)) as [Hlt | Hge].
    + constructor; [constructor; assumption |].
      constructor; [lia |].
      eapply Forall_impl; [exact Hx |]. intros a Ha. cbv beta in *. lia.
    + constructor; [exact IH |].
      rewrite insert_by_order_perm.
      constructor; [exact Hge | exact Hx].
Qed.

Lemma sort_from_sorted (l acc : list string) :
  StronglySorted (fun a b => (rank a <= rank b)%Z) acc ->
  StronglySorted (fun a b => (rank a <= rank b)%Z)
                 (fold_left (fun acc t => insert_by_order t acc) l acc)
  /\ Permutation (fold_left (fun acc t => insert_by_order t acc) l acc) (acc ++ l).
Proof.
  revert acc. induction l as [|t l IH]; intros acc Hacc; cbn [fold_left].
  - rewrite app_nil_r. split; [exact Hacc | reflexivity].
  - destruct (IH (insert_by_order t acc) (insert_by_order_sorted t acc Hacc))
      as [Hs Hp].
    split; [exact Hs |]. rewrite Hp, insert_by_order_perm.
    change (t :: acc) with ([t] ++ acc). rewrite (Permutation_app_comm [t] acc).
    rewrite <- app_assoc. reflexivity.
Qed.

(** The attempts, in the order of the list: all of them when none
    rejects, and otherwise those up to the first one that rejects,
    whose message is thrown. *)
Lemma for_each_install env (l : list string) (w : Sys) :
  let out := for_each (installMissingTool env) l w in
  (snd out).(file) = w.(file)
  /\ match fst out with
     | Ok _ => (snd out).(history) = w.(history) ++ map EvInstallTool l
     | Throw message =>
         exists attempted t later,
           l = attempted ++ t :: later
           /\ (snd out).(history)
              = w.(history) ++ map EvInstallTool (attempted ++ [t])
           /\ env.(on_installTool) (w.(history) ++ map EvInstallTool attempted) t
              = Some message
     | Never => False
     end.
Proof.
  revert w. induction l as [|t l IH]; intros w; cbn [for_each map].
  - cbn. rewrite app_nil_r. split; reflexivity.
  - unfold bind.
    change (installMissingTool env t w)
      with (match on_installTool env (history w) t with
            | Some message => (@Throw unit message, log (EvInstallTool t) w)
            | None => (Ok tt, log (EvInstallTool t) w)
            end).
    destruct (on_installTool env (history w) t) as [message |] eqn:Ht; cbn [fst snd].
    + split; [reflexivity |]. exists [], t, l. cbn [app map].
      rewrite app_nil_r. repeat split. exact Ht.
    + specialize (IH (log (EvInstallTool t) w)). cbv zeta in IH.
      destruct (for_each (installMissingTool env) l (log (EvInstallTool t) w))
        as [[[] | message |] w1]; cbn [fst snd log history file] in *;
        destruct IH as [Hfile IH]; (split; [exact Hfile |]).
      * rewrite IH, <- app_assoc. reflexivity.
      * destruct IH as (attempted & t' & later & -> & Hh & Hthrown).
        exists (t :: attempted), t', later. cbn [app map].
        split; [reflexivity |]. split.
        -- rewrite Hh, <- app_assoc. reflexivity.
        -- rewrite <- Hthrown, <- app_assoc. reflexivity.
      * exact IH.
Qed.

Lemma patch_then_returns {A} (p : ManifoldStatePatch) (x : A) (w : Sys) :
  has_file w ->
  exists rest,
    (StateManager.patch p ;;; ret x)%monad w
    = (Ok x, {| history := w.(history) ++ rest;
                file := (snd ((StateManager.patch p ;;; ret x)%monad w)).(file) |}).
Proof.
  intros [s Hs]. unfold bind, StateManager.patch, bind, StateManager.read. rewrite Hs.
  cbn [fst snd history file StateManager.writeAtomic ret].
  eexists. reflexivity.
Qed.

(** X10: when the first check finds tools missing, [bootstrap]
    attempts their installation in the fixed order git, node, python,
    gh, vercel, supabase, whatever the order of the report, each tool
    once. When an attempt rejects, [bootstrap] rejects with its
    message at once: the tools after it are not attempted and the
    environment is not checked again. When none rejects, all are
    attempted and the environment is checked again. *)
Theorem bootstrap_installs_in_order env (w : Sys) :
  let missing := map tool (missing_tools (env.(on_environmentChecks) w.(history))) in
  let out := bootstrap env w in
  has_file w ->
  missing <> [] ->
  exists order,
    Permutation order missing
    /\ StronglySorted
         (fun a b => (indexOf installOrder a 0 <= indexOf installOrder b 0)%Z) order
    /\ match fst out with
       | Ok _ =>
           exists rest,
             (snd out).(history)
             = w.(history) ++ EvEnvironmentChecks :: map EvInstallTool order
                           ++ EvEnvironmentChecks :: rest
       | Throw message =>
           exists attempted t later,
             order = attempted ++ t :: later
             /\ (snd out).(history)
                = w.(history) ++ EvEnvironmentChecks
                              :: map EvInstallTool (attempted ++ [t])
             /\ env.(on_installTool)
                  (w.(history) ++ EvEnvironmentChecks :: map EvInstallTool attempted) t
                = Some message
       | Never => False
       end.
Proof.
  intros missing out Hfile Hne. exists (sort_by_order missing).
  destruct (sort_from_sorted missing [] (SSorted_nil _)) as [Hs Hp].
  split; [exact Hp |]. split; [exact Hs |].
  subst out. remember (bootstrap env w) as res eqn:Hres.
  unfold bootstrap, bind at 1, runEnvironmentChecks in Hres. cbn [fst snd] in Hres.
  fold missing in Hres.
  assert (Hlen : (length (missing_tools (on_environmentChecks env (history w))) =? 0)%nat
                 = false).
  { apply Nat.eqb_neq. intros H. apply Hne. subst missing.
    destruct (missing_tools _); [reflexivity | discriminate H]. }
  rewrite Hlen in Hres. unfold bind at 1 in Hres.
  pose proof (for_each_install env (sort_by_order missing)
                (log EvEnvironmentChecks w)) as Hinstall.
  cbv zeta in Hinstall.
  destruct (for_each (installMissingTool env) (sort_by_order missing)
                     (log EvEnvironmentChecks w)) as [[[] | message |] w1];
    cbn [fst snd log history file] in *; destruct Hinstall as [Hfile1 Hinstall].
  - unfold bind at 1, runEnvironmentChecks in Hres. cbn [fst snd] in Hres.
    assert (Hfile2 : has_file (log EvEnvironmentChecks w1)).
    { destruct Hfile as [s Hs']. exists s. cbn [log file]. congruence. }
    match type of Hres with
    | context [(if ?b then _ else _) ?w2] =>
        destruct b;
        match type of Hres with
        | context [(StateManager.patch ?p ;;; ret ?x)%monad w2] =>
            destruct (patch_then_returns p x w2 Hfile2) as [rest Hrest];
            rewrite Hrest in Hres
        end;
        subst res; cbn [fst snd history log]; exists rest;
        rewrite Hinstall, <- !app_assoc; cbn [app]; rewrite <- ?app_assoc; reflexivity
    end.
  - subst res. cbn [fst snd].
    destruct Hinstall as (attempted & t & later & Horder & Hh & Hthrown).
    exists attempted, t, later. split; [exact Horder |]. split.
    + rewrite Hh, <- app_assoc. reflexivity.
    + rewrite <- Hthrown, <- app_assoc. reflexivity.
  - destruct Hinstall.
Qed.

Lemma bootstrap_installs_in_order_witness :
  let report := {| platform := "linux";
                   tools := [ {| tool := "git"; tool_ok := true; tool_output := "" |};
                              {| tool := "supabase"; tool_ok := false; tool_output := "" |};
                              {| tool := "vercel"; tool_ok := false; tool_output := "" |};
                              {| tool := "gh"; tool_ok := false; tool_output := "" |} ] |} in
  let env := {| parseUrl := Examples.https_only;
                on_exec := fun _ _ => Examples.succeed "";
                on_http := fun _ _ => HttpError "offline";
                on_inputBox := fun _ _ => None;
                on_environmentChecks := fun _ => report;
                on_scaffold := fun _ _ _ => {| root := ""; created := []; installs := [] |};
                on_now := fun _ => "0";
                on_installTool :=
                  fun _ t => if String.eqb t "vercel"
                             then Some "EACCES: permission denied, mkdir"
                             else None |} in
  let w := {| history := [];
              file := Some (createDefaultState "0" "my-app" flask) |} in
  has_file w
  /\ map tool (missing_tools (env.(on_environmentChecks) w.(history))) <> []
  /\ bootstrap env w
     = (Throw "EACCES: permission denied, mkdir",
        {| history := [EvEnvironmentChecks; EvInstallTool "gh"; EvInstallTool "vercel"];
           file := w.(file) |})
  /\ exists order,
      Permutation order ["supabase"; "vercel"; "gh"]
      /\ exists attempted t later, order = attempted ++ t :: later.
Proof.
  intros report env w.
  assert (Hfile : has_file w) by (eexists; reflexivity).
  split; [exact Hfile |]. split; [discriminate |]. split; [reflexivity |].
  destruct (bootstrap_installs_in_order env w Hfile ltac:(discriminate))
    as (order & Hp & _ & Hout).
  exists order. split; [exact Hp |].
  change (fst (bootstrap env w)) with (@Throw Next "EACCES: permission denied, mkdir")
    in Hout.
  destruct Hout as (attempted & t & later & Horder & _).
  exists attempted, t, later. exact Horder.
Defined.

End InstallOrder.

Section AuthPause.
Import State World Spec Manifold Orchestration.

Variable env : Env.




















End AuthPause.


(** The second outcome happens: with a stored project URL whose
    protocol is http:, and the GitHub CLI signed out, phase 1 never
    settles. *)
Example auth_never_settles_on_http :
  let env :=
    {| World.parseUrl := fun _ => Some {| World.url_protocol := "http:";
                                          World.url_hostname := "localhost" |};
       World.on_exec := fun _ _ => Examples.fail "not logged in";
       World.on_http := Examples.fresh_cloud.(World.on_http);
       World.on_inputBox := Examples.fresh_cloud.(World.on_inputBox);
       World.on_environmentChecks := Examples.fresh_cloud.(World.on_environmentChecks);
       World.on_scaffold := Examples.fresh_cloud.(World.on_scaffold);
       World.on_now := Examples.fresh_cloud.(World.on_now);
       World.on_installTool := Examples.fresh_cloud.(World.on_installTool) |} in
  let s := State.merge
             (State.createDefaultState "1700000000000" "my-app" State.flask)
             (Manifold.credentials_patch None
                {[ "supabase_access_token" := Some "sbp_0123456789";
                   "supabase_url" := Some "http://localhost:54321";
                   "supabase_publishable_key" := Some "sb_publishable_0123" ]}) in
  Orchestration.signed_out env "gh auth status"
  /\ fst (Manifold.runAuthHandshake env {| World.history := []; World.file := Some s |})
     = World.Never.
Proof.
  cbv zeta. split; [intros h; reflexivity |]. vm_compute. reflexivity.
Qed.

Section Reset.
Import State World Spec Manifold Orchestration.

(** X12: a reset removes the state file, whatever it held, and deletes
    the five secrets; the setup command that follows starts a new run:
    the first state it stores is the default state, with the time of
    the clock as run id, no resource, no credential and an empty
    rollback stack. *)
Theorem reset_then_setup_is_fresh env root steps (name : option string) (w : Sys) :
  let w1 := snd (resetState w) in
  fst (resetState w) = Ok tt
  /\ w1.(file) = None
  /\ w1.(history)
     = w.(history) ++ [EvRemoveStateFile;
                       EvSecretDelete "manifold.supabase.pat";
                       EvSecretDelete "manifold.supabase.projectUrl";
                       EvSecretDelete "manifold.supabase.publishableKey";
                       EvSecretDelete "manifold.supabase.accessToken";
                       EvSecretDelete "manifold.vercel.token"]
  /\ exists rest,
      persisted (snd (handleSetup env root steps name w1)).(history)
      = persisted w.(history)
        ++ createDefaultState (env.(on_now) w1.(history)) (selected_name name) flask
        :: rest.
Proof.
  cbv zeta.
  assert (Hreset : resetState w
            = (Ok tt,
               {| history := w.(history) ++ [EvRemoveStateFile;
                       EvSecretDelete "manifold.supabase.pat";
                       EvSecretDelete "manifold.supabase.projectUrl";
                       EvSecretDelete "manifold.supabase.publishableKey";
                       EvSecretDelete "manifold.supabase.accessToken";
                       EvSecretDelete "manifold.vercel.token"];
                  file := None |})).
  { unfold resetState, bind, StateManager.reset, secrets_delete, modify, log.
    cbn [fst snd history file]. rewrite <- !app_assoc. reflexivity. }
  rewrite Hreset. cbn [fst snd history file].
  split; [reflexivity |]. split; [reflexivity |]. split; [reflexivity |].
  set (w1 := {| history := _; file := None |}).
  set (fresh := createDefaultState (on_now env (history w1)) (selected_name name) flask).
  unfold handleSetup. cbv zeta.
  unfold bind at 1, StateManager.ensureInitialized, try_catch, StateManager.read.
  cbn [file w1 fst snd]. unfold bind at 1, get. cbn [fst snd].
  unfold bind at 1, StateManager.writeAtomic. cbn [fst snd ret].
  unfold bind at 1, StateManager.patch, bind, StateManager.read.
  cbn [file fst snd StateManager.writeAtomic ret nullish].
  match goal with
  | |- context [run_from env root steps Bootstrap ?w2] =>
      destruct (run_from_extends env root steps Bootstrap
                  (persisted w.(history) ++ [fresh]) w2) as [rest Hrest]
  end.
  { exists [merge fresh (setup_patch (selected_name name))]. cbn [history].
    rewrite !persisted_app. cbn [persisted flat_map app].
    assert (Hw1 : persisted (history w1) = persisted (history w)).
    { subst w1. cbn [history]. rewrite persisted_app. cbn. apply app_nil_r. }
    rewrite Hw1. reflexivity. }
  exists rest. rewrite Hrest, <- app_assoc. reflexivity.
Qed.

End Reset.

(** ** The provisioner: what a run reports *)

Section ProvisionReport.
Import World Spec Provision Orchestration.

Variable env : Env.
Variables root name : string.

Lemma yields_bind {A B} (V : B -> Prop) (m : M Locals A) (f : A -> M Locals B) :
  (forall a, hoare (fun _ => True) (f a) (yields V)) ->
  hoare (fun _ => True) (bind m f) (yields V).
Proof.
  intros Hf l _. unfold bind. destruct (m l) as [[a | msg |] l1]; cbn [fst snd].
  - apply Hf. exact I.
  - intros b Hb. discriminate Hb.
  - intros b Hb. discriminate Hb.
Qed.

Lemma yields_ret {A} (V : A -> Prop) (a : A) :
  V a -> hoare (fun _ : Locals => True) (ret a) (yields V).
Proof. intros Ha l _ b [= <-]. exact Ha. Qed.

Lemma yields_throw {A} (V : A -> Prop) (msg : string) :
  hoare (fun _ : Locals => True) (@throw Locals A msg) (yields V).
Proof. intros l _ b Hb. discriminate Hb. Qed.

(** The repository that the first step reports is [login/name], for a
    login that is not empty. *)
Lemma ensureGitHubRepo_yields :
  hoare (fun _ => True) (ensureGitHubRepo env name root)
        (yields (fun fullRepo =>
                   exists owner, owner <> "" /\ fullRepo = (owner ++ "/" ++ name)%string)).
Proof.
  unfold ensureGitHubRepo.
  apply yields_bind; intros _.
  apply yields_bind; intros ownerResult.
  match goal with |- hoare _ (if ?b then _ else _) _ => destruct b end;
    [apply yields_throw |].
  cbv zeta.
  destruct (Js.truthy (first_line (Shell.output ownerResult))) eqn:Howner;
    cbn [negb]; [| apply yields_throw].
  assert (Hne : first_line (Shell.output ownerResult) <> "").
  { intros E. rewrite E in Howner. discriminate Howner. }
  apply yields_bind; intros repoExists.
  destruct (Shell.ok repoExists).
  - apply yields_bind; intros _. apply yields_ret. eauto.
  - apply yields_bind; intros createRepo.
    destruct (negb (Shell.ok createRepo)); [apply yields_throw |].
    apply yields_bind; intros _. apply yields_bind; intros _.
    apply yields_bind; intros canPush. apply yields_bind; intros _.
    apply yields_ret. eauto.
Qed.

Lemma ensureVercelProject_yields :
  hoare (fun _ => True) (ensureVercelProject env name root)
        (yields (fun project => project = name)).
Proof.
  unfold ensureVercelProject.
  apply yields_bind; intros inspect.
  apply yields_bind; intros created.
  apply yields_bind; intros link.
  match goal with |- hoare _ (if ?b then _ else _) _ => destruct b end;
    [apply yields_throw |].
  apply yields_bind; intros _. apply yields_bind; intros _.
  apply yields_ret. reflexivity.
Qed.

(** The rollback only adds to the output. *)
Lemma rollback_loop_extends_output (before : list string) (turns : nat) :
  keeps (fun l => exists reports, l.(outputArr) = (before ++ reports)%list)
        (rollback_loop env root turns).
Proof.
  assert (Hpush : forall text,
             keeps (fun l => exists reports, l.(outputArr) = (before ++ reports)%list)
                   (push_output text)).
  { intros text l0 [reports H]. unfold push_output, modify. cbn [snd outputArr].
    exists (reports ++ [text])%list. rewrite H, List.app_assoc. reflexivity. }
  induction turns as [|turns IH]; cbn [rollback_loop]; [apply keeps_ret |].
  apply keeps_bind; [apply keeps_get | intros l].
  destruct (Js.pop (rollbackArr l)) as [[command rest]|]; [| apply keeps_ret].
  apply keeps_bind; [intros l0 H; exact H | intros _].
  destruct (negb (Js.truthy command)); [exact IH |].
  apply keeps_bind.
  { intros [w0 o0 s0] H. unfold lift. cbn [sys outputArr] in *.
    destruct (Shell.exec env _ w0). exact H. }
  intros reply. cbv zeta.
  apply keeps_bind; [apply Hpush | intros _].
  apply keeps_bind; [| intros _; exact IH].
  destruct (Js.truthy _); [apply Hpush | apply keeps_ret].
Qed.

(** X13: provisioning never throws. When it reports ok, the two steps
    have returned: the repository is [login/name] for a login that is
    not empty, the project id is the project name, and the output is
    what the steps have pushed. When it does not report ok, one of the
    steps has thrown: both resources are null, the rollback stack it
    returns is empty, and the output is what the steps had pushed, then
    the message thrown, then the reports of the rollback. *)
Theorem provisioning_report (w : Sys) :
  let fresh := {| sys := w; outputArr := []; rollbackArr := [] |} in
  let steps :=
    (githubRepo <- ensureGitHubRepo env name root ;;
     vercelProjectId <- ensureVercelProject env name root ;;
     ret (githubRepo, vercelProjectId))%monad in
  exists res w',
    runProvisioning env root name w = (Ok res, w')
    /\ (res.(ok) = true ->
        (exists owner, owner <> ""
                       /\ res.(githubRepo) = Some (owner ++ "/" ++ name)%string)
        /\ res.(vercelProjectId) = Some name
        /\ exists repo l,
             steps fresh = (Ok (repo, name), l)
             /\ res.(githubRepo) = Some repo
             /\ res.(output) = l.(outputArr))
    /\ (res.(ok) = false ->
        res.(githubRepo) = None /\ res.(vercelProjectId) = None
        /\ res.(rollbackStack) = []
        /\ exists message l reports,
             steps fresh = (Throw message, l)
             /\ res.(output) = (l.(outputArr) ++ message :: reports)%list).
Proof.
  intros fresh steps.
  destruct (runProvisioning_result env w root name)
    as (res & w' & Hrun & _ & _ & _ & Hstack).
  exists res, w'. split; [exact Hrun |].
  unfold runProvisioning in Hrun. fold fresh in Hrun. fold steps in Hrun.
  assert (Hsteps : hoare (fun _ => True) steps
            (yields (fun p => (exists owner, owner <> ""
                                 /\ fst p = (owner ++ "/" ++ name)%string)
                              /\ snd p = name))).
  { intros l _. unfold steps, bind at 1.
    pose proof (ensureGitHubRepo_yields l I) as Hg.
    destruct (ensureGitHubRepo env name root l) as [[g | msg |] l1]; cbn [fst snd] in *;
      [| intros p Hp; discriminate Hp | intros p Hp; discriminate Hp].
    specialize (Hg g eq_refl). unfold bind.
    pose proof (ensureVercelProject_yields l1 I) as Hv.
    destruct (ensureVercelProject env name root l1) as [[v | msg |] l2]; cbn [fst snd] in *;
      [| intros p Hp; discriminate Hp | intros p Hp; discriminate Hp].
    specialize (Hv v eq_refl). intros p [= <-]. split; assumption. }
  specialize (Hsteps fresh I).
  destruct (steps fresh) as [[[g v] | msg |] l]; cbn [fst snd] in *.
  - injection Hrun as <- _. cbn [ok githubRepo vercelProjectId output].
    specialize (Hsteps (g, v) eq_refl). cbn [fst snd] in Hsteps.
    destruct Hsteps as ((owner & Hne & ->) & ->).
    split; [| discriminate]. intros _. split; [exists owner; auto |].
    split; [reflexivity |]. eexists _, l. repeat split.
  - pose proof Hrun as Hrun'. injection Hrun' as <- _.
    cbn [ok githubRepo vercelProjectId rollbackStack output] in *.
    split; [discriminate |]. intros _.
    split; [reflexivity |]. split; [reflexivity |]. split; [apply Hstack; reflexivity |].
    exists msg, l.
    assert (Hout : exists reports,
               outputArr (snd ((push_output msg ;;; runRollback env root)%monad l))
               = ((outputArr l ++ [msg]) ++ reports)%list).
    { unfold bind at 1, push_output at 1, modify. cbn [fst snd].
      unfold runRollback, bind, get. cbn [fst snd].
      apply (rollback_loop_extends_output (outputArr l ++ [msg])). cbn [outputArr].
      exists []. rewrite List.app_nil_r. reflexivity. }
    destruct Hout as [reports Hout]. exists reports.
    split; [reflexivity |]. rewrite Hout, <- List.app_assoc. reflexivity.
  - discriminate Hrun.
Qed.

End ProvisionReport.

Section Compensations.
Import World Spec Provision.


End Compensations.

Section DeploymentFacts.
Import World Regex Deploy.

Lemma length_firstn_le {A} (n : nat) (l : list A) : (length (firstn n l) <= n)%nat.
Proof. rewrite length_firstn. lia. Qed.

Lemma filter_sublist {A} (f : A -> bool) (l : list A) : sublist (List.filter f l) l.
Proof.
  induction l as [|x l IH]; cbn [List.filter]; [constructor |].
  destruct (f x); [apply sublist_skip | apply sublist_cons]; exact IH.
Qed.

Lemma firstn_sublist {A} (n : nat) (l : list A) : sublist (firstn n l) l.
Proof.
  revert n. induction l as [|x l IH]; intros [|n]; cbn [firstn];
    try apply sublist_nil_l.
  apply sublist_skip, IH.
Qed.

Lemma parseDeploymentLog_length (logs : list string) :
  (length (parseDeploymentLog logs) <= 5)%nat.
Proof.
  unfold parseDeploymentLog. destruct (test _ _ _); [| cbn; lia].
  rewrite length_map. apply length_firstn_le.
Qed.

(** X15: the log analyzer reports at most five issues; their lines are
    lines of the log, in the order of the log; and it reports none when
    the text of the log holds none of the words error, failed, cannot
    find, not found, enoent, whatever its lines say of missing,
    undefined or null. *)
Theorem log_analyzer_bounds (logs : list string) :
  (length (parseDeploymentLog logs) <= 5)%nat
  /\ sublist (map err_line (parseDeploymentLog logs)) logs
  /\ (test no_flags re_failure (Js.toLowerCase (Js.join LF logs)) = false ->
      parseDeploymentLog logs = [])
  /\ parseDeploymentLog ["Missing module foo"; "the value is undefined or null"] = [].
Proof.
  split; [apply parseDeploymentLog_length |].
  unfold parseDeploymentLog.
  split; [| split].
  - destruct (test _ _ _); [| apply sublist_nil_l].
    rewrite map_map.
    assert (Hid : forall l : list string,
               map (fun line => err_line (let '(ty, hint) := classify line in
                                          {| err_line := line; type := ty;
                                             suggestion := hint |})) l = l).
    { induction l as [|x l IH]; [reflexivity |]. cbn [map]. rewrite IH.
      destruct (classify x). reflexivity. }
    rewrite Hid. etransitivity; [apply firstn_sublist | apply filter_sublist].
  - intros ->. reflexivity.
  - vm_compute. reflexivity.
Qed.

(** X16: a deployment never throws and always runs its two commands,
    the frontend first, the backend whatever the frontend did; it
    collects issues only from the output of a process that failed, at
    most five from each, so that a deployment that is ok reports none;
    and it reports no backend URL. *)
Theorem deployment_runs_both env root t a r (w : Sys) :
  let reply := env.(on_exec) w.(history) (frontend_request root t) in
  let w1 := log (EvExec (frontend_request root t) reply) w in
  let reply2 := env.(on_exec) w1.(history) (backend_request root a r) in
  exists res,
    runDeployment env root t a r w
    = (Ok res, log (EvExec (backend_request root a r) reply2) w1)
    /\ executed (log (EvExec (backend_request root a r) reply2) w1).(history)
       = executed w.(history)
         ++ [(frontend_request root t).(line); (backend_request root a r).(line)]
    /\ res.(errors)
       = (if reply.(error) then parseDeploymentLog (output_lines reply.(out)) else [])
         ++ (if reply2.(error) then parseDeploymentLog (output_lines reply2.(out))
             else [])
    /\ (res.(ok) = true -> res.(errors) = [])
    /\ (length res.(errors) <= 10)%nat
    /\ res.(backendUrl) = None.
Proof.
  intros reply w1 reply2. unfold runDeployment, bind, Shell.exec, ret. cbv zeta.
  cbn [fst snd]. fold reply. fold w1. fold reply2.
  eexists. split; [reflexivity |].
  cbn [errors backendUrl ok]. split; [| split; [| split; [| split]]].
  - unfold log, w1, log. cbn [history]. rewrite !executed_app. cbn.
    rewrite <- app_assoc. reflexivity.
  - reflexivity.
  - intros Hok. apply andb_true_iff in Hok as [Hfe Hbe].
    destruct (frontend_ok_needs_url _ Hfe) as [-> _].
    apply negb_true_iff in Hbe. rewrite Hbe. reflexivity.
  - rewrite length_app.
    assert (H5 : forall (b : bool) l,
               (length (if b then parseDeploymentLog l else []) <= 5)%nat).
    { intros b l. destruct b; [apply parseDeploymentLog_length | cbn; lia]. }
    pose proof (H5 (error reply) (output_lines (out reply))).
    pose proof (H5 (error reply2) (output_lines (out reply2))). lia.
  - reflexivity.
Qed.

End DeploymentFacts.

Section PatchAlgebra.
Import State World.

Lemma spread_again (cur q : Fields) : spread (spread cur q) q = spread cur q.
Proof.
  unfold spread. rewrite (assoc_L (∪)). rewrite (idemp_L (∪)). reflexivity.
Qed.

Lemma nullish_again {A} (x : option A) (y : A) : nullish x (nullish x y) = nullish x y.
Proof. destruct x; reflexivity. Qed.

Lemma merge_again (s : ManifoldState) (p : ManifoldStatePatch) :
  merge (merge s p) p = merge s p.
Proof.
  destruct s as [st v r ph [nm [fe be]] res cred stk].
  destruct p as [pst pv pr pph pc pres pcred pstack].
  unfold merge. cbn [status state_version run_id current_phase config resources
                     credentials rollback_stack project_name stack frontend backend
                     p_status p_state_version p_run_id p_current_phase p_config
                     p_resources p_credentials p_rollback_stack].
  rewrite !spread_again, !nullish_again. reflexivity.
Qed.

(** X17: a patch is idempotent and never partial: applied to a stored
    state it returns and stores the merged state, and applying it again
    returns the same state and stores the same file; applied without a
    state file it throws and writes nothing. *)
Theorem patch_is_idempotent (p : ManifoldStatePatch) (w : Sys) :
  (forall s,
      w.(file) = Some s ->
      let once := StateManager.patch p w in
      let twice := StateManager.patch p (snd once) in
      fst once = Ok (merge s p)
      /\ (snd once).(file) = Some (merge s p)
      /\ fst twice = fst once
      /\ (snd twice).(file) = (snd once).(file))
  /\ (w.(file) = None ->
      exists message, StateManager.patch p w = (Throw message, w)).
Proof.
  split.
  - intros s Hs. cbv zeta.
    unfold StateManager.patch, bind, StateManager.read. rewrite Hs.
    cbn [fst snd StateManager.writeAtomic ret file]. rewrite merge_again.
    repeat split.
  - intros Hnone. unfold StateManager.patch, bind, StateManager.read.
    rewrite Hnone. eexists. reflexivity.
Qed.

End PatchAlgebra.

(* ===================================================================== *)
(** ** The chat participant: prompts and the commands they run *)
(* ===================================================================== *)

Section ChatPrompts.
Import Regex World Extension.

Variable env : Env.
Variable steps : nat.

(** The classes of the pattern are closed under the change of case. *)
Lemma name_class_any_case (a : ascii) :
  in_cls flag_i (Cls false name_char) a = name_char a.
Proof. destruct a as [[] [] [] [] [] [] [] []]; vm_compute; reflexivity. Qed.

Lemma space_class_any_case (a : ascii) : in_cls flag_i space a = Js.is_space a.
Proof. destruct a as [[] [] [] [] [] [] [] []]; vm_compute; reflexivity. Qed.

(** A lower-case letter of a pattern matches the code units whose
    lower case it is. *)
Lemma letter_any_case (b : ascii) :
  Js.between 97 122 (Js.lower b) = true -> chr_eq flag_i (Js.lower b) b = true.
Proof. destruct b as [[] [] [] [] [] [] [] []]; vm_compute; trivial. Qed.

Lemma lit_any_case {R} (word kw rest : string)
      (k : option ascii -> nat -> string -> option R) (r : option R)
      (prev : option ascii) (n : nat) :
  Js.toLowerCase kw = word ->
  Js.all_chars (Js.between 97 122) word = true ->
  (forall pv, k pv (n + String.length word)%nat rest = r) ->
  lit flag_i word prev n (kw ++ rest)%string k = r.
Proof.
  revert word prev n. induction kw as [|b kw IH]; intros word prev n Hw Hletters Hk.
  - cbn in Hw. subst word. cbn [lit String.length] in *. rewrite <- (Hk prev).
    rewrite Nat.add_0_r. reflexivity.
  - cbn [Js.toLowerCase] in Hw. subst word. cbn [Js.all_chars] in Hletters.
    apply andb_true_iff in Hletters as [Hb Hletters].
    rewrite append_cons. cbn [lit]. rewrite (letter_any_case b Hb).
    apply IH; [reflexivity | exact Hletters |].
    intros pv. rewrite <- (Hk pv). cbn [String.length]. f_equal. lia.
Qed.

(** A greedy run over white space, or over a name, that stops where
    the class stops hands the rest to its continuation. *)
Lemma star_run {R} (p : ascii -> bool) (run rest : string)
      (k : option ascii -> nat -> string -> option R) (r : R)
      (prev : option ascii) (n : nat) :
  Js.all_chars p run = true ->
  stops p rest ->
  (forall pv, k pv (n + String.length run)%nat rest = Some r) ->
  star p prev n (run ++ rest)%string k = Some r.
Proof.
  intros Hrun Hstop. revert prev n. induction run as [|a run IH]; intros prev n Hk.
  - change ("" ++ rest)%string with rest. cbn [String.length] in Hk.
    rewrite Nat.add_0_r in Hk.
    destruct rest as [|c rest]; cbn [star]; [apply Hk |].
    cbn [stops] in Hstop. rewrite Hstop. apply Hk.
  - cbn [Js.all_chars] in Hrun. apply andb_true_iff in Hrun as [Ha Hrun].
    rewrite append_cons. cbn [star]. rewrite Ha.
    rewrite (IH Hrun (Some a) (S n)); [reflexivity |].
    intros pv. rewrite <- (Hk pv). cbn [String.length]. f_equal. lia.
Qed.

Lemma all_chars_class (p q : ascii -> bool) (s : string) :
  (forall a, p a = q a) -> Js.all_chars q s = true -> Js.all_chars p s = true.
Proof.
  intros H. induction s as [|a s IH]; [reflexivity |]. cbn [Js.all_chars].
  rewrite H. intros Hs. apply andb_true_iff in Hs as [-> Hs]. exact (IH Hs).
Qed.

Lemma stops_class (p q : ascii -> bool) (s : string) :
  (forall a, p a = q a) -> stops q s -> stops p s.
Proof. intros H. destruct s; cbn [stops]; [trivial | rewrite H; trivial]. Qed.

(** The name after the word: the white space, then the longest run of
    the class of names. *)
Lemma name_after_gap {R} (gap name rest : string)
      (k : option ascii -> nat -> string -> option string -> option R) (r : R)
      (prev : option ascii) (n : nat) (cap : option string) :
  gap <> "" -> Js.all_chars Js.is_space gap = true ->
  name <> "" -> Js.all_chars name_char name = true ->
  stops name_char rest ->
  (forall pv, k pv (n + String.length gap + String.length name)%nat rest (Some name)
              = Some r) ->
  run flag_i (Seq (Plus space) (Group (Plus (Cls false name_char)))) prev n
      (gap ++ name ++ rest)%string cap k
  = Some r.
Proof.
  intros Hgap Hspaces Hname Hchars Hstop Hk.
  destruct gap as [|g gap]; [contradiction |].
  destruct name as [|c name]; [contradiction |].
  cbn [Js.all_chars] in Hspaces, Hchars.
  apply andb_true_iff in Hspaces as [Hg Hspaces].
  apply andb_true_iff in Hchars as [Hc Hchars].
  rewrite append_cons. cbn [run]. rewrite space_class_any_case, Hg.
  apply star_run.
  - apply (all_chars_class _ Js.is_space); [apply space_class_any_case | exact Hspaces].
  - cbn [stops]. rewrite append_cons. cbn [stops]. rewrite space_class_any_case.
    destruct (Js.is_space c) eqn:E; [| reflexivity].
    destruct c as [[] [] [] [] [] [] [] []]; vm_compute in Hc, E; congruence.
  - intros pv. rewrite append_cons. cbn [run].
    rewrite name_class_any_case, Hc.
    apply star_run.
    + apply (all_chars_class _ name_char); [apply name_class_any_case | exact Hchars].
    + apply (stops_class _ name_char); [apply name_class_any_case | exact Hstop].
    + intros pv'.
      assert (Hcap : Js.take (S (S n + String.length gap) + String.length name
                              - (S n + String.length gap))
                             (String c (name ++ rest))
                     = String c name).
      { replace (S (S n + String.length gap) + String.length name
                 - (S n + String.length gap))%nat
          with (String.length (String c name)) by (cbn [String.length]; lia).
        rewrite <- append_cons. apply take_app_length. }
      rewrite Hcap. rewrite <- (Hk pv'). f_equal. cbn [String.length]. lia.
Qed.

Lemma run_opt {R} (fl : flags) (r1 : regex) (prev : option ascii) (n : nat) (s : string)
      (cap : option string)
      (k : option ascii -> nat -> string -> option string -> option R) :
  run fl (Opt r1) prev n s cap k
  = match run fl r1 prev n s cap k with
    | Some x => Some x
    | None => k prev n s cap
    end.
Proof. reflexivity. Qed.

(** The word at the start of the text, in any case, followed by [s]. *)
Lemma command_at_front (word kw s : string) (r : found) :
  Js.toLowerCase kw = word ->
  Js.all_chars (Js.between 97 122) word = true ->
  (forall pv,
      run flag_i (Opt (Seq (Plus space) (Group (Plus (Cls false name_char)))))
          pv (String.length word) s None
          (fun _ n _ cap => Some (Found (Js.take n (kw ++ s)%string) cap))
      = Some r) ->
  exec flag_i (re_command word) (kw ++ s)%string = Some r.
Proof.
  intros Hw Hletters Hopt. unfold exec.
  assert (Hfront : at_front flag_i (re_command word) None (kw ++ s)%string = Some r).
  { unfold at_front, re_command. cbn [seqs run].
    apply (lit_any_case word kw s _ (Some r) None 0 Hw Hletters).
    intros pv. exact (Hopt pv). }
  destruct (kw ++ s)%string; cbn [search_from]; rewrite Hfront; reflexivity.
Qed.

Lemma word_at_front (word kw s : string) :
  Js.toLowerCase kw = word ->
  Js.all_chars (Js.between 97 122) word = true ->
  test flag_i (Seq Bol (Lit word)) (kw ++ s)%string = true.
Proof.
  intros Hw Hletters. unfold test, exec.
  assert (Hfront : at_front flag_i (Seq Bol (Lit word)) None (kw ++ s)%string
                   = Some (Found (Js.take (String.length word) (kw ++ s)%string) None)).
  { unfold at_front. cbn [run].
    apply (lit_any_case word kw s _ _ None 0 Hw Hletters). intros pv. reflexivity. }
  destruct (kw ++ s)%string; cbn [search_from]; rewrite Hfront; reflexivity.
Qed.

(** X18: with a workspace folder open, a prompt that, trimmed, is the
    word setup in any case, white space, a name made of letters,
    digits, hyphens and underscores, and then nothing or a code unit
    outside that class, makes the chat handler run the setup of that
    name in that folder, and nothing else: a name such as [my.app] is
    cut at the dot. *)
Theorem chat_setup_reads_name (root prompt kw gap name rest : string) (w : Sys) :
  Js.trim prompt = (kw ++ gap ++ name ++ rest)%string ->
  Js.toLowerCase kw = "setup" ->
  gap <> "" -> Js.all_chars Js.is_space gap = true ->
  name <> "" -> Js.all_chars name_char name = true ->
  stops name_char rest ->
  parseSetupProjectName prompt = Some name
  /\ chat_handler env steps (Some root) (Some prompt) w
     = (Manifold.handleSetup env root steps (Some name) ;;; ret None)%monad w.
Proof.
  intros Htrim Hkw Hgap Hspaces Hname Hchars Hstop.
  assert (Hparse : parseSetupProjectName prompt = Some name).
  { unfold parseSetupProjectName, project_name_after. rewrite Htrim.
    erewrite command_at_front; [| exact Hkw | reflexivity |].
    2:{ intros pv. rewrite run_opt.
        erewrite name_after_gap; [reflexivity | assumption .. |].
        intros pv'. reflexivity. }
    reflexivity. }
  split; [exact Hparse |].
  unfold chat_handler. cbv zeta. cbn [State.nullish]. rewrite Hparse, Htrim.
  rewrite (word_at_front "setup" kw _ Hkw eq_refl). reflexivity.
Qed.

(** Without white space after the word there is no name. *)
Lemma no_name_without_gap {R} (s : string)
      (k : option ascii -> nat -> string -> option string -> option R)
      (prev : option ascii) (n : nat) (cap : option string) :
  stops Js.is_space s ->
  run flag_i (Opt (Seq (Plus space) (Group (Plus (Cls false name_char))))) prev n s cap k
  = k prev n s cap.
Proof.
  intros Hstop. cbn [run]. destruct s as [|c s]; [reflexivity |].
  cbn [stops] in Hstop. rewrite space_class_any_case, Hstop. reflexivity.
Qed.

(** X19: with a workspace folder open, a prompt that, trimmed, starts
    with the word setup in any case, followed by nothing or by anything
    but white space, makes the chat handler run the setup without a
    name, and [handleSetup] then takes [my-app]: [setupfoo] sets up
    [my-app]. Whatever follows the word, a prompt that starts with
    setup runs a setup, and calls no deployment. *)
Theorem chat_setup_without_name (root prompt kw rest : string) (w : Sys) :
  Js.trim prompt = (kw ++ rest)%string ->
  Js.toLowerCase kw = "setup" ->
  (stops Js.is_space rest ->
   parseSetupProjectName prompt = None
   /\ chat_handler env steps (Some root) (Some prompt) w
      = (Manifold.handleSetup env root steps None ;;; ret None)%monad w
   /\ Manifold.selected_name (parseSetupProjectName prompt) = "my-app")
  /\ exists name,
      chat_handler env steps (Some root) (Some prompt) w
      = (Manifold.handleSetup env root steps name ;;; ret None)%monad w.
Proof.
  intros Htrim Hkw.
  assert (Hword : test flag_i (Seq Bol (Lit "setup")) (Js.trim prompt) = true).
  { rewrite Htrim. apply word_at_front; [exact Hkw | reflexivity]. }
  split.
  - intros Hstop.
    assert (Hparse : parseSetupProjectName prompt = None).
    { unfold parseSetupProjectName, project_name_after. rewrite Htrim.
      erewrite command_at_front; [| exact Hkw | reflexivity |].
      2:{ intros pv. rewrite no_name_without_gap by exact Hstop. reflexivity. }
      reflexivity. }
    split; [exact Hparse |]. rewrite Hparse.
    split; [| reflexivity].
    unfold chat_handler. cbv zeta. cbn [State.nullish]. rewrite Hparse, Hword.
    reflexivity.
  - unfold chat_handler. cbv zeta. cbn [State.nullish]. rewrite Hword. eauto.
Qed.

(** Without the [m] flag the start of the text is the only place where
    [^] matches. *)
Lemma bol_only_at_front (r : regex) (a : ascii) (s : string) :
  search_from flag_i (Seq Bol r) (Some a) s = None.
Proof.
  revert a. induction s as [|b s IH]; intros a; cbn [search_from]; unfold at_front;
    cbn [run multiline flag_i andb]; [reflexivity | apply IH].
Qed.

Lemma exec_bol (r : regex) (s : string) :
  exec flag_i (Seq Bol r) s = at_front flag_i (Seq Bol r) None s.
Proof.
  unfold exec. destruct s as [|b s]; cbn [search_from];
    destruct (at_front flag_i (Seq Bol r) None _); try reflexivity.
  apply bol_only_at_front.
Qed.

Lemma letter_matches (a b : ascii) :
  Js.between 97 122 a = true -> chr_eq flag_i a b = Ascii.eqb a (Js.lower b).
Proof.
  intros Ha.
  destruct a as [[] [] [] [] [] [] [] []]; try (vm_compute in Ha; discriminate Ha);
    clear Ha; destruct b as [[] [] [] [] [] [] [] []]; vm_compute; reflexivity.
Qed.

Lemma lit_is_prefix {R} (word s : string)
      (k : option ascii -> nat -> string -> option R) (prev : option ascii) (n : nat) :
  Js.all_chars (Js.between 97 122) word = true ->
  (forall pv m t, k pv m t <> None) ->
  (exists x, lit flag_i word prev n s k = Some x)
  <-> Js.startsWith word (Js.toLowerCase s) = true.
Proof.
  intros Hletters Hk. revert s prev n.
  induction word as [|a word IH]; intros s prev n.
  - cbn [lit Js.startsWith]. split; [reflexivity |]. intros _.
    destruct (k prev n s) eqn:E; [eauto | destruct (Hk _ _ _ E)].
  - cbn [Js.all_chars] in Hletters. apply andb_true_iff in Hletters as [Ha Hletters].
    destruct s as [|b s]; cbn [lit Js.toLowerCase Js.startsWith].
    + split; [intros [x Hx]; discriminate | discriminate].
    + rewrite (letter_matches a b Ha).
      destruct (Ascii.eqb a (Js.lower b)); cbn [andb].
      * apply (IH Hletters).
      * split; [intros [x Hx]; discriminate | discriminate].
Qed.

(** The test of the chat handler is a test of the prefix, in any case. *)
Lemma test_word (word s : string) :
  Js.all_chars (Js.between 97 122) word = true ->
  test flag_i (Seq Bol (Lit word)) s = Js.startsWith word (Js.toLowerCase s).
Proof.
  intros Hletters. unfold test. rewrite exec_bol. unfold at_front. cbn [run].
  pose proof (lit_is_prefix word s
                (fun _ n' _ => Some (Found (Js.take n' s) None)) None 0 Hletters) as H.
  destruct (Js.startsWith word (Js.toLowerCase s)).
  - destruct (proj2 (H ltac:(discriminate)) eq_refl) as [x ->]. reflexivity.
  - destruct (lit flag_i word None 0 s _) eqn:E; [| reflexivity].
    assert (false = true) by (apply H; [discriminate | eauto]). discriminate.
Qed.

Lemma toLowerCase_app (s t : string) :
  Js.toLowerCase (s ++ t) = (Js.toLowerCase s ++ Js.toLowerCase t)%string.
Proof.
  induction s as [|a s IH]; [reflexivity |].
  rewrite append_cons. cbn [Js.toLowerCase]. rewrite IH, append_cons. reflexivity.
Qed.

(** What awaits a computation never returns a text of its own. *)
Lemma awaited_writes_nothing {A} (m : M Sys A) (w : Sys) (text : string) :
  fst ((m ;;; ret None)%monad w) <> Ok (Some text).
Proof.
  unfold bind. destruct (m w) as [[a | msg |] w1]; cbn [fst ret]; discriminate.
Qed.

(** X20: with a workspace folder open, a prompt that, trimmed, is the
    word deploy in any case, white space and a name, followed by
    nothing or by a code unit outside the class of names, makes the
    chat handler read that name and call [manifold.handleDeploy] with
    it. The class has no such method: the handler throws a TypeError,
    having run no setup and no command and written no state. *)
Theorem chat_deploy_reads_name (root prompt kw gap name rest : string) (w : Sys) :
  Js.trim prompt = (kw ++ gap ++ name ++ rest)%string ->
  Js.toLowerCase kw = "deploy" ->
  gap <> "" -> Js.all_chars Js.is_space gap = true ->
  name <> "" -> Js.all_chars name_char name = true ->
  stops name_char rest ->
  parseDeployProjectName prompt = Some name
  /\ chat_handler env steps (Some root) (Some prompt) w
     = (handleDeploy (Some name) ;;; ret None)%monad w
  /\ chat_handler env steps (Some root) (Some prompt) w
     = (Throw "TypeError: manifold.handleDeploy is not a function", w).
Proof.
  intros Htrim Hkw Hgap Hspaces Hname Hchars Hstop.
  assert (Hparse : parseDeployProjectName prompt = Some name).
  { unfold parseDeployProjectName, project_name_after. rewrite Htrim.
    erewrite command_at_front; [| exact Hkw | reflexivity |].
    2:{ intros pv. rewrite run_opt.
        erewrite name_after_gap; [reflexivity | assumption .. |].
        intros pv'. reflexivity. }
    reflexivity. }
  split; [exact Hparse |].
  assert (Hrun : chat_handler env steps (Some root) (Some prompt) w
                 = (handleDeploy (Some name) ;;; ret None)%monad w).
  { unfold chat_handler. cbv zeta. cbn [State.nullish]. rewrite Hparse, Htrim.
    rewrite (test_word "setup" _ eq_refl), toLowerCase_app, Hkw.
    change (Js.startsWith "setup" ("deploy" ++ _)) with false. cbv iota.
    rewrite (word_at_front "deploy" kw _ Hkw eq_refl). reflexivity. }
  split; [exact Hrun | rewrite Hrun; reflexivity].
Qed.

(** X21: what the chat handler does, case by case. Without a
    workspace folder it asks for one and does nothing else. With a
    folder, it runs the setup exactly when the trimmed prompt begins
    with setup, whatever the case of the letters; otherwise, when the
    prompt begins with deploy, it calls [manifold.handleDeploy], which
    does not exist, and throws; otherwise it writes the usage text and
    does nothing else. A prompt that is null or undefined counts as
    the empty prompt. The usage text is the answer exactly when a
    folder is open and the prompt begins with neither word. *)
Theorem chat_usage_otherwise (folder prompt : option string) (w : Sys) :
  let text := Js.toLowerCase (Js.trim (State.nullish prompt "")) in
  let out := chat_handler env steps folder prompt w in
  (folder = None -> out = (Ok (Some no_folder_text), w))
  /\ (forall root,
         folder = Some root ->
         (Js.startsWith "setup" text = true ->
          out = (Manifold.handleSetup env root steps
                   (parseSetupProjectName (State.nullish prompt "")) ;;;
                 ret None)%monad w)
         /\ (Js.startsWith "setup" text = false ->
             Js.startsWith "deploy" text = true ->
             out = (Throw "TypeError: manifold.handleDeploy is not a function", w))
         /\ (Js.startsWith "setup" text = false ->
             Js.startsWith "deploy" text = false ->
             out = (Ok (Some usage_text), w)))
  /\ (fst out = Ok (Some usage_text)
      <-> folder <> None
          /\ Js.startsWith "setup" text = false
          /\ Js.startsWith "deploy" text = false).
Proof.
  cbv zeta. unfold chat_handler.
  destruct folder as [root |].
  - cbv zeta.
    rewrite (test_word "setup" _ eq_refl), (test_word "deploy" _ eq_refl).
    split; [discriminate |]. split.
    + intros root' [= <-].
      destruct (Js.startsWith "setup" _), (Js.startsWith "deploy" _);
        repeat split; intros; first [discriminate | reflexivity].
    + destruct (Js.startsWith "setup" _) eqn:Hsetup.
      * split; [| intros (_ & H & _); discriminate H].
        intros H. destruct (awaited_writes_nothing _ _ _ H).
      * destruct (Js.startsWith "deploy" _) eqn:Hdeploy.
        -- split; [intros H; discriminate H | intros (_ & _ & H); discriminate H].
        -- split; [intros _; repeat split; discriminate | reflexivity].
  - split; [reflexivity |]. split; [discriminate |].
    split; [intros H; discriminate H | intros [H _]; destruct (H eq_refl)].
Qed.

End ChatPrompts.

Lemma chat_setup_reads_name_witness :
  let prompt := "  SetUp  my.app " in
  Js.trim prompt = ("SetUp" ++ "  " ++ "my" ++ ".app")%string
  /\ Js.toLowerCase "SetUp" = "setup"
  /\ "  " <> ""
  /\ Js.all_chars Js.is_space "  " = true
  /\ "my" <> ""
  /\ Js.all_chars Extension.name_char "my" = true
  /\ Extension.stops Extension.name_char ".app"
  /\ Extension.parseSetupProjectName prompt = Some "my"
  /\ Extension.chat_handler Examples.fresh_cloud 10 (Some "/ws") (Some prompt)
                            Examples.empty_workspace
     = (World.bind (Manifold.handleSetup Examples.fresh_cloud "/ws" 10 (Some "my"))
                   (fun _ => World.ret None)) Examples.empty_workspace.
Proof.
  cbv zeta.
  split; [reflexivity |]. split; [reflexivity |]. split; [discriminate |].
  split; [reflexivity |]. split; [discriminate |]. split; [reflexivity |].
  split; [reflexivity |].
  apply (chat_setup_reads_name Examples.fresh_cloud 10 "/ws" "  SetUp  my.app "
                               "SetUp" "  " "my" ".app");
    first [reflexivity | discriminate].
Defined.

Lemma chat_setup_without_name_witness :
  Js.trim "setupfoo" = ("setup" ++ "foo")%string
  /\ Js.toLowerCase "setup" = "setup"
  /\ Extension.stops Js.is_space "foo"
  /\ Extension.chat_handler Examples.fresh_cloud 10 (Some "/ws") (Some "setupfoo")
                            Examples.empty_workspace
     = (World.bind (Manifold.handleSetup Examples.fresh_cloud "/ws" 10 None)
                   (fun _ => World.ret None)) Examples.empty_workspace.
Proof.
  split; [reflexivity |]. split; [reflexivity |]. split; [reflexivity |].
  exact (proj1 (proj2 (proj1 (chat_setup_without_name Examples.fresh_cloud 10 "/ws"
                                "setupfoo" "setup" "foo" Examples.empty_workspace
                                eq_refl eq_refl) eq_refl))).
Defined.

Lemma chat_deploy_reads_name_witness :
  let prompt := "DEPLOY web_1/x" in
  Js.trim prompt = ("DEPLOY" ++ " " ++ "web_1" ++ "/x")%string
  /\ Js.toLowerCase "DEPLOY" = "deploy"
  /\ " " <> ""
  /\ Js.all_chars Js.is_space " " = true
  /\ "web_1" <> ""
  /\ Js.all_chars Extension.name_char "web_1" = true
  /\ Extension.stops Extension.name_char "/x"
  /\ Extension.parseDeployProjectName prompt = Some "web_1"
  /\ Extension.chat_handler Examples.fresh_cloud 10 (Some "/ws") (Some prompt)
                            Examples.empty_workspace
     = (World.Throw "TypeError: manifold.handleDeploy is not a function",
        Examples.empty_workspace).
Proof.
  cbv zeta.
  split; [reflexivity |]. split; [reflexivity |]. split; [discriminate |].
  split; [reflexivity |]. split; [discriminate |]. split; [reflexivity |].
  split; [reflexivity |].
  destruct (chat_deploy_reads_name Examples.fresh_cloud 10 "/ws" "DEPLOY web_1/x"
                                   "DEPLOY" " " "web_1" "/x" Examples.empty_workspace)
    as (Hname & _ & Hthrows); first [reflexivity | discriminate | idtac].
  split; [exact Hname | exact Hthrows].
Defined.

(* ===================================================================== *)
(** ** The search path, the installer and the checks *)
(* ===================================================================== *)

Section SearchPath.
Import Start.

Lemma split_entry (d : ascii) (c rest : string) :
  free_of d c = true -> split d (c ++ String d rest) = c :: split d rest.
Proof.
  unfold free_of. induction c as [|a c IH]; intros Hfree.
  - change ("" ++ String d rest)%string with (String d rest).
    cbn [split]. rewrite Ascii.eqb_refl. reflexivity.
  - cbn [Js.all_chars] in Hfree. apply andb_true_iff in Hfree as [Ha Hfree].
    rewrite append_cons. cbn [split].
    apply negb_true_iff in Ha. rewrite Ha, (IH Hfree). reflexivity.
Qed.

Lemma entries_added (d : ascii) (c current : string) :
  c <> "" -> free_of d c = true ->
  entries d (c ++ String d "" ++ current) = c :: entries d current.
Proof.
  intros Hc Hfree. unfold entries.
  change (String d "" ++ current)%string with (String d current).
  rewrite (split_entry d c current Hfree). cbn [List.filter].
  destruct c; [contradiction | reflexivity].
Qed.

Lemma known_entry (d : ascii) (c current : string) :
  existsb (fun entry => String.eqb (Js.toLowerCase entry) (Js.toLowerCase c))
          (entries d current) = true
  <-> exists entry, In entry (entries d current)
                    /\ Js.toLowerCase entry = Js.toLowerCase c.
Proof.
  rewrite existsb_exists. split; intros [entry [Hin H]]; exists entry; split; trivial.
  - apply String.eqb_eq, H.
  - apply String.eqb_eq, H.
Qed.

Lemma path_step (d : ascii) (c : string) (PATH : option string) :
  c <> "" ->
  appendToPathIfMissing d c PATH
  = if existsb (fun entry => String.eqb (Js.toLowerCase entry) (Js.toLowerCase c))
               (path_entries d PATH)
    then PATH
    else Some (c ++ String d "" ++ default "" PATH)%string.
Proof.
  intros Hc. unfold appendToPathIfMissing, path_assignment, path_entries.
  destruct c; [contradiction |]. cbn [Js.truthy negb].
  destruct (existsb _ _); destruct PATH; reflexivity.
Qed.

(** X22: [appendToPathIfMissing] with a directory that is not empty
    and holds no path delimiter: afterwards an entry of the search
    path is the directory up to the case of letters; a second call
    changes nothing; the path is left as it is when such an entry was
    there, and otherwise the directory becomes the first entry, before
    all the entries there were. *)
Theorem path_addition (d : ascii) (candidatePath : string) (PATH : option string) :
  candidatePath <> "" ->
  free_of d candidatePath = true ->
  let PATH' := appendToPathIfMissing d candidatePath PATH in
  let known P :=
    exists entry, In entry (path_entries d P)
                  /\ Js.toLowerCase entry = Js.toLowerCase candidatePath in
  known PATH'
  /\ appendToPathIfMissing d candidatePath PATH' = PATH'
  /\ (known PATH -> PATH' = PATH)
  /\ (~ known PATH ->
      PATH' = Some (candidatePath ++ String d "" ++ default "" PATH)%string
      /\ path_entries d PATH' = candidatePath :: path_entries d PATH).
Proof.
  intros Hc Hfree. cbv zeta.
  rewrite (path_step d candidatePath PATH Hc).
  destruct (existsb _ (path_entries d PATH)) eqn:Hex.
  - pose proof (proj1 (known_entry d candidatePath _) Hex) as Hknown.
    split; [exact Hknown |]. split.
    + rewrite (path_step d candidatePath PATH Hc), Hex. reflexivity.
    + split; [reflexivity |]. intros Hnot. destruct (Hnot Hknown).
  - assert (Hentries : path_entries d (Some (candidatePath ++ String d ""
                                             ++ default "" PATH)%string)
                       = candidatePath :: path_entries d PATH).
    { unfold path_entries. rewrite entries_added by assumption.
      destruct PATH; reflexivity. }
    split; [| split; [| split]].
    + exists candidatePath. rewrite Hentries. split; [left |]; reflexivity.
    + rewrite (path_step d candidatePath _ Hc), Hentries. cbn [existsb].
      rewrite String.eqb_refl. reflexivity.
    + intros Hknown. apply known_entry in Hknown. unfold path_entries in Hknown, Hex.
      congruence.
    + intros _. split; [reflexivity | exact Hentries].
Qed.

Lemma path_addition_witness :
  let d := ":"%char in
  let PATH := Some "/usr/bin::/opt/Node/bin" in
  "/home/u/.npm/bin" <> "" /\ free_of d "/home/u/.npm/bin" = true
  /\ appendToPathIfMissing d "/home/u/.npm/bin"
       (appendToPathIfMissing d "/home/u/.npm/bin" PATH)
     = Some "/home/u/.npm/bin:/usr/bin::/opt/Node/bin".
Proof.
  cbv zeta.
  split; [discriminate |]. split; [reflexivity |].
  rewrite (proj1 (proj2 (path_addition ":" "/home/u/.npm/bin"
                           (Some "/usr/bin::/opt/Node/bin")
                           ltac:(discriminate) eq_refl))).
  reflexivity.
Defined.

End SearchPath.

Section Installer.
Import World Start.

(** The platforms and tools for which no command is known. *)
Lemma no_command (tool : ToolKey) (platform : string) :
  getInstallCommand tool platform = None
  <-> platform <> "win32" /\ platform <> "darwin"
      /\ tool <> vercel /\ tool <> supabase.
Proof.
  unfold getInstallCommand.
  destruct (String.eqb_spec platform "win32") as [-> | Hw].
  { split; [discriminate | intros [H _]; congruence]. }
  destruct (String.eqb_spec platform "darwin") as [-> | Hd].
  { split; [discriminate | intros [_ [H _]]; congruence]. }
  destruct tool; split; try discriminate; try (intros _; repeat split; congruence);
    intros [_ [_ [H1 H2]]]; congruence.
Qed.

Lemma command_not_empty (tool : ToolKey) (platform command : string) :
  getInstallCommand tool platform = Some command -> Js.truthy command = true.
Proof.
  unfold getInstallCommand.
  destruct (String.eqb platform "win32"); [destruct tool; intros [= <-]; reflexivity |].
  destruct (String.eqb platform "darwin"); [destruct tool; intros [= <-]; reflexivity |].
  destruct tool; intros [= <-]; reflexivity.
Qed.

Ltac install_cases os options :=
  unfold bind, tell, runShell, mkdir, modify, ret;
  destruct (has_callback options);
  repeat match goal with
         | |- context [error (on_shell os ?h ?c ?t)] =>
             let reply := fresh "reply" in
             let E := fresh "E" in
             remember (on_shell os h c t) as reply eqn:E; clear E;
             destruct reply as [[] ?]; cbn [error out negb Shell.ok Shell.output]
         | |- context [on_mkdir os ?h ?dir] =>
             let E := fresh "E" in
             destruct (on_mkdir os h dir) eqn:E
         | |- context [Regex.test ?f ?r ?s] => destruct (Regex.test f r s)
         | |- context [Js.truthy ?s] => destruct (Js.truthy s)
         | |- context [options ≫= globalStoragePath] =>
             destruct (options ≫= globalStoragePath)
         end.

(** X23: [installMissingTool] runs at most two commands, the second
    one only for vercel. It throws only when the directory of the
    local installation of vercel cannot be made. Otherwise it reports
    no attempt exactly for git, node, python and gh on a platform
    other than win32 and darwin, and then has done nothing; after an
    attempt, it reports ok exactly when the last command it ran exited
    without error, with the trimmed output of that command, and gives
    a directory for the search path exactly when the fallback
    succeeded. *)
Theorem install_attempt_report (os : Os) (tool : ToolKey) (platform : string)
        (options : option Options) (h : list Did) :
  let run := installMissingTool os tool platform options h in
  exists new,
    run.2 = h ++ new
    /\ length (shells new) <= 2
    /\ (length (shells new) = 2 -> tool = vercel)
    /\ match run.1 with
       | Throw message =>
           tool = vercel
           /\ exists dir, last new = Some (DidMkdir dir (Some message))
       | Ok r =>
           r.(Start.tool) = tool
           /\ (r.(attempted) = false
               <-> platform <> "win32" /\ platform <> "darwin"
                   /\ tool <> vercel /\ tool <> supabase)
           /\ (r.(attempted) = false ->
               new = [] /\ r.(ok) = false /\ r.(method) = method_manual
               /\ r.(output) = ("Manual install required. Suggested: "
                                ++ getInstallHint tool platform)%string)
           /\ (r.(attempted) = true ->
               r.(method) <> method_manual
               /\ exists command reply,
                   last (shells new) = Some (command, reply)
                   /\ r.(ok) = negb reply.(error)
                   /\ r.(output) = Js.trim reply.(out))
           /\ (r.(pathAddition) <> None
               <-> r.(method) = method_fallback /\ r.(ok) = true)
       | Never => False
       end.
Proof.
  cbv zeta. unfold installMissingTool.
  pose proof (no_command tool platform) as Hnone.
  destruct (getInstallCommand tool platform) as [command |] eqn:Hcmd.
  - rewrite (command_not_empty _ _ _ Hcmd). cbn [negb].
    assert (Hsome : ~ (platform <> "win32" /\ platform <> "darwin"
                       /\ tool <> vercel /\ tool <> supabase))
      by (intros H; apply Hnone in H; discriminate).
    clear Hnone Hcmd.
    destruct tool; install_cases os options; cbn [fst snd];
      rewrite <- ?app_assoc;
      (eexists; split; [reflexivity |]);
      cbn [app shells flat_map length last fst snd
           Start.tool attempted ok method output pathAddition error out negb];
      repeat split; try lia; try discriminate; try congruence; try tauto;
      eauto 6; try (intros [? ?]; discriminate).
  - exists []. rewrite app_nil_r. cbn.
    repeat split; try lia; try discriminate; try congruence; try tauto.
Qed.

(** X24: every command that [installMissingTool] runs goes to the
    callback [onCommand], when there is one, just before it is handed
    to [exec] with a time limit of 180 seconds, and the callback gets
    nothing else. *)
Theorem install_commands_reach_callback (os : Os) (tool : ToolKey) (platform : string)
        (options : option Options) (h : list Did) :
  exists new,
    (installMissingTool os tool platform options h).2 = h ++ new
    /\ commands_of new
       = flat_map (fun '(command, reply) =>
                     (if has_callback options then [DidCallback command] else [])
                     ++ [DidShell command 180000%N reply])
                  (shells new).
Proof.
  unfold installMissingTool.
  destruct (getInstallCommand tool platform) as [command |] eqn:Hcmd.
  - rewrite (command_not_empty _ _ _ Hcmd). cbn [negb]. clear Hcmd.
    destruct tool; install_cases os options; cbn [fst snd];
      rewrite <- ?app_assoc;
      (eexists; split; [reflexivity |]); reflexivity.
  - exists []. rewrite app_nil_r. split; reflexivity.
Qed.

End Installer.

Section Checks.
Import World Start.

Variable os : Os.

Lemma run_step (command : string) (args : list string) (h : list Did) :
  run os command args h
  = (Ok {| Shell.ok := negb (on_shell os h (Shell.commandLine command args) 12000).(error);
           Shell.output :=
             Js.trim (on_shell os h (Shell.commandLine command args) 12000).(out) |},
     h ++ [DidShell (Shell.commandLine command args) 12000
                    (on_shell os h (Shell.commandLine command args) 12000)]).
Proof. reflexivity. Qed.

Lemma path_after_app (h new : list Did) :
  path_after os (h ++ new)
  = fold_left (fun PATH e => match e with
                             | DidSetPath value => Some value
                             | _ => PATH
                             end) new (path_after os h).
Proof. unfold path_after. apply fold_left_app. Qed.

Lemma probes_app (h new : list Did) : probes (h ++ new) = probes h ++ probes new.
Proof.
  unfold probes, shells. rewrite flat_map_app. apply List.filter_app.
Qed.

Lemma all_failed_refl (h : list Did) : all_failed os h h.
Proof.
  exists [], "". rewrite app_nil_r. repeat split; constructor.
Qed.

(** A command that failed, probe or not, leaves the situation as it is. *)
Lemma all_failed_command (h0 h : list Did) (command : string) (reply : ExecReply) :
  all_failed os h0 h ->
  reply.(error) = true ->
  all_failed os h0 (h ++ [DidShell command 12000 reply]).
Proof.
  intros (new & added & -> & Hprobes & Hevents & Hpath) Hfailed.
  exists (new ++ [DidShell command 12000 reply]), added.
  rewrite app_assoc. split; [reflexivity |]. split; [| split].
  - rewrite probes_app. apply Forall_app. split; [exact Hprobes |].
    unfold probes, shells. cbn [flat_map app List.filter fst].
    destruct (negb _); repeat constructor. exact Hfailed.
  - apply Forall_app. split; [exact Hevents |]. repeat constructor.
  - rewrite path_after_app. exact Hpath.
Qed.

(** The question to npm is no probe. *)
Lemma all_failed_npm (h0 h : list Did) (reply : ExecReply) :
  all_failed os h0 h ->
  all_failed os h0 (h ++ [DidShell "npm config get prefix" 12000 reply]).
Proof.
  intros (new & added & -> & Hprobes & Hevents & Hpath).
  exists (new ++ [DidShell "npm config get prefix" 12000 reply]), added.
  rewrite app_assoc. split; [reflexivity |]. split; [| split].
  - rewrite probes_app. apply Forall_app. split; [exact Hprobes |]. constructor.
  - apply Forall_app. split; [exact Hevents |]. repeat constructor.
  - rewrite path_after_app. exact Hpath.
Qed.

Lemma all_failed_appendToPath (h0 h : list Did) (candidatePath : string) :
  all_failed os h0 h ->
  exists h', appendToPath os candidatePath h = (Ok tt, h') /\ all_failed os h0 h'.
Proof.
  intros Hfailed. unfold appendToPath.
  destruct (path_assignment _ _ _) as [value |] eqn:Hassign; [| eauto].
  eexists. split; [reflexivity |].
  destruct Hfailed as (new & added & -> & Hprobes & Hevents & Hpath).
  unfold path_assignment in Hassign.
  destruct (negb (Js.truthy candidatePath)); [discriminate |].
  destruct (negb (existsb _ _)); [| discriminate].
  injection Hassign as <-.
  exists (new ++ [DidSetPath
                    (candidatePath ++ String (delimiter os) ""
                     ++ match path_after os (h0 ++ new) with
                        | Some p => p
                        | None => ""
                        end)%string]),
         (candidatePath ++ String (delimiter os) "" ++ added)%string.
  rewrite app_assoc. split; [reflexivity |]. split; [| split].
  - rewrite probes_app. apply Forall_app. split; [exact Hprobes |]. constructor.
  - apply Forall_app. split; [exact Hevents |]. repeat constructor.
  - rewrite path_after_app. cbn [fold_left default].
    rewrite !append_assoc. f_equal. f_equal.
    rewrite <- Hpath. destruct (path_after os (h0 ++ new)); reflexivity.
Qed.

Lemma all_failed_refresh (h0 h : list Did) :
  all_failed os h0 h ->
  exists h', refreshNodeGlobalBinPath os h = (Ok tt, h') /\ all_failed os h0 h'.
Proof.
  intros Hfailed. unfold refreshNodeGlobalBinPath, bind.
  rewrite run_step. cbv beta iota. cbn [Shell.ok Shell.output].
  change (Shell.commandLine "npm" ["config"; "get"; "prefix"])
    with "npm config get prefix".
  apply (all_failed_npm _ _ (on_shell os h "npm config get prefix" 12000)) in Hfailed.
  destruct (negb (negb _)); [eauto |].
  destruct (last_line _) as [prefix |]; [| eauto].
  destruct (String.eqb _ _).
  - destruct (all_failed_appendToPath _ _ prefix Hfailed) as (h1 & -> & H1).
    apply all_failed_appendToPath, H1.
  - apply all_failed_appendToPath, Hfailed.
Qed.

(** The probe after which the check returns. *)
Lemma first_success_probe (h0 h : list Did) (command : string) (reply : ExecReply)
      (r : Shell.CommandResult) :
  all_failed os h0 h ->
  String.eqb command "npm config get prefix" = false ->
  r.(Shell.ok) = negb reply.(error) ->
  (r.(Shell.ok) = true -> r.(Shell.output) = Js.trim reply.(out)) ->
  first_success os h0 (Ok r, h ++ [DidShell command 12000 reply]).
Proof.
  intros (new & added & -> & Hprobes & Hevents & Hpath) Hcommand Hok Houtput.
  exists r, (new ++ [DidShell command 12000 reply]), (probes new), command, reply, added.
  rewrite app_assoc. split; [reflexivity |]. split; [| split; [| split; [| split; [| split]]]];
    trivial.
  - rewrite probes_app. f_equal. unfold probes, shells.
    cbn [flat_map app List.filter fst]. rewrite Hcommand. reflexivity.
  - apply Forall_app. split; [exact Hevents |]. repeat constructor.
  - rewrite path_after_app. exact Hpath.
Qed.

Ltac run_probe E :=
  rewrite run_step; cbv beta iota; cbn [Shell.ok Shell.output];
  match goal with
  | |- context [error (on_shell ?o ?h ?c ?t)] =>
      destruct (error (on_shell o h c t)) eqn:E; cbn [negb]; cbv beta iota
  end.

Ltac probe_failed H E H' :=
  match type of E with
  | error (on_shell _ _ ?c _) = true =>
      pose proof (all_failed_command _ _ c _ H E) as H'
  end.

Ltac last_probe H E :=
  unfold ret;
  apply (first_success_probe _ _ _ _ _ H);
  [ reflexivity
  | cbn [Shell.ok]; rewrite ?E; reflexivity
  | cbn [Shell.ok Shell.output]; try (intros _; reflexivity); discriminate ].

Ltac refresh_path H H' :=
  let h' := fresh "h" in
  let Hrun := fresh "Hrun" in
  destruct (all_failed_refresh _ _ H) as (h' & Hrun & H');
  rewrite Hrun; cbv beta iota.

Lemma checkPython_outcome (h : list Did) : first_success os h (checkPython os h).
Proof.
  unfold checkPython, bind. pose proof (all_failed_refl h) as H0.
  run_probe E1; [| last_probe H0 E1].
  destruct (String.eqb _ _); [| last_probe H0 E1].
  probe_failed H0 E1 H1.
  run_probe E2; last_probe H1 E2.
Qed.

Lemma checkVercel_outcome (h : list Did) : first_success os h (checkVercel os h).
Proof.
  unfold checkVercel, bind. cbv zeta. pose proof (all_failed_refl h) as H0.
  run_probe E1; [| last_probe H0 E1].
  probe_failed H0 E1 H1.
  destruct (String.eqb _ _).
  - run_probe E2; [| last_probe H1 E2].
    probe_failed H1 E2 H2.
    refresh_path H2 H3.
    run_probe E3; [| last_probe H3 E3].
    probe_failed H3 E3 H4.
    rewrite run_step. last_probe H4 E3.
  - refresh_path H1 H3.
    run_probe E3; last_probe H3 E3.
Qed.

Lemma checkSupabase_outcome (h : list Did) : first_success os h (checkSupabase os h).
Proof.
  unfold checkSupabase, bind. cbv zeta. pose proof (all_failed_refl h) as H0.
  run_probe E1; [| last_probe H0 E1].
  probe_failed H0 E1 H1.
  destruct (String.eqb _ _).
  - run_probe E2; [| last_probe H1 E2].
    probe_failed H1 E2 H2.
    run_probe E3; [| last_probe H2 E3].
    probe_failed H2 E3 H3.
    refresh_path H3 H4.
    run_probe E4; [| last_probe H4 E4].
    probe_failed H4 E4 H5.
    run_probe E5; [| last_probe H5 E5].
    probe_failed H5 E5 H6.
    rewrite run_step. last_probe H6 E5.
  - run_probe E3; [| last_probe H1 E3].
    probe_failed H1 E3 H3.
    refresh_path H3 H4.
    run_probe E4; [| last_probe H4 E4].
    probe_failed H4 E4 H5.
    rewrite run_step. last_probe H5 E4.
Qed.

(** X26: the checks of python, vercel and supabase return; each runs
    its probes one after the other and stops at the first one that
    exits without error: it reports ok exactly when the last probe it
    ran succeeded, then with the trimmed output of that probe, and
    every earlier probe failed. Each command has twelve seconds, and
    the search path is only extended at its front. *)
Theorem checks_stop_at_first_success (h : list Did) :
  first_success os h (checkPython os h)
  /\ first_success os h (checkVercel os h)
  /\ first_success os h (checkSupabase os h).
Proof.
  split; [apply checkPython_outcome |].
  split; [apply checkVercel_outcome | apply checkSupabase_outcome].
Qed.

End Checks.

(* ===================================================================== *)
(** ** The environment variables of the hosting project *)
(* ===================================================================== *)

Section HostingVariables.
Import World VercelEnv.

Variable env : Env.
Variable projectRoot : string.

(** The loop: two commands for each entry with a value, in the order
    of the entries. *)
Lemma update_loop_result (tokenArg : string) (entries : list (string * string)) :
  forall (ok0 : bool) (logs : list string) (s : Host),
  exists replies : list (ExecReply * ExecReply),
    length replies = length (with_value entries)
    /\ update_loop env projectRoot tokenArg entries ok0 logs s
       = (Ok (ok0 && forallb (fun r => negb r.2.(error)) replies,
              logs ++ pair_up (update_lines tokenArg) (with_value entries) replies),
          {| sys := {| history :=
                         s.(sys).(history)
                         ++ pair_up (update_events projectRoot tokenArg)
                                    (with_value entries) replies;
                       file := s.(sys).(file) |};
             disk := s.(disk) |}).
Proof.
  induction entries as [|[key value] rest IH]; intros ok0 logs [[hist fl] dk].
  - exists []. split; [reflexivity |]. cbn.
    rewrite andb_true_r, !app_nil_r. reflexivity.
  - cbn [update_loop with_value List.filter snd].
    destruct (Js.truthy value) eqn:Hvalue; cbn [negb].
    + unfold bind at 1. unfold runEnvCommand at 1. unfold bind at 1.
      unfold in_sys at 1, Shell.exec at 1. cbn [sys disk history file log ret fst snd].
      set (r1 := on_exec env hist _).
      unfold bind at 1. unfold runEnvCommand at 1. unfold bind at 1.
      unfold in_sys at 1, Shell.exec at 1. cbn [sys disk history file log ret fst snd].
      set (r2 := on_exec env _ _).
      match goal with
      | |- context [update_loop env projectRoot tokenArg rest ?b ?l ?s] =>
          destruct (IH b l s) as [replies [Hlen Hrun]]
      end.
      exists ((r1, r2) :: replies). split; [cbn [length]; f_equal; exact Hlen |].
      rewrite Hrun. unfold log. cbn [sys disk history file forallb pair_up fst snd].
      unfold update_events at 2, update_lines at 2. cbn [fst snd].
      fold (with_value rest).
      rewrite <- !app_assoc. cbn [app].
      destruct (error r2); cbn [negb andb]; [| reflexivity].
      rewrite andb_false_r. reflexivity.
    + apply IH.
Qed.

(** X25: [runVercelEnvUpdate] never throws, even when the log cannot
    be written. For each entry with a value that is not empty, in the
    order of the entries, it removes the variable and then adds it,
    whatever the removal gave; an entry with an empty value gives no
    command. The result is ok exactly when every addition exited
    without error. The commands and the lines of their output go to
    the log file when the file system accepts it, and the path of that
    file is returned in any case. *)
Theorem env_update_commands (accepts : string -> bool) (now : N)
        (values : list (string * string)) (vercelToken : option string) (s : Host) :
  let arg := token_arg vercelToken in
  let logFile := log_file now projectRoot "env" in
  exists replies : list (ExecReply * ExecReply),
    length replies = length (with_value values)
    /\ runVercelEnvUpdate env accepts now projectRoot values vercelToken s
       = (Ok {| ok := forallb (fun r => negb r.2.(error)) replies;
                logFilePath := Some logFile |},
          {| sys := {| history :=
                         s.(sys).(history)
                         ++ pair_up (update_events projectRoot arg)
                                    (with_value values) replies;
                       file := s.(sys).(file) |};
             disk := log_written
                       accepts (log_dir projectRoot) logFile
                       (Js.join Deploy.LF
                          (pair_up (update_lines arg) (with_value values) replies)
                        ++ Deploy.LF)%string
                       s.(disk) |}).
Proof.
  cbv zeta. unfold runVercelEnvUpdate.
  destruct (update_loop_result (token_arg vercelToken) values true [] s)
    as [replies [Hlen Hrun]].
  exists replies. split; [exact Hlen |].
  unfold bind at 1. rewrite Hrun.
  unfold writeLog, log_written, guarded, try_catch, bind.
  destruct (accepts (log_dir projectRoot)); [| destruct s as [w []]; reflexivity].
  destruct (accepts (log_file now projectRoot "env")); reflexivity.
Qed.

End HostingVariables.
